(* ===== verification/_CoqProject ===== *)
-Q . S2P
Prelude.v
Errors.v
Crates.v
Io.v
Superblock.v
Values.v
Log.v
Segment.v
Overlay.v
Recovery.v
View.v
Base.v
Storage.v
Transaction.v
Entries.v
Database.v
Faults.v
Commit.v
Written.v
Reopen.v
Handle.v
Integrity.v
Iteration.v
Maintenance.v
Overwrite.v
Compaction.v
Volatile.v
Snapshot.v
Session.v
Durability.v
Untrusted.v
Transport.v
Initialize.v
Creation.v
Scratch.v
Workload.v
RecoveryModel.v
OpenBytes.v
Ffi.v
Interface.v
Conformance.v
Regression.v
