(* ===== verification/Prelude.v ===== *)
(** * lkv: a verified model of the embedded key-value store

    lkv keeps a map from byte strings to byte strings in one file: two root pages
    (superblocks), an immutable hash table (the Base) and an append-only log of batches
    (the Overlay). This library models the crate under [lkv/src] and the programs under
    [fuzz/fuzz_targets] and proves that the store is the map it claims to be, whichever
    system calls fail and wherever a crash cuts it off, and that a damaged or foreign file
    is refused or read without harm. The file format is described in [docs/design.md].

    ** Files and sources

    Foundations.
    - [Prelude]: machine integers as [Z] with the checked operations of Rust, byte strings,
      little-endian fields, the tactics and hints of the development.
    - [Errors]: [error.rs]; the result type, in which a panic is an outcome beside [Ok] and
      [Err], and the state monad [M] every operation with effects is written in.
    - [Crates]: what the crates crc32c, xxhash-rust and hashbrown and the allocator promise,
      as classes with laws, and instances of them.
    - [Io]: [Read], [Write], [Seek], [BufWriter] and files with scripted failures.

    File format.
    - [Superblock]: [format/mod.rs], [format/superblock.rs].
    - [Log]: [format/log.rs].
    - [Segment]: [format/segment.rs].

    The parts of a database.
    - [Values], [Overlay]: the values and the index of [database/state.rs].
    - [Recovery]: [database/recovery.rs].
    - [View]: [SegmentVerifier] of [database/state.rs], and [database/view.rs].
    - [Base]: [ActiveBase] of [database/state.rs].
    - [Storage]: [database/storage.rs].
    - [Transaction], [Entries], [Snapshot]: [database/transaction.rs].
    - [Database]: [database/mod.rs] and [options.rs], the handle.
    - [Maintenance]: [database/maintenance.rs], compaction.
    - [Creation]: creating, opening and locking by name, of [database/mod.rs].
    - [Ffi]: [ffi.rs], the C interface.
    - [RecoveryModel], [OpenBytes]: the fuzz targets [recovery_model.rs] and
      [open_bytes.rs]; [Scratch] has the calls of [std::fs] and [std::path] they make.

    Proofs across components.
    - [Faults], [Commit], [Reopen], [Handle]: commits and recovery of a file.
    - [Written], [Overwrite], [Compaction], [Volatile]: compaction.
    - [Integrity], [Iteration]: a database file with one changed byte.
    - [Session]: a handle with the snapshots taken from it.
    - [Durability]: the life of a database file through any number of processes and power
      failures.
    - [Untrusted]: files of any content, and a Hoare-style triple for programs that keep an
      invariant and do not panic.
    - [Workload]: small commits and compactions that succeed, for the fuzz targets.
    - [Transport], [Initialize], and the second half of [Creation]: creation.
    - [Interface]: what the C functions promise.
    - [Conformance], [Regression]: the unit tests inside the source files and tests of
      [database/tests], run on the definitions.

    ** How the code is modelled

    A Rust function becomes a definition of the same name, in a module named after its
    type or file. A function that only computes is a Rocq function into [result]; one that
    mutates its receiver or a stream is a program of [M S] for the state [S] it works on,
    and [zoom] runs a program on a field of a larger state. Every branch, early return and
    failing arithmetic operation of the source is written out; [unwrap], slices out of
    range, assertions ([debug_assert!] among them, as the debug profile has them) and
    arithmetic that overflows give [Panic]. Words are 64 bits wide. [sync_data] and
    [sync_all] are one operation: a file of the model has no metadata beside its content.
    Where compaction hands an iterator to the writer of a Base, the model drains it first:
    the mapping it reads does not change, so both see the same pairs.

    A file is its content, a position, a script of how the next system calls end (in full,
    short, or with an error, and what the error is) and the trace of the changes that
    reached it. A crash is a cut of that trace: the file after a crash has the content
    after any number of the changes, in their order, and is reopened without further
    failures. This covers every place a process can die and everything a failing call can
    leave behind. It does not cover a device that reorders writes between two syncs; that
    the code syncs before it depends on order is visible in the traces. Where a file may be
    compacted, so in [Compaction], [Session] and [Durability], a short call on it moves at
    least the 4096 bytes of a page ([Compaction.compaction.whole]): any call may fail and
    longer transfers may be cut short anywhere behind that, but a root page is written
    whole or not at all. A page of which a part is new is caught by its CRC-32C only with high
    probability, which is no theorem. Commits, creation and opening take short calls of any
    length.
    A mapping is the bytes it showed when it was made. In [Durability] a power failure
    keeps every change up to some point behind the last sync and loses the later ones, and
    the file lives on with what is left; a request may be cut off within.

    Loops that are not structural take fuel that the definitions supply themselves: the
    length of the bytes to be written or read, the number of slots of the table, the bytes
    of the log, the bindings of both parts of an iterator ([raw_entries.budget]). Running
    out of fuel is [Panic], so a theorem that excludes [Panic] shows that the fuel is enough
    and the loop ends. A C string is searched for in as many bytes as the memory has.

    ** What is shown

    - The store as a whole ([Session], [Handle], [Interface]): any sequence of requests to
      a handle and its snapshots gets answers that a plain map with a few states of the
      handle allows; a transaction previews what it will commit; iteration yields every
      live pair once; a C caller gets the value, the status and the message it is promised,
      and whatever pointers it passes that are [NULL] or valid, no call is undefined.
    - Durability ([Handle], [Compaction], [Creation], [Durability]): commit, compaction and
      creation, each cut off after any of its changes, leave a file that opens as the map
      before or after, never as anything between; what was reported as done is there. Over
      a whole life of openings, requests and power failures the answers are those of a
      specification, and every acknowledged transaction is in the map.
    - Progress: a commit and a creation go through when nothing fails.
    - Recovery ([Recovery], [Reopen]): the log of any batches with a torn end is read back
      exactly; of any prefix only whole batches are; arbitrary bytes neither panic the scan
      nor keep it running.
    - Untrusted input ([View], [Base], [Untrusted]): opening arbitrary bytes and any
      sequence of reads of what was opened never panic, with any failing system calls, and
      what lookups hand out in [OnRead] was checked against its checksum.
    - Corruption ([Integrity], [Iteration]): one changed byte behind the root pages is
      refused, harmless or reported; no lookup answers wrongly, and no iteration yields a
      changed byte, though it may cut the bytes of the records at the wrong places.
    - The fuzz targets ([RecoveryModel], [OpenBytes]) pass on every input.
    - The tests of the crate ([Conformance], [Regression]) pass, the parallel readers under
      every interleaving of their calls; the bytes the format tests expect fix the layout
      and show that the reference instance is the CRC-32C of the program.
    - The format ([Superblock], [Segment], [Log]): the newest valid root is chosen, written
      roots and Bases are read back, sizes and load factors are as computed, cached
      checksums give the same record.
    - The index and the staging area ([Overlay], [Transaction]) refine maps.
    - Four theorems record behaviour that differs from what is meant or documented:
      [validated_base_hides_key], [memory_write_truncates], [create_bare_name_fails],
      [iteration_verifies_bytes] in its second part. The lemma [compact_last_generation_panics] of
      [Untrusted] records a sum that is not checked.

    Hypotheses that recur: the laws of the crates, among them, for [Integrity] and
    [RecoveryModel], that CRC-32C tells strings apart that differ in one byte
    ([Crc32cDetects], proved for the reference instance); [handle_on], which says that a handle and
    its file agree on a root, the entries of its Base and the batches of its log, and which
    opening establishes and every operation keeps; a size limit of at most [isize::MAX]
    bytes, which no file exceeds; and, where a theorem promises success, that allocations
    and mappings succeed. [create_dir_all] succeeds or fails as scripted; directories with
    a non-empty name exist.

    ** Not modelled

    - Threads: atomics and locks are sequentially consistent state, requests are served one
      after the other, and a visitor of the C interface does not call back.
    - Windows ([cfg(windows)]) and the failpoints of the test build.
    - [lib.rs] (re-exports) and benches: no logic of the store. Of [database/tests], the
      tests that start threads or processes, compare addresses, move large values or repeat
      a workload many times.
    - Addresses of values, the text of a panic, the process id and
      the iteration order of [std]'s [HashMap] are parameters of [Ffi] and [Creation]. *)

From stdpp Require Export base list numbers option strings gmap fin_maps countable pretty.
From Stdlib Require Export ZArith Lia ZifyBool.
From Stdlib Require Strings.Byte.

#[global] Open Scope Z_scope.
#[global] Open Scope list_scope.

(** ** Machine integers

    [usize] and [u64] are 64 bits wide; a machine integer is a [Z] and every
    operation of the source writes its range check out. *)

Abbreviation U8 := 256 (only parsing).
Abbreviation U32 := 4294967296 (only parsing).
Abbreviation U64 := 18446744073709551616 (only parsing).
(** Rust allocations and slices never exceed [isize::MAX] bytes. *)
Abbreviation ISIZE_MAX := 9223372036854775807 (only parsing).

Abbreviation byte := Byte.byte.
Abbreviation bytes := (list Byte.byte).

(** [usize::checked_add] / [u64::checked_add]. *)
Definition checked_add (a b : Z) : option Z :=
  if a + b <? U64 then Some (a + b) else None.

(** [usize::checked_mul]. *)
Definition checked_mul (a b : Z) : option Z :=
  if a * b <? U64 then Some (a * b) else None.

(** [u64::checked_sub]. *)
Definition checked_sub (a b : Z) : option Z :=
  if b <=? a then Some (a - b) else None.

(** [saturating_add], [saturating_sub]. *)
Definition saturating_add (a b : Z) : Z := Z.min (a + b) (U64 - 1).
Definition saturating_sub (a b : Z) : Z := Z.max (a - b) 0.

(** [div_ceil] for a positive divisor. *)
Definition div_ceil (a b : Z) : Z := a / b + (if a mod b =? 0 then 0 else 1).

(** [Option::filter]. *)
Definition opt_filter {A} (p : A → bool) (o : option A) : option A :=
  match o with Some a => if p a then Some a else None | None => None end.

(** ** Bytes *)

Definition u8_of_Z (z : Z) : byte :=
  match Byte.of_N (Z.to_N (z mod U8)) with Some b => b | None => Byte.x00 end.
Definition Z_of_u8 (b : byte) : Z := Z.of_N (Byte.to_N b).

#[global] Instance byte_eq_dec : EqDecision byte := Byte.byte_eq_dec.
#[global] Program Instance byte_countable : Countable byte :=
  inj_countable Byte.to_N Byte.of_N _.
Next Obligation. intros b. apply Byte.of_to_N. Qed.

(** [to_le_bytes] of an integer of [n] bytes and [from_le_bytes]. *)
Fixpoint to_le_bytes (n : nat) (z : Z) : bytes :=
  match n with
  | O => []
  | S n => u8_of_Z z :: to_le_bytes n (z / U8)
  end.

Fixpoint from_le_bytes (bs : bytes) : Z :=
  match bs with
  | [] => 0
  | b :: bs => Z_of_u8 b + U8 * from_le_bytes bs
  end.

Abbreviation u32_le := (to_le_bytes 4).
Abbreviation u64_le := (to_le_bytes 8).

(** ** Slices *)

Definition blen {A} (l : list A) : Z := Z.of_nat (length l).

(** [bytes.get(a..b)]. *)
Definition get_range {A} (l : list A) (a b : Z) : option (list A) :=
  if (0 <=? a) && (a <=? b) && (b <=? blen l)
  then Some (take (Z.to_nat (b - a)) (drop (Z.to_nat a) l))
  else None.

(** [bytes[a..].copy_from_slice(s)] for a range inside [l]; writing past the end
    of a growable buffer first zero-fills the gap ([Vec::resize], a file hole). *)
Definition splice (l : bytes) (a : Z) (s : bytes) : bytes :=
  take (Z.to_nat a) (l ++ replicate (Z.to_nat (a - blen l)) Byte.x00)
  ++ s ++ drop (Z.to_nat (a + blen s)) l.

(** [slice.chunks(n)] for [n > 0]; the fuel [length l] is enough because every
    chunk is non-empty. *)
Fixpoint chunks_fuel {A} (fuel : nat) (n : nat) (l : list A) : list (list A) :=
  match fuel, l with
  | O, _ | _, [] => []
  | S fuel, _ => take n l :: chunks_fuel fuel n (drop n l)
  end.
Definition chunks {A} (n : nat) (l : list A) : list (list A) :=
  chunks_fuel (length l) n l.

(** ** Shared automation *)

Create Rewrite HintDb len.
Create HintDb lkv.

(** [len] rewrites the lengths of composite byte strings and closes the
    arithmetic that remains. *)
Ltac len_norm := autorewrite with len in *.
Ltac dmlia := Z.div_mod_to_equations; lia.
Ltac blia := first [lia | unfold blen in *; lia].
Ltac len := autorewrite with len; try blia.

(** Splits the leftmost [if] or [match] on a boolean of the goal. *)
Ltac split_ifs :=
  repeat match goal with
  | |- context [if ?c then _ else _] => destruct c eqn:?
  end.

(** Turns boolean comparisons of the context into the propositions they decide. *)
Ltac bool_prop :=
  repeat match goal with
  | H : (_ && _)%bool = true |- _ => apply andb_true_iff in H; destruct H
  | H : (_ || _)%bool = false |- _ => apply orb_false_iff in H; destruct H
  | H : negb _ = true |- _ => apply negb_true_iff in H
  | H : negb _ = false |- _ => apply negb_false_iff in H
  | H : (_ <=? _) = true |- _ => apply Z.leb_le in H
  | H : (_ <=? _) = false |- _ => apply Z.leb_gt in H
  | H : (_ <? _) = true |- _ => apply Z.ltb_lt in H
  | H : (_ <? _) = false |- _ => apply Z.ltb_ge in H
  | H : (_ =? _) = true |- _ => apply Z.eqb_eq in H
  | H : (_ =? _) = false |- _ => apply Z.eqb_neq in H
  | H : bool_decide _ = true |- _ => apply bool_decide_eq_true in H
  | H : bool_decide _ = false |- _ => apply bool_decide_eq_false in H
  end.

(** ** Lemmas on bytes and little-endian integers *)

Lemma Z_of_u8_range b : 0 ≤ Z_of_u8 b < U8.
Proof. unfold Z_of_u8. pose proof (Byte.to_N_bounded b). lia. Qed.

Lemma Z_of_u8_of_Z z : Z_of_u8 (u8_of_Z z) = z mod U8.
Proof.
  unfold u8_of_Z. pose proof (Z.mod_pos_bound z U8 ltac:(lia)) as Hz.
  destruct (Byte.of_N _) as [b|] eqn:E.
  - apply Byte.to_of_N in E. unfold Z_of_u8. rewrite E. lia.
  - apply Byte.of_N_None_iff in E. lia.
Qed.

Lemma u8_of_Z_of_u8 b : u8_of_Z (Z_of_u8 b) = b.
Proof.
  unfold u8_of_Z. pose proof (Z_of_u8_range b).
  rewrite Z.mod_small by lia. unfold Z_of_u8. rewrite N2Z.id.
  by rewrite Byte.of_to_N.
Qed.

Lemma length_to_le_bytes n z : length (to_le_bytes n z) = n.
Proof. revert z; induction n; intros; simpl; auto. Qed.

Lemma from_le_bytes_range bs : 0 ≤ from_le_bytes bs < U8 ^ blen bs.
Proof.
  unfold blen. induction bs as [|b bs IH]; simpl; [lia|].
  pose proof (Z_of_u8_range b).
  rewrite Nat2Z.inj_succ, Z.pow_succ_r by lia. nia.
Qed.

Lemma from_to_le_bytes n z : from_le_bytes (to_le_bytes n z) = z mod U8 ^ Z.of_nat n.
Proof.
  revert z; induction n as [|n IH]; intros z; simpl from_le_bytes.
  - by rewrite Z.mod_1_r.
  - rewrite Z_of_u8_of_Z, IH.
    rewrite Nat2Z.inj_succ, Z.pow_succ_r by lia.
    rewrite Z.rem_mul_r by lia. lia.
Qed.

Lemma from_to_le_bytes_small n z :
  0 ≤ z < U8 ^ Z.of_nat n → from_le_bytes (to_le_bytes n z) = z.
Proof. intros. rewrite from_to_le_bytes. by apply Z.mod_small. Qed.

Lemma to_from_le_bytes bs : to_le_bytes (length bs) (from_le_bytes bs) = bs.
Proof.
  induction bs as [|b bs IH]; simpl; [done|].
  pose proof (Z_of_u8_range b). f_equal.
  - rewrite <- (u8_of_Z_of_u8 b) at 2. unfold u8_of_Z.
    by rewrite (Z.mul_comm U8), Z_mod_plus_full.
  - rewrite (Z.mul_comm U8), Z.div_add, Z.div_small by lia. done.
Qed.

(** ** Lemmas on slices *)

Lemma blen_nil {A} : blen (@nil A) = 0.
Proof. done. Qed.
Lemma blen_cons {A} (x : A) l : blen (x :: l) = 1 + blen l.
Proof. unfold blen; simpl; lia. Qed.
Lemma blen_app {A} (l k : list A) : blen (l ++ k) = blen l + blen k.
Proof. unfold blen; rewrite length_app; lia. Qed.
Lemma blen_nonneg {A} (l : list A) : 0 ≤ blen l.
Proof. unfold blen; lia. Qed.
Lemma blen_pos {A} (l : list A) : l ≠ [] → 0 < blen l.
Proof. destruct l; [done|]. rewrite blen_cons. pose proof (blen_nonneg l). lia. Qed.
Lemma blen_0 {A} (l : list A) : blen l ≤ 0 → l = [].
Proof. destruct l; [done|]. rewrite blen_cons. pose proof (blen_nonneg l). lia. Qed.
Lemma blen_to_le_bytes n z : blen (to_le_bytes n z) = Z.of_nat n.
Proof. unfold blen. by rewrite length_to_le_bytes. Qed.
Lemma blen_replicate {A} n (x : A) : blen (replicate n x) = Z.of_nat n.
Proof. unfold blen. by rewrite length_replicate. Qed.
Lemma blen_fmap {A B} (f : A → B) l : blen (f <$> l) = blen l.
Proof. unfold blen. by rewrite length_fmap. Qed.
Lemma blen_take {A} n (l : list A) : blen (take n l) = Z.min (Z.of_nat n) (blen l).
Proof. unfold blen. rewrite length_take. lia. Qed.
Lemma blen_drop {A} n (l : list A) : blen (drop n l) = Z.max 0 (blen l - Z.of_nat n).
Proof. unfold blen. rewrite length_drop. lia. Qed.

#[export] Hint Rewrite @blen_nil @blen_cons @blen_app blen_to_le_bytes @blen_replicate
  @blen_fmap @blen_take @blen_drop : len.
#[export] Hint Resolve blen_nonneg Z_of_u8_range : lkv.

Lemma get_range_Some {A} (l : list A) a b s :
  get_range l a b = Some s →
  0 ≤ a ≤ b ∧ b ≤ blen l ∧ blen s = b - a
  ∧ s = take (Z.to_nat (b - a)) (drop (Z.to_nat a) l).
Proof.
  unfold get_range. destruct (_ && _ && _) eqn:E; intros [= <-]. bool_prop.
  repeat split; try lia. len.
Qed.

Lemma get_range_in_bounds {A} (l : list A) a b :
  0 ≤ a ≤ b → b ≤ blen l →
  get_range l a b = Some (take (Z.to_nat (b - a)) (drop (Z.to_nat a) l)).
Proof.
  intros. unfold get_range.
  destruct (_ && _ && _) eqn:E; [done|].
  apply andb_false_iff in E as [E%andb_false_iff|E]; [destruct E|]; bool_prop; lia.
Qed.

Lemma get_range_None {A} (l : list A) a b :
  0 ≤ a → get_range l a b = None ↔ b < a ∨ blen l < b.
Proof.
  intros. unfold get_range. destruct (_ && _ && _) eqn:E; bool_prop.
  - split; [done|lia].
  - split; [|done]. intros _.
    apply andb_false_iff in E as [E%andb_false_iff|E]; [destruct E|]; bool_prop; lia.
Qed.

(** The range starts behind the first part. *)
Lemma get_range_skip {A} (p l : list A) a b :
  blen p ≤ a → get_range (p ++ l) a b = get_range l (a - blen p) (b - blen p).
Proof.
  intros Hp. unfold get_range. rewrite blen_app.
  pose proof (blen_nonneg p).
  replace (0 <=? a) with true by lia.
  replace (0 <=? a - blen p) with true by lia. simpl.
  replace (a - blen p <=? b - blen p) with (a <=? b) by lia.
  replace (b - blen p <=? blen l) with (b <=? blen p + blen l) by lia.
  destruct (_ && _); [|done]. do 2 f_equal; [lia|].
  rewrite drop_app_ge by (unfold blen in *; lia). f_equal. unfold blen in *; lia.
Qed.

(** The range ends inside the first part. *)
Lemma get_range_app_l {A} (p l : list A) a b :
  b ≤ blen p → get_range (p ++ l) a b = get_range p a b.
Proof.
  intros Hp. unfold get_range. rewrite blen_app. pose proof (blen_nonneg l).
  replace (b <=? blen p + blen l) with true by lia.
  replace (b <=? blen p) with true by lia.
  destruct (0 <=? a) eqn:?, (a <=? b) eqn:?; simpl; try done. f_equal. bool_prop.
  rewrite drop_app_le by (unfold blen in *; lia).
  rewrite take_app_le; [done|]. rewrite length_drop. unfold blen in *; lia.
Qed.

Lemma get_range_all {A} (l : list A) b : b = blen l → get_range l 0 b = Some l.
Proof.
  intros ->. pose proof (blen_nonneg l). rewrite get_range_in_bounds by lia.
  rewrite drop_0, take_ge; [done|]. unfold blen in *; lia.
Qed.

Lemma get_range_head {A} (s q : list A) b :
  b = blen s → get_range (s ++ q) 0 b = Some s.
Proof. intros ->. rewrite get_range_app_l by lia. by apply get_range_all. Qed.

Lemma get_range_mid {A} (p s q : list A) a b :
  a = blen p → b = blen p + blen s → get_range (p ++ s ++ q) a b = Some s.
Proof.
  intros -> ->. rewrite get_range_skip, Z.sub_diag by lia.
  apply get_range_head. lia.
Qed.

(** A range of a range. *)
Lemma get_range_get_range {A} (l s : list A) a b c d :
  get_range l a b = Some s → 0 ≤ c → d ≤ b - a →
  get_range s c d = get_range l (a + c) (a + d).
Proof.
  intros (?&?&?&->)%get_range_Some ??.
  destruct (decide (c ≤ d)).
  - rewrite !get_range_in_bounds by (len). f_equal.
    rewrite skipn_firstn_comm, drop_drop, firstn_firstn.
    f_equal; [lia|]. f_equal; lia.
  - trans (@None (list A)); [|symmetry]; apply get_range_None; lia.
Qed.

(** Locates a field of a record written as a right-nested concatenation. *)
Ltac seek_field :=
  rewrite <- ?app_assoc;
  repeat (rewrite get_range_skip by (len));
  autorewrite with len;
  match goal with |- context [get_range ?l ?a ?b] =>
    lazymatch a with
    | 0 => idtac
    | _ => let E := fresh in assert (E : a = 0) by lia; rewrite E; clear E
    end end;
  first [ rewrite get_range_head by (len)
        | rewrite get_range_all by (len) ].

(** ** Lemmas on [splice] *)

Lemma splice_eq (l : bytes) a s :
  0 ≤ a →
  splice l a s =
    take (Z.to_nat a) l ++ replicate (Z.to_nat (a - blen l)) Byte.x00
    ++ s ++ drop (Z.to_nat (a + blen s)) l.
Proof.
  intros. unfold splice. rewrite take_app. rewrite <- app_assoc. do 2 f_equal.
  rewrite take_replicate. f_equal. unfold blen. lia.
Qed.

Lemma blen_splice l a s : 0 ≤ a → blen (splice l a s) = Z.max (blen l) (a + blen s).
Proof. intros. pose proof (blen_nonneg s). rewrite splice_eq by done. len. Qed.

(** Two lists are equal when they agree on every range of one element. *)
Lemma splice_lookup l a s i :
  0 ≤ a →
  splice l a s !! i =
    if decide (Z.of_nat i < a)
    then (if decide (Z.of_nat i < blen l) then l !! i else Some Byte.x00)
    else if decide (Z.of_nat i < a + blen s) then s !! (i - Z.to_nat a)%nat
    else l !! i.
Proof.
  intros Ha. rewrite splice_eq by done. unfold blen in *.
  destruct (decide (Z.of_nat i < a)).
  - case_decide.
    + rewrite lookup_app_l by (rewrite length_take; lia).
      by rewrite lookup_take_lt by lia.
    + rewrite lookup_app_r, lookup_app_l; rewrite ?length_take, ?length_replicate; [|lia..].
      rewrite lookup_replicate_2; [done|lia].
  - rewrite lookup_app_r, lookup_app_r; rewrite ?length_take, ?length_replicate; [|lia..].
    case_decide.
    + rewrite lookup_app_l by lia. f_equal. lia.
    + rewrite lookup_app_r, lookup_drop by lia. f_equal. lia.
Qed.

Ltac splice_cases :=
  apply list_eq; intros i;
  rewrite ?splice_lookup by (rewrite ?blen_splice, ?blen_app by lia; lia);
  rewrite ?blen_splice, ?blen_app by lia;
  repeat case_decide; try lia; try done.

(** Consecutive writes are one write. *)
Lemma splice_splice_next l a s t :
  0 ≤ a → splice (splice l a s) (a + blen s) t = splice l a (s ++ t).
Proof.
  intros. pose proof (blen_nonneg s). pose proof (blen_nonneg t). splice_cases.
  - by rewrite lookup_app_l by (unfold blen in *; lia).
  - rewrite lookup_app_r by (unfold blen in *; lia). f_equal. unfold blen in *; lia.
Qed.

(** A write that ends where a previous one started. *)
Lemma splice_splice_before l a s t :
  0 ≤ a → splice (splice l (a + blen s) t) a s = splice l a (s ++ t).
Proof.
  intros. pose proof (blen_nonneg s). pose proof (blen_nonneg t). splice_cases.
  - by rewrite lookup_app_l by (unfold blen in *; lia).
  - rewrite lookup_app_r by (unfold blen in *; lia). f_equal. unfold blen in *; lia.
Qed.

Lemma splice_end l s : splice l (blen l) s = l ++ s.
Proof.
  pose proof (blen_nonneg l). pose proof (blen_nonneg s).
  rewrite splice_eq by lia. rewrite Z.sub_diag. simpl.
  rewrite take_ge, drop_ge by (unfold blen in *; lia). by rewrite app_nil_r.
Qed.

Lemma get_range_splice_in l a s c d :
  0 ≤ a → a ≤ c → d ≤ a + blen s →
  get_range (splice l a s) c d = get_range s (c - a) (d - a).
Proof.
  intros Ha ??. pose proof (blen_nonneg l).
  rewrite splice_eq, app_assoc by done.
  assert (Hp : blen (take (Z.to_nat a) l ++ replicate (Z.to_nat (a - blen l)) Byte.x00) = a)
    by len.
  rewrite get_range_skip by lia. rewrite Hp, get_range_app_l by lia. done.
Qed.

Lemma get_range_splice_below l a s c d :
  0 ≤ a → d ≤ a → d ≤ blen l → get_range (splice l a s) c d = get_range l c d.
Proof.
  intros Ha ??. rewrite splice_eq by done.
  rewrite get_range_app_l by len.
  rewrite <- (firstn_skipn (Z.to_nat a) l) at 2.
  by rewrite get_range_app_l by len.
Qed.

Lemma get_range_splice_above l a s c d :
  0 ≤ a → a + blen s ≤ c → d ≤ blen l → get_range (splice l a s) c d = get_range l c d.
Proof.
  intros Ha Hc Hd. pose proof (blen_nonneg s). pose proof (blen_nonneg l).
  unfold get_range. rewrite blen_splice by done.
  replace (d <=? Z.max (blen l) (a + blen s)) with true by lia.
  replace (d <=? blen l) with true by lia.
  destruct ((0 <=? c) && (c <=? d)) eqn:E; [|done]. cbn. bool_prop. do 2 f_equal.
  apply list_eq. intros i. rewrite !lookup_drop, splice_lookup by done.
  repeat case_decide; try lia; done.
Qed.

Lemma filter_all {A} (P : A → Prop) `{∀ x, Decision (P x)} (l : list A) :
  Forall P l → filter P l = l.
Proof.
  induction 1 as [|x l Hx Hl IH]; [done|]. rewrite filter_cons, decide_True by done. by f_equal.
Qed.

(** ** Lemmas on [chunks] *)

Lemma chunks_fuel_enough {A} fuel n (l : list A) :
  (0 < n)%nat → (length l ≤ fuel)%nat → chunks_fuel fuel n l = chunks n l.
Proof.
  intros Hn. unfold chunks. revert l. induction fuel as [fuel IH] using lt_wf_ind; intros l Hl.
  destruct fuel as [|fuel], l as [|x l]; try done; [cbn in Hl; lia|].
  cbn [length]. cbn [length] in Hl. cbn [chunks_fuel]. f_equal.
  assert (length (drop n (x :: l)) ≤ length l)%nat by (rewrite length_drop; cbn; lia).
  rewrite (IH fuel) by lia. destruct (decide (length l < S fuel)%nat); [|lia].
  symmetry. rewrite (IH (length l)) by lia. done.
Qed.

Lemma chunks_cons {A} n (l : list A) :
  (0 < n)%nat → l ≠ [] → chunks n l = take n l :: chunks n (drop n l).
Proof.
  intros Hn Hl. destruct l as [|x l]; [done|]. unfold chunks at 1. cbn [length chunks_fuel].
  f_equal. apply chunks_fuel_enough; [done|]. rewrite length_drop. cbn. lia.
Qed.

Lemma chunks_nil {A} n : chunks n (@nil A) = [].
Proof. done. Qed.

(** Induction over the chunks of a list. *)
Lemma chunks_ind {A} n (P : list A → Prop) :
  (0 < n)%nat → P [] → (∀ l, l ≠ [] → P (drop n l) → P l) → ∀ l, P l.
Proof.
  intros Hn H0 HS l. remember (length l) as k eqn:Hk. revert l Hk.
  induction k as [k IH] using lt_wf_ind. intros l ->.
  destruct (decide (l = [])) as [->|Hl]; [done|]. apply HS; [done|].
  eapply IH; [|done]. rewrite length_drop. destruct l; [done|]. cbn. lia.
Qed.

Lemma blen_chunks {A} n (l : list A) :
  (0 < n)%nat → blen (chunks n l) = div_ceil (blen l) (Z.of_nat n).
Proof.
  intros Hn. revert l. apply (chunks_ind n); [done|done|]. intros l Hl IH.
  rewrite chunks_cons, blen_cons, IH, blen_drop by done. unfold div_ceil.
  pose proof (blen_pos l Hl).
  destruct (decide (blen l ≤ Z.of_nat n)).
  - rewrite Z.max_l by lia. rewrite Z.div_0_l, Z.mod_0_l by lia. cbn.
    destruct (decide (blen l = Z.of_nat n)) as [->|].
    + by rewrite Z.div_same, Z.mod_same by lia.
    + rewrite Z.div_small, Z.mod_small by lia. by replace (blen l =? 0) with false by lia.
  - rewrite Z.max_r by lia.
    replace (blen l - Z.of_nat n) with (blen l + (-1) * Z.of_nat n) by lia.
    rewrite Z.div_add, Z_mod_plus_full by lia. lia.
Qed.

Lemma chunks_lookup {A} n (l : list A) i c :
  (0 < n)%nat → chunks n l !! i = Some c →
  c = take n (drop (i * n) l) ∧ (i * n < length l)%nat.
Proof.
  intros Hn. revert i. pattern l. revert l. apply (chunks_ind n); [done|done|]. intros l Hl IH i.
  rewrite chunks_cons by done. destruct i as [|i]; cbn [lookup list_lookup].
  - intros [= <-]. destruct l; [done|]. cbn. split; [done|lia].
  - intros [-> Hi]%IH. rewrite drop_drop. rewrite length_drop in Hi.
    split; [do 2 f_equal; lia|lia].
Qed.

Lemma div_ceil_mul a b : 0 < b → a ≤ div_ceil a b * b < a + b.
Proof.
  intros Hb. unfold div_ceil. pose proof (Z.div_mod a b ltac:(lia)).
  pose proof (Z.mod_pos_bound a b Hb). destruct (_ =? 0) eqn:?; bool_prop; nia.
Qed.

#[global] Arguments to_le_bytes : simpl never.
#[global] Arguments from_le_bytes : simpl never.
#[global] Arguments u8_of_Z : simpl never.
#[global] Arguments Z_of_u8 : simpl never.
#[global] Arguments splice : simpl never.
#[global] Arguments get_range : simpl never.
#[global] Arguments blen : simpl never.
#[global] Arguments chunks : simpl never.
#[global] Arguments checked_add : simpl never.
#[global] Arguments checked_mul : simpl never.
#[global] Arguments checked_sub : simpl never.
#[global] Arguments div_ceil : simpl never.
