(* ===== verification/Errors.v ===== *)
(** * Errors, results and effects

    The error type of [lkv/src/error.rs] with its constructors and conversions,
    the result type every fallible operation returns, and the state-passing
    monad of the operations that also change a store. A Rust panic (a slice
    index out of range, an overflow of unchecked arithmetic, a failed [expect])
    is a third outcome [Panic] beside [Ok] and [Err], so that the absence of
    panics is a statement about the model. *)

From S2P Require Import Prelude.

(** ** [std::io::Error] as the source uses it *)

Inductive ErrorKind :=
  | NotFound | PermissionDenied | AlreadyExists | WouldBlock | InvalidInput
  | InvalidData | UnexpectedEof | WriteZero | Unsupported | OutOfMemory | OtherKind.

#[global] Instance ErrorKind_eq_dec : EqDecision ErrorKind.
Proof. solve_decision. Defined.

Record io_Error := IoError { io_kind : ErrorKind; io_message : string }.

#[global] Instance io_Error_eq_dec : EqDecision io_Error.
Proof. solve_decision. Defined.

(** ** [error.rs] *)

Inductive CorruptionKind := Structure | MetadataChecksum | BlockChecksum | LogChecksum.

#[global] Instance CorruptionKind_eq_dec : EqDecision CorruptionKind.
Proof. solve_decision. Defined.

Record Corruption := MkCorruption {
  corruption_kind : CorruptionKind;
  segment_offset : option Z;
  block_index : option Z;
  message : string
}.

#[global] Instance Corruption_eq_dec : EqDecision Corruption.
Proof. solve_decision. Defined.

Inductive Error :=
  | Corrupted (c : Corruption)
  | DatabaseAlreadyOpen (e : io_Error)
  | UnsupportedError (e : io_Error)
  | InvalidArgument (e : io_Error)
  | DatabaseFull (e : io_Error)
  | MaintenanceRequired (limit actual : Z)
  | Poisoned
  | Io (e : io_Error).

#[global] Instance Error_eq_dec : EqDecision Error.
Proof. solve_decision. Defined.

(** [{}] of an integer in a format string. *)
Definition fmt_num (z : Z) : string := pretty z.

Module error.

(** [Error::kind]. *)
Definition kind (e : Error) : ErrorKind :=
  match e with
  | Corrupted _ => InvalidData
  | DatabaseAlreadyOpen e | UnsupportedError e | InvalidArgument e
  | DatabaseFull e | Io e => io_kind e
  | MaintenanceRequired _ _ => OtherKind
  | Poisoned => OtherKind
  end.

(** [impl From<io::Error> for Error]. *)
Definition from (e : io_Error) : Error :=
  match io_kind e with
  | InvalidData => Corrupted (MkCorruption Structure None None (io_message e))
  | WouldBlock => DatabaseAlreadyOpen e
  | Unsupported => UnsupportedError e
  | InvalidInput => InvalidArgument e
  | _ => Io e
  end.

(** [Error::from_io]. *)
Definition from_io (k : ErrorKind) (m : string) : Error := from (IoError k m).

(** [Error::other]. *)
Definition other (m : string) : Error := from (IoError OtherKind m).

(** [Error::database_full]. *)
Definition database_full (limit required : Z) : Error :=
  DatabaseFull (IoError OtherKind
    ("database size limit of " +:+ fmt_num limit +:+ " bytes would be exceeded (requires "
     +:+ fmt_num required +:+ " bytes)")).

(** [Error::corrupted_block]. *)
Definition corrupted_block (segment_offset block_index : Z) : Error :=
  Corrupted (MkCorruption BlockChecksum (Some segment_offset) (Some block_index)
    ("block checksum mismatch at segment offset " +:+ fmt_num segment_offset
     +:+ " block " +:+ fmt_num block_index)).

(** [Error::corrupted_metadata]. *)
Definition corrupted_metadata (m : string) : Error :=
  Corrupted (MkCorruption MetadataChecksum None None m).

(** [Error::corrupted_log]. *)
Definition corrupted_log (offset : Z) (m : string) : Error :=
  Corrupted (MkCorruption LogChecksum (Some offset) None m).

(** [Error::invalid_base]. *)
Definition invalid_base (m : string) : Error :=
  from_io InvalidData ("invalid base: " +:+ m).

(** [std::error::Error::source]. *)
Definition source (e : Error) : option io_Error :=
  match e with
  | Corrupted _ => None
  | DatabaseAlreadyOpen e | UnsupportedError e | InvalidArgument e | DatabaseFull e | Io e => Some e
  | MaintenanceRequired _ _ => None
  | Poisoned => None
  end.

(** [impl Display for Error]. *)
Definition fmt (e : Error) : string :=
  match e with
  | Corrupted c => message c
  | DatabaseAlreadyOpen e | UnsupportedError e | InvalidArgument e
  | DatabaseFull e | Io e => io_message e
  | MaintenanceRequired limit actual =>
      "overlay memory usage of " +:+ fmt_num actual +:+ " bytes exceeds the "
      +:+ fmt_num limit +:+ " byte limit; compact before writing"
  | Poisoned => "database is poisoned by a previous I/O failure; reopen it before continuing"
  end.

End error.

(** ** Results *)

Inductive result (A : Type) :=
  | Ok (a : A)
  | Err (e : Error)
  | Panic.
Arguments Ok {A} a.
Arguments Err {A} e.
Arguments Panic {A}.

#[global] Instance result_eq_dec {A} `{EqDecision A} : EqDecision (result A).
Proof. solve_decision. Defined.

#[global] Instance result_ret : MRet result := @Ok.
#[global] Instance result_bind : MBind result := λ A B f m,
  match m with Ok a => f a | Err e => Err e | Panic => Panic end.
#[global] Instance result_fmap : FMap result := λ A B f m,
  match m with Ok a => Ok (f a) | Err e => Err e | Panic => Panic end.

(** [Option::ok_or_else] and [Option::unwrap]. *)
Definition ok_or {A} (o : option A) (e : Error) : result A :=
  match o with Some a => Ok a | None => Err e end.
Definition unwrap {A} (o : option A) : result A :=
  match o with Some a => Ok a | None => Panic end.

(** A guard [if c { return Err(e) }] and an assertion of the language. *)
Definition fail_if (c : bool) (e : Error) : result () :=
  if c then Err e else Ok ().
Definition assert (c : bool) : result () := if c then Ok () else Panic.

(** [bytes[a..b]]: panics when the range does not fit. *)
Definition index_range {A} (l : list A) (a b : Z) : result (list A) :=
  unwrap (get_range l a b).

(** Unchecked [+] and [*] of [usize]/[u64]: an overflow panics in a checked
    build and wraps in a release build; the model takes the panic, so a theorem
    that excludes [Panic] excludes the wrap-around as well. *)
Definition add_ovf (a b : Z) : result Z := unwrap (checked_add a b).
Definition mul_ovf (a b : Z) : result Z := unwrap (checked_mul a b).

Definition is_ok {A} (r : result A) : bool :=
  match r with Ok _ => true | _ => false end.
Definition no_panic {A} (r : result A) : Prop := r ≠ Panic.

(** Left fold and traversal with fallible steps. *)
Fixpoint foldM {A B} (f : A → B → result A) (a : A) (l : list B) : result A :=
  match l with [] => Ok a | b :: l => a ← f a b; foldM f a l end.
Fixpoint mapM_result {A B} (f : A → result B) (l : list A) : result (list B) :=
  match l with [] => Ok [] | a :: l => b ← f a; bs ← mapM_result f l; Ok (b :: bs) end.

(** ** Operations that change a store

    The store is threaded through errors as well: what a failing operation has
    already written stays written. *)

Definition M (S A : Type) : Type := S → result A * S.

#[global] Instance M_ret {S} : MRet (M S) := λ A a s, (Ok a, s).
#[global] Instance M_bind {S} : MBind (M S) := λ A B f m s,
  match m s with
  | (Ok a, s') => f a s'
  | (Err e, s') => (Err e, s')
  | (Panic, s') => (Panic, s')
  end.

Definition lift {S A} (r : result A) : M S A := λ s, (r, s).
Definition gets {S A} (f : S → A) : M S A := λ s, (Ok (f s), s).
Definition modify {S} (f : S → S) : M S () := λ s, (Ok (), f s).

(** Runs [m] and hands its outcome, error included, to [k]. *)
Definition catch {S A B} (m : M S A) (k : result A → M S B) : M S B := λ s,
  match m s with
  | (Panic, s') => (Panic, s')
  | (r, s') => k r s'
  end.

(** Runs an operation of a component of the store. *)
Definition zoom {S T A} (get : S → T) (put : T → S → S) (m : M T A) : M S A := λ s,
  let '(r, t) := m (get s) in (r, put t s).

(** ** Lemmas *)

Lemma bind_Ok {A B} (m : result A) (k : A → result B) b :
  (m ≫= k) = Ok b ↔ ∃ a, m = Ok a ∧ k a = Ok b.
Proof. destruct m; cbn; naive_solver. Qed.

Lemma bind_Err {A B} (m : result A) (k : A → result B) e :
  (m ≫= k) = Err e ↔ m = Err e ∨ ∃ a, m = Ok a ∧ k a = Err e.
Proof. destruct m; cbn; naive_solver. Qed.

Lemma bind_no_panic {A B} (m : result A) (k : A → result B) :
  no_panic m → (∀ a, m = Ok a → no_panic (k a)) → no_panic (m ≫= k).
Proof. unfold no_panic. destruct m; cbn; naive_solver. Qed.

Lemma M_bind_ok {S A B} (m : M S A) (k : A → M S B) s a s' :
  m s = (Ok a, s') → (m ≫= k) s = k a s'.
Proof. intros E. unfold mbind, M_bind. by rewrite E. Qed.

Lemma M_lift_ok {S A B} (k : A → M S B) a s : (lift (Ok a) ≫= k) s = k a s.
Proof. done. Qed.

Lemma M_bind_err {S A B} (m : M S A) (k : A → M S B) s e s' :
  m s = (Err e, s') → (m ≫= k) s = (Err e, s').
Proof. intros E. unfold mbind, M_bind. by rewrite E. Qed.

Lemma M_bind_ext {S A B} (m : M S A) (k k' : A → M S B) s :
  (∀ a s', k a s' = k' a s') → (m ≫= k) s = (m ≫= k') s.
Proof. intros E. unfold mbind, M_bind. by destruct (m s) as [[]?]. Qed.

Lemma M_bind_assoc {S A B C} (m : M S A) (k : A → M S B) (j : B → M S C) s :
  ((m ≫= k) ≫= j) s = (m ≫= λ a, k a ≫= j) s.
Proof. unfold mbind, M_bind. by destruct (m s) as [[]?]. Qed.

(** A successful run of a sequence is a run of its parts. *)
Lemma M_bind_Ok {S A B} (m : M S A) (k : A → M S B) s b s' :
  (m ≫= k) s = (Ok b, s') ↔ ∃ a s1, m s = (Ok a, s1) ∧ k a s1 = (Ok b, s').
Proof.
  unfold mbind, M_bind. destruct (m s) as [[a|e|] s1]; split; try discriminate; eauto.
  all: by intros (?&?&[= <- <-]&?).
Qed.

Lemma ok_or_Ok {A} (o : option A) e a : ok_or o e = Ok a ↔ o = Some a.
Proof. destruct o; cbn; naive_solver. Qed.
Lemma unwrap_Ok {A} (o : option A) a : unwrap o = Ok a ↔ o = Some a.
Proof. destruct o; cbn; naive_solver. Qed.
Lemma fail_if_Ok c e u : fail_if c e = Ok u ↔ c = false.
Proof. destruct c, u; cbn; naive_solver. Qed.
Lemma assert_Ok c u : assert c = Ok u ↔ c = true.
Proof. destruct c, u; cbn; naive_solver. Qed.
Lemma fmap_Ok {A B} (f : A → B) m b : f <$> m = Ok b ↔ ∃ a, m = Ok a ∧ b = f a.
Proof. destruct m; cbn; naive_solver. Qed.

Lemma checked_add_Some a b c : checked_add a b = Some c ↔ c = a + b ∧ a + b < U64.
Proof. unfold checked_add. destruct (_ <? _) eqn:E; bool_prop; naive_solver lia. Qed.
Lemma checked_mul_Some a b c : checked_mul a b = Some c ↔ c = a * b ∧ a * b < U64.
Proof. unfold checked_mul. destruct (_ <? _) eqn:E; bool_prop; naive_solver lia. Qed.
Lemma checked_sub_Some a b c : checked_sub a b = Some c ↔ c = a - b ∧ b ≤ a.
Proof. unfold checked_sub. destruct (_ <=? _) eqn:E; bool_prop; naive_solver lia. Qed.
Lemma opt_filter_Some {A} p (o : option A) a :
  opt_filter p o = Some a ↔ o = Some a ∧ p a = true.
Proof.
  destruct o as [x|]; cbn; [destruct (p x) eqn:?|]; split.
  all: first [intros [= <-] | intros [[= <-] ?]]; auto; congruence.
Qed.

Lemma checked_add_ok a b : a + b < U64 → checked_add a b = Some (a + b).
Proof. intros. by apply checked_add_Some. Qed.
Lemma checked_add_none a b : U64 ≤ a + b → checked_add a b = None.
Proof. intros. unfold checked_add. by replace (a + b <? U64) with false by lia. Qed.
Lemma checked_mul_ok a b : a * b < U64 → checked_mul a b = Some (a * b).
Proof. intros. by apply checked_mul_Some. Qed.
Lemma checked_sub_ok a b : b ≤ a → checked_sub a b = Some (a - b).
Proof. intros. by apply checked_sub_Some. Qed.
Lemma add_ovf_ok a b : a + b < U64 → add_ovf a b = Ok (a + b).
Proof. intros. unfold add_ovf. by rewrite checked_add_ok. Qed.
Lemma mul_ovf_ok a b : a * b < U64 → mul_ovf a b = Ok (a * b).
Proof. intros. unfold mul_ovf. by rewrite checked_mul_ok. Qed.
Lemma index_range_Ok {A} (l : list A) a b s :
  index_range l a b = Ok s ↔ get_range l a b = Some s.
Proof. apply unwrap_Ok. Qed.
Lemma index_range_no_panic {A} (l : list A) a b :
  0 ≤ a ≤ b → b ≤ blen l → no_panic (index_range l a b).
Proof. intros. unfold index_range. by rewrite get_range_in_bounds. Qed.

(** ** Safety

    [safe r P]: the run does not panic, and if it returns, the value satisfies [P]. *)

Definition safe {A} (r : result A) (P : A → Prop) : Prop :=
  match r with Ok a => P a | Err _ => True | Panic => False end.

Lemma safe_intro {A} (r : result A) (P : A → Prop) :
  no_panic r → (∀ a, r = Ok a → P a) → safe r P.
Proof. unfold no_panic. destruct r; cbn; auto. Qed.

Lemma safe_no_panic {A} (r : result A) (P : A → Prop) : safe r P → no_panic r.
Proof. by destruct r. Qed.

Lemma safe_Ok {A} (r : result A) (P : A → Prop) a : safe r P → r = Ok a → P a.
Proof. by intros Hs ->. Qed.

Lemma safe_bind {A B} (m : result A) (k : A → result B) P Q :
  safe m P → (∀ a, m = Ok a → P a → safe (k a) Q) → safe (m ≫= k) Q.
Proof. destruct m; cbn; auto. Qed.

Lemma safe_mono {A} (r : result A) (P Q : A → Prop) :
  safe r P → (∀ a, P a → Q a) → safe r Q.
Proof. destruct r; cbn; auto. Qed.

Lemma safe_ok_or {A} (o : option A) e : safe (ok_or o e) (λ a, o = Some a).
Proof. by destruct o. Qed.
Lemma safe_fail_if c e : safe (fail_if c e) (λ _, c = false).
Proof. by destruct c. Qed.

(** Takes a successful run apart, one step of the monad at a time. *)
Ltac run_inv :=
  repeat match goal with
  | H : (_ ≫= _) = Ok _ |- _ => apply bind_Ok in H; destruct H as (?&?&H)
  | H : ok_or _ _ = Ok _ |- _ => apply ok_or_Ok in H
  | H : unwrap _ = Ok _ |- _ => apply unwrap_Ok in H
  | H : fail_if _ _ = Ok _ |- _ => apply fail_if_Ok in H
  | H : assert _ = Ok _ |- _ => apply assert_Ok in H
  | H : _ <$> _ = Ok _ |- _ => apply fmap_Ok in H; destruct H as (?&?&?)
  | H : index_range _ _ _ = Ok _ |- _ => apply index_range_Ok in H
  | H : add_ovf _ _ = Ok _ |- _ => apply unwrap_Ok in H
  | H : mul_ovf _ _ = Ok _ |- _ => apply unwrap_Ok in H
  | H : checked_add _ _ = Some _ |- _ => apply checked_add_Some in H; destruct H
  | H : checked_mul _ _ = Some _ |- _ => apply checked_mul_Some in H; destruct H
  | H : checked_sub _ _ = Some _ |- _ => apply checked_sub_Some in H; destruct H
  | H : opt_filter _ _ = Some _ |- _ => apply opt_filter_Some in H; destruct H
  | H : Ok _ = Ok _ |- _ => injection H as H
  | H : mret _ = Ok _ |- _ => injection H as H
  | H : Err _ = Ok _ |- _ => discriminate H
  | H : Panic = Ok _ |- _ => discriminate H
  | H : (_ ≫= _) = Some _ |- _ => apply bind_Some in H; destruct H as (?&?&H)
  end.

(** Advances a run past the steps that have returned, without unfolding anything
    else. *)
Ltac rstep :=
  cbn [mbind result_bind M_bind mret result_ret M_ret fmap result_fmap
       ok_or unwrap fail_if assert lift negb andb orb fst snd].

(** Runs the first operation of a sequence with the equation [H]. *)
Ltac mrun H := rewrite (M_bind_ok _ _ _ _ _ H).

(** Closes the absence of panics along a run: each step is either pure or has
    its own side condition. *)
Ltac no_panic_step :=
  match goal with
  | |- no_panic (Ok _) => discriminate
  | |- no_panic (mret _) => discriminate
  | |- no_panic (Err _) => discriminate
  | |- no_panic (_ ≫= _) => apply bind_no_panic; [|intros ??]
  | |- no_panic (_ <$> ?m) => let H := fresh in
      enough (H : no_panic m) by (destruct m; [discriminate..|done])
  | |- no_panic (ok_or ?o _) => destruct o; discriminate
  | |- no_panic (fail_if ?c _) => destruct c; discriminate
  | |- no_panic (if ?c then _ else _) => destruct c eqn:?
  | |- no_panic (match ?o with _ => _ end) => destruct o eqn:?
  end.

#[export] Hint Resolve index_range_no_panic safe_ok_or safe_fail_if : lkv.

(** ** Properties *)

(** Building an error from an I/O kind and asking for its kind again gives the
    kind back, whatever class of [Error] the conversion picked. *)
Lemma kind_from_io k m : error.kind (error.from_io k m) = k.
Proof. by destruct k. Qed.
