(* ===== verification/Crates.v ===== *)
(** * The crates lkv calls

    [crc32c], [xxhash-rust], [hashbrown] and the allocator are not part of the
    repository. Each is a class of operations the model takes as a parameter and
    a class of laws that states what the crate documents; the theorems of the
    components name the laws they rely on. The instances at the end of the file
    (a bitwise CRC-32C, a multiplicative hash, a list as a table) show that the
    laws can hold together and let closed examples be evaluated. [std]'s
    [HashMap], which [FxHashMap] is, is modelled here as well. *)

From S2P Require Import Prelude Errors.

(** ** [crc32c] *)

Class Crc32c := {
  crc32c : bytes → Z;
  crc32c_append : Z → bytes → Z;
  crc32c_combine : Z → Z → Z → Z
}.

Class Crc32cLaws `{Crc32c} : Prop := {
  crc32c_is_append bs : crc32c bs = crc32c_append 0 bs;
  crc32c_append_range c bs : 0 ≤ c < U32 → 0 ≤ crc32c_append c bs < U32;
  crc32c_append_nil c : 0 ≤ c < U32 → crc32c_append c [] = c;
  crc32c_append_app c a b :
    0 ≤ c < U32 → crc32c_append c (a ++ b) = crc32c_append (crc32c_append c a) b;
  crc32c_combine_append c b :
    0 ≤ c < U32 → crc32c_combine c (crc32c b) (blen b) = crc32c_append c b
}.

Lemma crc32c_range `{Crc32cLaws} bs : 0 ≤ crc32c bs < U32.
Proof. rewrite crc32c_is_append. by apply crc32c_append_range. Qed.

(** A CRC of 32 bits detects every burst error of at most 32 bits; a change of one
    byte is such an error. *)
Class Crc32cDetects `{Crc32c} : Prop := crc32c_detects c a x y b :
  0 ≤ c < U32 → x ≠ y → crc32c_append c (a ++ x :: b) ≠ crc32c_append c (a ++ y :: b).

(** ** [xxhash_rust::xxh3] *)

Class Xxh3 := xxh3_64 : bytes → Z.

Class Xxh3Laws `{Xxh3} : Prop := xxh3_64_range k : 0 ≤ xxh3_64 k < U64.

(** ** The allocator: whether [try_reserve] of so many elements succeeds *)

Class Alloc := try_reserve : Z → bool.

(** ** [hashbrown::HashTable]

    The closures of the source may panic, so they return a [result]. [ht_elems]
    is the abstract content: the elements in iteration order, each with the hash
    it is stored under. *)

Class HashTables := {
  HashTable : Type → Type;
  ht_elems {T} : HashTable T → list (Z * T);
  ht_new {T} : HashTable T;
  (** [find]. *)
  ht_find {T} : HashTable T → Z → (T → result bool) → result (option T);
  (** [find_mut] followed by an assignment: the previous element and the table. *)
  ht_find_mut {T} : HashTable T → Z → (T → result bool) → (T → T)
                    → result (option (T * HashTable T));
  (** [find_entry(..).ok().map(|e| e.remove())]. *)
  ht_find_remove {T} : HashTable T → Z → (T → result bool)
                       → result (option (T * HashTable T));
  ht_insert_unique {T} : HashTable T → Z → T → (T → result Z) → result (HashTable T);
  ht_try_reserve {T} : HashTable T → Z → (T → result Z) → result (bool * HashTable T)
}.

Section HashTableOps.
Context `{HashTables}.

Definition ht_iter {T} (t : HashTable T) : list T := (ht_elems t).*2.
Definition ht_len {T} (t : HashTable T) : Z := blen (ht_elems t).

(** The equality closure returns on every element. *)
Definition ht_eq_total {T} (t : HashTable T) (eq : T → result bool) : Prop :=
  ∀ h x, (h, x) ∈ ht_elems t → ∃ b, eq x = Ok b.

(** The rehashing closure agrees with the hashes the elements are stored under. *)
Definition ht_hashed {T} (t : HashTable T) (hasher : T → result Z) : Prop :=
  ∀ h x, (h, x) ∈ ht_elems t → hasher x = Ok h.

Definition ht_absent {T} (t : HashTable T) (h : Z) (eq : T → result bool) : Prop :=
  ∀ x, (h, x) ∈ ht_elems t → eq x = Ok false.

End HashTableOps.

Class HashTablesLaws `{HashTables} : Prop := {
  ht_new_elems {T} : ht_elems (@ht_new _ T) = [];
  ht_find_spec {T} (t : HashTable T) h eq :
    ht_eq_total t eq →
    ∃ o, ht_find t h eq = Ok o ∧
      match o with
      | Some x => x ∈ ht_iter t ∧ eq x = Ok true
      | None => ht_absent t h eq
      end;
  ht_find_mut_spec {T} (t : HashTable T) h eq f :
    ht_eq_total t eq →
    ∃ o, ht_find_mut t h eq f = Ok o ∧
      match o with
      | Some (x, t') => eq x = Ok true ∧ ∃ h' rest,
          ht_elems t ≡ₚ (h', x) :: rest ∧ ht_elems t' ≡ₚ (h', f x) :: rest
      | None => ht_absent t h eq
      end;
  ht_find_remove_spec {T} (t : HashTable T) h eq :
    ht_eq_total t eq →
    ∃ o, ht_find_remove t h eq = Ok o ∧
      match o with
      | Some (x, t') => eq x = Ok true ∧ ∃ h', ht_elems t ≡ₚ (h', x) :: ht_elems t'
      | None => ht_absent t h eq
      end;
  ht_insert_unique_spec {T} (t : HashTable T) h v hasher :
    ht_hashed t hasher →
    ∃ t', ht_insert_unique t h v hasher = Ok t' ∧ ht_elems t' ≡ₚ (h, v) :: ht_elems t;
  ht_try_reserve_spec {T} (t : HashTable T) n hasher :
    ht_hashed t hasher →
    ∃ b t', ht_try_reserve t n hasher = Ok (b, t') ∧ ht_elems t' ≡ₚ ht_elems t
}.

(** ** [KeyMap]: [FxHashMap<Vec<u8>, V>]

    The entries in iteration order, without duplicate keys. Where a fresh key
    lands in that order is the map's choice; the theorems on what is written to
    the log hold for every duplicate-free list, hence for every order. *)

Abbreviation KeyMap V := (list (bytes * V)).

Module KeyMap.
Section KeyMap.
Context {V : Type}.
Implicit Types (m : KeyMap V) (k : bytes).

Definition default : KeyMap V := [].

Fixpoint get m k : option V :=
  match m with
  | [] => None
  | (k', v) :: m => if decide (k' = k) then Some v else get m k
  end.

Fixpoint insert m k v : KeyMap V :=
  match m with
  | [] => [(k, v)]
  | (k', v') :: m => if decide (k' = k) then (k, v) :: m else (k', v') :: insert m k v
  end.

Definition remove m k : KeyMap V := filter (λ e, e.1 ≠ k) m.

Definition wf m : Prop := NoDup m.*1.

Lemma get_list_to_map m k : wf m → get m k = (list_to_map m : gmap bytes V) !! k.
Proof.
  unfold wf. induction m as [|[k' v] m IH]; csimpl; intros Hnd; [done|].
  apply NoDup_cons in Hnd as [? Hnd]. rewrite lookup_insert. by repeat case_decide; auto.
Qed.

Lemma get_insert m k v k' :
  get (insert m k v) k' = if decide (k = k') then Some v else get m k'.
Proof.
  induction m as [|[k0 v0] m IH]; csimpl; [done|].
  repeat (case_decide; csimpl); simplify_eq; auto.
Qed.

Lemma get_remove m k k' :
  get (remove m k) k' = if decide (k = k') then None else get m k'.
Proof.
  unfold remove. induction m as [|[k0 v0] m IH]; csimpl; [by case_decide|].
  rewrite filter_cons. repeat (case_decide; csimpl); simplify_eq; auto.
Qed.

Lemma insert_keys m k v k' : k' ∈ (insert m k v).*1 ↔ k' = k ∨ k' ∈ m.*1.
Proof.
  induction m as [|[k0 v0] m IH]; csimpl; [set_solver|].
  case_decide; csimpl; set_solver.
Qed.

Lemma insert_wf m k v : wf m → wf (insert m k v).
Proof.
  unfold wf. induction m as [|[k0 v0] m IH]; csimpl; intros Hnd.
  - repeat constructor. set_solver.
  - apply NoDup_cons in Hnd as [Hk Hnd]. case_decide; csimpl; [subst; by constructor|].
    constructor; [|auto]. rewrite insert_keys. set_solver.
Qed.

Lemma remove_wf m k : wf m → wf (remove m k).
Proof.
  unfold wf, remove. induction m as [|[k0 v0] m IH]; csimpl; intros Hnd; [done|].
  apply NoDup_cons in Hnd as [Hk Hnd]. rewrite filter_cons.
  case_decide; csimpl; [|auto]. constructor; [|auto].
  intros ([??]&?&(_&?)%list_elem_of_filter)%list_elem_of_fmap. apply Hk.
  subst. apply list_elem_of_fmap. eauto.
Qed.

Lemma insert_list_to_map m k v :
  wf m → (list_to_map (insert m k v) : gmap bytes V) = <[k:=v]> (list_to_map m).
Proof.
  intros. apply map_eq. intros k'. rewrite <- get_list_to_map by auto using insert_wf.
  rewrite get_insert, lookup_insert, get_list_to_map by done. done.
Qed.

End KeyMap.
End KeyMap.
#[export] Hint Resolve KeyMap.insert_wf KeyMap.remove_wf : lkv.

(** ** Concrete instances

    Importing [RefInstances] fixes the parameters for closed examples; the
    components themselves never see these instances. *)

Module RefInstances.


(** *** The Castagnoli CRC, bit by bit (reflected, initial and final inversion) *)
Module RefCrc.

Definition POLY : Z := 0x82F63B78.
Definition ONES : Z := 0xFFFFFFFF.

Definition bit_step (c : Z) : Z :=
  Z.lxor (Z.shiftr c 1) (if Z.testbit c 0 then POLY else 0).
Definition byte_step (c b : Z) : Z := Nat.iter 8 bit_step (Z.lxor c b).
Definition run (c : Z) (bs : bytes) : Z :=
  fold_left (λ c b, byte_step c (Z_of_u8 b)) bs c.

Definition append (c : Z) (bs : bytes) : Z := Z.lxor (run (Z.lxor c ONES) bs) ONES.
(** Advances [c] over [n] zero bytes and adds the second checksum. *)
Definition combine (c c2 n : Z) : Z :=
  Z.lxor (run c (replicate (Z.to_nat n) Byte.x00)) c2.

Lemma lxor_range a b : 0 ≤ a < U32 → 0 ≤ b < U32 → 0 ≤ Z.lxor a b < U32.
Proof.
  intros Ha Hb. split; [apply Z.lxor_nonneg; lia|].
  destruct (decide (Z.lxor a b = 0)) as [->|Hne]; [lia|].
  pose proof (Z.lxor_nonneg a b). apply (Z.log2_lt_cancel _ U32).
  eapply Z.le_lt_trans; [apply Z.log2_lxor; lia|].
  change (Z.log2 U32) with 32.
  assert (∀ x, 0 ≤ x < U32 → Z.log2 x < 32) as Hlog.
  { intros x Hx. destruct (decide (x = 0)) as [->|]; [done|].
    apply Z.log2_lt_pow2; [lia|]. change (2 ^ 32) with U32. lia. }
  apply Z.max_lub_lt; auto.
Qed.

Lemma bit_step_lxor a b : bit_step (Z.lxor a b) = Z.lxor (bit_step a) (bit_step b).
Proof.
  unfold bit_step. rewrite Z.shiftr_lxor, Z.lxor_spec.
  set (x := Z.shiftr a 1). set (y := Z.shiftr b 1).
  rewrite !Z.lxor_assoc. f_equal.
  rewrite <- !Z.lxor_assoc, (Z.lxor_comm _ y), Z.lxor_assoc. f_equal.
  by destruct (Z.testbit a 0), (Z.testbit b 0).
Qed.

Lemma bit_step_range c : 0 ≤ c < U32 → 0 ≤ bit_step c < U32.
Proof.
  intros. apply lxor_range.
  - rewrite Z.shiftr_div_pow2 by lia. split; [apply Z.div_pos; lia|].
    apply Z.div_lt_upper_bound; lia.
  - unfold POLY. case_match; lia.
Qed.

Lemma iter_bit_step_lxor n a b :
  Nat.iter n bit_step (Z.lxor a b) = Z.lxor (Nat.iter n bit_step a) (Nat.iter n bit_step b).
Proof. induction n as [|n IH]; simpl; [done|]. by rewrite IH, bit_step_lxor. Qed.

Lemma byte_step_range c b : 0 ≤ c < U32 → 0 ≤ b < U8 → 0 ≤ byte_step c b < U32.
Proof.
  intros. unfold byte_step. assert (0 ≤ Z.lxor c b < U32) by (apply lxor_range; lia).
  generalize 8%nat as n. intros n. induction n; simpl; auto using bit_step_range.
Qed.

Lemma run_range c bs : 0 ≤ c < U32 → 0 ≤ run c bs < U32.
Proof.
  revert c. induction bs as [|b bs IH]; intros c ?; [done|].
  apply IH, byte_step_range; auto using Z_of_u8_range.
Qed.

(** The CRC is linear: the part of the register that comes from [d] evolves as
    over zero bytes. *)
Lemma run_lxor c d bs :
  run (Z.lxor c d) bs = Z.lxor (run d (replicate (length bs) Byte.x00)) (run c bs).
Proof.
  revert c d. induction bs as [|b bs IH]; intros c d; simpl; [apply Z.lxor_comm|].
  change (Z_of_u8 Byte.x00) with 0. rewrite <- IH. f_equal.
  unfold byte_step. rewrite <- iter_bit_step_lxor. f_equal.
  rewrite Z.lxor_0_r, !Z.lxor_assoc. f_equal. apply Z.lxor_comm.
Qed.

(** No step loses information: the top bit of the register says whether the polynomial
    was added. *)
Lemma bit_step_0 c : 0 ≤ c < U32 → bit_step c = 0 → c = 0.
Proof.
  unfold bit_step. rewrite Z.shiftr_div_pow2, Z.bit0_odd by lia. change (2 ^ 1) with 2. intros Hc Hb.
  pose proof (Z.div_mod c 2 ltac:(lia)) as Hd. rewrite Zmod_odd in Hd. apply Z.lxor_eq in Hb.
  unfold POLY in Hb. destruct (Z.odd c); lia.
Qed.

Lemma bit_step_inj a b : 0 ≤ a < U32 → 0 ≤ b < U32 → bit_step a = bit_step b → a = b.
Proof.
  intros Ha Hb Hs. apply Z.lxor_eq, bit_step_0; [by apply lxor_range|].
  by rewrite bit_step_lxor, Hs, Z.lxor_nilpotent.
Qed.

Lemma byte_step_inj c c' x x' :
  0 ≤ c < U32 → 0 ≤ c' < U32 → 0 ≤ x < U8 → 0 ≤ x' < U8 → byte_step c x = byte_step c' x' →
  Z.lxor c x = Z.lxor c' x'.
Proof.
  intros Hc Hc' Hx Hx'. unfold byte_step. assert (0 ≤ Z.lxor c x < U32) as Ha by (apply lxor_range; lia).
  assert (0 ≤ Z.lxor c' x' < U32) as Hb by (apply lxor_range; lia).
  revert Ha Hb. generalize (Z.lxor c x) (Z.lxor c' x'). clear. generalize 8%nat. intros n a b Ha Hb.
  assert (Hr : ∀ m z, 0 ≤ z < U32 → 0 ≤ Nat.iter m bit_step z < U32)
    by (intros m z Hz; induction m; simpl; auto using bit_step_range).
  induction n as [|n IH]; simpl; [done|]. intros Hs. apply IH, bit_step_inj; auto.
Qed.

Lemma run_app c a b : run c (a ++ b) = run (run c a) b.
Proof. apply fold_left_app. Qed.
Lemma run_cons c x b : run c (x :: b) = run (byte_step c (Z_of_u8 x)) b.
Proof. reflexivity. Qed.

Lemma run_inj c c' bs : 0 ≤ c < U32 → 0 ≤ c' < U32 → run c bs = run c' bs → c = c'.
Proof.
  revert c c'. induction bs as [|b bs IH]; intros c c' Hc Hc' Hr; [done|]. pose proof (Z_of_u8_range b).
  apply IH in Hr; [|by apply byte_step_range..]. apply byte_step_inj in Hr; [|done..].
  apply (f_equal (λ z, Z.lxor z (Z_of_u8 b))) in Hr. by rewrite !Z.lxor_assoc, Z.lxor_nilpotent, !Z.lxor_0_r in Hr.
Qed.

End RefCrc.

#[export] Instance ref_crc32c : Crc32c := {|
  crc32c := RefCrc.append 0;
  crc32c_append := RefCrc.append;
  crc32c_combine := RefCrc.combine
|}.

#[export] Instance ref_crc32c_laws : Crc32cLaws.
Proof.
  assert (0 ≤ RefCrc.ONES < U32) by done.
  split; cbn; unfold RefCrc.append; intros.
  - done.
  - by apply RefCrc.lxor_range, H; apply RefCrc.run_range, RefCrc.lxor_range.
  - cbn. by rewrite Z.lxor_assoc, Z.lxor_nilpotent, Z.lxor_0_r.
  - rewrite (Z.lxor_assoc _ RefCrc.ONES), Z.lxor_nilpotent, Z.lxor_0_r.
    unfold RefCrc.run. by rewrite fold_left_app.
  - unfold RefCrc.combine, blen. rewrite Nat2Z.id, <- Z.lxor_assoc. f_equal.
    rewrite Z.lxor_0_l, <- RefCrc.run_lxor. f_equal. apply Z.lxor_comm.
Qed.

#[export] Instance ref_crc32c_detects : Crc32cDetects.
Proof.
  intros c a x y b Hc Hne He. assert (Ho : 0 ≤ RefCrc.ONES < U32) by done.
  assert (Hrun : RefCrc.run (Z.lxor c RefCrc.ONES) (a ++ x :: b) = RefCrc.run (Z.lxor c RefCrc.ONES) (a ++ y :: b)).
  { apply (f_equal (λ z, Z.lxor z RefCrc.ONES)) in He. unfold crc32c_append, ref_crc32c, RefCrc.append in He.
    by rewrite !Z.lxor_assoc, Z.lxor_nilpotent, !Z.lxor_0_r in He. }
  clear He. rename Hrun into He. rewrite !RefCrc.run_app, !RefCrc.run_cons in He. set (d := RefCrc.run (Z.lxor c RefCrc.ONES) a) in He.
  assert (Hd : 0 ≤ d < U32) by (apply RefCrc.run_range, RefCrc.lxor_range; lia).
  pose proof (Z_of_u8_range x). pose proof (Z_of_u8_range y).
  apply RefCrc.run_inj, RefCrc.byte_step_inj in He; [|done..|by apply RefCrc.byte_step_range|by apply RefCrc.byte_step_range].
  apply (f_equal (Z.lxor d)) in He. rewrite <- !Z.lxor_assoc, Z.lxor_nilpotent, !Z.lxor_0_l in He.
  apply Hne. by rewrite <- (u8_of_Z_of_u8 x), He, u8_of_Z_of_u8.
Qed.

(** *** A hash whose low bits are the first byte of the key *)
Definition ref_xxh3 (k : bytes) : Z :=
  match k with [] => 0 | b :: _ => Z_of_u8 b + U32 * (blen k mod U8) end.
#[export] Instance ref_xxh3_inst : Xxh3 := ref_xxh3.
#[export] Instance ref_xxh3_laws : Xxh3Laws.
Proof.
  intros [|b k]; unfold xxh3_64, ref_xxh3_inst, ref_xxh3; [lia|].
  pose proof (Z_of_u8_range b). pose proof (Z.mod_pos_bound (blen (b :: k)) U8). lia.
Qed.

(** *** An allocator that never fails *)
#[export] Instance ref_alloc : Alloc := λ _, true.

(** *** A table as the list of its elements *)
Module RefTable.
Section RefTable.
Context {T : Type}.
Implicit Types (t : list (Z * T)).

Fixpoint find t (eq : T → result bool) : result (option T) :=
  match t with
  | [] => Ok None
  | (_, x) :: t => b ← eq x; if b : bool then Ok (Some x) else find t eq
  end.

Fixpoint find_mut t (eq : T → result bool) (f : T → T) : result (option (T * list (Z * T))) :=
  match t with
  | [] => Ok None
  | (h, x) :: t => b ← eq x;
      if b : bool then Ok (Some (x, (h, f x) :: t))
      else o ← find_mut t eq f;
           Ok ('(y, t') ← o; Some (y, (h, x) :: t'))
  end.

Fixpoint find_remove t (eq : T → result bool) : result (option (T * list (Z * T))) :=
  match t with
  | [] => Ok None
  | (h, x) :: t => b ← eq x;
      if b : bool then Ok (Some (x, t))
      else o ← find_remove t eq;
           Ok ('(y, t') ← o; Some (y, (h, x) :: t'))
  end.

End RefTable.
End RefTable.

#[export] Instance ref_tables : HashTables := {|
  HashTable := λ T, list (Z * T);
  ht_elems := λ T t, t;
  ht_new := λ T, [];
  ht_find := λ T t _ eq, RefTable.find t eq;
  ht_find_mut := λ T t _ eq f, RefTable.find_mut t eq f;
  ht_find_remove := λ T t _ eq, RefTable.find_remove t eq;
  ht_insert_unique := λ T t h v _, Ok ((h, v) :: t);
  ht_try_reserve := λ T t _ _, Ok (true, t)
|}.

#[export] Instance ref_tables_laws : HashTablesLaws.
Proof.
  split; cbn.
  - done.
  - intros T t h eq Heq. unfold ht_eq_total, ht_absent, ht_iter in *; cbn in *.
    induction t as [|[h' x] t IH]; cbn; [exists None; set_solver|].
    destruct (Heq h' x ltac:(set_solver)) as [[] Hb]; rewrite Hb; cbn.
    + exists (Some x). set_solver.
    + destruct IH as ([y|]&->&Ho); [intros k z ?; apply (Heq k z); set_solver| |].
      * exists (Some y). set_solver.
      * exists None. set_solver.
  - intros T t h eq f Heq. unfold ht_eq_total, ht_absent in *; cbn in *.
    induction t as [|[h' x] t IH]; cbn; [exists None; set_solver|].
    destruct (Heq h' x ltac:(set_solver)) as [[] Hb]; rewrite Hb; cbn.
    + exists (Some (x, (h', f x) :: t)). do 2 (split; [done|]). by exists h', t.
    + destruct IH as ([[y t']|]&->&Ho); [intros k z ?; apply (Heq k z); set_solver| |]; cbn.
      * exists (Some (y, (h', x) :: t')). destruct Ho as (?&k&rest&Hp&Hq).
        split_and!; auto. exists k, ((h', x) :: rest). rewrite Hp, Hq.
        split; constructor.
      * exists None. set_solver.
  - intros T t h eq Heq. unfold ht_eq_total, ht_absent in *; cbn in *.
    induction t as [|[h' x] t IH]; cbn; [exists None; set_solver|].
    destruct (Heq h' x ltac:(set_solver)) as [[] Hb]; rewrite Hb; cbn.
    + exists (Some (x, t)). do 2 (split; [done|]). by exists h'.
    + destruct IH as ([[y t']|]&->&Ho); [intros k z ?; apply (Heq k z); set_solver| |]; cbn.
      * exists (Some (y, (h', x) :: t')). destruct Ho as (?&k&Hp).
        split_and!; auto. exists k. rewrite Hp. constructor.
      * exists None. set_solver.
  - eauto.
  - eauto.
Qed.

End RefInstances.
