(* ===== verification/Io.v ===== *)
(** * Streams and files

    The [Read], [Write] and [Seek] traits as the source uses them: a class of
    the three primitive operations, the default methods [write_all] and
    [read_exact] as [std] defines them on top, and a file of the operating
    system as a byte string with a position. A file carries a script that says
    how its next system calls end (so that failures and short writes are inputs
    of the model) and the trace of the changes made to it. [LawfulStream] is what
    the format writers rely on. *)

From S2P Require Import Prelude Errors.

Inductive SeekFrom := Start (p : Z) | End_ (o : Z) | Current (o : Z).

Class Stream (S : Type) := {
  seek : SeekFrom → M S Z;
  (** [write] consumes a prefix of the bytes and returns its length. *)
  write : bytes → M S Z;
  (** [read] of a buffer of the given length returns the bytes it filled in. *)
  read : Z → M S bytes
}.

(** [Write::write_all], which [BufWriter] overrides. *)
Class Writer (S : Type) := write_all : bytes → M S ().

Section Defaults.
Context {S} `{Stream S}.

(** The default [write_all]; every iteration consumes at least one byte, so the
    length of the buffer bounds the loop. *)
Fixpoint write_all_loop (fuel : nat) (bs : bytes) : M S () :=
  match bs, fuel with
  | [], _ => mret ()
  | _, O => lift Panic
  | _, Datatypes.S fuel =>
      n ← write bs;
      if n =? 0
      then lift (Err (error.from_io WriteZero "failed to write whole buffer"))
      else rest ← lift (index_range bs n (blen bs));
           write_all_loop fuel rest
  end.

#[export] Instance stream_writer : Writer S := λ bs, write_all_loop (length bs) bs.

(** [Read::read_exact] into a buffer of [n] bytes. *)
Fixpoint read_exact_loop (fuel : nat) (n : Z) : M S bytes :=
  if n =? 0 then mret [] else
  match fuel with
  | O => lift Panic
  | Datatypes.S fuel =>
      got ← read n;
      match got with
      | [] => lift (Err (error.from_io UnexpectedEof "failed to fill whole buffer"))
      | _ => more ← read_exact_loop fuel (n - blen got);
             mret (got ++ more)
      end
  end.
Definition read_exact (n : Z) : M S bytes := read_exact_loop (Z.to_nat n) n.

End Defaults.

Section Parts.
Context {S} `{Writer S}.

(** Several [write_all] calls in a row. *)
Fixpoint write_parts (parts : list bytes) : M S () :=
  match parts with
  | [] => mret ()
  | p :: parts => write_all p ≫= λ _, write_parts parts
  end.

Lemma write_parts_app ps qs s :
  write_parts (ps ++ qs) s = (write_parts ps ≫= λ _, write_parts qs) s.
Proof.
  revert s. induction ps as [|p ps IH]; intros s; [done|]. cbn [write_parts app].
  unfold mbind, M_bind. destruct (write_all p s) as [[[]| |] s1]; [|done..].
  apply IH.
Qed.

Lemma write_parts_cons p ps s :
  write_parts (p :: ps) s = (write_all p ≫= λ _, write_parts ps) s.
Proof. done. Qed.

End Parts.

(** ** [BufWriter]

    A writer that collects up to [buf_capacity] bytes before it hands them on. *)

Record BufWriter (S : Type) := MkBuf { buf_capacity : Z; buf : bytes; buf_inner : S }.
Arguments MkBuf {S} _ _ _.
Arguments buf_capacity {S} _.
Arguments buf {S} _.
Arguments buf_inner {S} _.

Module BufWriter.
Section BufWriter.
Context {S} `{Stream S}.

Definition set_buf (bs : bytes) (w : BufWriter S) : BufWriter S :=
  MkBuf (buf_capacity w) bs (buf_inner w).
Definition inner {A} (m : M S A) : M (BufWriter S) A :=
  zoom buf_inner (λ s w, MkBuf (buf_capacity w) (buf w) s) m.

Definition with_capacity (capacity : Z) (s : S) : BufWriter S := MkBuf capacity [] s.

(** [flush_buf]: what the inner writer took leaves the buffer, also when a later
    write fails. *)
Fixpoint flush_loop (fuel : nat) : M (BufWriter S) () :=
  rest ← gets buf;
  match rest, fuel with
  | [], _ => mret ()
  | _, O => lift Panic
  | _, Datatypes.S fuel =>
      n ← inner (write rest);
      if n =? 0
      then lift (Err (error.from_io WriteZero "failed to write the buffered data"))
      else tail ← lift (index_range rest n (blen rest));
           _ ← modify (set_buf tail);
           flush_loop fuel
  end.
Definition flush_buf : M (BufWriter S) () := λ w, flush_loop (length (buf w)) w.

(** [write_all]: small writes are buffered, a write that does not fit flushes
    first, and one of at least the capacity goes straight through. *)
Definition write_all (bs : bytes) : M (BufWriter S) () :=
  w ← gets (λ w, w);
  let spare := buf_capacity w - blen (buf w) in
  if blen bs <? spare then modify (set_buf (buf w ++ bs)) else
  _ ← (if spare <? blen bs then flush_buf else mret ());
  if buf_capacity w <=? blen bs then inner (stream_writer bs)
  else w ← gets (λ w, w); modify (set_buf (buf w ++ bs)).

(** Runs [m] on a fresh writer over the store and drops it: what is still
    buffered (after an error) is written then, and a failure of that is ignored. *)
Definition scoped {A} (capacity : Z) (m : M (BufWriter S) A) : M S A := λ s,
  let '(r, w) := m (with_capacity capacity s) in
  match r with
  | Panic => (Panic, buf_inner w)
  | _ => (r, buf_inner (flush_buf w).2)
  end.

End BufWriter.
End BufWriter.
#[export] Instance bufwriter_writer {S} `{Stream S} : Writer (BufWriter S) := BufWriter.write_all.

(** ** Lawful streams

    A stream whose content is one byte string that starts at address
    [stream_base] and is at most [isize::MAX] bytes long. *)

Class StreamView (S : Type) := {
  stream_ok : S → Prop;
  stream_base : S → Z;
  stream_data : S → bytes;
  stream_pos : S → Z
}.

Section View.
Context {S} `{StreamView S}.

(** [s'] is [s] with another content and position. *)
Definition stream_upd (s s' : S) (data : bytes) (pos : Z) : Prop :=
  stream_ok s' ∧ stream_base s' = stream_base s ∧ stream_data s' = data ∧ stream_pos s' = pos.

End View.

Class LawfulStream (S : Type) `{Stream S, StreamView S} : Prop := {
  stream_base_nonneg s : stream_ok s → 0 ≤ stream_base s ≤ stream_pos s;
  seek_start s p :
    stream_ok s → stream_base s ≤ p ≤ ISIZE_MAX →
    ∃ s', seek (Start p) s = (Ok p, s') ∧ stream_upd s s' (stream_data s) p;
  write_all_at_once s bs :
    stream_ok s → bs ≠ [] → stream_pos s + blen bs ≤ ISIZE_MAX →
    ∃ s', write bs s = (Ok (blen bs), s') ∧
      stream_upd s s' (splice (stream_data s) (stream_pos s - stream_base s) bs)
                 (stream_pos s + blen bs);
  read_available s n :
    stream_ok s → 0 < n → stream_pos s - stream_base s + n ≤ blen (stream_data s) →
    ∃ s' got, read n s = (Ok got, s') ∧
      get_range (stream_data s) (stream_pos s - stream_base s)
                (stream_pos s - stream_base s + n) = Some got ∧
      stream_upd s s' (stream_data s) (stream_pos s + n)
}.

(** ** [std::fs::File] *)

Inductive IoFault :=
  | Pass
  | Short (n : Z)            (* a write or read that moves at most [n] bytes *)
  | Fault (e : io_Error).

Inductive FileOp :=
  | OpWrite (pos : Z) (bs : bytes)
  | OpSetLen (len : Z)
  | OpSync.

Record File := MkFile {
  file_content : bytes;
  file_pos : Z;
  file_script : list IoFault;
  file_trace : list FileOp
}.

Module file.

Definition set_content (c : bytes) (op : FileOp) (f : File) : File :=
  MkFile c (file_pos f) (file_script f) (file_trace f ++ [op]).
Definition set_pos (p : Z) (f : File) : File :=
  MkFile (file_content f) p (file_script f) (file_trace f).

(** One system call: the script decides whether it fails; an exhausted script
    lets every call through. *)
Definition syscall {A} (body : IoFault → M File A) : M File A := λ f,
  match file_script f with
  | [] => body Pass f
  | x :: rest =>
      let f := MkFile (file_content f) (file_pos f) rest (file_trace f) in
      match x with
      | Fault e => (Err (error.from e), f)
      | x => body x f
      end
  end.

Definition limit (x : IoFault) (n : Z) : Z :=
  match x with Short k => Z.max 1 (Z.min k n) | _ => n end.

Definition seek_to (position : Z) : M File Z :=
  if (0 <=? position) && (position <=? ISIZE_MAX)
  then modify (set_pos position) ≫= λ _, mret position
  else lift (Err (error.from_io InvalidInput "Invalid argument")).

Definition seek (p : SeekFrom) : M File Z := syscall (λ _ f,
  match p with
  | Start p => seek_to p f
  | End_ o => seek_to (blen (file_content f) + o) f
  | Current o => seek_to (file_pos f + o) f
  end).

Definition write (bs : bytes) : M File Z := syscall (λ x f,
  let n := limit x (blen bs) in
  let now := take (Z.to_nat n) bs in
  let f := set_content (splice (file_content f) (file_pos f) now)
                       (OpWrite (file_pos f) now) f in
  (Ok n, set_pos (file_pos f + n) f)).

Definition read (n : Z) : M File bytes := syscall (λ x f,
  let got := take (Z.to_nat (limit x n)) (drop (Z.to_nat (file_pos f)) (file_content f)) in
  (Ok got, set_pos (file_pos f + blen got) f)).

Definition len : M File Z := syscall (λ _, gets (λ f, blen (file_content f))).

Definition set_len (n : Z) : M File () := syscall (λ _,
  modify (λ f, set_content
    (take (Z.to_nat n) (file_content f)
     ++ replicate (Z.to_nat (n - blen (file_content f))) Byte.x00) (OpSetLen n) f)).

Definition sync : M File () := syscall (λ _,
  modify (λ f, set_content (file_content f) OpSync f)).

End file.

#[export] Instance file_stream : Stream File := {|
  seek := file.seek; write := file.write; read := file.read
|}.

(** The content of a file without pending failures. *)
#[export] Instance file_view : StreamView File := {|
  stream_ok f := file_script f = [] ∧ 0 ≤ file_pos f;
  stream_base _ := 0;
  stream_data := file_content;
  stream_pos := file_pos
|}.

(** ** Lemmas *)

#[export] Instance file_lawful : LawfulStream File.
Proof.
  split; unfold stream_upd; cbn; intros s.
  - intros [??]. lia.
  - intros p [Hs ?] ?. unfold file.seek, file.syscall, file.seek_to. rewrite Hs. cbn.
    replace (0 <=? p) with true by lia. replace (p <=? _) with true by lia. cbn.
    eexists; split; [done|]. cbn. split_and!; auto; lia.
  - intros bs [Hs ?] ??. unfold file.write, file.syscall. rewrite Hs. cbn.
    rewrite take_ge by (unfold blen; lia). eexists; split; [done|]. cbn.
    pose proof (blen_nonneg bs).
    rewrite Z.sub_0_r. split_and!; auto; lia.
  - intros n [Hs ?] ? Hn. unfold file.read, file.syscall. rewrite Hs. cbn.
    eexists _, _; split; [done|].
    rewrite Z.sub_0_r in *. rewrite get_range_in_bounds by lia.
    replace (file_pos s + n - file_pos s) with n by lia. split; [done|].
    cbn. split_and!; auto; len.
Qed.

(** What the format writers rely on: [write_all] puts the bytes at the position. *)
Class LawfulWriter (S : Type) `{Writer S, StreamView S} : Prop := {
  writer_base_nonneg s : stream_ok s → 0 ≤ stream_base s ≤ stream_pos s;
  write_all_nil s : stream_ok s → write_all [] s = (Ok (), s);
  write_all_lawful s bs :
    stream_ok s → bs ≠ [] → stream_pos s + blen bs ≤ ISIZE_MAX →
    ∃ s', write_all bs s = (Ok (), s') ∧
      stream_upd s s' (splice (stream_data s) (stream_pos s - stream_base s) bs)
                 (stream_pos s + blen bs)
}.

#[export] Instance stream_lawful_writer {S} `{LawfulStream S} : LawfulWriter S.
Proof.
  split; [apply stream_base_nonneg|done|].
  intros s bs Hok Hne Hlen. destruct (write_all_at_once s bs Hok Hne Hlen) as (s'&Hw&Hu).
  exists s'. split; [|done]. unfold write_all, stream_writer.
  destruct bs as [|b bs]; [done|]. cbn [write_all_loop length].
  unfold mbind, M_bind. rewrite Hw.
  replace (blen (b :: bs) =? 0) with false by len.
  unfold lift, index_range. rewrite get_range_in_bounds by (len; pose proof (blen_nonneg bs); lia).
  rewrite Z.sub_diag. cbn. by destruct (length bs).
Qed.

Section LawfulParts.
Context {S} `{LawfulWriter S}.

(** Writing several parts in a row writes their concatenation. *)
Lemma write_parts_lawful s parts :
  stream_ok s → stream_pos s + blen (concat parts) ≤ ISIZE_MAX →
  ∃ s', write_parts parts s = (Ok (), s') ∧
    stream_ok s' ∧ stream_base s' = stream_base s
    ∧ stream_pos s' = stream_pos s + blen (concat parts)
    ∧ (concat parts = [] → stream_data s' = stream_data s)
    ∧ (concat parts ≠ [] →
       stream_data s' = splice (stream_data s) (stream_pos s - stream_base s) (concat parts)).
Proof.
  revert s. induction parts as [|p parts IH]; intros s Hok Hlen.
  - exists s. cbn. split_and!; auto; [len|done].
  - cbn [concat] in *. rewrite blen_app in Hlen.
    pose proof (blen_nonneg p). pose proof (blen_nonneg (concat parts)).
    pose proof (writer_base_nonneg s Hok).
    destruct (decide (p = [])) as [->|Hp].
    { cbn [write_parts]. rewrite (M_bind_ok _ _ _ _ _ (write_all_nil s Hok)). exact (IH s Hok Hlen). }
    destruct (write_all_lawful s p Hok Hp ltac:(lia)) as (s1&Hw&Hok1&Hb1&Hd1&Hp1).
    destruct (IH s1 Hok1 ltac:(lia)) as (s2&Hw2&Hok2&Hb2&Hp2&He&Hne).
    exists s2. cbn [write_parts]. unfold mbind, M_bind. rewrite Hw, Hw2.
    split_and!; auto; [congruence|rewrite Hp2, Hp1; len| |].
    + intros [??]%app_eq_nil. done.
    + intros _. destruct (decide (concat parts = [])) as [E|E].
      * by rewrite He, E, app_nil_r by done.
      * rewrite Hne, Hd1, Hb1, Hp1 by done.
        rewrite <- splice_splice_next by lia. f_equal. lia.
Qed.

End LawfulParts.

Section Lawful.
Context {S} `{LawfulStream S}.

Lemma read_exact_lawful s n :
  stream_ok s → 0 ≤ n → stream_pos s - stream_base s + n ≤ blen (stream_data s) →
  ∃ s' got, read_exact n s = (Ok got, s') ∧
    get_range (stream_data s) (stream_pos s - stream_base s)
              (stream_pos s - stream_base s + n) = Some got ∧
    stream_upd s s' (stream_data s) (stream_pos s + n).
Proof.
  intros Hok Hn Hlen. unfold read_exact. pose proof (stream_base_nonneg s Hok).
  destruct (decide (n = 0)) as [->|].
  - exists s, []. split; [done|]. rewrite get_range_in_bounds by lia.
    split; [by rewrite Z.add_0_r, Z.sub_diag|]. unfold stream_upd. split_and!; auto; lia.
  - destruct (read_available s n Hok ltac:(lia) Hlen) as (s'&got&Hr&Hg&Hu).
    exists s', got. split_and!; auto.
    pose proof (get_range_Some _ _ _ _ Hg) as (?&?&Hgl&_).
    destruct (Z.to_nat n) as [|k] eqn:Ek; [lia|]. cbn [read_exact_loop].
    replace (n =? 0) with false by lia. unfold mbind, M_bind. rewrite Hr.
    destruct got as [|b got]; [rewrite blen_nil in Hgl; lia|].
    replace (n - blen (b :: got)) with 0 by lia. destruct k; cbn; by rewrite app_nil_r.
Qed.

End Lawful.

(** ** A buffered writer over a lawful stream

    Its content is what the stream holds once the buffer is flushed. *)

#[export] Instance bufwriter_view {S} `{StreamView S} : StreamView (BufWriter S) := {|
  stream_ok w := stream_ok (buf_inner w) ∧ blen (buf w) ≤ buf_capacity w;
  stream_base w := stream_base (buf_inner w);
  stream_data w :=
    match buf w with
    | [] => stream_data (buf_inner w)
    | bs => splice (stream_data (buf_inner w))
                   (stream_pos (buf_inner w) - stream_base (buf_inner w)) bs
    end;
  stream_pos w := stream_pos (buf_inner w) + blen (buf w)
|}.

Section Buffered.
Context {S} `{LawfulStream S}.
Implicit Types (w : BufWriter S).

Lemma bufwriter_data w :
  buf w ≠ [] → stream_data w = splice (stream_data (buf_inner w))
                   (stream_pos (buf_inner w) - stream_base (buf_inner w)) (buf w).
Proof. cbn. by destruct (buf w). Qed.

(** Flushing empties the buffer and changes nothing else. *)
Lemma flush_buf_lawful w :
  stream_ok w → stream_pos w ≤ ISIZE_MAX →
  ∃ s', BufWriter.flush_buf w = (Ok (), MkBuf (buf_capacity w) [] s')
    ∧ stream_upd (buf_inner w) s' (stream_data w) (stream_pos w).
Proof.
  intros [Hok _] Hpos. destruct w as [cap bs s]. unfold BufWriter.flush_buf. cbn in Hok, Hpos.
  destruct bs as [|b bs]; cbn [buf length].
  { exists s. split; [done|]. split_and!; auto. cbn. rewrite blen_nil. lia. }
  destruct (write_all_at_once s (b :: bs) Hok ltac:(done) Hpos) as (s'&Hw&Hu).
  exists s'. split; [|done]. cbn [BufWriter.flush_loop].
  unfold gets, mbind, M_bind. cbn [buf]. unfold BufWriter.inner, zoom. cbn [buf_inner].
  rewrite Hw. replace (blen (b :: bs) =? 0) with false by len.
  unfold lift, index_range. rewrite get_range_in_bounds by (len; pose proof (blen_nonneg bs); lia).
  rewrite Z.sub_diag. cbn. by destruct (length bs).
Qed.

Lemma push_lawful w (bs : bytes) :
  stream_ok w → bs ≠ [] → blen (buf w) + blen bs ≤ buf_capacity w →
  stream_upd w (BufWriter.set_buf (buf w ++ bs) w)
    (splice (stream_data w) (stream_pos w - stream_base w) bs) (stream_pos w + blen bs).
Proof.
  destruct w as [cap b s]. intros [Hok _] Hne Hcap. pose proof (stream_base_nonneg s Hok).
  unfold stream_upd.
  cbn [stream_ok stream_base stream_pos bufwriter_view BufWriter.set_buf
      buf buf_inner buf_capacity] in *.
  split_and!; [done|len|done| |len]. rewrite bufwriter_data by (cbn; destruct b, bs; done).
  cbn. destruct b as [|x b]; [rewrite blen_nil; cbn; f_equal; lia|].
  pose proof (blen_nonneg (x :: b)). replace (stream_pos s + blen (x :: b) - stream_base s)
    with (stream_pos s - stream_base s + blen (x :: b)) by lia.
  by rewrite splice_splice_next by lia.
Qed.

(** The flush that makes room leaves the content alone. *)
Lemma make_room_lawful w (bs : bytes) :
  stream_ok w → bs ≠ [] → stream_pos w ≤ ISIZE_MAX → buf_capacity w - blen (buf w) ≤ blen bs →
  ∃ w1, (if buf_capacity w - blen (buf w) <? blen bs then BufWriter.flush_buf else mret ()) w
      = (Ok (), w1) ∧ stream_upd w w1 (stream_data w) (stream_pos w)
    ∧ buf_capacity w1 = buf_capacity w
    ∧ (buf_capacity w ≤ blen bs → buf w1 = [])
    ∧ (blen bs < buf_capacity w → blen (buf w1) + blen bs ≤ buf_capacity w).
Proof.
  intros Hok Hne Hpos Hge. pose proof (blen_nonneg (buf w)). destruct (_ <? blen bs) eqn:Hsp; bool_prop.
  - destruct (flush_buf_lawful w Hok Hpos) as (s'&Hf&Hok'&Hb'&Hd'&Hp').
    eexists; split; [exact Hf|]. unfold stream_upd. destruct Hok as [_ Hcap].
    cbn [stream_ok stream_base stream_data stream_pos bufwriter_view buf buf_inner buf_capacity] in *.
    rewrite blen_nil, Z.add_0_r. split_and!; auto; lia.
  - exists w. split; [done|]. split; [by split_and!|]. split_and!; [done| |lia]. intros ?.
    destruct (buf w) as [|x b]; [done|]. rewrite blen_cons in *. pose proof (blen_nonneg b). lia.
Qed.

#[export] Instance bufwriter_lawful : LawfulWriter (BufWriter S).
Proof.
  split.
  - intros w [Hok _]. pose proof (stream_base_nonneg (buf_inner w) Hok).
    pose proof (blen_nonneg (buf w)). cbn. lia.
  - intros [cap b s] [Hok Hcap]. cbn in Hok, Hcap. pose proof (blen_nonneg b).
    unfold write_all, bufwriter_writer, BufWriter.write_all, gets, mbind, M_bind.
    cbn [buf buf_capacity]. rewrite blen_nil. unfold modify, BufWriter.set_buf.
    destruct (0 <? _) eqn:?; cbn; [by rewrite app_nil_r|]. bool_prop.
    replace (cap - blen b <? 0) with false by lia. cbn.
    destruct (cap <=? 0); cbn; [done|by rewrite app_nil_r].
  - intros w bs Hok Hne Hlen. unfold write_all, bufwriter_writer, BufWriter.write_all.
    rewrite (M_bind_ok (gets (λ w, w)) _ w w w eq_refl).
    pose proof (blen_nonneg bs). pose proof (blen_nonneg (buf w)). cbv beta zeta.
    destruct (blen bs <? _) eqn:Hfit; bool_prop.
    { eexists; split; [done|]. apply push_lawful; auto. lia. }
    destruct (make_room_lawful w bs Hok Hne) as (w1&Hw1&(Hok1&Hbase1&Hd1&Hp1)&Hc1&Hb1&Hr1); [lia..|].
    rewrite (M_bind_ok _ _ _ _ _ Hw1). destruct (_ <=? blen bs) eqn:Hcap; bool_prop.
    + specialize (Hb1 Hcap). destruct w1 as [cap b s1]. cbn in Hb1. subst b. destruct Hok1 as [Hok1 _].
      cbn [stream_ok stream_base stream_data stream_pos bufwriter_view buf buf_inner buf_capacity] in *.
      rewrite blen_nil, Z.add_0_r in Hp1.
      destruct (write_all_lawful s1 bs Hok1 Hne) as (s2&Hw2&?&?&?&?); [lia|].
      unfold BufWriter.inner, zoom. cbn [buf_inner]. unfold write_all in Hw2. rewrite Hw2.
      eexists; split; [done|]. unfold stream_upd. destruct Hok as [_ Hcw].
      cbn [stream_ok stream_base stream_data stream_pos bufwriter_view buf buf_inner buf_capacity] in *.
      rewrite blen_nil. split_and!; [done|lia|congruence|congruence|lia].
    + unfold gets, mbind, M_bind. specialize (Hr1 Hcap).
      destruct (push_lawful w1 bs Hok1 Hne) as (?&?&?&?); [lia|].
      eexists; split; [done|]. unfold stream_upd. split_and!; [done|congruence|congruence|congruence].
Qed.

(** A buffered run that ends in a flush is the run of its writes. *)
Lemma scoped_lawful {A} capacity (s : S) (m : M (BufWriter S) A) a w data pos :
  m (BufWriter.with_capacity capacity s) = (Ok a, w) →
  stream_upd (BufWriter.with_capacity capacity s) w data pos → pos ≤ ISIZE_MAX →
  ∃ s', BufWriter.scoped capacity (r ← m; _ ← BufWriter.flush_buf; mret r) s = (Ok a, s')
    ∧ stream_upd s s' data pos.
Proof.
  intros Hm (Hokw&Hb&Hd&Hp) Hpos.
  destruct (flush_buf_lawful w Hokw ltac:(lia)) as (s'&Hf&?&?&?&?).
  exists s'. unfold BufWriter.scoped. rewrite (M_bind_ok _ _ _ _ _ Hm), (M_bind_ok _ _ _ _ _ Hf).
  split; [done|]. unfold stream_upd. cbn in Hb. split_and!; congruence.
Qed.

Lemma with_capacity_ok capacity (s : S) :
  0 ≤ capacity → stream_ok s →
  stream_ok (BufWriter.with_capacity capacity s)
  ∧ stream_base (BufWriter.with_capacity capacity s) = stream_base s
  ∧ stream_data (BufWriter.with_capacity capacity s) = stream_data s
  ∧ stream_pos (BufWriter.with_capacity capacity s) = stream_pos s.
Proof. intros. cbn. rewrite blen_nil. split_and!; auto; lia. Qed.

End Buffered.
