(* ===== verification/Superblock.v ===== *)
(** * Superblocks: [lkv/src/format/mod.rs] and [lkv/src/format/superblock.rs]

    The two root pages at the start of the image: their encoding, the envelope
    check that is independent of the format version, and the choice of the valid
    page with the highest generation. The theorems show that encoding and reading
    are inverse, that the chosen root is the newest valid one, that writing a newer
    root publishes it, and that a page the envelope check refuses leaves the other
    root in force. *)

From S2P Require Import Prelude Errors Crates Io.

(** ** [format/mod.rs] *)

Module format.

Definition u32_at (bs : bytes) (offset : Z) : result Z :=
  end_ ← add_ovf offset 4;
  s ← index_range bs offset end_;
  Ok (from_le_bytes s).

Definition u64_at (bs : bytes) (offset : Z) : result Z :=
  end_ ← add_ovf offset 8;
  s ← index_range bs offset end_;
  Ok (from_le_bytes s).

Lemma u32_at_field p v q bs off :
  bs = p ++ u32_le v ++ q → off = blen p → 0 ≤ v < U32 → off + 4 < U64 →
  u32_at bs off = Ok v.
Proof.
  intros -> -> ??. unfold u32_at. rewrite add_ovf_ok by done. cbn.
  unfold index_range. rewrite (get_range_mid p (u32_le v) q) by len. cbn.
  by rewrite from_to_le_bytes_small.
Qed.

Lemma u64_at_field p v q bs off :
  bs = p ++ u64_le v ++ q → off = blen p → 0 ≤ v < U64 → off + 8 < U64 →
  u64_at bs off = Ok v.
Proof.
  intros -> -> ??. unfold u64_at. rewrite add_ovf_ok by done. cbn.
  unfold index_range. rewrite (get_range_mid p (u64_le v) q) by len. cbn.
  by rewrite from_to_le_bytes_small.
Qed.

Lemma u32_at_get bs off v :
  get_range bs off (off + 4) = Some (u32_le v) → 0 ≤ v < U32 → off + 4 < U64 →
  u32_at bs off = Ok v.
Proof.
  intros Hg ??. unfold u32_at, index_range. rewrite add_ovf_ok by done. cbn.
  rewrite Hg. cbn. by rewrite from_to_le_bytes_small.
Qed.

Lemma u64_at_get bs off v :
  get_range bs off (off + 8) = Some (u64_le v) → 0 ≤ v < U64 → off + 8 < U64 →
  u64_at bs off = Ok v.
Proof.
  intros Hg ??. unfold u64_at, index_range. rewrite add_ovf_ok by done. cbn.
  rewrite Hg. cbn. by rewrite from_to_le_bytes_small.
Qed.

Lemma u32_at_in_bounds bs off :
  0 ≤ off → off + 4 ≤ blen bs → blen bs ≤ ISIZE_MAX →
  ∃ v, u32_at bs off = Ok v ∧ 0 ≤ v < U32.
Proof.
  intros. unfold u32_at. rewrite add_ovf_ok by lia. cbn. unfold index_range.
  rewrite get_range_in_bounds by lia. cbn. eexists; split; [done|].
  pose proof (from_le_bytes_range (take (Z.to_nat (off + 4 - off)) (drop (Z.to_nat off) bs))) as Hr.
  rewrite blen_take, blen_drop in Hr.
  replace (Z.min _ _) with 4 in Hr by lia. done.
Qed.

Lemma u64_at_in_bounds bs off :
  0 ≤ off → off + 8 ≤ blen bs → blen bs ≤ ISIZE_MAX →
  ∃ v, u64_at bs off = Ok v ∧ 0 ≤ v < U64.
Proof.
  intros. unfold u64_at. rewrite add_ovf_ok by lia. cbn. unfold index_range.
  rewrite get_range_in_bounds by lia. cbn. eexists; split; [done|].
  pose proof (from_le_bytes_range (take (Z.to_nat (off + 8 - off)) (drop (Z.to_nat off) bs))) as Hr.
  rewrite blen_take, blen_drop in Hr.
  replace (Z.min _ _) with 8 in Hr by lia. done.
Qed.

(** Reading inside a prefix does not see what follows it. *)
Lemma u32_at_app_l p q off : off + 4 ≤ blen p → u32_at (p ++ q) off = u32_at p off.
Proof.
  intros. unfold u32_at, index_range. destruct (add_ovf off 4) as [e| |] eqn:E; [|done..].
  apply unwrap_Ok, checked_add_Some in E as [-> ?]. cbn. by rewrite get_range_app_l.
Qed.
Lemma u64_at_app_l p q off : off + 8 ≤ blen p → u64_at (p ++ q) off = u64_at p off.
Proof.
  intros. unfold u64_at, index_range. destruct (add_ovf off 8) as [e| |] eqn:E; [|done..].
  apply unwrap_Ok, checked_add_Some in E as [-> ?]. cbn. by rewrite get_range_app_l.
Qed.

Lemma u32_at_no_panic bs off :
  0 ≤ off → off + 4 ≤ blen bs → blen bs ≤ ISIZE_MAX → no_panic (u32_at bs off).
Proof. intros. by destruct (u32_at_in_bounds bs off) as (?&->&_). Qed.
Lemma u64_at_no_panic bs off :
  0 ≤ off → off + 8 ≤ blen bs → blen bs ≤ ISIZE_MAX → no_panic (u64_at bs off).
Proof. intros. by destruct (u64_at_in_bounds bs off) as (?&->&_). Qed.

Lemma u32_at_Ok bs off v : u32_at bs off = Ok v → 0 ≤ off → 0 ≤ v < U32 ∧ off + 4 ≤ blen bs.
Proof.
  unfold u32_at. intros H ?. run_inv. subst.
  match goal with H : get_range _ _ _ = Some ?s |- _ =>
    apply get_range_Some in H as (?&?&Hl&_); pose proof (from_le_bytes_range s) as Hr end.
  rewrite Hl in Hr. replace (off + 4 - off) with 4 in Hr by lia. by split.
Qed.
Lemma u64_at_Ok bs off v : u64_at bs off = Ok v → 0 ≤ off → 0 ≤ v < U64 ∧ off + 8 ≤ blen bs.
Proof.
  unfold u64_at. intros H ?. run_inv. subst.
  match goal with H : get_range _ _ _ = Some ?s |- _ =>
    apply get_range_Some in H as (?&?&Hl&_); pose proof (from_le_bytes_range s) as Hr end.
  rewrite Hl in Hr. replace (off + 8 - off) with 8 in Hr by lia. by split.
Qed.

End format.
#[export] Hint Resolve format.u32_at_no_panic format.u64_at_no_panic : lkv.

(** ** [format/superblock.rs] *)

(** [format::segment::BASE_HEADER], which the validity check of a root uses. *)
Definition BASE_HEADER : Z := 24.

Record Superblock := MkSuperblock {
  generation : Z;
  base_offset : Z;
  base_size : Z;
  base_slots : Z;
  base_len : Z;
  log_start : Z;
  base_checksum : Z
}.

#[global] Instance Superblock_eq_dec : EqDecision Superblock.
Proof. solve_decision. Defined.

Module superblock.

(** [b"LKV\0\0\0\0\0"]. *)
Definition MAGIC : bytes := [Byte.x4c; Byte.x4b; Byte.x56; Byte.x00; Byte.x00; Byte.x00; Byte.x00; Byte.x00].
Definition FORMAT_VERSION : Z := 1.
Definition SUPERBLOCK_SIZE : Z := 4096.
Definition HEADER_SIZE : Z := 72.
Definition DATA_START : Z := SUPERBLOCK_SIZE * 2.
Definition ENVELOPE_MIN_SIZE : Z := 28.

(** The values a [Superblock] of machine integers can hold. *)
Definition in_range (sb : Superblock) : Prop :=
  0 ≤ generation sb < U64 ∧ 0 ≤ base_offset sb < U64 ∧ 0 ≤ base_size sb < U64
  ∧ 0 ≤ base_slots sb < U64 ∧ 0 ≤ base_len sb < U64 ∧ 0 ≤ log_start sb < U64
  ∧ 0 ≤ base_checksum sb < U32.

Lemma blen_MAGIC : blen MAGIC = 8.
Proof. done. Qed.
#[local] Hint Rewrite blen_MAGIC : len.

Section Superblock.
Context `{Crc32c}.

(** The bytes [0..68] of a page. *)
Definition header_fields (sb : Superblock) : bytes :=
  MAGIC
  ++ u32_le FORMAT_VERSION
  ++ u32_le HEADER_SIZE
  ++ u64_le (generation sb)
  ++ u64_le (base_offset sb)
  ++ u64_le (base_size sb)
  ++ u64_le (base_slots sb)
  ++ u64_le (base_len sb)
  ++ u64_le (log_start sb)
  ++ u32_le (base_checksum sb).

(** [encode_page]: the fields, the checksum of bytes [0..68], zero padding. *)
Definition encode_page (sb : Superblock) : bytes :=
  header_fields sb
  ++ u32_le (crc32c (header_fields sb))
  ++ replicate (Z.to_nat (SUPERBLOCK_SIZE - HEADER_SIZE)) Byte.x00.

(** [read_envelope]. *)
Definition read_envelope (page : bytes) : result (option (Z * Z)) :=
  magic ← index_range page 0 8;
  if negb (bool_decide (magic = MAGIC)) then Ok None else
  header_size ← format.u32_at page 12;
  if negb ((ENVELOPE_MIN_SIZE <=? header_size) && (header_size <=? blen page))
  then Ok None else
  let checksum_offset := header_size - 4 in
  stored ← format.u32_at page checksum_offset;
  covered ← index_range page 0 checksum_offset;
  if negb (stored =? crc32c covered) then Ok None else
  version ← format.u32_at page 8;
  Ok (Some (version, header_size)).

(** The [Superblock { .. }] literal of [read_latest_from]. *)
Definition decode_page (page : bytes) : result Superblock :=
  g ← format.u64_at page 16;
  bo ← format.u64_at page 24;
  bs ← format.u64_at page 32;
  sl ← format.u64_at page 40;
  bl ← format.u64_at page 48;
  ls ← format.u64_at page 56;
  ck ← format.u32_at page 64;
  Ok (MkSuperblock g bo bs sl bl ls ck).

(** The range checks of a candidate: [true] when the page is skipped. The
    [unwrap] of [base_end] is reached only when it is [Some]. *)
Definition out_of_bounds (c : Superblock) (file_len : Z) : bool :=
  (base_offset c <? DATA_START)
  || (base_size c <? BASE_HEADER)
  || match checked_add (base_offset c) (base_size c) with
     | None => true
     | Some end_ => (file_len <? end_) || (log_start c <? end_) || (file_len <? log_start c)
     end.

(** The body of the loop of [read_latest_from] for one page that was read. *)
Definition scan_page (file_len : Z) (page : bytes)
    (acc : option Superblock * option Z) : result (option Superblock * option Z) :=
  let '(latest, unsupported_version) := acc in
  envelope ← read_envelope page;
  match envelope with
  | None => Ok (latest, unsupported_version)
  | Some (version, header_size) =>
      if negb (version =? FORMAT_VERSION) then Ok (latest, Some version) else
      if negb (header_size =? HEADER_SIZE) then Ok (latest, unsupported_version) else
      candidate ← decode_page page;
      if out_of_bounds candidate file_len then Ok (latest, unsupported_version) else
      Ok (match latest with
          | None => Some candidate
          | Some current =>
              if generation current <? generation candidate then Some candidate else latest
          end, unsupported_version)
  end.

Section Io.
Context {S} `{Stream S}.

(** [write]: the page goes to the slot of the generation's parity. *)
Definition write (sb : Superblock) : M S () :=
  let page := encode_page sb in
  let offset := Z.land (generation sb) 1 * SUPERBLOCK_SIZE in
  _ ← seek (Start offset);
  write_all page.

(** [write_redundant]: the same page in the other slot. *)
Definition write_redundant (sb : Superblock) : M S () :=
  let page := encode_page sb in
  next ← lift (add_ovf (generation sb) 1);
  let offset := Z.land next 1 * SUPERBLOCK_SIZE in
  _ ← seek (Start offset);
  write_all page.

(** One iteration of the loop: a page cut short by the end of the file is
    skipped, any other read error is returned. *)
Definition read_page (file_len offset : Z) (acc : option Superblock * option Z)
    : M S (option Superblock * option Z) :=
  _ ← seek (Start offset);
  catch (read_exact SUPERBLOCK_SIZE) (λ r,
    match r with
    | Ok page => lift (scan_page file_len page acc)
    | Err e => if bool_decide (error.kind e = UnexpectedEof) then mret acc else lift (Err e)
    | Panic => lift Panic
    end).

(** [read_latest_from]. *)
Definition read_latest_from (file_len : Z) : M S Superblock :=
  acc ← read_page file_len 0 (None, None);
  acc ← read_page file_len SUPERBLOCK_SIZE acc;
  let '(latest, unsupported_version) := acc in
  lift (match unsupported_version, latest with
        | Some version, _ =>
            Err (error.from_io Unsupported
                   ("unsupported database format version " +:+ fmt_num version))
        | None, Some latest => Ok latest
        | None, None => Err (error.from_io InvalidData "no valid superblock")
        end).

End Io.
End Superblock.

(** *** Lemmas *)

Section Facts.
Context `{Crc32cLaws}.
Implicit Types (sb : Superblock) (page : bytes).

Lemma blen_header_fields sb : blen (header_fields sb) = 68.
Proof. unfold header_fields. len. Qed.

Lemma blen_encode_page sb : blen (encode_page sb) = SUPERBLOCK_SIZE.
Proof.
  unfold encode_page. rewrite !blen_app, blen_header_fields, blen_to_le_bytes, blen_replicate.
  done.
Qed.

Lemma read_envelope_encode sb :
  read_envelope (encode_page sb) = Ok (Some (FORMAT_VERSION, HEADER_SIZE)).
Proof.
  pose proof (crc32c_range (header_fields sb)). pose proof (blen_header_fields sb).
  unfold read_envelope. rewrite blen_encode_page. unfold index_range.
  assert (Hp : get_range (encode_page sb) 0 68 = Some (header_fields sb)).
  { unfold encode_page. by rewrite get_range_head by len. }
  assert (Hh : ∀ a b, 0 ≤ a → b ≤ 68 →
    get_range (encode_page sb) a b = get_range (header_fields sb) a b).
  { intros. unfold encode_page. by rewrite get_range_app_l by lia. }
  rewrite Hh by lia. unfold header_fields at 1. seek_field. rstep.
  rewrite bool_decide_true by done. rstep.
  rewrite (format.u32_at_get _ 12 HEADER_SIZE); [|rewrite Hh by lia; unfold header_fields; by seek_field|done..].
  rstep. change (HEADER_SIZE - 4) with 68.
  rewrite (format.u32_at_get _ 68 (crc32c (header_fields sb))); [| |done..].
  2:{ unfold encode_page. rewrite get_range_skip by lia. rewrite blen_header_fields.
      by rewrite get_range_head by len. }
  rstep. rewrite Hp. rstep. rewrite Z.eqb_refl. rstep.
  by rewrite (format.u32_at_get _ 8 FORMAT_VERSION);
    [|rewrite Hh by lia; unfold header_fields; by seek_field|..].
Qed.

Lemma decode_encode sb : in_range sb → decode_page (encode_page sb) = Ok sb.
Proof.
  intros (?&?&?&?&?&?&?). pose proof (blen_header_fields sb).
  assert (Hh : ∀ a b, 0 ≤ a → b ≤ 68 →
    get_range (encode_page sb) a b = get_range (header_fields sb) a b).
  { intros. unfold encode_page. by rewrite get_range_app_l by lia. }
  assert (H64 : ∀ off v, 0 ≤ off → off + 8 ≤ 68 → 0 ≤ v < U64 →
    get_range (header_fields sb) off (off + 8) = Some (u64_le v) →
    format.u64_at (encode_page sb) off = Ok v).
  { intros. apply format.u64_at_get; [rewrite Hh by lia|..]; auto; lia. }
  unfold decode_page.
  rewrite (H64 16 (generation sb)) by (first [done | unfold header_fields; by seek_field]). rstep.
  rewrite (H64 24 (base_offset sb)) by (first [done | unfold header_fields; by seek_field]). rstep.
  rewrite (H64 32 (base_size sb)) by (first [done | unfold header_fields; by seek_field]). rstep.
  rewrite (H64 40 (base_slots sb)) by (first [done | unfold header_fields; by seek_field]). rstep.
  rewrite (H64 48 (base_len sb)) by (first [done | unfold header_fields; by seek_field]). rstep.
  rewrite (H64 56 (log_start sb)) by (first [done | unfold header_fields; by seek_field]). rstep.
  rewrite (format.u32_at_get _ 64 (base_checksum sb));
    [|rewrite Hh by lia; unfold header_fields; by seek_field|done..].
  rstep. by destruct sb.
Qed.

End Facts.

(** *** What a page contributes to the choice of the root *)

Section Choice.
Context `{Crc32c}.

(** The version of a page whose envelope is valid for another format version. *)
Definition foreign_of (page : bytes) : option Z :=
  match read_envelope page with
  | Ok (Some (v, _)) => if v =? FORMAT_VERSION then None else Some v
  | _ => None
  end.

(** The root stored in a page, if the page passes every check. *)
Definition root_of (file_len : Z) (page : bytes) : option Superblock :=
  match read_envelope page, decode_page page with
  | Ok (Some (v, hs)), Ok c =>
      if (v =? FORMAT_VERSION) && (hs =? HEADER_SIZE) && negb (out_of_bounds c file_len)
      then Some c else None
  | _, _ => None
  end.

Definition newer (a b : option Superblock) : option Superblock :=
  match a, b with
  | Some x, Some y => if generation x <? generation y then b else a
  | Some _, None => a
  | None, _ => b
  end.

Lemma decode_page_total page :
  blen page = SUPERBLOCK_SIZE → ∃ sb, decode_page page = Ok sb ∧ in_range sb.
Proof.
  unfold SUPERBLOCK_SIZE. intros Hl. unfold decode_page.
  destruct (format.u64_at_in_bounds page 16) as (v1&->&?); [lia..|]. rstep.
  destruct (format.u64_at_in_bounds page 24) as (v2&->&?); [lia..|]. rstep.
  destruct (format.u64_at_in_bounds page 32) as (v3&->&?); [lia..|]. rstep.
  destruct (format.u64_at_in_bounds page 40) as (v4&->&?); [lia..|]. rstep.
  destruct (format.u64_at_in_bounds page 48) as (v5&->&?); [lia..|]. rstep.
  destruct (format.u64_at_in_bounds page 56) as (v6&->&?); [lia..|]. rstep.
  destruct (format.u32_at_in_bounds page 64) as (v7&->&?); [lia..|]. rstep.
  eexists; split; [done|]. by unfold in_range; cbn.
Qed.

Lemma read_envelope_total page :
  blen page = SUPERBLOCK_SIZE → ∃ e, read_envelope page = Ok e.
Proof.
  unfold SUPERBLOCK_SIZE. intros Hl. unfold read_envelope, index_range.
  rewrite (get_range_in_bounds page 0 8) by lia. rstep.
  destruct (bool_decide _); rstep; [|eauto].
  destruct (format.u32_at_in_bounds page 12) as (hs&->&?); [lia..|]. rstep.
  rewrite Hl. unfold ENVELOPE_MIN_SIZE.
  destruct (28 <=? hs) eqn:?; rstep; [|eauto].
  destruct (hs <=? 4096) eqn:?; rstep; [|eauto]. bool_prop.
  destruct (format.u32_at_in_bounds page (hs - 4)) as (st&->&?); [lia..|]. rstep.
  rewrite get_range_in_bounds by lia. rstep.
  destruct (st =? _); rstep; [|eauto].
  destruct (format.u32_at_in_bounds page 8) as (v&->&?); [lia..|]. rstep. eauto.
Qed.

Lemma scan_page_eq file_len page latest unsupported :
  blen page = SUPERBLOCK_SIZE →
  scan_page file_len page (latest, unsupported) =
    Ok (newer latest (root_of file_len page),
        match foreign_of page with Some v => Some v | None => unsupported end).
Proof.
  intros Hl. unfold scan_page, root_of, foreign_of.
  destruct (read_envelope_total page Hl) as ([[v hs]|]&->); rstep;
    [|by destruct latest].
  destruct (decode_page_total page Hl) as (c&->&_).
  destruct (v =? FORMAT_VERSION); rstep; [|by destruct latest].
  destruct (hs =? HEADER_SIZE); rstep; [|by destruct latest].
  destruct (out_of_bounds c file_len); rstep; by destruct latest.
Qed.

End Choice.

Section Streams.
Context `{Crc32cLaws} {S} `{LawfulStream S}.
Implicit Types (s : S) (sb : Superblock).

(** The image holds at least the two root pages. *)
Definition rooted s p0 p1 : Prop :=
  stream_ok s ∧ stream_base s = 0
  ∧ get_range (stream_data s) 0 SUPERBLOCK_SIZE = Some p0
  ∧ get_range (stream_data s) SUPERBLOCK_SIZE DATA_START = Some p1.

Lemma rooted_blen s p0 p1 :
  rooted s p0 p1 → blen p0 = SUPERBLOCK_SIZE ∧ blen p1 = SUPERBLOCK_SIZE
                   ∧ DATA_START ≤ blen (stream_data s).
Proof. intros (_&_&(?&?&->&_)%get_range_Some&(?&?&->&_)%get_range_Some). done. Qed.

Lemma read_page_eq s file_len offset page acc :
  stream_ok s → stream_base s = 0 → 0 ≤ offset ≤ SUPERBLOCK_SIZE →
  get_range (stream_data s) offset (offset + SUPERBLOCK_SIZE) = Some page →
  ∃ s', read_page file_len offset acc s = (scan_page file_len page acc, s')
        ∧ stream_ok s' ∧ stream_base s' = 0 ∧ stream_data s' = stream_data s.
Proof.
  intros Hok Hb Ho Hg. unfold SUPERBLOCK_SIZE in *.
  apply get_range_Some in Hg as Hg'. destruct Hg' as (?&?&?&_).
  destruct (seek_start s offset Hok ltac:(lia)) as (s1&Hs&Hok1&Hb1&Hd1&Hp1).
  destruct (read_exact_lawful s1 4096 Hok1 ltac:(lia)) as (s2&got&Hr&Hgot&Hok2&Hb2&Hd2&Hp2).
  { rewrite Hp1, Hb1, Hb, Hd1. lia. }
  rewrite Hp1, Hb1, Hb, Hd1, Z.sub_0_r, Hg in Hgot. injection Hgot as <-.
  exists s2. split; [|split_and!; congruence].
  unfold read_page. mrun Hs. unfold catch, SUPERBLOCK_SIZE. by rewrite Hr.
Qed.

Lemma read_latest_pages s file_len p0 p1 :
  rooted s p0 p1 →
  ∃ s', stream_data s' = stream_data s ∧ read_latest_from file_len s =
    (match foreign_of p1, foreign_of p0, newer (root_of file_len p0) (root_of file_len p1) with
     | Some v, _, _ | None, Some v, _ =>
         Err (error.from_io Unsupported ("unsupported database format version " +:+ fmt_num v))
     | None, None, Some r => Ok r
     | None, None, None => Err (error.from_io InvalidData "no valid superblock")
     end, s').
Proof.
  intros Hr. destruct (rooted_blen _ _ _ Hr) as (Hl0&Hl1&_).
  destruct Hr as (Hok&Hb&Hg0&Hg1).
  destruct (read_page_eq s file_len 0 p0 (None, None)) as (s1&Hs1&Hok1&Hb1&Hd1); auto; [done|].
  rewrite <- Hd1 in Hg1. rewrite scan_page_eq in Hs1 by done.
  unfold read_latest_from. mrun Hs1.
  destruct (read_page_eq s1 file_len SUPERBLOCK_SIZE p1
    (newer None (root_of file_len p0), match foreign_of p0 with Some v => Some v | None => None end))
    as (s2&Hs2&Hok2&Hb2&Hd2); auto; [done|].
  rewrite scan_page_eq in Hs2 by done. mrun Hs2. exists s2. split; [congruence|].
  unfold lift. f_equal. by destruct (foreign_of p1), (foreign_of p0).
Qed.

Lemma newer_Some a b r :
  newer a b = Some r ↔
  (a = Some r ∧ ∀ y, b = Some y → generation y ≤ generation r)
  ∨ (b = Some r ∧ ∀ x, a = Some x → generation x < generation r).
Proof.
  destruct a as [x|], b as [y|]; cbn.
  - destruct (_ <? _) eqn:E; bool_prop; split.
    + intros [= <-]. right. split; [done|]. by intros ? [= <-].
    + intros [[[= <-] Ho]|[[= <-] Ho]]; [|done]. specialize (Ho y eq_refl). lia.
    + intros [= <-]. left. split; [done|]. by intros ? [= <-].
    + intros [[[= <-] Ho]|[[= <-] Ho]]; [done|]. specialize (Ho x eq_refl). lia.
  - split; [intros [= <-]; by left|]. by intros [[[= <-] _]|[[=] _]].
  - split; [intros [= <-]; by right|]. by intros [[[=] _]|[[= <-] _]].
  - split; [done|]. by intros [[[=] _]|[[=] _]].
Qed.

(** The root page of [sb] lands in the slot of its parity and nothing else of
    the image changes. *)
Lemma write_at_slot s sb slot p0 p1 :
  rooted s p0 p1 → slot = 0 ∨ slot = 1 →
  ∃ s', (seek (Start (slot * SUPERBLOCK_SIZE)) ≫= λ _, write_all (encode_page sb)) s = (Ok (), s')
    ∧ rooted s' (if slot =? 0 then encode_page sb else p0)
                (if slot =? 0 then p1 else encode_page sb)
    ∧ stream_data s' = splice (stream_data s) (slot * SUPERBLOCK_SIZE) (encode_page sb).
Proof.
  intros Hr Hslot. destruct (rooted_blen _ _ _ Hr) as (_&_&Hlen).
  destruct Hr as (Hok&Hb&Hg0&Hg1). pose proof (blen_encode_page sb) as Hpl.
  unfold DATA_START, SUPERBLOCK_SIZE in *.
  destruct (seek_start s (slot * 4096) Hok) as (s1&Hs&Hok1&Hb1&Hd1&Hp1); [lia|].
  destruct (write_all_lawful s1 (encode_page sb) Hok1) as (s2&Hw&Hok2&Hb2&Hd2&Hp2).
  { intros E. by rewrite E in Hpl. }
  { rewrite Hp1, Hpl. lia. }
  assert (Hd : stream_data s2 = splice (stream_data s) (slot * 4096) (encode_page sb)).
  { rewrite Hd2, Hd1, Hp1, Hb1, Hb. f_equal. lia. }
  exists s2. mrun Hs. split; [done|]. split; [|done].
  split; [done|]. split; [congruence|].
  unfold DATA_START, SUPERBLOCK_SIZE. rewrite Hd.
  destruct Hslot as [-> | ->]; cbn [Z.eqb].
  - rewrite get_range_splice_in, get_range_splice_above by lia.
    split; [|done]. by rewrite get_range_all by lia.
  - rewrite get_range_splice_below, get_range_splice_in by lia.
    split; [done|]. by rewrite get_range_all by lia.
Qed.

Lemma land_1_mod g : Z.land g 1 = g mod 2.
Proof. exact (Z.land_ones g 1 ltac:(lia)). Qed.

Lemma land_1_cases g : Z.land g 1 = 0 ∨ Z.land g 1 = 1.
Proof. rewrite land_1_mod. dmlia. Qed.

Lemma land_1_succ g : Z.land (g + 1) 1 = 1 - Z.land g 1.
Proof. rewrite !land_1_mod. dmlia. Qed.

Lemma root_of_encode file_len sb :
  in_range sb → out_of_bounds sb file_len = false →
  root_of file_len (encode_page sb) = Some sb ∧ foreign_of (encode_page sb) = None.
Proof.
  intros Hin Hob. unfold root_of, foreign_of.
  rewrite read_envelope_encode, decode_encode, Hob by done. done.
Qed.

Lemma read_latest_iff s file_len p0 p1 sb :
  rooted s p0 p1 →
  (∃ s', read_latest_from file_len s = (Ok sb, s')) ↔
  foreign_of p0 = None ∧ foreign_of p1 = None ∧
  ((root_of file_len p0 = Some sb
    ∧ ∀ r, root_of file_len p1 = Some r → generation r ≤ generation sb)
   ∨ (root_of file_len p1 = Some sb
      ∧ ∀ r, root_of file_len p0 = Some r → generation r < generation sb)).
Proof.
  intros Hr. destruct (read_latest_pages s file_len p0 p1 Hr) as (s'&_&->).
  rewrite <- newer_Some.
  destruct (foreign_of p1), (foreign_of p0), (newer _ _).
  all: split; [intros (?&[=])|intros (?&?&?)]; simplify_eq; eauto.
Qed.

(** *** Properties *)

(** C27: opening reads the newest valid root. [read_latest_from] returns [sb]
    exactly when no page carries the envelope of another format version, one of
    the pages passes every check with root [sb], and the other page holds no valid
    root of a higher generation (an equal generation resolves to page 0). *)
Theorem read_latest_newest s file_len p0 p1 sb :
  rooted s p0 p1 →
  (∃ s', read_latest_from file_len s = (Ok sb, s')) ↔
  foreign_of p0 = None ∧ foreign_of p1 = None ∧
  ((root_of file_len p0 = Some sb
    ∧ ∀ r, root_of file_len p1 = Some r → generation r ≤ generation sb)
   ∨ (root_of file_len p1 = Some sb
      ∧ ∀ r, root_of file_len p0 = Some r → generation r < generation sb)).
Proof. apply read_latest_iff. Qed.

(** C28: publishing a root. Writing [sb] over the slot of its parity makes the
    next read return [sb], provided the page in the other slot is not of another
    format version and holds no root of a generation at least as high. *)
Theorem write_publishes s file_len p0 p1 sb :
  rooted s p0 p1 → in_range sb → out_of_bounds sb file_len = false →
  (let other := if Z.land (generation sb) 1 =? 0 then p1 else p0 in
   foreign_of other = None
   ∧ ∀ r, root_of file_len other = Some r → generation r < generation sb) →
  ∃ s1 s2, write sb s = (Ok (), s1) ∧ read_latest_from file_len s1 = (Ok sb, s2).
Proof.
  intros Hr Hin Hob [Hf Hg].
  destruct (write_at_slot s sb (Z.land (generation sb) 1) p0 p1 Hr (land_1_cases _))
    as (s1&Hw&Hr1&_).
  exists s1. destruct (root_of_encode file_len sb Hin Hob) as [Hro Hfo].
  pose proof (read_latest_iff s1 file_len _ _ sb Hr1) as [_ Hback].
  destruct Hback as (s2&Hs2); [|exists s2; split; [exact Hw|exact Hs2]].
  destruct (land_1_cases (generation sb)) as [E|E]; rewrite E in *; cbn [Z.eqb] in *.
  - split_and!; auto. left. split; [done|]. intros r Hroot. apply Hg in Hroot. lia.
  - split_and!; auto.
Qed.

(** The redundant copy. After [write] and [write_redundant] both pages hold
    the root, so whichever single page is later replaced by one that fails the
    envelope check, the root is still read back. *)
Theorem write_redundant_survives s file_len p0 p1 sb junk :
  rooted s p0 p1 → in_range sb → generation sb + 1 < U64 →
  out_of_bounds sb file_len = false → read_envelope junk = Ok None →
  ∃ s2, (write sb ≫= λ _, write_redundant sb) s = (Ok (), s2)
    ∧ rooted s2 (encode_page sb) (encode_page sb)
    ∧ (∀ s3, rooted s3 junk (encode_page sb) ∨ rooted s3 (encode_page sb) junk →
        ∃ s4, read_latest_from file_len s3 = (Ok sb, s4)).
Proof.
  intros Hr Hin Hgen Hob Hj.
  set (i := Z.land (generation sb) 1).
  destruct (write_at_slot s sb i p0 p1 Hr (land_1_cases _)) as (s1&Hw&Hr1&_).
  assert (Hi : 1 - i = 0 ∨ 1 - i = 1) by (destruct (land_1_cases (generation sb)); lia).
  destruct (write_at_slot s1 sb (1 - i) _ _ Hr1 Hi) as (s2&Hw2&Hr2&_).
  exists s2. split_and!.
  - mrun Hw. unfold write_redundant. rewrite add_ovf_ok by done.
    unfold lift, mbind at 1, M_bind at 1. rewrite land_1_succ. exact Hw2.
  - destruct (land_1_cases (generation sb)) as [E|E]; subst i; rewrite E in Hr2; exact Hr2.
  - destruct (root_of_encode file_len sb Hin Hob) as [Hro Hfo].
    assert (Hjr : root_of file_len junk = None ∧ foreign_of junk = None)
      by (unfold root_of, foreign_of; rewrite Hj; split; reflexivity).
    destruct Hjr as [Hjr Hjf].
    intros s3 [Hr3|Hr3]; apply (read_latest_iff s3 file_len _ _ sb Hr3); split_and!; auto.
    + right. split; [done|]. by rewrite Hjr.
    + left. split; [done|]. by rewrite Hjr.
Qed.

End Streams.

(** *** Concrete images *)

Import RefInstances.

Definition zero_page : bytes := replicate 4096 Byte.x00.
Definition root1 : Superblock := MkSuperblock 1 8192 52 0 0 8244 7.
Definition root2 : Superblock := MkSuperblock 2 8192 52 0 0 8244 9.

(** A file with one root, in page 1, and an (unspecified) Base. *)
Definition image1 : File :=
  MkFile (zero_page ++ encode_page root1 ++ replicate 52 Byte.x00) 0 [] [].

Lemma image1_rooted : rooted image1 zero_page (encode_page root1).
Proof. split_and!; cbn; [done|done| |]; vm_compute; reflexivity. Qed.

Lemma root2_ok : in_range root2 ∧ out_of_bounds root2 8244 = false.
Proof. done. Qed.

Lemma read_latest_newest_witness :
  rooted image1 zero_page (encode_page root1)
  ∧ ∃ s', read_latest_from 8244 image1 = (Ok root1, s').
Proof.
  split; [exact image1_rooted|].
  apply (read_latest_newest image1 8244 zero_page (encode_page root1) root1 image1_rooted).
  split; [vm_compute; reflexivity|]. split; [vm_compute; reflexivity|]. right.
  split; [vm_compute; reflexivity|]. intros r Hr. vm_compute in Hr. discriminate.
Defined.

Lemma write_publishes_witness :
  ∃ s1 s2, write root2 image1 = (Ok (), s1) ∧ read_latest_from 8244 s1 = (Ok root2, s2).
Proof.
  apply (write_publishes image1 8244 zero_page (encode_page root1) root2).
  - exact image1_rooted.
  - exact (proj1 root2_ok).
  - exact (proj2 root2_ok).
  - split; [vm_compute; reflexivity|]. intros r Hr. vm_compute in Hr.
    injection Hr as <-. reflexivity.
Defined.

Lemma write_redundant_survives_witness :
  ∃ s2, (write root2 ≫= λ _, write_redundant root2) image1 = (Ok (), s2)
    ∧ rooted s2 (encode_page root2) (encode_page root2)
    ∧ (∀ s3, rooted s3 zero_page (encode_page root2) ∨ rooted s3 (encode_page root2) zero_page →
        ∃ s4, read_latest_from 8244 s3 = (Ok root2, s4)).
Proof.
  apply (write_redundant_survives image1 8244 zero_page (encode_page root1) root2 zero_page).
  - exact image1_rooted.
  - exact (proj1 root2_ok).
  - reflexivity.
  - exact (proj2 root2_ok).
  - vm_compute. reflexivity.
Defined.

(** The header bytes of [superblock_header_bytes_are_stable]. *)
Example header_bytes_stable :
  Z_of_u8 <$> take 72 (encode_page (MkSuperblock 1 8192 64 8 2 8256 7)) =
  [0x4c; 0x4b; 0x56; 0; 0; 0; 0; 0; 1; 0; 0; 0; 0x48; 0; 0; 0;
   1; 0; 0; 0; 0; 0; 0; 0; 0; 0x20; 0; 0; 0; 0; 0; 0;
   0x40; 0; 0; 0; 0; 0; 0; 0; 8; 0; 0; 0; 0; 0; 0; 0;
   2; 0; 0; 0; 0; 0; 0; 0; 0x40; 0x20; 0; 0; 0; 0; 0; 0;
   7; 0; 0; 0; 0x7c; 0x03; 0xc6; 0x1f].
Proof. vm_compute. reflexivity. Qed.

End superblock.
