(* ===== verification/Values.v ===== *)
(** * Immutable bytes and staged values: the data types of [lkv/src/database/state.rs]

    [BaseBytes], [ValueBytes] and [OverlayEntry], which the log writer, the
    Overlay and the transactions share. A mapping is the byte string it shows:
    the ranges lkv maps are never written again while they are mapped. *)

From S2P Require Import Prelude Errors Crates.

(** [Range::len]. *)
Definition range_len (start end_ : Z) : Z := Z.max 0 (end_ - start).

Module BaseBytes.

Inductive t :=
  | Mapped (mapping : bytes)
  | Memory (bs : bytes) (start end_ : Z).

(** [Deref for BaseBytes]. *)
Definition deref (b : t) : result bytes :=
  match b with
  | Mapped mapping => Ok mapping
  | Memory bs start end_ => index_range bs start end_
  end.

End BaseBytes.
Abbreviation BaseBytes := BaseBytes.t.

Definition MAPPED_VALUE_THRESHOLD : Z := 1024 * 1024.
Definition OVERLAY_MAPPING_THRESHOLD : Z := 1024 * 1024.

Module ValueBytes.

Inductive t :=
  | Owned (value : bytes)
  | Mapped (bs : BaseBytes) (start end_ : Z).

Definition as_slice (v : t) : result bytes :=
  match v with
  | Owned value => Ok value
  | Mapped bs start end_ => mapping ← BaseBytes.deref bs; index_range mapping start end_
  end.

Definition len (v : t) : Z :=
  match v with
  | Owned value => blen value
  | Mapped _ start end_ => range_len start end_
  end.

Definition overlay_memory_charge (v : t) : Z :=
  match v with
  | Owned value => blen value
  | Mapped _ start end_ =>
      if range_len start end_ <? MAPPED_VALUE_THRESHOLD then range_len start end_ else 0
  end.

(** The value a well-formed [ValueBytes] stands for. *)
Definition denotes (v : t) (bs : bytes) : Prop := as_slice v = Ok bs.

Lemma denotes_len v bs : denotes v bs → len v = blen bs.
Proof.
  destruct v as [value|b s e]; unfold denotes; cbn; [by intros [= ->]|].
  intros Hb. run_inv. destruct (get_range_Some _ _ _ _ Hb) as (?&?&->&_).
  unfold range_len. lia.
Qed.

End ValueBytes.
Abbreviation ValueBytes := ValueBytes.t.

Module OverlayEntry.

Inductive t :=
  | Put (value : ValueBytes)
  | Delete.

(** The slice of the source's [match entry { Put(value) => value.as_slice(), Delete => &[] }]. *)
Definition slice (e : t) : result bytes :=
  match e with Put v => ValueBytes.as_slice v | Delete => Ok [] end.

Definition value_len (e : t) : Z :=
  match e with Put v => ValueBytes.len v | Delete => 0 end.

(** What an entry says about its key: a new value or a deletion. *)
Definition denotes (e : t) (o : option bytes) : Prop :=
  match e, o with
  | Put v, Some bs => ValueBytes.denotes v bs
  | Delete, None => True
  | _, _ => False
  end.

Definition contents (o : option bytes) : bytes := default [] o.

Lemma denotes_slice e o : denotes e o → slice e = Ok (contents o).
Proof. by destruct e, o. Qed.

Lemma denotes_value_len e o : denotes e o → value_len e = blen (contents o).
Proof. destruct e, o; try done. apply ValueBytes.denotes_len. Qed.

End OverlayEntry.
Abbreviation OverlayEntry := OverlayEntry.t.

(** ** Batches

    A staged map and the mutations it stands for, in the same order. *)

Abbreviation mutation := (bytes * option bytes)%type.

Definition staged_denotes (staged : KeyMap OverlayEntry) (muts : list mutation) : Prop :=
  Forall2 (λ s m, s.1 = m.1 ∧ OverlayEntry.denotes s.2 m.2) staged muts.

Lemma staged_denotes_blen staged muts :
  staged_denotes staged muts → blen staged = blen muts.
Proof. intros Hd. unfold blen. by rewrite (Forall2_length _ _ _ Hd). Qed.

Lemma staged_denotes_keys staged muts :
  staged_denotes staged muts → staged.*1 = muts.*1.
Proof. induction 1 as [|[??][??] ?? [??] ? IH]; csimpl in *; congruence. Qed.
