(* ===== verification/Log.v ===== *)
(** * Overlay log records: [lkv/src/format/log.rs]

    The record header, the batch record and the compact marker: their sizes,
    their checksums (streamed, and with the cached checksums of large values) and
    the bytes they write. *)

From S2P Require Import Prelude Errors Crates Io Superblock Values.

Module Marker.

Inductive t := Put | Delete | Compact | Batch.

#[global] Instance marker_eq_dec : EqDecision t.
Proof. solve_decision. Defined.

(** [marker as u8]. *)
Definition as_u8 (m : t) : byte :=
  match m with Put => Byte.x01 | Delete => Byte.x02 | Compact => Byte.x03 | Batch => Byte.x04 end.

Definition from_byte (b : byte) : option t :=
  match b with
  | Byte.x01 => Some Put
  | Byte.x02 => Some Delete
  | Byte.x03 => Some Compact
  | Byte.x04 => Some Batch
  | _ => None
  end.

Lemma from_byte_as_u8 m : from_byte (as_u8 m) = Some m.
Proof. by destruct m. Qed.

End Marker.
Abbreviation Marker := Marker.t.

(** The marker an entry is written with. *)
Definition entry_marker (e : OverlayEntry) : Marker :=
  match e with OverlayEntry.Put _ => Marker.Put | OverlayEntry.Delete => Marker.Delete end.

Module log.

Definition MAX_LOG_PAYLOAD_SIZE : Z := 4294967295.
Definition MAX_BATCH_OPERATIONS : Z := 1000000.
Definition LOG_HEADER_SIZE : Z := 17.
Definition LOG_HEADER_CHECKSUM_OFFSET : Z := 13.

Section Log.
Context `{Crc32c}.

(** The loop of [batch_payload_len]. *)
Fixpoint payload_len_loop (staged : KeyMap OverlayEntry) (len : Z) : result Z :=
  match staged with
  | [] => Ok len
  | (key, entry) :: staged =>
      len ← ok_or (l ← checked_add len 9;
                   l ← checked_add l (blen key);
                   checked_add l (OverlayEntry.value_len entry))
                  (error.from_io InvalidInput "batch is too large");
      payload_len_loop staged len
  end.

Definition batch_payload_len (staged : KeyMap OverlayEntry) : result Z :=
  if MAX_BATCH_OPERATIONS <? blen staged
  then Err (error.from_io InvalidInput
    ("transaction exceeds the " +:+ fmt_num MAX_BATCH_OPERATIONS +:+ " operation limit"))
  else
  len ← payload_len_loop staged 4;
  if MAX_LOG_PAYLOAD_SIZE <? len
  then Err (error.from_io InvalidInput "transaction payload exceeds the log record limit")
  else
  (* u32::try_from(len) *)
  if len <? U32 then Ok len else Err (error.from_io InvalidInput "batch is too large").

(** [u32::try_from(staged.len())]. *)
Definition batch_count (staged : KeyMap OverlayEntry) : result Z :=
  if blen staged <? U32 then Ok (blen staged)
  else Err (error.from_io InvalidInput "too many batch operations").

Definition checksum_parts (marker : Marker) (key_len value_len : Z) (first second : bytes) : Z :=
  let checksum := crc32c_append 0 [Marker.as_u8 marker] in
  let checksum := crc32c_append checksum (u32_le key_len) in
  let checksum := crc32c_append checksum (u32_le value_len) in
  let checksum := crc32c_append checksum first in
  crc32c_append checksum second.

Definition record_checksum_start (marker : Marker) (key_len value_len : Z) : Z :=
  checksum_parts marker key_len value_len [] [].

Definition record_checksum (marker : Marker) (key_len value_len : Z) (payload : bytes) : Z :=
  crc32c_append (record_checksum_start marker key_len value_len) payload.

(** The loop of [batch_record_checksum]. *)
Fixpoint batch_checksum_loop (staged : KeyMap OverlayEntry)
    (value_checksums : option (KeyMap Z)) (checksum : Z) : result Z :=
  match staged with
  | [] => Ok checksum
  | (key, entry) :: staged =>
      value ← OverlayEntry.slice entry;
      let checksum := crc32c_append checksum [Marker.as_u8 (entry_marker entry)] in
      let checksum := crc32c_append checksum (u32_le (blen key)) in
      let checksum := crc32c_append checksum (u32_le (blen value)) in
      let checksum := crc32c_append checksum key in
      checksum ← match entry with
        | OverlayEntry.Put v =>
            match (values ← value_checksums; KeyMap.get values key) with
            | Some value_checksum =>
                Ok (crc32c_combine checksum value_checksum (ValueBytes.len v))
            | None => value ← ValueBytes.as_slice v; Ok (crc32c_append checksum value)
            end
        | OverlayEntry.Delete => Ok checksum
        end;
      batch_checksum_loop staged value_checksums checksum
  end.

Definition batch_record_checksum (staged : KeyMap OverlayEntry)
    (value_checksums : option (KeyMap Z)) (payload_len : Z) : result Z :=
  count ← batch_count staged;
  let checksum := checksum_parts Marker.Batch 0 payload_len [] [] in
  let checksum := crc32c_append checksum (u32_le count) in
  batch_checksum_loop staged value_checksums checksum.

(** The header array of [write_record_header]. *)
Definition record_header (marker : Marker) (key_len value_len record_checksum : Z) : bytes :=
  let fields := [Marker.as_u8 marker] ++ u32_le key_len ++ u32_le value_len
                ++ u32_le record_checksum in
  fields ++ u32_le (crc32c fields).

Section Writers.
Context {S} `{Writer S}.

Definition write_record_header (marker : Marker) (key_len value_len record_checksum : Z) : M S () :=
  write_all (record_header marker key_len value_len record_checksum).

Fixpoint write_operations (staged : KeyMap OverlayEntry) : M S () :=
  match staged with
  | [] => mret ()
  | (key, entry) :: staged =>
      value ← lift (OverlayEntry.slice entry);
      _ ← write_all [Marker.as_u8 (entry_marker entry)];
      _ ← write_all (u32_le (blen key));
      _ ← write_all (u32_le (blen value));
      _ ← write_all key;
      _ ← write_all value;
      write_operations staged
  end.

Definition write_batch_record_inner (staged : KeyMap OverlayEntry)
    (value_checksums : option (KeyMap Z)) : M S () :=
  payload_len ← lift (batch_payload_len staged);
  count ← lift (batch_count staged);
  checksum ← lift (batch_record_checksum staged value_checksums payload_len);
  _ ← write_record_header Marker.Batch 0 payload_len checksum;
  _ ← write_all (u32_le count);
  write_operations staged.

Definition write_batch_record_with_checksums (staged : KeyMap OverlayEntry)
    (value_checksums : KeyMap Z) : M S () :=
  write_batch_record_inner staged
    (match value_checksums with [] => None | _ => Some value_checksums end).

Definition write_compact_marker : M S () :=
  let checksum := checksum_parts Marker.Compact 0 0 [] [] in
  write_record_header Marker.Compact 0 0 checksum.

End Writers.

(** ** The bytes of a record, as one string *)

Definition encode_op (m : mutation) : bytes :=
  let '(key, o) := m in
  let value := OverlayEntry.contents o in
  [Marker.as_u8 (if o then Marker.Put else Marker.Delete)]
  ++ u32_le (blen key) ++ u32_le (blen value) ++ key ++ value.

Definition encode_ops (muts : list mutation) : bytes := concat (encode_op <$> muts).

Definition encode_payload (muts : list mutation) : bytes :=
  u32_le (blen muts) ++ encode_ops muts.

Definition encode_record (muts : list mutation) : bytes :=
  let payload := encode_payload muts in
  record_header Marker.Batch 0 (blen payload)
    (record_checksum Marker.Batch 0 (blen payload) payload) ++ payload.

Definition compact_marker : bytes :=
  record_header Marker.Compact 0 0 (record_checksum Marker.Compact 0 0 []).

End Log.

(** ** Lemmas *)

(** The running checksum stays a [u32]. *)
Ltac crc_range := repeat apply crc32c_append_range; first [assumption | lia].

Section Facts.
Context `{Crc32cLaws}.
Implicit Types (staged : KeyMap OverlayEntry) (muts : list mutation).

(** The cached checksums of large values are the checksums of those values. *)
Definition checksums_match staged (vc : option (KeyMap Z)) : Prop :=
  ∀ values k v c, vc = Some values → (k, OverlayEntry.Put v) ∈ staged →
    KeyMap.get values k = Some c → ∃ bs, ValueBytes.denotes v bs ∧ c = crc32c bs.

Lemma blen_encode_op m :
  blen (encode_op m) = 9 + blen m.1 + blen (OverlayEntry.contents m.2).
Proof. destruct m as [k o]. unfold encode_op. cbn [fst snd]. len. Qed.

Lemma encode_ops_cons m muts : encode_ops (m :: muts) = encode_op m ++ encode_ops muts.
Proof. done. Qed.

Lemma blen_encode_payload muts : blen (encode_payload muts) = 4 + blen (encode_ops muts).
Proof. unfold encode_payload. len. Qed.

Lemma blen_record_header m k v c : blen (record_header m k v c) = LOG_HEADER_SIZE.
Proof. unfold record_header, LOG_HEADER_SIZE. len. Qed.

Lemma blen_encode_record muts :
  blen (encode_record muts) = LOG_HEADER_SIZE + blen (encode_payload muts).
Proof. unfold encode_record. by rewrite blen_app, blen_record_header. Qed.

Lemma blen_compact_marker : blen compact_marker = LOG_HEADER_SIZE.
Proof. apply blen_record_header. Qed.

Lemma checksum_parts_flat m k v :
  checksum_parts m k v [] [] =
  crc32c_append 0 ([Marker.as_u8 m] ++ u32_le k ++ u32_le v).
Proof.
  unfold checksum_parts. rewrite !crc32c_append_nil by crc_range.
  by rewrite !crc32c_append_app by crc_range.
Qed.

Lemma checksum_parts_range m k v : 0 ≤ checksum_parts m k v [] [] < U32.
Proof. rewrite checksum_parts_flat. by apply crc32c_append_range. Qed.

Lemma record_checksum_range m k v p : 0 ≤ record_checksum m k v p < U32.
Proof. apply crc32c_append_range, checksum_parts_range. Qed.

(** One step of the streamed checksum covers one encoded operation. *)
Lemma crc_op c k bs mk rest :
  0 ≤ c < U32 →
  crc32c_append c (([Marker.as_u8 mk] ++ u32_le (blen k) ++ u32_le (blen bs) ++ k ++ bs) ++ rest) =
  crc32c_append (crc32c_append (crc32c_append (crc32c_append (crc32c_append
    (crc32c_append c [Marker.as_u8 mk]) (u32_le (blen k))) (u32_le (blen bs))) k) bs) rest.
Proof.
  intros Hc. by rewrite !crc32c_append_app by crc_range.
Qed.

Lemma batch_checksum_loop_eq staged muts vc c :
  staged_denotes staged muts → checksums_match staged vc → 0 ≤ c < U32 →
  batch_checksum_loop staged vc c = Ok (crc32c_append c (encode_ops muts)).
Proof.
  intros Hd. revert c.
  induction Hd as [|[k e] [k' o] staged muts [Hk Ho] Hd IH]; intros c Hm Hc.
  { cbn. by rewrite crc32c_append_nil. }
  cbn in Hk, Ho. subst k'. rewrite encode_ops_cons. unfold encode_op.
  assert (Hm' : checksums_match staged vc).
  { intros values k2 v2 c2 ? Hin. eapply Hm; eauto. set_solver. }
  cbn [batch_checksum_loop].
  rewrite (OverlayEntry.denotes_slice _ _ Ho). rstep.
  destruct e as [v|], o as [bs|]; try done; cbn [entry_marker OverlayEntry.contents default].
  - rewrite crc_op by done.
    destruct (values ← vc; KeyMap.get values k) as [vck|] eqn:Ev.
    + apply bind_Some in Ev as (values&->&Ev).
      destruct (Hm values k v vck eq_refl ltac:(set_solver) Ev) as (bs'&Hbs'&->).
      unfold ValueBytes.denotes in *. assert (bs' = bs) as -> by congruence. rstep.
      rewrite (ValueBytes.denotes_len v bs) by done.
      rewrite crc32c_combine_append by crc_range. apply IH; [done|crc_range].
    + rewrite Ho. rstep. apply IH; [done|crc_range].
  - change (OverlayEntry.contents None) with (@nil byte). rewrite (crc_op c k []) by done. rewrite (crc32c_append_nil (crc32c_append _ k)) by crc_range.
    apply IH; [done|crc_range].
Qed.

Lemma batch_record_checksum_eq staged muts vc n :
  staged_denotes staged muts → checksums_match staged vc → blen muts < U32 →
  batch_record_checksum staged vc n = Ok (record_checksum Marker.Batch 0 n (encode_payload muts)).
Proof.
  intros Hd Hm Hn. unfold batch_record_checksum, batch_count.
  rewrite (staged_denotes_blen _ _ Hd). replace (blen muts <? U32) with true by lia. rstep.
  rewrite (batch_checksum_loop_eq staged muts) by
    auto using crc32c_append_range, checksum_parts_range.
  unfold record_checksum, record_checksum_start, encode_payload.
  by rewrite crc32c_append_app by apply checksum_parts_range.
Qed.

Lemma payload_len_loop_eq staged muts len :
  staged_denotes staged muts → 0 ≤ len →
  payload_len_loop staged len =
    if len + blen (encode_ops muts) <? U64 then Ok (len + blen (encode_ops muts))
    else match staged with [] => Ok len | _ => Err (error.from_io InvalidInput "batch is too large") end.
Proof.
  intros Hd. revert len. induction Hd as [|[k e] [k' o] staged muts [Hk Ho] Hd IH]; intros len Hlen.
  { cbn. rewrite blen_nil, Z.add_0_r. by destruct (_ <? _). }
  cbn in Hk, Ho. subst k'. cbn [payload_len_loop].
  rewrite encode_ops_cons, blen_app, blen_encode_op. cbn [fst snd].
  rewrite (OverlayEntry.denotes_value_len _ _ Ho).
  pose proof (blen_nonneg k). pose proof (blen_nonneg (OverlayEntry.contents o)).
  pose proof (blen_nonneg (encode_ops muts)).
  destruct (decide (len + 9 + blen k + blen (OverlayEntry.contents o) < U64)) as [Hlt|Hge].
  - rewrite checked_add_ok by lia. cbn. rewrite checked_add_ok by lia. cbn.
    rewrite checked_add_ok by lia. rstep. rewrite IH by lia.
    replace (len + 9 + blen k + blen (OverlayEntry.contents o) + blen (encode_ops muts))
      with (len + (9 + blen k + blen (OverlayEntry.contents o) + blen (encode_ops muts))) by lia.
    destruct (_ <? U64) eqn:E; [done|]. bool_prop.
    destruct staged; [|done]. inversion Hd; subst.
    change (blen (encode_ops [])) with 0 in E. lia.
  - replace (_ <? U64) with false by lia.
    destruct (l ← checked_add len 9; l ← checked_add l (blen k);
              checked_add l (blen (OverlayEntry.contents o))) as [x|] eqn:E; [|done].
    run_inv. lia.
Qed.

Lemma batch_payload_len_Ok staged muts n :
  staged_denotes staged muts →
  batch_payload_len staged = Ok n ↔
  n = blen (encode_payload muts) ∧ blen muts ≤ MAX_BATCH_OPERATIONS ∧ n ≤ MAX_LOG_PAYLOAD_SIZE.
Proof.
  intros Hd. unfold batch_payload_len. rewrite (staged_denotes_blen _ _ Hd).
  rewrite (payload_len_loop_eq staged muts 4 Hd) by lia. rewrite blen_encode_payload.
  unfold MAX_BATCH_OPERATIONS, MAX_LOG_PAYLOAD_SIZE.
  destruct (_ <? blen muts) eqn:?; bool_prop; [split; [done|lia]|].
  destruct (4 + _ <? U64) eqn:?; bool_prop; rstep.
  - destruct (_ <? 4 + _) eqn:?; bool_prop; [split; [done|lia]|].
    replace (_ <? U32) with true by lia. split; [intros [= <-]; lia|intros (->&_); done].
  - destruct Hd; [done|]. split; [done|lia].
Qed.

Lemma batch_payload_len_no_panic staged muts :
  staged_denotes staged muts → no_panic (batch_payload_len staged).
Proof.
  intros Hd. unfold batch_payload_len. repeat no_panic_step.
  rewrite (payload_len_loop_eq staged muts 4 Hd) by lia. repeat no_panic_step.
Qed.

End Facts.

Section Writing.
Context `{Crc32cLaws} {S} `{Writer S}.
Implicit Types (staged : KeyMap OverlayEntry) (muts : list mutation).

(** The [write_all] calls of one operation. *)
Definition op_parts (m : mutation) : list bytes :=
  let '(key, o) := m in
  let value := OverlayEntry.contents o in
  [[Marker.as_u8 (if o then Marker.Put else Marker.Delete)];
   u32_le (blen key); u32_le (blen value); key; value].

Definition record_parts muts : list bytes :=
  let payload := encode_payload muts in
  record_header Marker.Batch 0 (blen payload)
    (record_checksum Marker.Batch 0 (blen payload) payload)
  :: u32_le (blen muts) :: concat (op_parts <$> muts).

Lemma concat_record_parts muts : concat (record_parts muts) = encode_record muts.
Proof.
  unfold record_parts, encode_record. cbn [concat]. f_equal. unfold encode_payload. f_equal.
  unfold encode_ops. induction muts as [|[k o] muts IH]; [done|].
  csimpl. rewrite IH. unfold encode_op. by rewrite <- !app_assoc.
Qed.

Lemma write_operations_parts staged muts (s : S) :
  staged_denotes staged muts →
  write_operations staged s = write_parts (concat (op_parts <$> muts)) s.
Proof.
  intros Hd. revert s. induction Hd as [|[k e] [k' o] staged muts [Hk Ho] Hd IH]; intros s; [done|].
  cbn in Hk, Ho. subst k'. csimpl. rewrite (OverlayEntry.denotes_slice _ _ Ho).
  replace (entry_marker e) with (if o then Marker.Put else Marker.Delete)
    by (by destruct e, o).
  unfold lift. unfold mbind at 1, M_bind at 1.
  do 5 (apply M_bind_ext; intros [] ?). apply IH.
Qed.

Lemma write_batch_record_parts staged muts vc n (s : S) :
  staged_denotes staged muts → checksums_match staged vc → batch_payload_len staged = Ok n →
  write_batch_record_inner staged vc s = write_parts (record_parts muts) s.
Proof.
  intros Hd Hm Hn. apply (batch_payload_len_Ok staged muts) in Hn as Hn'; [|done].
  destruct Hn' as (->&Hc&_). unfold MAX_BATCH_OPERATIONS in Hc.
  unfold write_batch_record_inner, record_parts. rewrite Hn, M_lift_ok.
  unfold batch_count. rewrite (staged_denotes_blen _ _ Hd).
  replace (blen muts <? U32) with true by lia. rewrite M_lift_ok.
  rewrite (batch_record_checksum_eq staged muts) by (auto; lia).
  rewrite M_lift_ok. unfold write_record_header.
  do 2 (apply M_bind_ext; intros [] ?). by apply write_operations_parts.
Qed.

End Writing.

(** ** Properties *)

Section Properties.
Context `{Crc32cLaws} {S} `{Writer S}.

(** C36: the size check is exact. [batch_payload_len] accepts a batch exactly when
    it has at most 1,000,000 operations and its serialised payload fits in [u32],
    and then returns the length of the payload that is written. *)
Theorem batch_payload_len_exact staged muts n :
  staged_denotes staged muts →
  batch_payload_len staged = Ok n ↔
  n = blen (encode_payload muts) ∧ blen muts ≤ 1000000 ∧ n < U32.
Proof.
  intros Hd. rewrite (batch_payload_len_Ok staged muts n Hd).
  unfold MAX_BATCH_OPERATIONS, MAX_LOG_PAYLOAD_SIZE. lia.
Qed.

(** C35: cached value checksums do not change the record. Whenever the cached
    checksums are those of the staged values, combining them gives the same run
    (same bytes, same outcome) as checksumming every value again, on any stream. *)
Theorem cached_checksums_same_record staged muts values (s : S) :
  staged_denotes staged muts → checksums_match staged (Some values) →
  write_batch_record_with_checksums staged values s = write_batch_record_inner staged None s.
Proof.
  intros Hd Hm. unfold write_batch_record_with_checksums.
  destruct values as [|v values]; [done|].
  destruct (batch_payload_len staged) as [n|e|] eqn:Hn.
  - by rewrite !(write_batch_record_parts staged muts _ n).
  - unfold write_batch_record_inner. by rewrite Hn.
  - by apply (batch_payload_len_no_panic staged muts) in Hn.
Qed.

End Properties.

Section WriteRecord.
Context `{Crc32cLaws} {S} `{LawfulWriter S}.

Lemma write_batch_record_lawful staged muts vc n (s : S) :
  staged_denotes staged muts → checksums_match staged vc → batch_payload_len staged = Ok n →
  stream_ok s → stream_pos s + LOG_HEADER_SIZE + n ≤ ISIZE_MAX →
  ∃ s', write_batch_record_inner staged vc s = (Ok (), s') ∧
    stream_upd s s'
      (splice (stream_data s) (stream_pos s - stream_base s) (encode_record muts))
      (stream_pos s + LOG_HEADER_SIZE + n).
Proof.
  intros Hd Hm Hn Hok Hlen. rewrite (write_batch_record_parts staged muts _ n) by done.
  apply (batch_payload_len_Ok staged muts) in Hn as (->&_&_); [|done].
  pose proof (blen_encode_record muts) as Hl. rewrite <- concat_record_parts in Hl.
  destruct (write_parts_lawful s (record_parts muts)) as (s'&Hw&Hok'&Hb&Hp&_&Hne); [done|lia|].
  exists s'. split; [done|]. split_and!; auto; [|lia].
  rewrite Hne, concat_record_parts; [done|].
  intros E. rewrite E in Hl. pose proof (blen_nonneg (encode_payload muts)).
  unfold LOG_HEADER_SIZE in Hl. rewrite blen_nil in Hl. lia.
Qed.

Lemma write_compact_marker_bytes {S'} `{Writer S'} (s : S') : write_compact_marker s = write_all compact_marker s.
Proof.
  unfold write_compact_marker, write_record_header, compact_marker, record_checksum, record_checksum_start.
  by rewrite crc32c_append_nil by apply checksum_parts_range.
Qed.

Lemma write_compact_marker_lawful (s : S) :
  stream_ok s → stream_pos s + LOG_HEADER_SIZE ≤ ISIZE_MAX →
  ∃ s', write_compact_marker s = (Ok (), s') ∧
    stream_upd s s' (splice (stream_data s) (stream_pos s - stream_base s) compact_marker)
      (stream_pos s + LOG_HEADER_SIZE).
Proof.
  intros Hok Hlen. rewrite write_compact_marker_bytes, <- blen_compact_marker.
  apply write_all_lawful; [done| |by rewrite blen_compact_marker].
  intros E'. pose proof blen_compact_marker as Hl. rewrite E' in Hl. done.
Qed.

End WriteRecord.

(** ** Concrete batches *)

Import RefInstances.

Definition demo_staged : KeyMap OverlayEntry :=
  [([Byte.x61], OverlayEntry.Put (ValueBytes.Owned [Byte.x01; Byte.x02; Byte.x03]));
   ([Byte.x62], OverlayEntry.Delete)].
Definition demo_muts : list mutation :=
  [([Byte.x61], Some [Byte.x01; Byte.x02; Byte.x03]); ([Byte.x62], None)].
Definition demo_checksums : KeyMap Z := [([Byte.x61], crc32c [Byte.x01; Byte.x02; Byte.x03])].

Lemma demo_denotes : staged_denotes demo_staged demo_muts.
Proof. repeat constructor. Qed.

Lemma demo_checksums_match : checksums_match demo_staged (Some demo_checksums).
Proof.
  intros values k v c [= <-] Hin Hg. apply list_elem_of_In in Hin.
  destruct Hin as [[= <- <-]|[[=]|[]]]. unfold KeyMap.get, demo_checksums in Hg.
  rewrite decide_True in Hg by done. apply (inj Some) in Hg. rewrite <- Hg.
  exists [Byte.x01; Byte.x02; Byte.x03]. split; reflexivity.
Qed.

Lemma batch_payload_len_exact_witness :
  batch_payload_len demo_staged = Ok 27 ∧ blen (encode_payload demo_muts) = 27.
Proof.
  split; [|reflexivity].
  apply (batch_payload_len_exact demo_staged demo_muts 27 demo_denotes).
  split; [reflexivity|]. split; [vm_compute; discriminate|reflexivity].
Defined.

Lemma cached_checksums_same_record_witness :
  write_batch_record_with_checksums demo_staged demo_checksums (MkFile [] 0 [] []) =
  write_batch_record_inner demo_staged None (MkFile [] 0 [] []).
Proof.
  exact (cached_checksums_same_record demo_staged demo_muts demo_checksums
           (MkFile [] 0 [] []) demo_denotes demo_checksums_match).
Defined.

(** The header bytes of [record_header_bytes_are_stable]. *)
Example record_header_stable :
  let payload := u32_le 0 in
  Z_of_u8 <$> record_header Marker.Batch 0 (blen payload)
                (record_checksum Marker.Batch 0 (blen payload) payload) =
  [0x04; 0x00; 0x00; 0x00; 0x00; 0x04; 0x00; 0x00; 0x00; 0x1d; 0xc6; 0x0e; 0x5e; 0x7e;
   0x79; 0x3c; 0x73].
Proof. vm_compute. reflexivity. Qed.

End log.
