(* ===== verification/Segment.v ===== *)
(** * Base segments: [lkv/src/format/segment.rs]

    A Base segment is a header, an open-addressing hash index, the records and a
    table of block checksums. The file models how a segment is measured, written,
    laid out, checksummed, read and validated. The theorems show that the index is
    at most 80% full, that the measured size is the written size, that a written
    segment has exactly the specified bytes, passes every check of a [Full] open,
    and that reading untrusted bytes never panics. *)

From S2P Require Import Prelude Errors Crates Io Superblock.

Module segment.

Definition SLOT_SIZE : Z := 12.
Definition CHECKSUM_BLOCK_SIZE : Z := 64 * 1024.
(** [CHECKSUM_BLOCK_SIZE] as the length of a block. *)
Definition BLOCK : nat := Z.to_nat CHECKSUM_BLOCK_SIZE.
Lemma BLOCK_Z : Z.of_nat BLOCK = CHECKSUM_BLOCK_SIZE.
Proof. apply Z2Nat.id. unfold CHECKSUM_BLOCK_SIZE. lia. Qed.
Lemma BLOCK_pos : (0 < BLOCK)%nat.
Proof. pose proof BLOCK_Z as E. unfold CHECKSUM_BLOCK_SIZE in E. lia. Qed.
#[global] Opaque BLOCK.

Definition CHECKSUM_FOOTER_SIZE : Z := 24.
Definition EMPTY_SEGMENT_SIZE : Z := BASE_HEADER + 4 + CHECKSUM_FOOTER_SIZE.
Definition MAX_KEY_SIZE : Z := 1024 * 1024.
Definition MAX_VALUE_SIZE : Z := 4294967295.
(** [b"HASH"] and [b"CRC3"]. *)
Definition HASH_SECTION_ID : bytes := [Byte.x48; Byte.x41; Byte.x53; Byte.x48].
Definition CHECKSUM_SECTION_ID : bytes := [Byte.x43; Byte.x52; Byte.x43; Byte.x33].
Definition WRITE_BUFFER_SIZE : Z := 256 * 1024.

Definition check_lengths (key value : bytes) : result () :=
  fail_if ((MAX_KEY_SIZE <? blen key) || (MAX_VALUE_SIZE <? blen value))
    (error.from_io InvalidInput
      ("key or value exceeds the format limit (" +:+ fmt_num MAX_KEY_SIZE +:+ " key bytes, "
       +:+ fmt_num MAX_VALUE_SIZE +:+ " value bytes)")).

(** [record_at]: the record at [offset], inside the first [data_size] bytes. *)
Definition record_at (mapping : bytes) (offset data_size : Z) : result (bytes * bytes * Z) :=
  header_end ← ok_or (opt_filter (λ e, e <=? data_size) (checked_add offset 8))
    (error.invalid_base "truncated record header");
  header ← ok_or (get_range mapping offset header_end)
    (error.invalid_base "record header lies outside mapping");
  key_len ← format.u32_at header 0;
  value_len ← format.u32_at header 4;
  value_start ← ok_or (checked_add header_end key_len)
    (error.invalid_base "record key length overflow");
  end_ ← ok_or (opt_filter (λ e, e <=? data_size) (checked_add value_start value_len))
    (error.invalid_base "record extends beyond segment");
  key ← ok_or (get_range mapping header_end value_start)
    (error.invalid_base "record key lies outside mapping");
  value ← ok_or (get_range mapping value_start end_)
    (error.invalid_base "record value lies outside mapping");
  Ok (key, value, end_).

(** [trusted_record_at]: no checks; indexing panics outside the mapping. *)
Definition trusted_record_at (mapping : bytes) (offset : Z) : result (bytes * bytes * Z) :=
  key_len ← format.u32_at mapping offset;
  offset4 ← add_ovf offset 4;
  value_len ← format.u32_at mapping offset4;
  key_start ← add_ovf offset 8;
  value_start ← add_ovf key_start key_len;
  end_ ← add_ovf value_start value_len;
  key ← index_range mapping key_start value_start;
  value ← index_range mapping value_start end_;
  Ok (key, value, end_).

Record WrittenSegment := MkWrittenSegment { ws_size : Z; ws_metadata_checksum : Z }.

Record WrittenBase := MkWrittenBase {
  wb_size : Z; wb_slots : Z; wb_len : Z; wb_metadata_checksum : Z
}.

(** [map]: the mapped range of a file; the length and the mapping are system calls. *)
Definition map (offset size : Z) : M File bytes :=
  if size =? 0 then lift (Err (error.from_io InvalidData "cannot map an empty segment")) else
  end_ ← lift (ok_or (checked_add offset size)
    (error.invalid_base "segment range overflows file offsets"));
  len ← file.len;
  if len <? end_
  then lift (Err (error.invalid_base "segment extends beyond the database file")) else
  file.syscall (λ _ f, (unwrap (get_range (file_content f) offset end_), f)).

(** [checked_next_power_of_two] and [is_power_of_two]. *)
Definition checked_next_power_of_two (n : Z) : option Z :=
  let p := 2 ^ Z.log2_up n in if p <? U64 then Some p else None.
Definition is_power_of_two (n : Z) : bool := (0 <? n) && (Z.land n (n - 1) =? 0).

Definition base_slot_count (len : Z) : result Z :=
  if len =? 0 then Ok 0 else
  ok_or (scaled ← checked_mul len 5; checked_next_power_of_two (div_ceil scaled 4))
    (error.from_io InvalidInput "too many entries").

(** The loop of [measure_base_iter]. *)
Fixpoint measure_loop (entries : list (bytes * bytes)) (observed records_size : Z)
    : result (Z * Z) :=
  match entries with
  | [] => Ok (observed, records_size)
  | (key, value) :: entries =>
      observed ← ok_or (checked_add observed 1) (error.from_io InvalidInput "too many entries");
      records_size ← ok_or (size ← checked_add records_size 8;
                            size ← checked_add size (blen key);
                            checked_add size (blen value))
                           (error.from_io InvalidInput "base is too large");
      measure_loop entries observed records_size
  end.

Definition measure_base_iter (entries : list (bytes * bytes)) : result (Z * Z) :=
  let too_large := error.from_io InvalidInput "base is too large" in
  '(observed, records_size) ← measure_loop entries 0 BASE_HEADER;
  slots ← base_slot_count observed;
  index_size ← ok_or (checked_mul slots SLOT_SIZE) too_large;
  size ← ok_or (checked_add records_size index_size) too_large;
  checksum_size ← ok_or (checksums ← checked_mul (div_ceil size CHECKSUM_BLOCK_SIZE) 4;
                         checked_add checksums CHECKSUM_FOOTER_SIZE) too_large;
  total ← ok_or (checked_add size checksum_size) too_large;
  Ok (observed, total).

(** ** Writing *)

(** [while index[slot].1 != 0]: linear probing for a free slot. With [slots] of
    fuel every slot has been seen; a full index would be probed for ever, which
    the model shows as [Panic]. *)
Fixpoint probe_free (fuel : nat) (index : list (Z * Z)) (mask slot : Z) : result Z :=
  match fuel with
  | O => Panic
  | S fuel =>
      '(_, used) ← unwrap (index !! Z.to_nat slot);
      if used =? 0 then Ok slot else probe_free fuel index mask (Z.land (slot + 1) mask)
  end.

(** Enters one key into the index. *)
Definition index_entry `{Xxh3} (slots : Z) (key : bytes) (offset : Z) (index : list (Z * Z))
    : result (list (Z * Z)) :=
  let h := xxh3_64 key in
  mask ← unwrap (checked_sub slots 1);
  slot ← probe_free (Z.to_nat slots) index mask (Z.land h mask);
  Ok (<[Z.to_nat slot := (Z.shiftr h 32, offset)]> index).

(** [checksum_metadata]: the checksum table and its footer. *)
Definition checksum_metadata `{Crc32c, Alloc} (data_size : Z) (checksums : list Z)
    : result bytes :=
  let too_large := error.from_io InvalidInput "checksum table is too large" in
  table_size ← ok_or (checked_mul (blen checksums) 4) too_large;
  metadata_size ← ok_or (checked_add table_size CHECKSUM_FOOTER_SIZE) too_large;
  _ ← fail_if (negb (try_reserve metadata_size)) too_large;
  let table := concat (u32_le <$> checksums) in
  Ok (table ++ CHECKSUM_SECTION_ID ++ u32_le CHECKSUM_FOOTER_SIZE ++ u64_le data_size
      ++ u32_le CHECKSUM_BLOCK_SIZE ++ u32_le (crc32c table)).

Section Writing.
Context `{Crc32c, Xxh3, Alloc} {S} `{Stream S}.

(** The entry loop of [write_base_with_metadata_at]: the index, the next offset
    and the number of entries. *)
Fixpoint write_entries (slots : Z) (entries : list (bytes * bytes)) (index : list (Z * Z))
    (offset written_len : Z) : M (BufWriter S) (list (Z * Z) * Z * Z) :=
  match entries with
  | [] => mret (index, offset, written_len)
  | (key, value) :: entries =>
      _ ← lift (check_lengths key value);
      _ ← write_all (u32_le (blen key));
      _ ← write_all (u32_le (blen value));
      _ ← write_all key;
      _ ← write_all value;
      index ← lift (index_entry slots key offset index);
      offset ← lift (ok_or (checked_add offset (8 + blen key + blen value))
                           (error.from_io InvalidInput "base is too large"));
      write_entries slots entries index offset (written_len + 1)
  end.

Fixpoint write_slots (index : list (Z * Z)) : M (BufWriter S) () :=
  match index with
  | [] => mret ()
  | (fingerprint, offset) :: index =>
      _ ← write_all (u32_le fingerprint);
      _ ← write_all (u64_le offset);
      write_slots index
  end.

(** The read loop of [append_block_checksums]. *)
Fixpoint block_checksums (fuel : nat) (remaining : Z) : M S (list Z) :=
  if remaining <=? 0 then mret [] else
  match fuel with
  | O => lift Panic
  | Datatypes.S fuel =>
      let len := Z.min remaining CHECKSUM_BLOCK_SIZE in
      block ← read_exact len;
      rest ← block_checksums fuel (remaining - len);
      mret (crc32c block :: rest)
  end.

Definition append_block_checksums (start data_size : Z) : M S WrittenSegment :=
  _ ← seek (Start start);
  checksums ← block_checksums (Z.to_nat (div_ceil data_size CHECKSUM_BLOCK_SIZE)) data_size;
  metadata ← lift (checksum_metadata data_size checksums);
  let metadata_checksum := crc32c metadata in
  end_ ← lift (add_ovf start data_size);
  _ ← seek (Start end_);
  _ ← write_all metadata;
  size ← lift (ok_or (checked_add data_size (blen metadata))
                     (error.from_io InvalidInput "segment is too large"));
  mret (MkWrittenSegment size metadata_checksum).

(** The header and the index, written after the records. *)
Definition write_index (slots len : Z) (index : list (Z * Z)) : M (BufWriter S) () :=
  _ ← write_all HASH_SECTION_ID;
  _ ← write_all (u32_le BASE_HEADER);
  _ ← write_all (u64_le slots);
  _ ← write_all (u64_le len);
  if 0 <? slots then write_slots index else mret ().

Definition write_base_with_metadata_at (start len : Z) (entries : list (bytes * bytes))
    : M S WrittenBase :=
  slots ← lift (base_slot_count len);
  let index := replicate (Z.to_nat slots) (0, 0) in
  index_bytes ← lift (ok_or (checked_mul slots SLOT_SIZE)
                            (error.from_io InvalidInput "base index is too large"));
  records_start ← lift (ok_or (o ← checked_add start BASE_HEADER; checked_add o index_bytes)
                              (error.from_io InvalidInput "base offset overflow"));
  _ ← seek (Start records_start);
  '(index, offset, written_len) ← BufWriter.scoped WRITE_BUFFER_SIZE (
    r ← write_entries slots entries index records_start 0;
    _ ← BufWriter.flush_buf;
    mret r);
  _ ← lift (fail_if (negb (written_len =? len))
              (error.from_io InvalidInput "entry count changed while writing base"));
  _ ← seek (Start start);
  _ ← BufWriter.scoped WRITE_BUFFER_SIZE (
    write_index slots len index ≫= λ _, BufWriter.flush_buf);
  written ← append_block_checksums start (offset - start);
  mret (MkWrittenBase (ws_size written) slots len (ws_metadata_checksum written)).

Definition write_base_at (start len : Z) (entries : list (bytes * bytes)) : M S Z :=
  w ← write_base_with_metadata_at start len entries; mret (wb_size w).

End Writing.

(** ** Reading *)

Record SegmentLayout := MkLayout { layout_data : bytes; layout_checksums : bytes }.

Definition segment_layout `{Crc32c} (bs : bytes) : result SegmentLayout :=
  _ ← fail_if (blen bs <? CHECKSUM_FOOTER_SIZE) (error.invalid_base "missing checksum footer");
  footer ← index_range bs (blen bs - CHECKSUM_FOOTER_SIZE) (blen bs);
  id ← index_range footer 0 4;
  _ ← fail_if (negb (bool_decide (id = CHECKSUM_SECTION_ID)))
        (error.invalid_base "invalid checksum footer");
  footer_size ← format.u32_at footer 4;
  _ ← fail_if (negb (footer_size =? CHECKSUM_FOOTER_SIZE))
        (error.invalid_base "invalid checksum footer size");
  data_size ← format.u64_at footer 8;
  block_size ← format.u32_at footer 16;
  _ ← fail_if (negb (block_size =? CHECKSUM_BLOCK_SIZE))
        (error.invalid_base "unsupported checksum block size");
  let checksum_count := div_ceil data_size CHECKSUM_BLOCK_SIZE in
  checksum_size ← ok_or (checked_mul checksum_count 4)
                        (error.invalid_base "checksum table overflow");
  _ ← fail_if (negb (bool_decide (
        (size ← checked_add data_size checksum_size; checked_add size CHECKSUM_FOOTER_SIZE)
          = Some (blen bs))))
        (error.invalid_base "checksum layout does not match segment size");
  checksums ← index_range bs data_size (data_size + checksum_size);
  table_crc ← format.u32_at footer 20;
  _ ← fail_if (negb (crc32c checksums =? table_crc))
        (error.corrupted_metadata "checksum table CRC32C mismatch");
  data ← index_range bs 0 data_size;
  Ok (MkLayout data checksums).

(** The loop of [verify_segment_blocks] over the remaining blocks. *)
Fixpoint verify_blocks `{Crc32c} (blocks : list bytes) (checksums : bytes)
    (segment_offset index : Z) : result () :=
  match blocks with
  | [] => Ok ()
  | block :: blocks =>
      expected ← format.u32_at checksums (index * 4);
      if negb (crc32c block =? expected)
      then Err (error.corrupted_block segment_offset index)
      else verify_blocks blocks checksums segment_offset (index + 1)
  end.

Definition verify_segment_blocks `{Crc32c} (layout : SegmentLayout) (segment_offset : Z)
    : result () :=
  verify_blocks (chunks BLOCK (layout_data layout))
    (layout_checksums layout) segment_offset 0.

Definition segment_metadata_checksum `{Crc32c} (bs : bytes) : result Z :=
  layout ← segment_layout bs;
  metadata ← index_range bs (blen (layout_data layout)) (blen bs);
  Ok (crc32c metadata).

Definition records_start (slots data_size : Z) : result Z :=
  start ← ok_or (size ← checked_mul slots SLOT_SIZE; checked_add BASE_HEADER size)
                (error.invalid_base "hash index size overflow");
  if data_size <? start then Err (error.invalid_base "truncated hash index") else Ok start.

Definition read_base_header (bs : bytes) : result (Z * Z) :=
  let invalid := error.from_io InvalidData "invalid base file" in
  _ ← fail_if (blen bs <? BASE_HEADER) invalid;
  id ← index_range bs 0 4;
  _ ← fail_if (negb (bool_decide (id = HASH_SECTION_ID))) invalid;
  header_size ← format.u32_at bs 4;
  _ ← fail_if (negb (header_size =? BASE_HEADER))
        (error.from_io InvalidData "invalid base header size");
  slots ← format.u64_at bs 8;
  len ← format.u64_at bs 16;
  _ ← fail_if (negb (slots =? 0) && negb (is_power_of_two slots))
        (error.from_io InvalidData "invalid slot count");
  _ ← records_start slots (blen bs);
  Ok (slots, len).

(** ** Validation *)

(** The record loop of [validate_base]: where the records end, the fingerprint
    of the record at each offset, and the keys. *)
Fixpoint validate_records `{Xxh3} (count : nat) (bs : bytes) (absolute_start offset : Z)
    (records : gmap Z Z) (keys : gset bytes) : result (Z * gmap Z Z) :=
  match count with
  | O => Ok (offset, records)
  | S count =>
      header_end ← ok_or (checked_add offset 8) (error.invalid_base "record overflow");
      _ ← fail_if (blen bs <? header_end) (error.invalid_base "truncated record header");
      key_len ← format.u32_at bs offset;
      value_len ← format.u32_at bs (offset + 4);
      value_start ← ok_or (checked_add header_end key_len)
                          (error.invalid_base "key length overflow");
      end_ ← ok_or (checked_add value_start value_len)
                   (error.invalid_base "value length overflow");
      _ ← fail_if (blen bs <? end_) (error.invalid_base "record extends beyond base");
      key ← index_range bs header_end value_start;
      _ ← fail_if (bool_decide (key ∈ keys)) (error.invalid_base "duplicate key");
      absolute ← add_ovf absolute_start offset;
      validate_records count bs absolute_start end_
        (<[absolute := Z.shiftr (xxh3_64 key) 32]> records) ({[key]} ∪ keys)
  end.

(** The slot loop: the offsets the index refers to. *)
Fixpoint validate_slots (count : nat) (bs : bytes) (slot : Z) (records : gmap Z Z)
    (referenced : gset Z) : result (gset Z) :=
  match count with
  | O => Ok referenced
  | S count =>
      let slot_offset := BASE_HEADER + slot * SLOT_SIZE in
      stored_fingerprint ← format.u32_at bs slot_offset;
      record_offset ← format.u64_at bs (slot_offset + 4);
      if record_offset =? 0 then
        _ ← fail_if (negb (stored_fingerprint =? 0))
              (error.invalid_base "empty slot has a fingerprint");
        validate_slots count bs (slot + 1) records referenced
      else
      _ ← fail_if (negb (bool_decide (records !! record_offset = Some stored_fingerprint)))
            (error.invalid_base "slot points outside base or has the wrong fingerprint");
      _ ← fail_if (bool_decide (record_offset ∈ referenced))
            (error.invalid_base "record is referenced by multiple slots");
      validate_slots count bs (slot + 1) records ({[record_offset]} ∪ referenced)
  end.

Definition validate_base `{Xxh3, Alloc} (bs : bytes) (absolute_start slots len : Z) : result () :=
  start ← records_start slots (blen bs);
  _ ← fail_if (saturating_sub (blen bs) start / 8 <? len)
        (error.invalid_base "entry count exceeds segment capacity");
  _ ← fail_if (negb (try_reserve len)) (error.invalid_base "record verification allocation failed");
  _ ← fail_if (negb (try_reserve len)) (error.invalid_base "key verification allocation failed");
  '(offset, records) ← validate_records (Z.to_nat len) bs absolute_start start ∅ ∅;
  _ ← fail_if (negb (offset =? blen bs)) (error.invalid_base "unreferenced bytes at end of base");
  _ ← fail_if (negb (try_reserve len)) (error.invalid_base "index verification allocation failed");
  referenced ← validate_slots (Z.to_nat slots) bs 0 records ∅;
  fail_if (negb (Z.of_nat (size referenced) =? len))
    (error.invalid_base "record is missing from hash index").

(** ** The hash index

    A table with [slots = 2 ^ bits] entries; [slot_at h d] is the slot of the
    [d]-th probe for the hash [h]. *)

Section Index.
Context `{Xxh3Laws}.
Implicit Types (index : list (Z * Z)) (placed : list (bytes * Z)) (slots : Z).

Definition fingerprint (key : bytes) : Z := Z.shiftr (xxh3_64 key) 32.
Definition slot_at slots (h d : Z) : nat := Z.to_nat ((h + d) mod slots).

Definition used index (i : nat) : Prop := ∃ f o, index !! i = Some (f, o) ∧ o ≠ 0.
Definition free index (i : nat) : Prop := ∃ f, index !! i = Some (f, 0).

Definition pow2 slots : Prop := ∃ bits, 0 ≤ bits ∧ slots = 2 ^ bits.

(** Every entry of the index belongs to a placed record, every placed record is
    reached by probing from the hash of its key over used slots only, and no
    record is entered twice. *)
Definition index_ok slots index placed : Prop :=
  blen index = slots
  ∧ (∀ i f o, index !! i = Some (f, o) →
       (f, o) = (0, 0) ∨ ∃ k, (k, o) ∈ placed ∧ f = fingerprint k ∧ o ≠ 0)
  ∧ (∀ k o, (k, o) ∈ placed → ∃ d, 0 ≤ d < slots
       ∧ index !! slot_at slots (xxh3_64 k) d = Some (fingerprint k, o)
       ∧ ∀ d', 0 ≤ d' < d → used index (slot_at slots (xxh3_64 k) d'))
  ∧ filter (λ o, o ≠ 0) index.*2 ≡ₚ placed.*2.

Lemma fingerprint_range k : 0 ≤ fingerprint k < U32.
Proof.
  unfold fingerprint. rewrite Z.shiftr_div_pow2 by lia. pose proof (xxh3_64_range k).
  split; [apply Z.div_pos; lia|]. apply Z.div_lt_upper_bound; lia.
Qed.

Lemma pow2_pos slots : pow2 slots → 0 < slots.
Proof. intros (b&?&->). by apply Z.pow_pos_nonneg. Qed.

Lemma land_mask slots a : pow2 slots → Z.land a (slots - 1) = a mod slots.
Proof.
  intros (b&?&->). rewrite <- Z.land_ones by done. by rewrite Z.ones_equiv, Z.sub_1_r.
Qed.

Lemma slot_at_bound slots h d : 0 < slots → (slot_at slots h d < Z.to_nat slots)%nat.
Proof. intros. unfold slot_at. pose proof (Z.mod_pos_bound (h + d) slots). lia. Qed.

Lemma used_or_free index i : (i < length index)%nat → used index i ∨ free index i.
Proof.
  intros [[f o] Hl]%lookup_lt_is_Some_2. destruct (decide (o = 0)) as [->|]; [right|left].
  - by exists f.
  - by exists f, o.
Qed.

Lemma used_not_free index i : used index i → ¬ free index i.
Proof. intros (f&o&Hl&?) (f'&Hl'). congruence. Qed.

(** Probing from a hash ends at the first free slot. *)
Lemma probe_free_spec fuel index slots h j :
  pow2 slots → blen index = slots → 0 ≤ h → 0 ≤ j → j + Z.of_nat fuel = slots →
  (∀ d, 0 ≤ d < j → used index (slot_at slots h d)) →
  (∃ d, 0 ≤ d < slots ∧ free index (slot_at slots h d)) →
  ∃ d, j ≤ d < slots
    ∧ probe_free fuel index (slots - 1) ((h + j) mod slots) = Ok ((h + d) mod slots)
    ∧ free index (slot_at slots h d) ∧ ∀ d', 0 ≤ d' < d → used index (slot_at slots h d').
Proof.
  intros Hp Hl Hh. pose proof (pow2_pos _ Hp). revert j.
  induction fuel as [|fuel IH]; intros j Hj Hf Hu (d0&Hd0&Hfree).
  { destruct (used_not_free index (slot_at slots h d0)); [apply Hu; lia|done]. }
  cbn [probe_free]. fold (slot_at slots h j).
  destruct (used_or_free index (slot_at slots h j)) as [(f&o&Hi&Ho)|(f&Hi)].
  { pose proof (slot_at_bound slots h j). unfold blen in Hl. lia. }
  - rewrite Hi. rstep. replace (o =? 0) with false by lia.
    rewrite (land_mask slots _ Hp). rewrite Zplus_mod_idemp_l, <- Z.add_assoc.
    destruct (IH (j + 1)) as (d&Hd&Hpr&Hfr&Hus); [lia..| |eauto|].
    + intros d Hd. destruct (decide (d = j)) as [->|]; [by exists f, o|apply Hu; lia].
    + exists d. split; [lia|]. done.
  - rewrite Hi. rstep. exists j. split_and!; [lia|lia|done|by exists f|done].
Qed.

Lemma filter_insert_free index i f o x :
  index !! i = Some (f, 0) → x ≠ 0 →
  filter (λ o, o ≠ 0) (<[i:=(o, x)]> index).*2 ≡ₚ x :: filter (λ o, o ≠ 0) index.*2.
Proof.
  intros Hi Hx. pose proof (lookup_lt_Some _ _ _ Hi).
  rewrite insert_take_drop by done. rewrite <- (take_drop_middle index i _ Hi) at 3.
  rewrite !fmap_app, !filter_app. csimpl. rewrite !filter_cons.
  rewrite decide_True by done. rewrite decide_False by tauto.
  by rewrite Permutation_middle.
Qed.

Lemma not_full_free index :
  (length (filter (λ o, o ≠ 0%Z) index.*2) < length index)%nat →
  ∃ i, (i < length index)%nat ∧ free index i.
Proof.
  induction index as [|[f o] index IH]; csimpl; [lia|]. rewrite filter_cons.
  case_decide as Ho; csimpl.
  - intros ?. destruct IH as (i&?&g&?); [lia|]. exists (S i). split; [lia|]. by exists g.
  - intros _. exists 0%nat. split; [lia|]. exists f. cbn. do 2 f_equal. lia.
Qed.

(** A free slot exists as long as the table is not full. *)
Lemma free_slot_exists index placed slots h :
  index_ok slots index placed → 0 < slots → blen placed < slots → 0 ≤ h →
  ∃ d, 0 ≤ d < slots ∧ free index (slot_at slots h d).
Proof.
  intros (Hl&_&_&Hp) Hs Hlt Hh.
  assert (Hex : ∃ i, (i < length index)%nat ∧ free index i).
  { apply not_full_free. rewrite Hp, length_fmap. unfold blen in *. lia. }
  destruct Hex as (i&Hi&Hf). exists ((Z.of_nat i - h) mod slots).
  pose proof (Z.mod_pos_bound (Z.of_nat i - h) slots Hs). split; [lia|].
  unfold slot_at. rewrite Zplus_mod_idemp_r. replace (h + (Z.of_nat i - h)) with (Z.of_nat i) by lia.
  rewrite Z.mod_small by (unfold blen in Hl; lia). by rewrite Nat2Z.id.
Qed.

(** Entering a record keeps the index well formed. *)
Lemma index_entry_spec index placed slots key offset :
  pow2 slots → index_ok slots index placed → blen placed < slots → offset ≠ 0 →
  ∃ index', index_entry slots key offset index = Ok index'
    ∧ index_ok slots index' (placed ++ [(key, offset)]).
Proof.
  intros Hp Hok Hlt Ho. pose proof (pow2_pos _ Hp) as Hs. pose proof (xxh3_64_range key) as Hh.
  pose proof Hok as (Hl&Hent&Hpl&Hperm). unfold index_entry, checked_sub.
  replace (1 <=? slots) with true by lia. rstep. rewrite (land_mask slots _ Hp).
  destruct (probe_free_spec (Z.to_nat slots) index slots (xxh3_64 key) 0) as (d&Hd&Hpr&(f&Hf)&Hus);
    [done|done|lia|lia|lia|intros; lia|by eapply free_slot_exists; eauto; lia|].
  rewrite Z.add_0_r in Hpr. rewrite Hpr. rstep.
  fold (slot_at slots (xxh3_64 key) d) (fingerprint key).
  set (i := slot_at slots (xxh3_64 key) d) in *. eexists; split; [done|].
  assert (Hkeep : ∀ i', used index i' → <[i:=(fingerprint key, offset)]> index !! i' = index !! i').
  { intros i' Hu'. apply list_lookup_insert_ne. intros ->. apply (used_not_free _ _ Hu'). by exists f. }
  assert (Hkeepu : ∀ i', used index i' → used (<[i:=(fingerprint key, offset)]> index) i').
  { intros i' Hu'. unfold used. rewrite Hkeep; done. }
  pose proof (lookup_lt_Some _ _ _ Hf) as Hlt'. split_and!.
  - unfold blen in *. by rewrite length_insert.
  - intros i' f' o' [(->&[= <- <-]&_)|[_ Hi']]%list_lookup_insert_Some.
    + right. exists key. split_and!; [set_solver|done|done].
    + destruct (Hent _ _ _ Hi') as [?|(k&?&?&?)]; [by left|right]. exists k. set_solver.
  - intros k o [Hin|[= -> ->]%list_elem_of_singleton]%elem_of_app.
    + destruct (Hpl k o Hin) as (dk&?&Hi'&Hus'). exists dk. split_and!; [lia|lia| |auto].
      rewrite Hkeep; [done|]. exists (fingerprint k), o. split; [done|].
      intros ->. assert (Hz : 0 ∈ filter (λ o, o ≠ 0) index.*2)
        by (rewrite Hperm; apply list_elem_of_fmap; by exists (k, 0)).
      apply list_elem_of_filter in Hz as [? _]. done.
    + exists d. split_and!; [lia|lia|by apply list_lookup_insert_eq|auto].
  - rewrite (filter_insert_free _ _ _ _ _ Hf Ho), Hperm, fmap_app. csimpl.
    by rewrite <- Permutation_cons_append.
Qed.

Lemma index_ok_empty slots : 0 ≤ slots → index_ok slots (replicate (Z.to_nat slots) (0, 0)) [].
Proof.
  intros Hs. split_and!.
  - rewrite blen_replicate. lia.
  - intros i f o [[= -> ->] _]%lookup_replicate. by left.
  - set_solver.
  - rewrite fmap_replicate. induction (Z.to_nat slots) as [|n IH]; [done|].
    cbn [replicate snd]. rewrite filter_cons, decide_False by tauto. exact IH.
Qed.

End Index.

(** ** Sizes *)

Lemma next_power_of_two_spec n p :
  checked_next_power_of_two n = Some p → pow2 p ∧ n ≤ p < U64.
Proof.
  unfold checked_next_power_of_two. destruct (_ <? U64) eqn:?; intros [= <-]. bool_prop.
  pose proof (Z.log2_up_nonneg n). split; [by exists (Z.log2_up n)|]. split; [|lia].
  destruct (decide (n ≤ 1)).
  - pose proof (Z.pow_pos_nonneg 2 (Z.log2_up n)). lia.
  - apply Z.log2_up_spec. lia.
Qed.

(** The index has a power of two of slots, at most 80% of them used. *)
Lemma base_slot_count_spec len slots :
  0 ≤ len → base_slot_count len = Ok slots →
  (len = 0 ∧ slots = 0) ∨ (0 < len ∧ pow2 slots ∧ 5 * len ≤ 4 * slots ∧ slots < U64).
Proof.
  unfold base_slot_count. intros Hl. destruct (len =? 0) eqn:?; bool_prop.
  { intros [= <-]. by left. }
  intros (scaled&[-> _]%checked_mul_Some&Hp)%ok_or_Ok%bind_Some.
  apply next_power_of_two_spec in Hp as (Hp&Hle&Hlt). right.
  pose proof (div_ceil_mul (len * 5) 4 ltac:(lia)). split_and!; [lia|done|lia|lia].
Qed.

(** ** The bytes of a segment *)

Definition encode_entry (e : bytes * bytes) : bytes :=
  u32_le (blen e.1) ++ u32_le (blen e.2) ++ e.1 ++ e.2.
Definition encode_entries (entries : list (bytes * bytes)) : bytes :=
  concat (encode_entry <$> entries).
Definition encode_slot (e : Z * Z) : bytes := u32_le e.1 ++ u64_le e.2.
Definition encode_slots (index : list (Z * Z)) : bytes := concat (encode_slot <$> index).

(** The records of the entries: their keys and absolute offsets. *)
Fixpoint placed_from (offset : Z) (entries : list (bytes * bytes)) : list (bytes * Z) :=
  match entries with
  | [] => []
  | e :: entries => (e.1, offset) :: placed_from (offset + blen (encode_entry e)) entries
  end.

Definition base_header (slots len : Z) : bytes :=
  HASH_SECTION_ID ++ u32_le BASE_HEADER ++ u64_le slots ++ u64_le len.
Definition base_data (slots : Z) (index : list (Z * Z)) (entries : list (bytes * bytes)) : bytes :=
  base_header slots (blen entries) ++ encode_slots index ++ encode_entries entries.

Section Bytes.
Context `{Crc32c}.

Definition block_table (data : bytes) : bytes :=
  concat (u32_le ∘ crc32c <$> chunks BLOCK data).
Definition base_footer (data : bytes) : bytes :=
  CHECKSUM_SECTION_ID ++ u32_le CHECKSUM_FOOTER_SIZE ++ u64_le (blen data)
  ++ u32_le CHECKSUM_BLOCK_SIZE ++ u32_le (crc32c (block_table data)).
Definition base_metadata (data : bytes) : bytes := block_table data ++ base_footer data.
Definition segment_bytes (data : bytes) : bytes := data ++ base_metadata data.

End Bytes.

Definition entry_ok (e : bytes * bytes) : Prop :=
  blen e.1 ≤ MAX_KEY_SIZE ∧ blen e.2 ≤ MAX_VALUE_SIZE.

Lemma check_lengths_ok e : entry_ok e → check_lengths e.1 e.2 = Ok ().
Proof.
  intros [Hk Hv]. unfold check_lengths.
  replace (_ <? blen e.1) with false by lia. by replace (_ <? blen e.2) with false by lia.
Qed.

Lemma blen_encode_entry e : blen (encode_entry e) = 8 + blen e.1 + blen e.2.
Proof. unfold encode_entry. len. Qed.
Lemma encode_entries_cons e entries :
  encode_entries (e :: entries) = encode_entry e ++ encode_entries entries.
Proof. done. Qed.
Lemma encode_slots_cons e index : encode_slots (e :: index) = encode_slot e ++ encode_slots index.
Proof. done. Qed.
Lemma blen_encode_slots index : blen (encode_slots index) = blen index * SLOT_SIZE.
Proof.
  unfold SLOT_SIZE. induction index as [|e index IH]; [done|].
  rewrite encode_slots_cons, blen_app, IH, blen_cons. unfold encode_slot. autorewrite with len. lia.
Qed.
Lemma blen_base_header slots len : blen (base_header slots len) = BASE_HEADER.
Proof. unfold base_header, HASH_SECTION_ID, BASE_HEADER. len. Qed.
Lemma blen_base_data slots index entries :
  blen (base_data slots index entries)
    = BASE_HEADER + blen index * SLOT_SIZE + blen (encode_entries entries).
Proof.
  unfold base_data. rewrite !blen_app, blen_base_header, blen_encode_slots. lia.
Qed.
Lemma blen_block_table `{Crc32c} data :
  blen (block_table data) = div_ceil (blen data) CHECKSUM_BLOCK_SIZE * 4.
Proof.
  unfold block_table. rewrite <- BLOCK_Z, <- blen_chunks by apply BLOCK_pos.
  induction (chunks _ data) as [|c cs IH]; [done|].
  rewrite fmap_cons. cbn [concat compose]. rewrite blen_app, IH, blen_cons. unfold compose. len.
Qed.
Lemma blen_base_footer `{Crc32c} data : blen (base_footer data) = CHECKSUM_FOOTER_SIZE.
Proof. unfold base_footer, CHECKSUM_SECTION_ID, CHECKSUM_FOOTER_SIZE. len. Qed.
Lemma blen_segment_bytes `{Crc32c} data :
  blen (segment_bytes data)
    = blen data + div_ceil (blen data) CHECKSUM_BLOCK_SIZE * 4 + CHECKSUM_FOOTER_SIZE.
Proof.
  unfold segment_bytes, base_metadata. rewrite !blen_app, blen_block_table, blen_base_footer. lia.
Qed.

(** [measure_base_iter] predicts the number of entries and the size of the segment. *)
Lemma measure_loop_spec entries observed size o' s' :
  measure_loop entries observed size = Ok (o', s') →
  o' = observed + blen entries ∧ s' = size + blen (encode_entries entries).
Proof.
  revert observed size. induction entries as [|[k v] entries IH]; intros observed size; cbn [measure_loop].
  { intros [= <- <-]. change (blen (encode_entries [])) with 0. rewrite blen_nil. lia. }
  intros Hm. run_inv. apply IH in Hm as [-> ->]. subst.
  rewrite encode_entries_cons, blen_cons, blen_app, blen_encode_entry. cbn [fst snd]. lia.
Qed.

Lemma measure_base_iter_spec `{Crc32c} entries index len size :
  measure_base_iter entries = Ok (len, size) →
  ∃ slots, base_slot_count (blen entries) = Ok slots ∧ len = blen entries
    ∧ (blen index = slots → size = blen (segment_bytes (base_data slots index entries))).
Proof.
  unfold measure_base_iter. intros Hm. apply bind_Ok in Hm as ([observed records]&Hl&Hm).
  apply measure_loop_spec in Hl as [-> ->]. rewrite Z.add_0_l in Hm. run_inv. simplify_eq.
  eexists. split; [eassumption|]. split; [done|]. intros Hi.
  rewrite blen_segment_bytes, blen_base_data, Hi.
  replace (BASE_HEADER + x * SLOT_SIZE + blen (encode_entries entries))
    with (BASE_HEADER + blen (encode_entries entries) + x * SLOT_SIZE) by lia. lia.
Qed.

(** The order of the entries does not matter. *)
Lemma blen_encode_entries_perm l l' : l ≡ₚ l' → blen (encode_entries l) = blen (encode_entries l').
Proof.
  induction 1 as [|x l l' _ IH|x y l|l1 l2 l3 _ IH1 _ IH2]; [done| | |lia];
    rewrite !encode_entries_cons, !blen_app; lia.
Qed.

Lemma measure_loop_ok entries observed size :
  observed + blen entries < U64 → size + blen (encode_entries entries) < U64 →
  measure_loop entries observed size = Ok (observed + blen entries, size + blen (encode_entries entries)).
Proof.
  revert observed size. induction entries as [|[k v] entries IH]; intros observed size Ho Hs.
  { cbn. change (blen (encode_entries [])) with 0. by rewrite blen_nil, !Z.add_0_r. }
  rewrite encode_entries_cons, blen_cons, blen_app, blen_encode_entry in *. cbn [fst snd measure_loop] in *.
  pose proof (blen_nonneg entries). pose proof (blen_nonneg (encode_entries entries)).
  pose proof (blen_nonneg k). pose proof (blen_nonneg v).
  rewrite checked_add_ok by lia. rstep. rewrite checked_add_ok by lia. cbn [mbind option_bind].
  rewrite checked_add_ok by lia. cbn [mbind option_bind]. rewrite checked_add_ok by lia. rstep.
  rewrite IH by lia. f_equal. f_equal; lia.
Qed.

Lemma measure_base_iter_no_panic entries : no_panic (measure_base_iter entries).
Proof.
  assert (Hl : ∀ o n, no_panic (measure_loop entries o n)).
  { induction entries as [|[k v] entries IH]; intros o n; cbn [measure_loop]; [discriminate|]. repeat no_panic_step. apply IH. }
  unfold measure_base_iter, base_slot_count. no_panic_step; [apply Hl|]. repeat no_panic_step.
Qed.

Lemma measure_loop_bounds entries observed size o' s' :
  measure_loop entries observed size = Ok (o', s') → observed < U64 → size < U64 → o' < U64 ∧ s' < U64.
Proof.
  revert observed size. induction entries as [|[k v] entries IH]; intros observed size; cbn [measure_loop].
  { by intros [= <- <-]. }
  intros Hm _ _. run_inv. apply IH in Hm; lia.
Qed.

Lemma measure_base_iter_perm l l' len size :
  l ≡ₚ l' → measure_base_iter l = Ok (len, size) → measure_base_iter l' = Ok (len, size).
Proof.
  intros Hp Hm. unfold measure_base_iter in *. apply bind_Ok in Hm as ([o r]&Hl&Hm).
  pose proof (measure_loop_spec _ _ _ _ _ Hl) as [Ho Hr].
  destruct (measure_loop_bounds _ _ _ _ _ Hl) as [Hob Hrb]; [lia|done|].
  assert (Hbl : blen l = blen l') by (unfold blen; by rewrite (Permutation_length Hp)).
  rewrite (blen_encode_entries_perm _ _ Hp) in Hr. rewrite Hbl in Ho.
  rewrite measure_loop_ok by lia. rstep. by rewrite <- Ho, <- Hr.
Qed.

(** ** Writing a segment *)

(** Entering all records into the index. *)
Definition fold_index `{Xxh3} (slots : Z) (placed : list (bytes * Z)) (index : list (Z * Z))
    : result (list (Z * Z)) :=
  foldM (λ index p, index_entry slots p.1 p.2 index) index placed.

Lemma fold_index_spec `{Xxh3Laws} slots placed index done :
  pow2 slots → index_ok slots index done → blen done + blen placed ≤ slots →
  Forall (λ p, p.2 ≠ 0) placed →
  ∃ index', fold_index slots placed index = Ok index' ∧ index_ok slots index' (done ++ placed).
Proof.
  intros Hp. revert index done. induction placed as [|[k o] placed IH]; intros index done Hi Hb Ho.
  { exists index. by rewrite app_nil_r. }
  rewrite blen_cons in Hb. apply Forall_cons in Ho as [Ho Hos]. pose proof (blen_nonneg placed).
  destruct (index_entry_spec index done slots k o Hp Hi) as (index1&Hi1&Hok1); [lia|done|].
  destruct (IH index1 (done ++ [(k, o)]) Hok1) as (index2&Hi2&Hok2);
    [rewrite blen_app, blen_cons, blen_nil; lia|done|].
  exists index2. unfold fold_index. cbn [foldM fst snd]. rewrite Hi1. rstep. split; [exact Hi2|].
  by rewrite <- app_assoc in Hok2.
Qed.

Lemma placed_from_bound offset entries :
  Forall (λ p, offset ≤ p.2) (placed_from offset entries).
Proof.
  revert offset. induction entries as [|e entries IH]; intros offset; cbn; constructor; [cbn; lia|].
  eapply Forall_impl; [apply IH|]. intros p. pose proof (blen_nonneg (encode_entry e)). cbn. lia.
Qed.

Lemma blen_placed_from offset entries : blen (placed_from offset entries) = blen entries.
Proof.
  revert offset. induction entries as [|e entries IH]; intros offset; [done|].
  cbn [placed_from]. by rewrite !blen_cons, IH.
Qed.

Definition entry_parts (e : bytes * bytes) : list bytes :=
  [u32_le (blen e.1); u32_le (blen e.2); e.1; e.2].
Definition slot_parts (e : Z * Z) : list bytes := [u32_le e.1; u64_le e.2].

Lemma concat_entry_parts entries :
  concat (concat (entry_parts <$> entries)) = encode_entries entries.
Proof.
  induction entries as [|e entries IH]; [done|]. rewrite encode_entries_cons, <- IH.
  rewrite fmap_cons. cbn [concat]. rewrite concat_app. f_equal. unfold entry_parts, encode_entry.
  cbn [concat]. by rewrite app_nil_r.
Qed.

Lemma concat_slot_parts index : concat (concat (slot_parts <$> index)) = encode_slots index.
Proof.
  induction index as [|e index IH]; [done|]. rewrite encode_slots_cons, <- IH.
  rewrite fmap_cons. cbn [concat]. rewrite concat_app. done.
Qed.

Section WriteFacts.
Context `{Crc32cLaws, Xxh3Laws, Alloc} {S} `{LawfulStream S}.
Implicit Types (entries : list (bytes * bytes)) (index : list (Z * Z)).

Lemma write_entries_parts slots entries index index' offset n (w : BufWriter S) :
  Forall entry_ok entries → fold_index slots (placed_from offset entries) index = Ok index' →
  offset + blen (encode_entries entries) < U64 →
  write_entries slots entries index offset n w =
    (write_parts (concat (entry_parts <$> entries)) ≫= λ _,
       mret (index', offset + blen (encode_entries entries), n + blen entries)) w.
Proof.
  intros Hok. revert index offset n w. induction Hok as [|[k v] entries He Hok IH];
    intros index offset n w Hi Hb.
  { injection Hi as ->. cbn. change (blen (encode_entries [])) with 0. by rewrite blen_nil, !Z.add_0_r. }
  unfold fold_index in Hi. cbn [placed_from foldM fst snd] in Hi.
  apply bind_Ok in Hi as (index1&Hi1&Hi). fold (fold_index slots (placed_from (offset + blen (encode_entry (k, v))) entries) index1) in Hi.
  rewrite encode_entries_cons, blen_app in Hb. rewrite encode_entries_cons, blen_app, blen_cons.
  pose proof (blen_nonneg (encode_entries entries)).
  pose proof (blen_encode_entry (k, v)) as Hl. cbn [fst snd] in Hl.
  rewrite fmap_cons. cbn [concat entry_parts fst snd write_parts app].
  cbn [write_entries]. pose proof (check_lengths_ok (k, v) He) as Hc. cbn [fst snd] in Hc.
  rewrite Hc, M_lift_ok.
  rewrite M_bind_assoc. apply M_bind_ext; intros [] w1.
  rewrite M_bind_assoc. apply M_bind_ext; intros [] w2.
  rewrite M_bind_assoc. apply M_bind_ext; intros [] w3.
  rewrite M_bind_assoc. apply M_bind_ext; intros [] w4.
  rewrite Hi1, M_lift_ok. rewrite checked_add_ok by lia. cbn [ok_or]. rewrite M_lift_ok.
  rewrite (IH index1 _ _ w4); [|by rewrite <- Hl|lia]. rewrite Hl. apply M_bind_ext; intros [] w5.
  by rewrite !Z.add_assoc.
Qed.

Lemma write_slots_parts index (w : BufWriter S) :
  write_slots index w = write_parts (concat (slot_parts <$> index)) w.
Proof.
  revert w. induction index as [|[f o] index IH]; intros w; [done|].
  rewrite fmap_cons. cbn [concat slot_parts fst snd write_parts app write_slots].
  do 2 (apply M_bind_ext; intros [] ?). apply IH.
Qed.

Lemma write_index_parts slots len index (w : BufWriter S) :
  blen index = slots →
  write_index slots len index w =
    write_parts ([HASH_SECTION_ID; u32_le BASE_HEADER; u64_le slots; u64_le len]
                 ++ concat (slot_parts <$> index)) w.
Proof.
  intros Hs. unfold write_index. cbn [app write_parts].
  do 4 (apply M_bind_ext; intros [] ?). destruct (0 <? slots) eqn:E; bool_prop.
  - apply write_slots_parts.
  - by rewrite (blen_0 index) by lia.
Qed.

Lemma block_checksums_lawful fuel (s : S) data :
  stream_ok s → blen data ≤ Z.of_nat fuel * CHECKSUM_BLOCK_SIZE →
  get_range (stream_data s) (stream_pos s - stream_base s)
    (stream_pos s - stream_base s + blen data) = Some data →
  ∃ s', block_checksums fuel (blen data) s
      = (Ok (crc32c <$> chunks BLOCK data), s')
    ∧ stream_upd s s' (stream_data s) (stream_pos s + blen data).
Proof.
  pose proof BLOCK_Z as Hn. pose proof BLOCK_pos. unfold CHECKSUM_BLOCK_SIZE in *.
  set (n := BLOCK) in *.
  revert s data. induction fuel as [|fuel IH]; intros s data Hok Hf Hg.
  - assert (data = []) as -> by (apply blen_0; lia).
    exists s. split; [done|]. split_and!; auto. rewrite blen_nil. lia.
  - destruct (decide (data = [])) as [->|Hne].
    { exists s. split; [done|]. split_and!; auto. rewrite blen_nil. lia. }
    pose proof (blen_pos data Hne).
    pose proof (get_range_Some _ _ _ _ Hg) as (?&?&_&_).
    cbn [block_checksums]. replace (blen data <=? 0) with false by lia.
    unfold CHECKSUM_BLOCK_SIZE. set (len := Z.min (blen data) (64 * 1024)).
    destruct (read_exact_lawful s len Hok) as (s1&got&Hr&Hg1&Hok1&Hb1&Hd1&Hp1); [lia..|].
    mrun Hr.
    assert (got = take n data) as ->.
    { pose proof (get_range_get_range _ _ _ _ 0 len Hg ltac:(lia) ltac:(lia)) as Hgg.
      rewrite Z.add_0_r, Hg1 in Hgg. rewrite get_range_in_bounds in Hgg by lia.
      injection Hgg as <-. rewrite drop_0, Z.sub_0_r. unfold len.
      destruct (decide (blen data ≤ 64 * 1024)).
      - rewrite !take_ge; [done|unfold blen in *; lia..].
      - f_equal. lia. }
    destruct (IH s1 (drop n data) Hok1) as (s2&Hb2&Hok2&Hbase2&Hd2&Hp2).
    + rewrite blen_drop. lia.
    + rewrite Hd1, Hb1, Hp1, blen_drop.
      assert (Hrest : get_range data len (blen data) = Some (drop n data)).
      { rewrite get_range_in_bounds by lia. f_equal. rewrite take_ge by (rewrite length_drop; unfold blen; lia).
        unfold len. destruct (decide (blen data ≤ 64 * 1024)).
        - rewrite !drop_ge; [done|unfold blen in *; lia..].
        - f_equal. lia. }
      rewrite <- Hrest. rewrite (get_range_get_range _ _ _ _ len (blen data) Hg) by lia.
      f_equal; lia.
    + replace (blen data - len) with (blen (drop n data)) by (rewrite blen_drop; lia).
      mrun Hb2. exists s2. rewrite (chunks_cons n data) by (done || lia). split; [done|].
      split_and!; [done|congruence|congruence|]. rewrite Hp2, Hp1, blen_drop. lia.
Qed.

Lemma checksum_metadata_ok data :
  blen (segment_bytes data) ≤ ISIZE_MAX → try_reserve (blen (base_metadata data)) = true →
  checksum_metadata (blen data) (crc32c <$> chunks BLOCK data)
    = Ok (base_metadata data).
Proof.
  intros Hb Ha. unfold checksum_metadata. rewrite blen_segment_bytes in Hb.
  unfold base_metadata in Ha. rewrite blen_app, blen_block_table, blen_base_footer in Ha.
  pose proof (blen_nonneg data). rewrite blen_fmap, blen_chunks, BLOCK_Z by apply BLOCK_pos.
  unfold CHECKSUM_FOOTER_SIZE in *.
  rewrite checked_mul_ok by lia. rstep. rewrite checked_add_ok by lia. rstep.
  rewrite Ha. rstep. unfold base_metadata, base_footer, block_table.
  rewrite (list_fmap_compose crc32c u32_le). reflexivity.
Qed.

Lemma checksum_metadata_starved data :
  blen (segment_bytes data) ≤ ISIZE_MAX → try_reserve (blen (base_metadata data)) = false →
  ∃ e, checksum_metadata (blen data) (crc32c <$> chunks BLOCK data) = Err e.
Proof.
  intros Hb Ha. unfold checksum_metadata. rewrite blen_segment_bytes in Hb.
  unfold base_metadata in Ha. rewrite blen_app, blen_block_table, blen_base_footer in Ha.
  pose proof (blen_nonneg data). rewrite blen_fmap, blen_chunks, BLOCK_Z by apply BLOCK_pos.
  unfold CHECKSUM_FOOTER_SIZE in *.
  rewrite checked_mul_ok by lia. rstep. rewrite checked_add_ok by lia. rstep. rewrite Ha. by eexists.
Qed.

(** The checksums behind the data; only the allocation of the table can fail. *)
Lemma append_block_checksums_lawful (s : S) start data :
  stream_ok s → stream_base s ≤ start → start + blen (segment_bytes data) ≤ ISIZE_MAX →
  get_range (stream_data s) (start - stream_base s) (start - stream_base s + blen data) = Some data →
  ∃ r s', append_block_checksums start (blen data) s = (r, s')
    ∧ (r = Ok (MkWrittenSegment (blen (segment_bytes data)) (crc32c (base_metadata data)))
         ∧ stream_upd s s' (splice (stream_data s) (start - stream_base s + blen data) (base_metadata data))
             (start + blen (segment_bytes data))
       ∨ ∃ e n, r = Err e ∧ try_reserve n = false).
Proof.
  intros Hok Hst Hb Hg. pose proof (stream_base_nonneg s Hok). pose proof (blen_nonneg data).
  pose proof (blen_nonneg (base_metadata data)).
  assert (Hsz : blen (segment_bytes data) = blen data + blen (base_metadata data))
    by (unfold segment_bytes; by rewrite blen_app).
  unfold append_block_checksums.
  destruct (seek_start s start Hok ltac:(lia)) as (s1&Hs1&Hok1&Hb1&Hd1&Hp1). mrun Hs1.
  destruct (block_checksums_lawful (Z.to_nat (div_ceil (blen data) CHECKSUM_BLOCK_SIZE)) s1 data)
    as (s2&Hs2&Hok2&Hb2&Hd2&Hp2); auto.
  { pose proof (div_ceil_mul (blen data) CHECKSUM_BLOCK_SIZE ltac:(done)).
    unfold CHECKSUM_BLOCK_SIZE in *. lia. }
  { by rewrite Hd1, Hb1, Hp1. }
  mrun Hs2. destruct (try_reserve (blen (base_metadata data))) eqn:Ha.
  2:{ destruct (checksum_metadata_starved data ltac:(lia) Ha) as [e He]. rewrite He. eexists (Err e), s2.
      split; [done|]. right. by eexists _, _. }
  rewrite checksum_metadata_ok by (done || lia). rewrite M_lift_ok.
  rewrite add_ovf_ok by lia. rewrite M_lift_ok.
  destruct (seek_start s2 (start + blen data) Hok2 ltac:(lia)) as (s3&Hs3&Hok3&Hb3&Hd3&Hp3). mrun Hs3.
  assert (Hne : base_metadata data ≠ []).
  { intros E. pose proof (blen_base_footer data) as Hf. unfold base_metadata in E.
    apply app_eq_nil in E as [_ E]. rewrite E in Hf. done. }
  destruct (write_all_lawful s3 (base_metadata data) Hok3 Hne) as (s4&Hs4&Hok4&Hb4&Hd4&Hp4); [lia|].
  mrun Hs4. rewrite checked_add_ok by lia. cbn [ok_or]. rewrite M_lift_ok.
  eexists (Ok _), s4. rewrite Hsz. split; [done|]. left. split; [done|]. split_and!; [done|congruence| |lia].
  rewrite Hd4, Hp3, Hd3, Hd2, Hd1, Hb3, Hb2, Hb1. f_equal. lia.
Qed.

(** The records, at their place after the index. *)
Lemma write_records_lawful (s : S) slots entries index index' offset :
  stream_ok s → stream_pos s = offset → Forall entry_ok entries →
  fold_index slots (placed_from offset entries) index = Ok index' →
  offset + blen (encode_entries entries) ≤ ISIZE_MAX →
  ∃ s', BufWriter.scoped WRITE_BUFFER_SIZE (
      r ← write_entries slots entries index offset 0; _ ← BufWriter.flush_buf; mret r) s
      = (Ok (index', offset + blen (encode_entries entries), blen entries), s')
    ∧ stream_upd s s'
        (if decide (entries = []) then stream_data s
         else splice (stream_data s) (offset - stream_base s) (encode_entries entries))
        (offset + blen (encode_entries entries)).
Proof.
  intros Hok Hp Hes Hi Hb.
  destruct (with_capacity_ok WRITE_BUFFER_SIZE s) as (Hok0&Hb0&Hd0&Hp0); [done|done|].
  destruct (write_parts_lawful (BufWriter.with_capacity WRITE_BUFFER_SIZE s)
    (concat (entry_parts <$> entries))) as (w&Hw&Hokw&Hbw&Hpw&He&Hne);
    rewrite ?concat_entry_parts in *; [done|rewrite Hp0; lia|].
  apply (scoped_lawful _ _ _ _ w); [|split_and!|done].
  - rewrite (write_entries_parts slots entries index index') by (done || lia).
    rewrite Z.add_0_l. by mrun Hw.
  - done.
  - by rewrite Hbw.
  - case_decide as E; [subst; rewrite He by done; done|]. rewrite Hne, Hd0, Hb0, Hp0, Hp; [done|].
    destruct entries as [|e entries]; [done|]. rewrite encode_entries_cons. intros E'.
    apply app_eq_nil in E' as [E' _]. pose proof (blen_encode_entry e) as Hl. rewrite E', blen_nil in Hl.
    pose proof (blen_nonneg e.1). pose proof (blen_nonneg e.2). lia.
  - rewrite Hpw, Hp0. lia.
Qed.

(** The header and the index, in front of the records. *)
Lemma write_index_lawful (s : S) slots len index :
  stream_ok s → blen index = slots → stream_pos s + BASE_HEADER + slots * SLOT_SIZE ≤ ISIZE_MAX →
  ∃ s', BufWriter.scoped WRITE_BUFFER_SIZE (write_index slots len index ≫= λ _, BufWriter.flush_buf) s
      = (Ok (), s')
    ∧ stream_upd s s'
        (splice (stream_data s) (stream_pos s - stream_base s) (base_header slots len ++ encode_slots index))
        (stream_pos s + BASE_HEADER + slots * SLOT_SIZE).
Proof.
  intros Hok Hs Hb.
  destruct (with_capacity_ok WRITE_BUFFER_SIZE s) as (Hok0&Hb0&Hd0&Hp0); [done|done|].
  set (parts := [HASH_SECTION_ID; u32_le BASE_HEADER; u64_le slots; u64_le len]
                 ++ concat (slot_parts <$> index)).
  assert (Hc : concat parts = base_header slots len ++ encode_slots index).
  { unfold parts. rewrite concat_app, concat_slot_parts. reflexivity. }
  assert (Hlen : blen (concat parts) = BASE_HEADER + slots * SLOT_SIZE)
    by (rewrite Hc, blen_app, blen_base_header, blen_encode_slots; lia).
  destruct (write_parts_lawful (BufWriter.with_capacity WRITE_BUFFER_SIZE s) parts)
    as (w&Hw&Hokw&Hbw&Hpw&_&Hne); [done|rewrite Hp0; lia|].
  destruct (scoped_lawful WRITE_BUFFER_SIZE s (write_index slots len index) () w
    (splice (stream_data s) (stream_pos s - stream_base s) (concat parts))
    (stream_pos s + BASE_HEADER + slots * SLOT_SIZE)) as (s'&Hs'&Hu); [| |lia|].
  - rewrite write_index_parts by done. exact Hw.
  - split_and!; [done|by rewrite Hbw| |rewrite Hpw, Hp0; lia]. rewrite Hne, Hd0, Hb0, Hp0; [done|].
    intros E. rewrite E in Hlen. pose proof (blen_nonneg index). subst slots.
    unfold BASE_HEADER, SLOT_SIZE in Hlen. rewrite blen_nil in Hlen. lia.
  - exists s'. rewrite Hc in Hu. split; [|done]. rewrite <- Hs'.
    unfold BufWriter.scoped. f_equal. unfold mbind, M_bind, mret, M_ret.
    destruct (write_index slots len index _) as [[[]| |] w1]; [|done..].
    by destruct (BufWriter.flush_buf w1) as [[[]| |] w2].
Qed.

Lemma slot_count_bounds entries slots :
  base_slot_count (blen entries) = Ok slots →
  0 ≤ slots ∧ (slots = 0 → entries = []) ∧ (0 < slots → pow2 slots) ∧ blen entries ≤ slots.
Proof.
  intros Hsc. destruct (base_slot_count_spec _ _ (blen_nonneg entries) Hsc) as [[He ->]|(?&?&?&?)].
  - split_and!; [lia|intros _; apply blen_0; lia|lia|lia].
  - split_and!; [lia|lia|done|lia].
Qed.

(** All entries find a slot. *)
Lemma build_index_spec entries slots rs :
  base_slot_count (blen entries) = Ok slots → 0 < rs →
  ∃ index, fold_index slots (placed_from rs entries) (replicate (Z.to_nat slots) (0, 0)) = Ok index
    ∧ index_ok slots index (placed_from rs entries).
Proof.
  intros Hsc Hrs. destruct (slot_count_bounds entries slots Hsc) as (Hs0&Hse&Hsp&Hcap).
  destruct (decide (slots = 0)) as [E|].
  { rewrite (Hse E). eexists; split; [done|]. by apply index_ok_empty. }
  apply (fold_index_spec slots (placed_from rs entries) _ []); [apply Hsp; lia|by apply index_ok_empty| |].
  - rewrite blen_nil, blen_placed_from. lia.
  - eapply Forall_impl; [apply placed_from_bound|]. intros p ?. cbn in *. lia.
Qed.

(** The whole segment: whatever the stream held there before, it holds the
    header, a well-formed index, the records and their checksums afterwards. *)
Lemma write_base_run (s : S) start slots entries :
  stream_ok s → stream_base s ≤ start → Forall entry_ok entries →
  base_slot_count (blen entries) = Ok slots →
  (∀ index, blen index = slots →
     start + blen (segment_bytes (base_data slots index entries)) ≤ ISIZE_MAX) →
  ∃ r s' index,
    let data := base_data slots index entries in
    let placed := placed_from (start + BASE_HEADER + slots * SLOT_SIZE) entries in
    index_ok slots index placed
    ∧ write_base_with_metadata_at start (blen entries) entries s = (r, s')
    ∧ (r = Ok (MkWrittenBase (blen (segment_bytes data)) slots (blen entries) (crc32c (base_metadata data)))
         ∧ stream_upd s s' (splice (stream_data s) (start - stream_base s) (segment_bytes data))
             (start + blen (segment_bytes data))
       ∨ ∃ e n, r = Err e ∧ try_reserve n = false).
Proof.
  intros Hok Hst Hes Hsc Hfit. pose proof (stream_base_nonneg s Hok).
  pose proof (blen_nonneg entries).
  destruct (slot_count_bounds entries slots Hsc) as (Hs0&_).
  set (rs := start + BASE_HEADER + slots * SLOT_SIZE).
  set (index0 := replicate (Z.to_nat slots) (0, 0)).
  destruct (build_index_spec entries slots rs Hsc) as (index&Hfold&Hiok);
    [unfold rs, BASE_HEADER, SLOT_SIZE; lia|]. fold index0 in Hfold.
 pose proof Hiok as (Hil&_). specialize (Hfit index Hil).
  set (data := base_data slots index entries) in *.
  assert (Hdl : blen data = BASE_HEADER + slots * SLOT_SIZE + blen (encode_entries entries))
    by (unfold data; by rewrite blen_base_data, Hil).
  assert (Hsz : blen (segment_bytes data) = blen data + blen (base_metadata data))
    by (unfold segment_bytes; by rewrite blen_app).
  pose proof (blen_nonneg (base_metadata data)). pose proof (blen_nonneg (encode_entries entries)).
  assert (Hrs : rs + blen (encode_entries entries) = start + blen data) by (unfold rs; lia).
  assert (0 ≤ slots * SLOT_SIZE) by (unfold SLOT_SIZE; lia). assert (0 ≤ BASE_HEADER) by done.
  unfold write_base_with_metadata_at. rewrite Hsc, M_lift_ok. fold index0.
  rewrite checked_mul_ok by lia. cbn [ok_or]. rewrite M_lift_ok.
  rewrite checked_add_ok by lia. cbn [mbind option_bind]. rewrite checked_add_ok by lia.
  cbn [ok_or]. rewrite M_lift_ok. fold rs.
  destruct (seek_start s rs Hok) as (s1&Hs1&Hok1&Hb1&Hd1&Hp1); [lia|]. mrun Hs1.
  destruct (write_records_lawful s1 slots entries index0 index rs) as (s2&Hs2&Hok2&Hb2&Hd2&Hp2);
    [done..|lia|]. mrun Hs2. rewrite Z.eqb_refl. cbn [negb fail_if]. rewrite M_lift_ok.
  destruct (seek_start s2 start Hok2) as (s3&Hs3&Hok3&Hb3&Hd3&Hp3); [rewrite Hb2, Hb1; lia|]. mrun Hs3.
  destruct (write_index_lawful s3 slots (blen entries) index) as (s4&Hs4&Hok4&Hb4&Hd4&Hp4);
    [done|done|lia|]. mrun Hs4.
  replace (rs + blen (encode_entries entries) - start) with (blen data) by lia.
  assert (Hd : stream_data s4 = splice (stream_data s) (start - stream_base s) data).
  { rewrite Hd4, Hd3, Hp3, Hb3, Hb2, Hb1, Hd2, Hd1, Hb1. unfold data, base_data. rewrite app_assoc.
    set (pre := base_header slots (blen entries) ++ encode_slots index).
    assert (Hpre : blen pre = BASE_HEADER + slots * SLOT_SIZE)
      by (unfold pre; rewrite blen_app, blen_base_header, blen_encode_slots; lia).
    case_decide as E; [by rewrite E, app_nil_r|].
    replace (rs - stream_base s) with (start - stream_base s + blen pre) by lia.
    by rewrite splice_splice_before by lia. }
  destruct (append_block_checksums_lawful s4 start data) as (r&s5&Hs5&Ho);
    [done|rewrite Hb4, Hb3, Hb2, Hb1; lia|done| |].
  { rewrite Hd, Hb4, Hb3, Hb2, Hb1. rewrite get_range_splice_in by lia.
    rewrite Z.sub_diag. apply get_range_all. lia. }
  destruct Ho as [(->&Hok5&Hb5&Hd5&Hp5)|(e&n&->&Hn)].
  2:{ exists (Err e), s5, index. rewrite (M_bind_err _ _ _ _ _ Hs5). split; [done|]. split; [done|]. right. by exists e, n. }
  mrun Hs5. eexists (Ok _), s5, index. split; [done|]. split; [done|]. left. split; [done|].
  split_and!; [done|congruence| |done]. rewrite Hd5, Hd, Hb4, Hb3, Hb2, Hb1.
  unfold segment_bytes. by rewrite splice_splice_next by lia.
Qed.

Lemma write_base_lawful (s : S) start slots entries :
  stream_ok s → stream_base s ≤ start → Forall entry_ok entries →
  base_slot_count (blen entries) = Ok slots →
  (∀ n, try_reserve n = true) →
  (∀ index, blen index = slots →
     start + blen (segment_bytes (base_data slots index entries)) ≤ ISIZE_MAX) →
  ∃ s' index,
    let data := base_data slots index entries in
    let placed := placed_from (start + BASE_HEADER + slots * SLOT_SIZE) entries in
    index_ok slots index placed
    ∧ write_base_with_metadata_at start (blen entries) entries s
        = (Ok (MkWrittenBase (blen (segment_bytes data)) slots (blen entries)
                 (crc32c (base_metadata data))), s')
    ∧ stream_upd s s' (splice (stream_data s) (start - stream_base s) (segment_bytes data))
        (start + blen (segment_bytes data)).
Proof.
  intros Hok Hst Hes Hsc Ha Hfit.
  destruct (write_base_run s start slots entries Hok Hst Hes Hsc Hfit) as (r&s'&index&Hi&Hr&[[-> Hu]|(e&n&_&Hn)]).
  - by exists s', index.
  - by rewrite Ha in Hn.
Qed.

End WriteFacts.

(** ** Reading a written segment *)

Section ReadFacts.
Context `{Crc32cLaws}.
Implicit Types (data : bytes).

Lemma base_footer_fields data :
  blen data < U64 →
  index_range (base_footer data) 0 4 = Ok CHECKSUM_SECTION_ID
  ∧ format.u32_at (base_footer data) 4 = Ok CHECKSUM_FOOTER_SIZE
  ∧ format.u64_at (base_footer data) 8 = Ok (blen data)
  ∧ format.u32_at (base_footer data) 16 = Ok CHECKSUM_BLOCK_SIZE
  ∧ format.u32_at (base_footer data) 20 = Ok (crc32c (block_table data)).
Proof.
  intros Hd. pose proof (blen_nonneg data). pose proof (crc32c_range (block_table data)).
  assert (Hid : blen CHECKSUM_SECTION_ID = 4) by done. unfold base_footer. split_and!.
  - unfold index_range. by rewrite get_range_head.
  - apply format.u32_at_get; [by seek_field|done|done].
  - apply format.u64_at_get; [by seek_field|lia|done].
  - apply format.u32_at_get; [by seek_field|done|done].
  - apply format.u32_at_get; [by seek_field|lia|done].
Qed.

(** The layout is read from what is behind the data: it is the same for other data of the
    same length. *)
Lemma segment_layout_behind data data' :
  blen data' = blen data → blen (segment_bytes data) ≤ ISIZE_MAX →
  segment_layout (data' ++ base_metadata data) = Ok (MkLayout data' (block_table data)).
Proof.
  intros Hdd Hb. pose proof (blen_nonneg data) as Hd.
  pose proof (blen_segment_bytes data) as Hs. pose proof (blen_block_table data) as Ht.
  pose proof (blen_nonneg (block_table data)). unfold CHECKSUM_FOOTER_SIZE in Hs.
  destruct (base_footer_fields data) as (F1&F2&F3&F4&F5); [lia|].
  assert (Hs' : blen (data' ++ base_metadata data) = blen (segment_bytes data))
    by (unfold segment_bytes; rewrite !blen_app; lia).
  unfold segment_layout, CHECKSUM_FOOTER_SIZE. rewrite Hs'. replace (_ <? 24) with false by lia. rstep.
  assert (index_range (data' ++ base_metadata data) (blen (segment_bytes data) - 24) (blen (segment_bytes data))
          = Ok (base_footer data)) as ->.
  { unfold index_range. rewrite Hs. unfold base_metadata. rewrite app_assoc.
    pose proof (blen_base_footer data) as Hf. unfold CHECKSUM_FOOTER_SIZE in Hf.
    rewrite get_range_skip by (rewrite blen_app; lia). rewrite blen_app.
    replace (_ - _ - _) with 0 by lia. rewrite get_range_all by lia. done. }
  rstep. rewrite F1. rstep. rewrite bool_decide_true by done. rstep.
  rewrite F2. rstep. rewrite F3. rstep. rewrite F4. rstep. rewrite Z.eqb_refl. rstep.
  rewrite checked_mul_ok by lia. rstep. rewrite <- Ht.
  rewrite checked_add_ok by lia. cbn [mbind option_bind]. rewrite checked_add_ok by lia.
  rewrite bool_decide_true by (f_equal; lia). rstep. rewrite <- Hdd.
  assert (index_range (data' ++ base_metadata data) (blen data') (blen data' + blen (block_table data))
          = Ok (block_table data)) as ->.
  { unfold index_range, base_metadata. by rewrite get_range_mid. }
  rstep. rewrite F5. rstep. rewrite Z.eqb_refl. rstep.
  unfold index_range. by rewrite get_range_head.
Qed.

Lemma segment_layout_encode data :
  blen (segment_bytes data) ≤ ISIZE_MAX →
  segment_layout (segment_bytes data) = Ok (MkLayout data (block_table data)).
Proof. by apply segment_layout_behind. Qed.

Lemma segment_metadata_checksum_behind data data' :
  blen data' = blen data → blen (segment_bytes data) ≤ ISIZE_MAX →
  segment_metadata_checksum (data' ++ base_metadata data) = Ok (crc32c (base_metadata data)).
Proof.
  intros Hdd Hb. unfold segment_metadata_checksum. rewrite segment_layout_behind by done. rstep.
  cbn [layout_data]. unfold index_range.
  rewrite blen_app, get_range_skip, Z.sub_diag by lia. by rewrite get_range_all by lia.
Qed.

Lemma segment_metadata_checksum_encode data :
  blen (segment_bytes data) ≤ ISIZE_MAX →
  segment_metadata_checksum (segment_bytes data) = Ok (crc32c (base_metadata data)).
Proof. by apply segment_metadata_checksum_behind. Qed.

Lemma verify_blocks_table pre blocks post o :
  blen (pre ++ concat (u32_le ∘ crc32c <$> blocks) ++ post) ≤ ISIZE_MAX →
  blen pre mod 4 = 0 →
  verify_blocks blocks (pre ++ concat (u32_le ∘ crc32c <$> blocks) ++ post) o (blen pre / 4) = Ok ().
Proof.
  revert pre. induction blocks as [|b blocks IH]; intros pre Hb Hm; [done|].
  rewrite fmap_cons in *. cbn [concat] in *. cbn [verify_blocks].
  assert (Hpre : blen pre / 4 * 4 = blen pre) by dmlia. rewrite Hpre.
  pose proof (blen_nonneg pre). revert Hb. autorewrite with len. unfold compose at 1.
  rewrite blen_to_le_bytes. intros Hb.
  pose proof (blen_nonneg (concat (u32_le ∘ crc32c <$> blocks))). pose proof (blen_nonneg post).
  rewrite (format.u32_at_field pre (crc32c b) (concat (u32_le ∘ crc32c <$> blocks) ++ post));
    [|by rewrite <- app_assoc|done|apply crc32c_range|lia].
  rstep. rewrite Z.eqb_refl. cbn [negb].
  replace (pre ++ ((u32_le ∘ crc32c) b ++ concat (u32_le ∘ crc32c <$> blocks)) ++ post)
    with ((pre ++ u32_le (crc32c b)) ++ concat (u32_le ∘ crc32c <$> blocks) ++ post)
    by (unfold compose at 2; by rewrite <- !app_assoc).
  assert (Hl : blen (pre ++ u32_le (crc32c b)) = blen pre + 4) by len.
  replace (blen pre / 4 + 1) with (blen (pre ++ u32_le (crc32c b)) / 4) by (rewrite Hl; dmlia).
  apply IH; [rewrite blen_app, Hl, blen_app; lia|rewrite Hl; dmlia].
Qed.

Lemma verify_segment_blocks_encode data o :
  blen (segment_bytes data) ≤ ISIZE_MAX →
  verify_segment_blocks (MkLayout data (block_table data)) o = Ok ().
Proof.
  intros Hb. unfold verify_segment_blocks, block_table. cbn [layout_data layout_checksums].
  pose proof (verify_blocks_table [] (chunks BLOCK data) [] o) as Hv. cbn [app] in Hv.
  rewrite app_nil_r in Hv. apply Hv; [|done]. fold (block_table data).
  unfold segment_bytes, base_metadata in Hb. rewrite !blen_app in Hb.
  pose proof (blen_nonneg data). pose proof (blen_nonneg (base_footer data)). lia.
Qed.

End ReadFacts.

(** ** Validating a written segment *)

Lemma is_power_of_two_pow2 slots : pow2 slots → is_power_of_two slots = true.
Proof.
  intros Hp. pose proof (pow2_pos _ Hp). unfold is_power_of_two.
  rewrite (land_mask slots slots Hp), Z.mod_same by lia. lia.
Qed.

Lemma records_start_ok slots size :
  0 ≤ slots → BASE_HEADER + slots * SLOT_SIZE ≤ size → size ≤ ISIZE_MAX →
  records_start slots size = Ok (BASE_HEADER + slots * SLOT_SIZE).
Proof.
  intros Hs Hl Hb. unfold records_start, BASE_HEADER, SLOT_SIZE in *.
  rewrite checked_mul_ok by lia. cbn [mbind option_bind]. rewrite checked_add_ok by lia. rstep.
  by replace (size <? _) with false by lia.
Qed.

Lemma read_base_header_encode slots index entries :
  slots = 0 ∨ pow2 slots → 0 ≤ slots < U64 → blen index = slots →
  blen (base_data slots index entries) ≤ ISIZE_MAX →
  read_base_header (base_data slots index entries) = Ok (slots, blen entries).
Proof.
  intros Hp Hs Hi Hb. pose proof (blen_base_data slots index entries) as Hl. rewrite Hi in Hl.
  pose proof (blen_nonneg (encode_entries entries)). pose proof (blen_nonneg entries).
  assert (Hel : blen entries ≤ blen (encode_entries entries)).
  { clear. induction entries as [|e entries IH]; [done|].
    rewrite encode_entries_cons, blen_app, blen_cons, blen_encode_entry.
    pose proof (blen_nonneg e.1). pose proof (blen_nonneg e.2). lia. }
  set (d := base_data slots index entries) in *.
  assert (Hs12 : 0 ≤ slots * SLOT_SIZE) by (unfold SLOT_SIZE; lia).
  assert (HB : BASE_HEADER = 24) by done. assert (Hid : blen HASH_SECTION_ID = 4) by done.
  assert (F1 : index_range d 0 4 = Ok HASH_SECTION_ID).
  { unfold index_range, d, base_data, base_header. rewrite <- !app_assoc. by rewrite get_range_head. }
  assert (F2 : format.u32_at d 4 = Ok BASE_HEADER)
    by (apply format.u32_at_get; [unfold d, base_data, base_header; by seek_field|done|done]).
  assert (F3 : format.u64_at d 8 = Ok slots)
    by (apply format.u64_at_get; [unfold d, base_data, base_header; by seek_field|lia|done]).
  assert (F4 : format.u64_at d 16 = Ok (blen entries))
    by (apply format.u64_at_get; [unfold d, base_data, base_header; by seek_field|lia|done]).
  unfold read_base_header. replace (blen d <? BASE_HEADER) with false by lia. rstep.
  rewrite F1. rstep. rewrite bool_decide_true by done. rstep. rewrite F2. rstep. rewrite Z.eqb_refl. rstep.
  rewrite F3. rstep. rewrite F4. rstep.
  replace (negb (slots =? 0) && negb (is_power_of_two slots)) with false
    by (destruct Hp as [-> |Hp]; [done|by rewrite is_power_of_two_pow2, andb_false_r]).
  rstep. by rewrite records_start_ok by lia.
Qed.

(** The offsets and fingerprints of the records, as the record loop collects them. *)
Definition record_map `{Xxh3} (placed : list (bytes * Z)) (records : gmap Z Z) : gmap Z Z :=
  foldl (λ m p, <[p.2 := fingerprint p.1]> m) records placed.

Lemma validate_records_encode `{Xxh3} a pre entries records keys :
  0 ≤ a → a + blen (pre ++ encode_entries entries) ≤ ISIZE_MAX → Forall entry_ok entries →
  NoDup entries.*1 → (∀ k, k ∈ entries.*1 → k ∉ keys) →
  validate_records (length entries) (pre ++ encode_entries entries) a (blen pre) records keys
    = Ok (blen (pre ++ encode_entries entries),
          record_map (placed_from (a + blen pre) entries) records).
Proof.
  intros Ha Hb Hok. revert pre records keys Hb.
  induction Hok as [|[k v] entries He Hok IH]; intros pre records keys Hb Hnd Hk.
  { change (encode_entries []) with (@nil byte). by rewrite app_nil_r. }
  cbn [fmap list_fmap fst] in Hnd. apply NoDup_cons in Hnd as [Hki Hnd].
  destruct He as [Hkl Hvl]. unfold MAX_KEY_SIZE, MAX_VALUE_SIZE in *. cbn [fst snd] in *.
  rewrite encode_entries_cons in *.
  set (bs := pre ++ encode_entry (k, v) ++ encode_entries entries) in *.
  assert (Hbs : blen bs = blen pre + (8 + blen k + blen v) + blen (encode_entries entries)).
  { unfold bs. rewrite !blen_app, blen_encode_entry. cbn [fst snd]. lia. }
  pose proof (blen_nonneg pre). pose proof (blen_nonneg k). pose proof (blen_nonneg v).
  pose proof (blen_nonneg (encode_entries entries)). pose proof (blen_nonneg bs).
  cbn [length validate_records]. rewrite checked_add_ok by lia. rstep.
  replace (blen bs <? blen pre + 8) with false by lia. rstep.
  assert (format.u32_at bs (blen pre) = Ok (blen k)) as ->.
  { apply format.u32_at_get; [|lia|lia]. unfold bs, encode_entry. cbn [fst snd]. by seek_field. }
  assert (format.u32_at bs (blen pre + 4) = Ok (blen v)) as ->.
  { apply format.u32_at_get; [|lia|lia]. unfold bs, encode_entry. cbn [fst snd]. by seek_field. }
  rstep. rewrite checked_add_ok by lia. rstep. rewrite checked_add_ok by lia. rstep.
  replace (blen bs <? blen pre + 8 + blen k + blen v) with false by lia. rstep.
  assert (index_range bs (blen pre + 8) (blen pre + 8 + blen k) = Ok k) as ->.
  { unfold index_range, bs, encode_entry. cbn [fst snd]. by seek_field. }
  rstep. rewrite bool_decide_false by (apply Hk; set_solver). rstep.
  rewrite add_ovf_ok by lia. rstep. fold (fingerprint k). cbn [placed_from record_map foldl fst snd].
  assert (Hbs' : bs = (pre ++ encode_entry (k, v)) ++ encode_entries entries)
    by (unfold bs; by rewrite app_assoc).
  assert (Hpl : blen (pre ++ encode_entry (k, v)) = blen pre + 8 + blen k + blen v)
    by (rewrite blen_app, blen_encode_entry; cbn [fst snd]; lia).
  rewrite Hbs', <- Hpl. rewrite (IH (pre ++ encode_entry (k, v))); [|by rewrite <- Hbs'|done|].
  - do 2 f_equal. unfold record_map. do 2 f_equal. rewrite Hpl, blen_encode_entry. cbn [fst snd]. lia.
  - intros k' Hk' [->%elem_of_singleton|Hin]%elem_of_union; [done|]. apply (Hk k'); [set_solver|done].
Qed.

Lemma validate_slots_encode pre index post slot records referenced :
  blen pre = BASE_HEADER + slot * SLOT_SIZE →
  blen (pre ++ encode_slots index ++ post) ≤ ISIZE_MAX →
  (∀ f o, (f, o) ∈ index → 0 ≤ f < U32 ∧ 0 ≤ o < U64 ∧ (o = 0 → f = 0)
     ∧ (o ≠ 0 → records !! o = Some f ∧ o ∉ referenced)) →
  NoDup (filter (λ o, o ≠ 0) index.*2) →
  validate_slots (length index) (pre ++ encode_slots index ++ post) slot records referenced
    = Ok (referenced ∪ list_to_set (filter (λ o, o ≠ 0) index.*2)).
Proof.
  revert pre slot referenced. induction index as [|[f o] index IH]; intros pre slot referenced Hp Hb Hi Hnd.
  { cbn. f_equal. set_solver. }
  rewrite encode_slots_cons in *.
  set (bs := pre ++ (encode_slot (f, o) ++ encode_slots index) ++ post) in *.
  pose proof (blen_nonneg pre). unfold BASE_HEADER, SLOT_SIZE in Hp.
  assert (Hbl : blen pre + 12 ≤ blen bs).
  { unfold bs, encode_slot. autorewrite with len. pose proof (blen_nonneg (encode_slots index)).
    pose proof (blen_nonneg post). lia. }
  destruct (Hi f o) as (Hf&Ho&Hz&Hnz); [by left|].
  cbn [length validate_slots]. unfold BASE_HEADER, SLOT_SIZE. rewrite <- Hp.
  assert (format.u32_at bs (blen pre) = Ok f) as ->.
  { apply format.u32_at_get; [|lia|lia]. unfold bs, encode_slot. cbn [fst snd]. by seek_field. }
  assert (format.u64_at bs (blen pre + 4) = Ok o) as ->.
  { apply format.u64_at_get; [|lia|lia]. unfold bs, encode_slot. cbn [fst snd]. by seek_field. }
  rstep.
  assert (Hbs : bs = (pre ++ encode_slot (f, o)) ++ encode_slots index ++ post)
    by (unfold bs; by rewrite <- !app_assoc).
  assert (Hp' : blen (pre ++ encode_slot (f, o)) = BASE_HEADER + (slot + 1) * SLOT_SIZE)
    by (unfold encode_slot, BASE_HEADER, SLOT_SIZE; autorewrite with len; lia).
  cbn [fmap list_fmap snd] in Hnd |- *. rewrite filter_cons in Hnd |- *.
  destruct (o =? 0) eqn:E; bool_prop.
  - rewrite decide_False in Hnd |- * by tauto. rewrite (Hz E). cbn [negb Z.eqb]. rstep.
    rewrite Hbs. apply IH; [done|by rewrite <- Hbs|set_solver|done].
  - rewrite decide_True in Hnd |- * by done. apply NoDup_cons in Hnd as [Hni Hnd].
    destruct (Hnz E) as [Hr Hnr]. rewrite (bool_decide_true (records !! o = Some f)) by done. rstep.
    rewrite (bool_decide_false (o ∈ referenced)) by done. rstep.
    rewrite Hbs, IH; [f_equal; set_solver|done|by rewrite <- Hbs| |done].
    intros f' o' Hin. destruct (Hi f' o') as (?&?&?&Hn'); [by right|]. split_and!; auto; try lia.
    intros Ho'. destruct (Hn' Ho') as [? Hno']. split; [done|].
    intros [->%elem_of_singleton|?]%elem_of_union; [|done]. apply Hni.
    apply list_elem_of_filter. split; [done|]. apply list_elem_of_fmap. by exists (f', o).
Qed.

(** The index the writer builds for a list of entries. *)
Lemma fold_index_ok `{Xxh3Laws} start slots entries index :
  pow2 slots → 0 ≤ start → blen entries ≤ slots →
  fold_index slots (placed_from (start + BASE_HEADER + slots * SLOT_SIZE) entries)
    (replicate (Z.to_nat slots) (0, 0)) = Ok index →
  index_ok slots index (placed_from (start + BASE_HEADER + slots * SLOT_SIZE) entries).
Proof.
  intros Hp Hst Hcap Hfold. pose proof (pow2_pos _ Hp).
  set (rs := start + BASE_HEADER + slots * SLOT_SIZE) in *.
  destruct (fold_index_spec slots (placed_from rs entries)
    (replicate (Z.to_nat slots) (0, 0)) []) as (index'&Hf&Hi); [done|apply index_ok_empty; lia| | |].
  - rewrite blen_nil, blen_placed_from. lia.
  - eapply Forall_impl; [apply placed_from_bound|].
    unfold rs, BASE_HEADER, SLOT_SIZE. intros q ?. cbn in *. lia.
  - rewrite Hfold in Hf. injection Hf as <-. exact Hi.
Qed.

Lemma placed_from_upper offset entries :
  Forall (λ p, p.2 + 8 ≤ offset + blen (encode_entries entries)) (placed_from offset entries).
Proof.
  revert offset. induction entries as [|e entries IH]; intros offset; [constructor|].
  rewrite encode_entries_cons, blen_app, blen_encode_entry.
  pose proof (blen_nonneg e.1). pose proof (blen_nonneg e.2).
  pose proof (blen_nonneg (encode_entries entries)). cbn [placed_from]. constructor; [cbn; lia|].
  eapply Forall_impl; [apply IH|]. intros p Hp. cbn beta in *. rewrite blen_encode_entry in Hp. lia.
Qed.

Lemma placed_from_NoDup offset entries : NoDup (placed_from offset entries).*2.
Proof.
  revert offset. induction entries as [|e entries IH]; intros offset; [constructor|].
  cbn [placed_from fmap list_fmap snd]. constructor; [|apply IH].
  intros ([k o]&Ho&Hin)%list_elem_of_fmap.
  pose proof (placed_from_bound (offset + blen (encode_entry e)) entries) as Hb.
  rewrite Forall_forall in Hb. apply Hb in Hin. cbn in Hin, Ho. rewrite blen_encode_entry in Hin.
  pose proof (blen_nonneg e.1). pose proof (blen_nonneg e.2). lia.
Qed.

Lemma record_map_notin `{Xxh3} placed records o :
  o ∉ placed.*2 → record_map placed records !! o = records !! o.
Proof.
  unfold record_map. revert records. induction placed as [|[k' o'] placed IH]; intros records Hn; [done|].
  cbn [foldl fst snd]. csimpl in Hn. rewrite IH by set_solver. by rewrite lookup_insert_ne by set_solver.
Qed.

Lemma record_map_lookup `{Xxh3} placed records k o :
  NoDup placed.*2 → (k, o) ∈ placed → record_map placed records !! o = Some (fingerprint k).
Proof.
  revert records. induction placed as [|[k' o'] placed IH]; intros records Hnd Hin; [set_solver|].
  csimpl in Hnd. apply NoDup_cons in Hnd as [Hn Hnd].
  change (record_map ((k', o') :: placed) records)
    with (record_map placed (<[o':=fingerprint k']> records)).
  apply elem_of_cons in Hin as [[= -> ->]|Hin]; [|by apply IH].
  rewrite record_map_notin by done. by rewrite lookup_insert_eq.
Qed.

Lemma encode_entries_lower entries : 8 * blen entries ≤ blen (encode_entries entries).
Proof.
  induction entries as [|e entries IH]; [done|].
  rewrite encode_entries_cons, blen_app, blen_cons, blen_encode_entry.
  pose proof (blen_nonneg e.1). pose proof (blen_nonneg e.2). lia.
Qed.

Section Validate.
Context `{Xxh3Laws, Alloc}.

(** The check of the index: every used slot points to a record with the
    fingerprint of its key, and every record is in one slot. *)
Definition index_lists slots index placed : Prop :=
  blen index = slots
  ∧ (∀ i f o, index !! i = Some (f, o) →
       (f, o) = (0, 0) ∨ ∃ k, (k, o) ∈ placed ∧ f = fingerprint k ∧ o ≠ 0)
  ∧ filter (λ o, o ≠ 0) index.*2 ≡ₚ placed.*2.

Lemma validate_base_listed a slots index entries :
  try_reserve (blen entries) = true → 0 ≤ a → Forall entry_ok entries → NoDup entries.*1 → 0 ≤ slots →
  index_lists slots index (placed_from (a + BASE_HEADER + slots * SLOT_SIZE) entries) →
  a + blen (base_data slots index entries) ≤ ISIZE_MAX →
  validate_base (base_data slots index entries) a slots (blen entries) = Ok ().
Proof using All.
  intros Halloc Ha Hok Hnd Hs (Hil&Hent&Hperm) Hb.
  pose proof (blen_base_data slots index entries) as Hl. rewrite Hil in Hl.
  pose proof (encode_entries_lower entries). pose proof (blen_nonneg entries).
  assert (Hs12 : 0 ≤ slots * SLOT_SIZE) by (unfold SLOT_SIZE; lia).
  assert (HB : BASE_HEADER = 24) by done. set (data := base_data slots index entries) in *.
  set (start := BASE_HEADER + slots * SLOT_SIZE) in *.
  set (placed := placed_from (a + BASE_HEADER + slots * SLOT_SIZE) entries) in *.
  set (pre := base_header slots (blen entries) ++ encode_slots index).
  assert (Hpre : blen pre = start)
    by (unfold pre; rewrite blen_app, blen_base_header, blen_encode_slots; lia).
  assert (Hdata : data = pre ++ encode_entries entries)
    by (unfold data, pre, base_data; by rewrite app_assoc).
  unfold validate_base. rewrite records_start_ok by lia. rstep. fold start.
  unfold saturating_sub. replace (Z.max (blen data - start) 0) with (blen (encode_entries entries)) by lia.
  replace (_ <? blen entries) with false by dmlia. rstep. rewrite !Halloc. rstep.
  replace (Z.to_nat (blen entries)) with (length entries) by (unfold blen; lia).
  rewrite Hdata at 1. rewrite <- Hpre.
  rewrite validate_records_encode; [|done|by rewrite <- Hdata|done|done|set_solver]. rstep.
  rewrite <- Hdata, Z.eqb_refl. rstep.
  replace (a + blen pre) with (a + BASE_HEADER + slots * SLOT_SIZE) by lia. fold placed.
  replace (Z.to_nat slots) with (length index) by (unfold blen in Hil; lia).
  assert (Hnd2 : NoDup placed.*2) by apply placed_from_NoDup.
  assert (Hd2 : data = base_header slots (blen entries) ++ encode_slots index ++ encode_entries entries)
    by done. rewrite Hd2 at 1.
  rewrite validate_slots_encode.
  - rstep. rewrite (left_id_L ∅ (∪)), size_list_to_set by (by rewrite Hperm).
    rewrite Hperm, length_fmap. fold (blen placed). unfold placed.
    by rewrite blen_placed_from, Z.eqb_refl.
  - by rewrite blen_base_header.
  - rewrite <- Hd2. lia.
  - intros f o [i Hi]%list_elem_of_lookup. destruct (Hent i f o Hi) as [[= -> ->]|(k&Hin&->&Ho)].
    { split_and!; [lia..|done|done]. }
    pose proof (fingerprint_range k). pose proof Hin as Hin2.
    pose proof (placed_from_bound (a + BASE_HEADER + slots * SLOT_SIZE) entries) as Hlo.
    rewrite Forall_forall in Hlo. apply Hlo in Hin. cbn in Hin.
    pose proof (placed_from_upper (a + BASE_HEADER + slots * SLOT_SIZE) entries) as Hup.
    rewrite Forall_forall in Hup. pose proof (Hup _ Hin2) as Hin3. cbn in Hin3.
    split_and!; [lia..|done|]. intros _. split; [|set_solver]. by apply record_map_lookup.
  - by rewrite Hperm.
Qed.

Lemma validate_base_encode a slots index entries :
  try_reserve (blen entries) = true → 0 ≤ a → Forall entry_ok entries → NoDup entries.*1 → 0 ≤ slots →
  index_ok slots index (placed_from (a + BASE_HEADER + slots * SLOT_SIZE) entries) →
  a + blen (base_data slots index entries) ≤ ISIZE_MAX →
  validate_base (base_data slots index entries) a slots (blen entries) = Ok ().
Proof using All.
  intros ????? (?&?&_&?) ?. by apply validate_base_listed.
Qed.

(** Without memory for the check it is refused. *)
Lemma validate_base_starved a slots index entries :
  try_reserve (blen entries) = false → 0 ≤ slots → blen index = slots →
  blen (base_data slots index entries) ≤ ISIZE_MAX →
  ∃ e, validate_base (base_data slots index entries) a slots (blen entries) = Err e.
Proof.
  intros Halloc Hs Hil Hb. pose proof (blen_base_data slots index entries) as Hl. rewrite Hil in Hl.
  pose proof (encode_entries_lower entries). pose proof (blen_nonneg entries).
  assert (Hs12 : 0 ≤ slots * SLOT_SIZE) by (unfold SLOT_SIZE; lia). assert (HB : BASE_HEADER = 24) by done.
  unfold validate_base. rewrite records_start_ok by lia. rstep. unfold saturating_sub.
  replace (Z.max (_ - _) 0) with (blen (encode_entries entries)) by lia.
  replace (_ <? blen entries) with false by dmlia. rstep. rewrite Halloc. by eexists.
Qed.

End Validate.

(** ** Untrusted bytes *)

Section Untrusted.
Context `{Crc32c}.

(** A record read with the checks lies inside the data. *)
Lemma record_at_safe mapping o data_size :
  0 ≤ o → blen mapping ≤ ISIZE_MAX →
  safe (record_at mapping o data_size) (λ '(k, v, e),
    get_range mapping (o + 8) (o + 8 + blen k) = Some k ∧ get_range mapping (o + 8 + blen k) e = Some v
    ∧ e = o + 8 + blen k + blen v ∧ e ≤ data_size).
Proof.
  intros Ho Hm. unfold record_at. eapply safe_bind; [apply safe_ok_or|]. intros he _ Hhe.
  apply opt_filter_Some in Hhe as [[-> _]%checked_add_Some Hhe]. bool_prop.
  eapply safe_bind; [apply safe_ok_or|]. intros header _ (?&?&Hl&_)%get_range_Some.
  destruct (format.u32_at_in_bounds header 0) as (kl&->&?); [lia..|]. rstep.
  destruct (format.u32_at_in_bounds header 4) as (vl&->&?); [lia..|]. rstep.
  eapply safe_bind; [apply safe_ok_or|]. intros vs _ [-> _]%checked_add_Some.
  eapply safe_bind; [apply safe_ok_or|]. intros e _ Hend. apply opt_filter_Some in Hend as [[-> _]%checked_add_Some Hend]. bool_prop.
  eapply safe_bind; [apply safe_ok_or|]. intros k _ Hk. eapply safe_bind; [apply safe_ok_or|]. intros w _ Hw.
  pose proof (get_range_Some _ _ _ _ Hk) as (_&_&?&_). pose proof (get_range_Some _ _ _ _ Hw) as (_&_&?&_).
  cbn. replace (blen k) with kl by lia. split_and!; [done|done|lia|lia].
Qed.

Lemma segment_layout_safe bs :
  blen bs ≤ ISIZE_MAX →
  safe (segment_layout bs) (λ l, ∃ footer,
    bs = layout_data l ++ layout_checksums l ++ footer ∧ blen footer = CHECKSUM_FOOTER_SIZE
    ∧ blen (layout_checksums l) = div_ceil (blen (layout_data l)) CHECKSUM_BLOCK_SIZE * 4).
Proof.
  intros Hb. unfold segment_layout, CHECKSUM_FOOTER_SIZE.
  eapply safe_bind; [apply safe_fail_if|]. intros [] _ Hl. bool_prop.
  unfold index_range. rewrite get_range_in_bounds by lia. rstep.
  set (footer := take _ _).
  assert (Hf : blen footer = 24) by (unfold footer; len).
  rewrite (get_range_in_bounds footer 0 4) by lia. rstep.
  eapply safe_bind; [apply safe_fail_if|]. intros [] _ _.
  destruct (format.u32_at_in_bounds footer 4) as (fs&->&_); [lia..|]. rstep.
  eapply safe_bind; [apply safe_fail_if|]. intros [] _ _.
  destruct (format.u64_at_in_bounds footer 8) as (ds&->&Hds); [lia..|]. rstep.
  destruct (format.u32_at_in_bounds footer 16) as (bsz&->&_); [lia..|]. rstep.
  eapply safe_bind; [apply safe_fail_if|]. intros [] _ _.
  eapply safe_bind; [apply safe_ok_or|]. intros cs _ [-> _]%checked_mul_Some.
  eapply safe_bind; [apply safe_fail_if|]. intros [] _ Hsz. bool_prop.
  apply bind_Some in Hsz as (sz&[-> _]%checked_add_Some&[Hsz _]%checked_add_Some).
  pose proof (div_ceil_mul ds CHECKSUM_BLOCK_SIZE ltac:(done)) as Hdc. unfold CHECKSUM_BLOCK_SIZE in *.
  set (n := div_ceil ds (64 * 1024)) in *.
  rewrite (get_range_in_bounds bs ds) by lia. rstep.
  destruct (format.u32_at_in_bounds footer 20) as (tc&->&_); [lia..|]. rstep.
  eapply safe_bind; [apply safe_fail_if|]. intros [] _ _.
  rewrite (get_range_in_bounds bs 0) by lia. cbn [safe mbind result_bind unwrap layout_data layout_checksums].
  replace (Z.to_nat 0) with 0%nat by lia. rewrite drop_0, !Z.sub_0_r.
  exists (drop (Z.to_nat (ds + n * 4)) bs). split_and!.
  - rewrite <- (take_drop (Z.to_nat ds) bs) at 1. f_equal.
    rewrite <- (take_drop (Z.to_nat (ds + n * 4 - ds)) (drop (Z.to_nat ds) bs)) at 1. f_equal.
    rewrite drop_drop. f_equal. lia.
  - rewrite blen_drop. lia.
  - rewrite !blen_take, blen_drop. replace (Z.min _ (blen bs)) with ds by lia. fold n. lia.
Qed.

Lemma verify_blocks_safe blocks checksums o index :
  blen checksums ≤ ISIZE_MAX → 0 ≤ index → (index + blen blocks) * 4 ≤ blen checksums →
  no_panic (verify_blocks blocks checksums o index).
Proof.
  intros Hb. revert index. induction blocks as [|b blocks IH]; intros index Hi Hl; cbn [verify_blocks]; [done|].
  rewrite blen_cons in Hl. pose proof (blen_nonneg blocks).
  destruct (format.u32_at_in_bounds checksums (index * 4)) as (e&->&_); [lia..|]. rstep.
  destruct (negb _); [done|]. apply IH; lia.
Qed.

Lemma records_start_inv slots size start :
  records_start slots size = Ok start →
  start = BASE_HEADER + slots * SLOT_SIZE ∧ start ≤ size.
Proof.
  unfold records_start. intros Hr. run_inv. destruct (_ <? _) eqn:?; [done|]. run_inv. bool_prop. lia.
Qed.

Lemma read_base_header_safe bs :
  blen bs ≤ ISIZE_MAX →
  safe (read_base_header bs) (λ '(slots, len), 0 ≤ slots ∧ 0 ≤ len
    ∧ (slots = 0 ∨ is_power_of_two slots = true) ∧ BASE_HEADER + slots * SLOT_SIZE ≤ blen bs).
Proof.
  intros Hb. unfold read_base_header.
  eapply safe_bind; [apply safe_fail_if|]. intros [] _ Hl. bool_prop.
  unfold BASE_HEADER in Hl. unfold index_range. rewrite get_range_in_bounds by lia. rstep.
  eapply safe_bind; [apply safe_fail_if|]. intros [] _ _.
  destruct (format.u32_at_in_bounds bs 4) as (hs&->&_); [lia..|]. rstep.
  eapply safe_bind; [apply safe_fail_if|]. intros [] _ _.
  destruct (format.u64_at_in_bounds bs 8) as (slots&->&Hs); [lia..|]. rstep.
  destruct (format.u64_at_in_bounds bs 16) as (len&->&Hlen); [lia..|]. rstep.
  eapply safe_bind; [apply safe_fail_if|]. intros [] _ Hp.
  destruct (records_start slots (blen bs)) as [start|e|] eqn:Hr; rstep; [|done|].
  - apply records_start_inv in Hr as [-> ?]. cbn. split_and!; [lia|lia| |done].
    destruct (slots =? 0) eqn:?; bool_prop; [by left|right]. cbn in Hp. by bool_prop.
  - unfold records_start in Hr. destruct (_ : option Z); cbn in Hr; [by destruct (_ <? _)|done].
Qed.

Lemma records_start_no_panic slots size : no_panic (records_start slots size).
Proof. unfold records_start. repeat no_panic_step. Qed.

End Untrusted.

Section UntrustedBase.
Context `{Xxh3, Alloc}.

Lemma validate_records_safe count bs a offset records keys :
  a + blen bs ≤ ISIZE_MAX → 0 ≤ a → 0 ≤ offset ≤ blen bs →
  safe (validate_records count bs a offset records keys) (λ '(o, _), offset ≤ o ≤ blen bs).
Proof.
  intros Hb Ha. revert offset records keys.
  induction count as [|count IH]; intros offset records keys Ho; cbn [validate_records]; [cbn; lia|].
  eapply safe_bind; [apply safe_ok_or|]. intros he _ [-> _]%checked_add_Some.
  eapply safe_bind; [apply safe_fail_if|]. intros [] _ Hhe. bool_prop.
  destruct (format.u32_at_in_bounds bs offset) as (kl&->&Hkl); [lia..|]. rstep.
  destruct (format.u32_at_in_bounds bs (offset + 4)) as (vl&->&Hvl); [lia..|]. rstep.
  eapply safe_bind; [apply safe_ok_or|]. intros vs _ [-> _]%checked_add_Some.
  eapply safe_bind; [apply safe_ok_or|]. intros ve _ [-> _]%checked_add_Some.
  eapply safe_bind; [apply safe_fail_if|]. intros [] _ Hve. bool_prop.
  unfold index_range. rewrite get_range_in_bounds by lia. rstep.
  eapply safe_bind; [apply safe_fail_if|]. intros [] _ _.
  rewrite add_ovf_ok by lia. rstep.
  eapply safe_mono; [apply IH; lia|]. intros [o ?] ?. lia.
Qed.

Lemma validate_slots_safe count bs slot records referenced :
  blen bs ≤ ISIZE_MAX → 0 ≤ slot → BASE_HEADER + (slot + Z.of_nat count) * SLOT_SIZE ≤ blen bs →
  no_panic (validate_slots count bs slot records referenced).
Proof.
  intros Hb. unfold BASE_HEADER, SLOT_SIZE. revert slot referenced.
  induction count as [|count IH]; intros slot referenced Hs Hl; cbn [validate_slots]; [done|].
  unfold BASE_HEADER, SLOT_SIZE.
  destruct (format.u32_at_in_bounds bs (24 + slot * 12)) as (f&->&_); [lia..|]. rstep.
  destruct (format.u64_at_in_bounds bs (24 + slot * 12 + 4)) as (o&->&_); [lia..|]. rstep.
  destruct (o =? 0).
  - apply bind_no_panic; [by destruct (negb _)|]. intros _ _. apply IH; lia.
  - apply bind_no_panic; [by destruct (negb _)|]. intros _ _.
    apply bind_no_panic; [by destruct (bool_decide _)|]. intros _ _. apply IH; lia.
Qed.

Lemma validate_base_no_panic bs a slots len :
  a + blen bs ≤ ISIZE_MAX → 0 ≤ a → 0 ≤ slots → no_panic (validate_base bs a slots len).
Proof.
  intros Hb Ha Hs. unfold validate_base. pose proof (blen_nonneg bs).
  apply bind_no_panic; [apply records_start_no_panic|]. intros start [-> Hr]%records_start_inv.
  unfold BASE_HEADER, SLOT_SIZE in *.
  apply bind_no_panic; [by destruct (_ <? _)|]. intros _ _.
  apply bind_no_panic; [by destruct (negb _)|]. intros _ _.
  apply bind_no_panic; [by destruct (negb _)|]. intros _ _.
  apply bind_no_panic; [eapply safe_no_panic, validate_records_safe; lia|]. intros [o recs] _.
  apply bind_no_panic; [by destruct (negb _)|]. intros _ _.
  apply bind_no_panic; [by destruct (negb _)|]. intros _ _.
  apply bind_no_panic; [apply validate_slots_safe; unfold BASE_HEADER, SLOT_SIZE; lia|].
  intros r _. by destruct (negb _).
Qed.

End UntrustedBase.

(** ** Properties *)

Section Properties.
Context `{Crc32cLaws, Xxh3Laws, Alloc} {S} `{LawfulStream S}.

(** The index is sparse. For a non-empty Base the number of slots is a power
    of two that fits in [u64], at most 80% of the slots are used, so a free slot
    always ends a probe; an empty Base has no index. *)
Theorem base_slot_count_load len slots :
  0 ≤ len → base_slot_count len = Ok slots →
  (len = 0 ∧ slots = 0)
  ∨ (is_power_of_two slots = true ∧ 5 * len ≤ 4 * slots ∧ len < slots ∧ slots < U64).
Proof.
  intros Hl Hs. destruct (base_slot_count_spec len slots Hl Hs) as [?|(?&?&?&?)]; [by left|right].
  split_and!; [by apply is_power_of_two_pow2|lia|lia|lia].
Qed.

(** C20: a written Base passes a full check. Writing any list of entries with
    distinct keys succeeds when the measured size fits; the segment has exactly
    the measured size and, read back from the stream, has a valid layout, the
    metadata checksum that is reported, intact blocks, the header of its slots and
    length, and an index that [validate_base] accepts. *)
Theorem written_base_validates (s : S) start entries size :
  stream_ok s → stream_base s ≤ start → Forall entry_ok entries → NoDup entries.*1 →
  (∀ n, try_reserve n = true) →
  measure_base_iter entries = Ok (blen entries, size) → start + size ≤ ISIZE_MAX →
  ∃ s' w bs layout,
    write_base_with_metadata_at start (blen entries) entries s = (Ok w, s')
    ∧ get_range (stream_data s') (start - stream_base s) (start - stream_base s + size) = Some bs
    ∧ wb_size w = size ∧ wb_len w = blen entries
    ∧ segment_layout bs = Ok layout
    ∧ segment_metadata_checksum bs = Ok (wb_metadata_checksum w)
    ∧ verify_segment_blocks layout start = Ok ()
    ∧ read_base_header (layout_data layout) = Ok (wb_slots w, wb_len w)
    ∧ validate_base (layout_data layout) start (wb_slots w) (wb_len w) = Ok ().
Proof.
  intros Hok Hst Hes Hnd Ha Hm Hb. pose proof (stream_base_nonneg s Hok).
  assert (Hms : ∃ slots, base_slot_count (blen entries) = Ok slots ∧ ∀ index, blen index = slots →
            size = blen (segment_bytes (base_data slots index entries))).
  { destruct (measure_base_iter_spec entries [] _ _ Hm) as (slots&Hsc&_). exists slots. split; [done|].
    intros index Hi. destruct (measure_base_iter_spec entries index _ _ Hm) as (slots'&Hsc'&_&E).
    rewrite Hsc in Hsc'. injection Hsc' as <-. by apply E. }
  destruct Hms as (slots&Hsc&Hsize).
  destruct (write_base_lawful s start slots entries) as (s'&index&Hiok&Hw&Hok'&Hb'&Hd'&Hp'); auto.
  { intros index Hi. rewrite <- (Hsize index Hi). lia. }
  pose proof Hiok as (Hil&_). specialize (Hsize index Hil).
  destruct (slot_count_bounds entries slots Hsc) as (Hs0&_&Hsp&_).
  assert (Hsl : slots = 0 ∨ pow2 slots) by (destruct (decide (slots = 0)); [by left|right; apply Hsp; lia]).
  assert (slots < U64) by (destruct (base_slot_count_spec _ _ (blen_nonneg entries) Hsc) as [[_ ->]|(?&?&?&?)]; lia).
  set (data := base_data slots index entries) in *.
  assert (Hdl : blen data ≤ size).
  { rewrite Hsize. unfold segment_bytes. rewrite blen_app. pose proof (blen_nonneg (base_metadata data)). lia. }
  pose proof (blen_nonneg (segment_bytes data)).
  eexists s', _, (segment_bytes data), (MkLayout data (block_table data)).
  split; [exact Hw|]. cbn [wb_size wb_len wb_slots wb_metadata_checksum layout_data].
  split_and!; [|done|done|apply segment_layout_encode; lia|apply segment_metadata_checksum_encode; lia
    |apply verify_segment_blocks_encode; lia|apply read_base_header_encode; auto; fold data; lia
    |apply validate_base_encode; auto; fold data; lia].
  rewrite Hd', get_range_splice_in by lia. rewrite Z.sub_diag, Hsize. apply get_range_all. lia.
Qed.

End Properties.

(** *** Concrete Bases *)

Import RefInstances.

Definition demo_entries : list (bytes * bytes) :=
  [([Byte.x61], [Byte.x01; Byte.x02]); ([Byte.x62], []); ([Byte.x61; Byte.x61], [Byte.x03])].

Lemma base_slot_count_load_witness :
  base_slot_count 3 = Ok 4 ∧ 5 * 3 ≤ 4 * 4 ∧ 3 < 4.
Proof.
  split; [reflexivity|].
  destruct (base_slot_count_load 3 4 ltac:(lia) eq_refl) as [[Hz _]|(_&Hl&Hlt&_)]; [lia|].
  split; [exact Hl|exact Hlt].
Defined.

Lemma written_base_validates_witness :
  ∃ s' w bs layout,
    write_base_with_metadata_at 8192 3 demo_entries (MkFile [] 0 [] []) = (Ok w, s')
    ∧ get_range (file_content s') 8192 (8192 + 131) = Some bs
    ∧ segment_layout bs = Ok layout
    ∧ validate_base (layout_data layout) 8192 (wb_slots w) (wb_len w) = Ok ().
Proof.
  destruct (written_base_validates (MkFile [] 0 [] []) 8192 demo_entries 131)
    as (s'&w&bs&layout&Hw&Hg&_&_&Hl&_&_&_&Hv).
  - split; [reflexivity|cbn; lia].
  - cbn. lia.
  - repeat constructor; vm_compute; discriminate.
  - repeat constructor; set_solver.
  - intros n. reflexivity.
  - reflexivity.
  - lia.
  - exists s', w, bs, layout. split; [exact Hw|]. split; [exact Hg|]. split; [exact Hl|exact Hv].
Defined.

End segment.
