(* ===== verification/Overlay.v ===== *)
(** * The Overlay index: [OverlayMap] and [OverlayState] of [lkv/src/database/state.rs]

    The hash index over the update log: an owned table for a memory database, and
    for a file database a table of record positions in the mapped log with a tail
    of entries that are not mapped yet. [represents] relates an index to the list
    of the latest mutation per key; the lemmas show that every operation of the
    index implements the corresponding update of that map and that the memory
    charge is the sum of the charges of the entries. *)

From S2P Require Import Prelude Errors Crates Io Superblock Values Log.

Definition OPERATION_HEADER_SIZE : Z := 9.

(** [MappedRecord(usize)]: the offset of an operation in the mapped log. *)
Record MappedRecord := MkMappedRecord { record_offset : Z }.

Module mapped_record.

Definition checked_slices (r : MappedRecord) (bs : bytes) : option (bytes * option bytes) :=
  header_end ← checked_add (record_offset r) OPERATION_HEADER_SIZE;
  header ← get_range bs (record_offset r) header_end;
  b ← header !! 0%nat;
  marker ← Marker.from_byte b;
  if negb (bool_decide (marker = Marker.Put ∨ marker = Marker.Delete)) then None else
  key_len ← from_le_bytes <$> get_range header 1 5;
  value_len ← from_le_bytes <$> get_range header 5 9;
  if bool_decide (marker = Marker.Delete) && negb (value_len =? 0) then None else
  key_end ← checked_add header_end key_len;
  value_end ← checked_add key_end value_len;
  key ← get_range bs header_end key_end;
  value ← match marker with
          | Marker.Put => Some <$> get_range bs key_end value_end
          | _ => Some None
          end;
  Some (key, value).

(** [slices]: [expect] panics when the record is not valid. *)
Definition slices (r : MappedRecord) (bs : bytes) : result (bytes * option bytes) :=
  unwrap (checked_slices r bs).

Definition memory_charge (r : MappedRecord) (bs : bytes) : result Z :=
  '(key, value) ← slices r bs;
  Ok (blen key + match value with
                 | None => 0
                 | Some value => if blen value <? MAPPED_VALUE_THRESHOLD then blen value else 0
                 end).

End mapped_record.

(** [MappedMutation { operation_offset }] and [into_record]. *)
Record MappedMutation := MkMappedMutation { operation_offset : Z }.
Definition into_record (m : MappedMutation) : MappedRecord := MkMappedRecord (operation_offset m).

Record TailOverlayEntry := MkTail {
  tail_key : bytes;
  tail_value : OverlayEntry;
  tail_mapped : MappedRecord
}.

Definition overlay_entry_memory (key : bytes) (e : OverlayEntry) : Z :=
  blen key + match e with
             | OverlayEntry.Put v => ValueBytes.overlay_memory_charge v
             | OverlayEntry.Delete => 0
             end.

Definition previous_value_memory (e : OverlayEntry) : Z :=
  match e with
  | OverlayEntry.Put v => ValueBytes.overlay_memory_charge v
  | OverlayEntry.Delete => 0
  end.

(** The value an owned entry answers a lookup with. *)
Definition entry_answer (e : OverlayEntry) : result (option bytes) :=
  match e with
  | OverlayEntry.Put v => Some <$> ValueBytes.as_slice v
  | OverlayEntry.Delete => Ok None
  end.

Module OverlayMap.
Section OverlayMap.
Context `{Xxh3, HashTables}.

Inductive t :=
  | Memory (table : HashTable (bytes * OverlayEntry))
  | Mapped (bs : option BaseBytes) (table : HashTable MappedRecord)
           (tail : HashTable TailOverlayEntry).

Definition memory : t := Memory ht_new.
Definition mapped (bs : option BaseBytes) : t := Mapped bs ht_new ht_new.

(** [bytes.as_deref().unwrap_or(&[])]. *)
Definition mapping_or_empty (bs : option BaseBytes) : result bytes :=
  match bs with None => Ok [] | Some b => BaseBytes.deref b end.

(** The closures of the source. *)
Definition record_has_key (mapping key : bytes) (r : MappedRecord) : result bool :=
  '(k, _) ← mapped_record.slices r mapping; Ok (bool_decide (k = key)).
Definition record_hash (mapping : bytes) (r : MappedRecord) : result Z :=
  '(k, _) ← mapped_record.slices r mapping; Ok (xxh3_64 k).
Definition owned_has_key (key : bytes) (e : bytes * OverlayEntry) : result bool :=
  Ok (bool_decide (e.1 = key)).
Definition tail_has_key (key : bytes) (e : TailOverlayEntry) : result bool :=
  Ok (bool_decide (tail_key e = key)).

Definition get_hashed (m : t) (key : bytes) (hash : Z) : result (option (option bytes)) :=
  match m with
  | Memory table =>
      found ← ht_find table hash (owned_has_key key);
      match found with
      | None => Ok None
      | Some (_, entry) => Some <$> entry_answer entry
      end
  | Mapped bs table tail =>
      found ← ht_find tail hash (tail_has_key key);
      match found with
      | Some entry => Some <$> entry_answer (tail_value entry)
      | None =>
          match bs with
          | None => Ok None
          | Some b =>
              mapping ← BaseBytes.deref b;
              found ← ht_find table hash (record_has_key mapping key);
              match found with
              | None => Ok None
              | Some r => '(_, value) ← mapped_record.slices r mapping; Ok (Some value)
              end
          end
      end
  end.

Definition get (m : t) (key : bytes) : result (option (option bytes)) :=
  get_hashed m key (xxh3_64 key).

Definition contains_key (m : t) (key : bytes) : result bool :=
  o ← get m key; Ok (bool_decide (is_Some o)).

(** [iter] run to its end: the mapped records, then the tail. *)
Definition iter (m : t) : result (list (bytes * option bytes)) :=
  match m with
  | Memory table =>
      mapM_result (λ e, o ← entry_answer e.2; Ok (e.1, o)) (ht_iter table)
  | Mapped bs table tail =>
      mapping ← mapping_or_empty bs;
      l1 ← mapM_result (λ r, mapped_record.slices r mapping) (ht_iter table);
      l2 ← mapM_result (λ e, o ← entry_answer (tail_value e); Ok (tail_key e, o)) (ht_iter tail);
      Ok (l1 ++ l2)
  end.

Definition len (m : t) : Z :=
  match m with
  | Memory table => ht_len table
  | Mapped _ table tail => ht_len table + ht_len tail
  end.

Definition is_empty (m : t) : bool := len m =? 0.

Definition memory_charge (m : t) : result Z :=
  match m with
  | Memory table =>
      foldM (λ a e, add_ovf a (overlay_entry_memory e.1 e.2)) 0 (ht_iter table)
  | Mapped bs table tail =>
      mapping ← mapping_or_empty bs;
      a ← foldM (λ a r, c ← mapped_record.memory_charge r mapping; add_ovf a c) 0 (ht_iter table);
      b ← foldM (λ a e, add_ovf a (overlay_entry_memory (tail_key e) (tail_value e))) 0 (ht_iter tail);
      add_ovf a b
  end.

(** [set_memory]: the previous entry of the key and the new table; a file Overlay
    is [unreachable!]. *)
Definition set_memory (m : t) (key : bytes) (value : OverlayEntry)
    : result (option OverlayEntry * t) :=
  match m with
  | Mapped _ _ _ => Panic
  | Memory table =>
      let hash := xxh3_64 key in
      found ← ht_find_mut table hash (owned_has_key key) (λ e, (e.1, value));
      match found with
      | Some ((_, previous), table) => Ok (Some previous, Memory table)
      | None =>
          table ← ht_insert_unique table hash (key, value) (λ e, Ok (xxh3_64 e.1));
          Ok (None, Memory table)
      end
  end.

Definition insert_mapped_record_hashed (table : HashTable MappedRecord) (mapping : bytes)
    (r : MappedRecord) (hash : Z) : result (option MappedRecord * HashTable MappedRecord) :=
  '(key, _) ← mapped_record.slices r mapping;
  found ← ht_find_mut table hash (record_has_key mapping key) (λ _, r);
  match found with
  | Some (existing, table) => Ok (Some existing, table)
  | None =>
      table ← ht_insert_unique table hash r (record_hash mapping);
      Ok (None, table)
  end.

Definition insert_mapped_record (table : HashTable MappedRecord) (mapping : bytes)
    (r : MappedRecord) : result (option MappedRecord * HashTable MappedRecord) :=
  '(key, _) ← mapped_record.slices r mapping;
  insert_mapped_record_hashed table mapping r (xxh3_64 key).

(** The second loop of [install_mapped]. *)
Definition install_mapped_step (mapping : bytes)
    (acc : HashTable MappedRecord * Z * Z) (mu : MappedMutation)
    : result (HashTable MappedRecord * Z * Z) :=
  let '(table, removed, added) := acc in
  let r := into_record mu in
  c ← mapped_record.memory_charge r mapping;
  let added := saturating_add added c in
  '(previous, table) ← insert_mapped_record table mapping r;
  match previous with
  | Some previous =>
      c ← mapped_record.memory_charge previous mapping;
      Ok (table, saturating_add removed c, added)
  | None => Ok (table, removed, added)
  end.

(** The first loop of [install_mapped], with its assertions. *)
Definition move_tail_step (mapping : bytes) (table : HashTable MappedRecord) (entry : TailOverlayEntry)
    : result (HashTable MappedRecord) :=
  '(key, _) ← mapped_record.slices (tail_mapped entry) mapping;
  _ ← assert (bool_decide (key = tail_key entry));
  '(previous, table) ← insert_mapped_record table mapping (tail_mapped entry);
  _ ← assert (bool_decide (previous = None));
  Ok table.

Definition install_mapped (m : t) (bs : BaseBytes) (mutations : list MappedMutation)
    : result (Z * Z * t) :=
  match m with
  | Memory _ => Panic
  | Mapped _ table tail =>
      mapping ← BaseBytes.deref bs;
      table ← foldM (move_tail_step mapping) table (ht_iter tail);
      '(table, removed, added) ← foldM (install_mapped_step mapping) (table, 0, 0) mutations;
      Ok (removed, added, Mapped (Some bs) table ht_new)
  end.

(** The loop of [install_tail]. *)
Definition install_tail_step (bs : option BaseBytes)
    (acc : HashTable MappedRecord * HashTable TailOverlayEntry * Z * Z)
    (e : bytes * OverlayEntry * MappedMutation)
    : result (HashTable MappedRecord * HashTable TailOverlayEntry * Z * Z) :=
  let '(table, tail, removed, added) := acc in
  let '(key, value, mu) := e in
  let r := into_record mu in
  let hash := xxh3_64 key in
  let added := saturating_add added (overlay_entry_memory key value) in
  found ← ht_find_mut tail hash (tail_has_key key) (λ e, MkTail (tail_key e) value r);
  match found with
  | Some (entry, tail) =>
      Ok (table, tail,
          saturating_add removed (overlay_entry_memory (tail_key entry) (tail_value entry)), added)
  | None =>
      '(table, removed) ←
        match bs with
        | None => Ok (table, removed)
        | Some b =>
            mapping ← BaseBytes.deref b;
            found ← ht_find_remove table hash (record_has_key mapping key);
            match found with
            | None => Ok (table, removed)
            | Some (old, table) =>
                c ← mapped_record.memory_charge old mapping;
                Ok (table, saturating_add removed c)
            end
        end;
      tail ← ht_insert_unique tail hash (MkTail key value r) (λ e, Ok (xxh3_64 (tail_key e)));
      Ok (table, tail, removed, added)
  end.

Definition install_tail (m : t) (staged : KeyMap OverlayEntry) (mutations : list MappedMutation)
    : result (Z * Z * t) :=
  match m with
  | Memory _ => Panic
  | Mapped bs table tail =>
      '(table, tail, removed, added) ←
        foldM (install_tail_step bs) (table, tail, 0, 0) (zip staged mutations);
      Ok (removed, added, Mapped bs table tail)
  end.

Definition install_recovered (m : t) (mu : MappedMutation) (hash : Z) : result (Z * Z * t) :=
  match m with
  | Mapped (Some b) table tail =>
      mapping ← BaseBytes.deref b;
      let r := into_record mu in
      _ ← assert (bool_decide (is_Some (mapped_record.checked_slices r mapping)));
      added ← mapped_record.memory_charge r mapping;
      '(previous, table) ← insert_mapped_record_hashed table mapping r hash;
      removed ← match previous with
                | None => Ok 0
                | Some previous => mapped_record.memory_charge previous mapping
                end;
      Ok (removed, added, Mapped (Some b) table tail)
  | _ => Panic
  end.

Definition replace_mapped_bytes (m : t) (bs : option BaseBytes) : result t :=
  match m with
  | Memory _ => Panic
  | Mapped _ table tail => Ok (Mapped bs table tail)
  end.

Definition mapped_bytes_len (m : t) : result Z :=
  match m with
  | Mapped (Some b) _ _ => blen <$> BaseBytes.deref b
  | _ => Ok 0
  end.

Definition clear (m : t) : t :=
  match m with
  | Memory _ => Memory ht_new
  | Mapped _ _ _ => Mapped None ht_new ht_new
  end.

Definition try_reserve_mapped (m : t) (additional : Z) : result (bool * t) :=
  match m with
  | Memory _ => Panic
  | Mapped bs table tail =>
      mapping ← mapping_or_empty bs;
      '(ok, table) ← ht_try_reserve table additional (record_hash mapping);
      Ok (ok, Mapped bs table tail)
  end.

End OverlayMap.
End OverlayMap.
Abbreviation OverlayMap := OverlayMap.t.

Module OverlayState.
Section OverlayState.
Context `{Xxh3, HashTables}.

Record t := Mk { index : OverlayMap; memory : Z }.

Definition new (index : OverlayMap) : result t :=
  m ← OverlayMap.memory_charge index; Ok (Mk index m).
Definition with_memory (index : OverlayMap) (memory : Z) : t := Mk index memory.

Definition set (s : t) (key : bytes) (entry : OverlayEntry) : result t :=
  let charge := overlay_entry_memory key entry in
  '(previous, index) ← OverlayMap.set_memory (index s) key entry;
  m ← match previous with
      | None => Ok (memory s)
      | Some p => c ← add_ovf (blen key) (previous_value_memory p); Ok (saturating_sub (memory s) c)
      end;
  Ok (Mk index (saturating_add m charge)).

Definition install_mapped (s : t) (bs : BaseBytes) (mutations : list MappedMutation) : result t :=
  '(removed, added, index) ← OverlayMap.install_mapped (index s) bs mutations;
  Ok (Mk index (saturating_add (saturating_sub (memory s) removed) added)).

Definition needs_mapping (s : t) (overlay_size : Z) : result bool :=
  n ← OverlayMap.mapped_bytes_len (index s);
  Ok (OVERLAY_MAPPING_THRESHOLD <=? saturating_sub overlay_size n).

Definition install_tail (s : t) (staged : KeyMap OverlayEntry) (mutations : list MappedMutation)
    : result t :=
  '(removed, added, index) ← OverlayMap.install_tail (index s) staged mutations;
  Ok (Mk index (saturating_add (saturating_sub (memory s) removed) added)).

Definition clear (s : t) : t := Mk (OverlayMap.clear (index s)) 0.

End OverlayState.
End OverlayState.
Abbreviation OverlayState := OverlayState.t.

(** ** Tables as maps

    A table [t] holds the map [m] when its elements, read with [view], are the
    bindings of [m], each stored under the hash of its key. [view] is [None] on an
    element that is not well formed, so [table_rep] carries the well-formedness
    of every element as well. *)

Abbreviation mutations_map := (gmap bytes (option bytes)).

Section TableRep.
Context `{Xxh3, HashTablesLaws} {T : Type}.
Implicit Types (view : T → option mutation) (t : HashTable T) (m : mutations_map).

Definition table_rep view t m : Prop :=
  (λ e, (e.1, view e.2)) <$> ht_elems t ≡ₚ (λ kv, (xxh3_64 kv.1, Some kv)) <$> map_to_list m.

(** The closures of the source, as [view] sees them. *)
Definition eq_reads view (key : bytes) (eqk : T → result bool) : Prop :=
  ∀ x k v, view x = Some (k, v) → eqk x = Ok (bool_decide (k = key)).
Definition hash_reads view (hasher : T → result Z) : Prop :=
  ∀ x k v, view x = Some (k, v) → hasher x = Ok (xxh3_64 k).

Lemma rep_elem view t m h x :
  table_rep view t m → (h, x) ∈ ht_elems t →
  ∃ k v, view x = Some (k, v) ∧ h = xxh3_64 k ∧ m !! k = Some v.
Proof.
  intros Hr Hin. apply (list_elem_of_fmap_2 (λ e, (e.1, view e.2))) in Hin.
  rewrite Hr in Hin. apply list_elem_of_fmap in Hin as ([k v]&[= -> Hv]&Hin).
  apply elem_of_map_to_list in Hin. eauto.
Qed.

Lemma rep_lookup view t m k v :
  table_rep view t m → m !! k = Some v →
  ∃ x, (xxh3_64 k, x) ∈ ht_elems t ∧ view x = Some (k, v).
Proof.
  intros Hr Hin%elem_of_map_to_list.
  apply (list_elem_of_fmap_2 (λ kv, (xxh3_64 kv.1, Some kv))) in Hin.
  rewrite <- Hr in Hin. apply list_elem_of_fmap in Hin as ([h x]&[= -> Hv]&Hin). eauto.
Qed.

Lemma rep_empty view t m : table_rep view t m → ht_elems t = [] → m = ∅.
Proof.
  intros Hr E. unfold table_rep in Hr. rewrite E in Hr.
  apply Permutation_nil, fmap_nil_inv in Hr. by apply map_to_list_empty_iff.
Qed.

Lemma rep_new view : table_rep view ht_new ∅.
Proof. unfold table_rep. by rewrite ht_new_elems, map_to_list_empty. Qed.

(** A weaker view keeps the representation. *)
Lemma rep_mono view view' t m :
  (∀ x p, view x = Some p → view' x = Some p) → table_rep view t m → table_rep view' t m.
Proof.
  intros Hv Hr. unfold table_rep. rewrite <- Hr.
  erewrite (list_fmap_ext _ (λ e, (e.1, view e.2))); [done|]. intros i [h x] Hi. cbn. f_equal.
  destruct (rep_elem view t m h x Hr) as (k&v&Hk&_); [by eapply list_elem_of_lookup_2|].
  rewrite Hk. by apply Hv.
Qed.

Lemma rep_eq_total view t m key eqk :
  table_rep view t m → eq_reads view key eqk → ht_eq_total t eqk.
Proof.
  intros Hr He h x Hin. destruct (rep_elem _ _ _ _ _ Hr Hin) as (k&v&Hx&_). eauto.
Qed.

Lemma rep_hashed view t m hasher :
  table_rep view t m → hash_reads view hasher → ht_hashed t hasher.
Proof.
  intros Hr Hh h x Hin. destruct (rep_elem _ _ _ _ _ Hr Hin) as (k&v&Hx&->&_). eauto.
Qed.

Lemma rep_absent view t m key eqk :
  table_rep view t m → eq_reads view key eqk → ht_absent t (xxh3_64 key) eqk → m !! key = None.
Proof.
  intros Hr He Ha. destruct (m !! key) as [v|] eqn:E; [|done].
  destruct (rep_lookup _ _ _ _ _ Hr E) as (x&Hin&Hx).
  pose proof (Ha x Hin) as Hf. rewrite (He x key v Hx), bool_decide_true in Hf by done. done.
Qed.

Lemma rep_found view t m key eqk h x :
  table_rep view t m → eq_reads view key eqk → (h, x) ∈ ht_elems t → eqk x = Ok true →
  ∃ v, view x = Some (key, v) ∧ h = xxh3_64 key ∧ m !! key = Some v.
Proof.
  intros Hr He Hin Ht. destruct (rep_elem _ _ _ _ _ Hr Hin) as (k&v&Hx&->&Hm).
  rewrite (He _ _ _ Hx) in Ht. injection Ht as ->%bool_decide_eq_true. eauto.
Qed.

(** Taking one element out of the table deletes its binding. *)
Lemma rep_split view t m h k v x rest :
  table_rep view t m → ht_elems t ≡ₚ (h, x) :: rest → view x = Some (k, v) → m !! k = Some v →
  (λ e, (e.1, view e.2)) <$> rest ≡ₚ (λ kv, (xxh3_64 kv.1, Some kv)) <$> map_to_list (delete k m).
Proof.
  intros Hr Hp Hx Hm. unfold table_rep in Hr. rewrite Hp in Hr.
  rewrite <- (map_to_list_delete m k v Hm) in Hr. csimpl in Hr. rewrite Hx in Hr.
  assert (h = xxh3_64 k) as ->.
  { destruct (rep_elem view t m h x) as (k'&v'&Hx'&->&_).
    - unfold table_rep. rewrite Hp, <- (map_to_list_delete m k v Hm). csimpl. by rewrite Hx.
    - rewrite Hp. by left.
    - congruence. }
  by apply Permutation_cons_inv in Hr.
Qed.

Lemma rep_find view t m key eqk :
  table_rep view t m → eq_reads view key eqk →
  ∃ o, ht_find t (xxh3_64 key) eqk = Ok o ∧
    match o with
    | Some x => ∃ v, view x = Some (key, v) ∧ m !! key = Some v
    | None => m !! key = None
    end.
Proof.
  intros Hr He. destruct (ht_find_spec t (xxh3_64 key) eqk) as (o&Ho&Hs);
    [by eapply rep_eq_total|]. exists o. split; [done|]. destruct o as [x|].
  - destruct Hs as [([h x']&->&Hin)%list_elem_of_fmap Ht].
    destruct (rep_found _ _ _ _ _ _ _ Hr He Hin Ht) as (v&?&_&?). eauto.
  - by eapply rep_absent.
Qed.

Lemma rep_find_mut view t m key eqk f :
  table_rep view t m → eq_reads view key eqk →
  ∃ o, ht_find_mut t (xxh3_64 key) eqk f = Ok o ∧
    match o with
    | Some (x, t') => ∃ v, view x = Some (key, v) ∧ m !! key = Some v ∧
        ∀ w, view (f x) = Some (key, w) → table_rep view t' (<[key:=w]> m)
    | None => m !! key = None
    end.
Proof.
  intros Hr He. destruct (ht_find_mut_spec t (xxh3_64 key) eqk f) as (o&Ho&Hs);
    [by eapply rep_eq_total|]. exists o. split; [done|].
  destruct o as [[x t']|]; [|by eapply rep_absent].
  destruct Hs as (Ht&h&rest&Hp&Hp').
  destruct (rep_found view t m key eqk h x) as (v&Hx&->&Hm); auto; [rewrite Hp; by left|].
  exists v. split_and!; [done..|]. intros w Hw. unfold table_rep.
  rewrite <- insert_delete_eq. rewrite map_to_list_insert by apply lookup_delete_eq.
  rewrite Hp'. csimpl. rewrite Hw. f_equiv. by eapply rep_split.
Qed.

Lemma rep_find_remove view t m key eqk :
  table_rep view t m → eq_reads view key eqk →
  ∃ o, ht_find_remove t (xxh3_64 key) eqk = Ok o ∧
    match o with
    | Some (x, t') => ∃ v, view x = Some (key, v) ∧ m !! key = Some v ∧
        table_rep view t' (delete key m)
    | None => m !! key = None
    end.
Proof.
  intros Hr He. destruct (ht_find_remove_spec t (xxh3_64 key) eqk) as (o&Ho&Hs);
    [by eapply rep_eq_total|]. exists o. split; [done|].
  destruct o as [[x t']|]; [|by eapply rep_absent].
  destruct Hs as (Ht&h&Hp).
  destruct (rep_found view t m key eqk h x) as (v&Hx&->&Hm); auto; [rewrite Hp; by left|].
  exists v. split_and!; [done..|]. by eapply rep_split.
Qed.

Lemma rep_insert_unique view t m key x v hasher :
  table_rep view t m → hash_reads view hasher → view x = Some (key, v) → m !! key = None →
  ∃ t', ht_insert_unique t (xxh3_64 key) x hasher = Ok t' ∧ table_rep view t' (<[key:=v]> m).
Proof.
  intros Hr Hh Hx Hm.
  destruct (ht_insert_unique_spec t (xxh3_64 key) x hasher) as (t'&Ht&Hp);
    [by eapply rep_hashed|]. exists t'. split; [done|]. unfold table_rep.
  rewrite Hp, map_to_list_insert by done. csimpl. rewrite Hx. by f_equiv.
Qed.

Lemma rep_try_reserve view t m n hasher :
  table_rep view t m → hash_reads view hasher →
  ∃ b t', ht_try_reserve t n hasher = Ok (b, t') ∧ table_rep view t' m.
Proof.
  intros Hr Hh. destruct (ht_try_reserve_spec t n hasher) as (b&t'&Ht&Hp);
    [by eapply rep_hashed|]. exists b, t'. split; [done|]. unfold table_rep. by rewrite Hp.
Qed.

Lemma rep_len view t m : table_rep view t m → ht_len t = Z.of_nat (size m).
Proof.
  intros Hr%Permutation_length. rewrite !length_fmap in Hr.
  unfold ht_len, blen. by rewrite Hr, length_map_to_list.
Qed.

Lemma rep_iter view t m :
  table_rep view t m → view <$> ht_iter t ≡ₚ Some <$> map_to_list m.
Proof.
  intros Hr. apply (fmap_Permutation snd) in Hr. rewrite <- !list_fmap_compose in Hr.
  unfold ht_iter. rewrite <- list_fmap_compose. exact Hr.
Qed.

End TableRep.

(** ** Memory charges *)

(** What an owned entry of a memory database, and an entry of a file database,
    is charged for. *)
Definition charge_owned (m : mutation) : Z := blen m.1 + blen (OverlayEntry.contents m.2).
Definition charge_inline (m : mutation) : Z :=
  blen m.1 + match m.2 with
             | None => 0
             | Some value => if blen value <? MAPPED_VALUE_THRESHOLD then blen value else 0
             end.

(** The charge of a whole map, and of the entry a key has now. *)
Definition total (c : mutation → Z) (m : mutations_map) : Z :=
  foldr (λ kv a, c kv + a) 0 (map_to_list m).
Definition old_charge (c : mutation → Z) (m : mutations_map) (k : bytes) : Z :=
  match m !! k with Some o => c (k, o) | None => 0 end.

(** The effect of a batch on a map, and the charges a batch takes out and brings in. *)
Definition apply_muts (m : mutations_map) (muts : list mutation) : mutations_map :=
  foldl (λ m kv, <[kv.1:=kv.2]> m) m muts.
Fixpoint removed_by (c : mutation → Z) (m : mutations_map) (muts : list mutation) : Z :=
  match muts with
  | [] => 0
  | kv :: muts => old_charge c m kv.1 + removed_by c (<[kv.1:=kv.2]> m) muts
  end.
Definition added_by (c : mutation → Z) (muts : list mutation) : Z :=
  foldr (λ kv a, c kv + a) 0 muts.

Lemma charge_owned_nonneg m : 0 ≤ charge_owned m.
Proof. unfold charge_owned, blen. lia. Qed.
Lemma charge_inline_nonneg m : 0 ≤ charge_inline m.
Proof. unfold charge_inline, blen. repeat case_match; lia. Qed.
Lemma charge_inline_owned m : charge_inline m ≤ charge_owned m.
Proof.
  destruct m as [k [v|]]; unfold charge_inline, charge_owned, OverlayEntry.contents; cbn.
  - pose proof (blen_nonneg v). case_match; lia.
  - pose proof (blen_nonneg (@nil byte)). lia.
Qed.
#[export] Hint Resolve charge_owned_nonneg charge_inline_nonneg : lkv.

Lemma sum_Permutation (c : mutation → Z) l l' :
  l ≡ₚ l' → foldr (λ kv a, c kv + a) 0 l = foldr (λ kv a, c kv + a) 0 l'.
Proof. induction 1; cbn; lia. Qed.

Lemma map_to_list_disj_union (m1 m2 : mutations_map) :
  m1 ##ₘ m2 → map_to_list (m1 ∪ m2) ≡ₚ map_to_list m1 ++ map_to_list m2.
Proof.
  revert m2. induction m1 as [|k v m1 Hk IH] using map_ind; intros m2 Hd.
  - by rewrite (left_id_L ∅ (∪)), map_to_list_empty.
  - apply map_disjoint_insert_l in Hd as [Hk2 Hd]. rewrite <- insert_union_l.
    rewrite !map_to_list_insert, IH; [done..|by apply lookup_union_None].
Qed.

Section Totals.
Context (c : mutation → Z) (Hc : ∀ kv, 0 ≤ c kv).
Implicit Types (m : mutations_map) (muts : list mutation).

Lemma total_empty : total c ∅ = 0.
Proof. unfold total. by rewrite map_to_list_empty. Qed.

Lemma total_delete m k : total c (delete k m) = total c m - old_charge c m k.
Proof.
  unfold total, old_charge. destruct (m !! k) as [v|] eqn:E.
  - rewrite <- (sum_Permutation c _ _ (map_to_list_delete m k v E)). cbn. lia.
  - rewrite delete_id by done. lia.
Qed.

Lemma total_insert m k v :
  total c (<[k:=v]> m) = total c m - old_charge c m k + c (k, v).
Proof.
  rewrite <- total_delete, <- insert_delete_eq. unfold total.
  rewrite (sum_Permutation c _ _ (map_to_list_insert (delete k m) k v (lookup_delete_eq _ _))).
  cbn. lia.
Qed.

Lemma total_nonneg m : 0 ≤ total c m.
Proof using Hc.
  unfold total. induction (map_to_list m) as [|kv l IH]; cbn; [lia|]. specialize (Hc kv). lia.
Qed.

Lemma total_disjoint_union m1 m2 : m1 ##ₘ m2 → total c (m1 ∪ m2) = total c m1 + total c m2.
Proof.
  intros Hd. unfold total. rewrite (sum_Permutation c _ _ (map_to_list_disj_union m1 m2 Hd)).
  induction (map_to_list m1); cbn in *; lia.
Qed.

Lemma old_charge_nonneg m k : 0 ≤ old_charge c m k.
Proof using Hc. unfold old_charge. destruct (m !! k); [apply Hc|lia]. Qed.

Lemma old_charge_le m k : old_charge c m k ≤ total c m.
Proof using Hc. pose proof (total_nonneg (delete k m)) as H. rewrite total_delete in H. lia. Qed.

Lemma total_apply_muts m muts :
  total c (apply_muts m muts) = total c m - removed_by c m muts + added_by c muts.
Proof.
  revert m. induction muts as [|[k v] muts IH]; intros m; [cbn; lia|].
  change (apply_muts m ((k, v) :: muts)) with (apply_muts (<[k:=v]> m) muts).
  rewrite IH, total_insert. cbn. unfold added_by. lia.
Qed.

Lemma removed_by_nonneg m muts : 0 ≤ removed_by c m muts.
Proof using Hc.
  revert m. induction muts as [|kv muts IH]; intros m; cbn; [lia|].
  pose proof (old_charge_nonneg m kv.1). pose proof (IH (<[kv.1:=kv.2]> m)). lia.
Qed.

Lemma added_by_nonneg muts : 0 ≤ added_by c muts.
Proof using Hc.
  unfold added_by. induction muts as [|kv l IH]; cbn; [lia|]. specialize (Hc kv). lia.
Qed.

Lemma total_apply_muts_le m muts :
  total c (apply_muts m muts) ≤ total c m + added_by c muts.
Proof using Hc. rewrite total_apply_muts. pose proof (removed_by_nonneg m muts). lia. Qed.

Lemma removed_by_agree m m' muts :
  (∀ k, k ∈ muts.*1 → m !! k = m' !! k) → removed_by c m muts = removed_by c m' muts.
Proof.
  revert m m'. induction muts as [|[k v] muts IH]; intros m m' Hm; cbn; [done|].
  unfold old_charge. rewrite (Hm k) by set_solver. f_equal. apply IH. intros k' Hk'.
  rewrite !lookup_insert. case_decide; [done|]. apply Hm. set_solver.
Qed.

(** A batch of distinct keys takes out at most what the map holds. *)
Lemma removed_by_le m muts : NoDup muts.*1 → removed_by c m muts ≤ total c m.
Proof using Hc.
  revert m. induction muts as [|[k v] muts IH]; intros m; cbn; [intros; apply total_nonneg|].
  intros [Hk Hnd]%NoDup_cons. rewrite (removed_by_agree _ (delete k m)).
  - pose proof (IH (delete k m) Hnd) as H. rewrite total_delete in H. cbn in H. lia.
  - intros k' Hk'. rewrite lookup_insert_ne, lookup_delete_ne by set_solver. done.
Qed.

End Totals.

Lemma apply_muts_cons m kv muts :
  apply_muts m (kv :: muts) = apply_muts (<[kv.1:=kv.2]> m) muts.
Proof. done. Qed.

Lemma apply_muts_app m muts muts' :
  apply_muts m (muts ++ muts') = apply_muts (apply_muts m muts) muts'.
Proof. apply foldl_app. Qed.

(** The last mutation of a key wins; other keys keep what they had. *)
Lemma apply_muts_lookup m muts k :
  NoDup muts.*1 →
  apply_muts m muts !! k =
    match KeyMap.get muts k with Some o => Some o | None => m !! k end.
Proof.
  revert m. induction muts as [|[k' v] muts IH]; intros m; [done|].
  intros [Hk Hnd]%NoDup_cons. rewrite apply_muts_cons, IH by done. cbn.
  rewrite lookup_insert.
  assert (Hg : k' = k → KeyMap.get muts k = None).
  { intros ->. rewrite KeyMap.get_list_to_map by done. by apply not_elem_of_list_to_map_1. }
  repeat case_decide; try done. by rewrite Hg.
Qed.

(** ** Records of the log *)

Lemma get_range_prefix {A} (l l' : list A) a b s :
  l `prefix_of` l' → get_range l a b = Some s → get_range l' a b = Some s.
Proof.
  intros [q ->] Hg. pose proof Hg as (?&?&_&_)%get_range_Some. by rewrite get_range_app_l.
Qed.

(** A record keeps its meaning when the log grows. *)
Lemma checked_slices_prefix r bs bs' p :
  bs `prefix_of` bs' → mapped_record.checked_slices r bs = Some p →
  mapped_record.checked_slices r bs' = Some p.
Proof.
  intros Hp Hs. unfold mapped_record.checked_slices in *.
  destruct (checked_add (record_offset r) OPERATION_HEADER_SIZE) as [he|]; [|done]. cbn in *.
  destruct (get_range bs (record_offset r) he) as [header|] eqn:Hh; [|done].
  rewrite (get_range_prefix _ _ _ _ _ Hp Hh). cbn in *.
  destruct (header !! 0%nat) as [b|]; [|done]. cbn in *.
  destruct (Marker.from_byte b) as [mk|]; [|done]. cbn in *.
  destruct (negb _); [done|].
  destruct (from_le_bytes <$> get_range header 1 5) as [kl|]; [|done]. cbn in *.
  destruct (from_le_bytes <$> get_range header 5 9) as [vl|]; [|done]. cbn in *.
  destruct (_ && _); [done|].
  destruct (checked_add he kl) as [ke|]; [|done]. cbn in *.
  destruct (checked_add ke vl) as [ve|]; [|done]. cbn in *.
  destruct (get_range bs he ke) as [key|] eqn:Hk; [|done].
  rewrite (get_range_prefix _ _ _ _ _ Hp Hk). cbn in *.
  destruct mk; try done.
  destruct (get_range bs ke ve) as [v|] eqn:Hv; [|done].
  by rewrite (get_range_prefix _ _ _ _ _ Hp Hv).
Qed.

Lemma get_range_take {A} (l : list A) n a b s :
  get_range l a b = Some s → b ≤ n → get_range (take (Z.to_nat n) l) a b = Some s.
Proof.
  intros Hg Hn. pose proof Hg as (?&?&_&_)%get_range_Some.
  rewrite <- (take_drop (Z.to_nat n) l) in Hg. rewrite get_range_app_l in Hg; [done|].
  rewrite blen_take. unfold blen in *. lia.
Qed.

(** A record can be read as soon as the log contains all of it. *)
Lemma checked_slices_take r bs n k o :
  mapped_record.checked_slices r bs = Some (k, o) → 0 ≤ record_offset r →
  record_offset r + 9 + blen k + blen (OverlayEntry.contents o) ≤ n →
  mapped_record.checked_slices r (take (Z.to_nat n) bs) = Some (k, o).
Proof.
  intros Hs Hr Hn. unfold mapped_record.checked_slices, OPERATION_HEADER_SIZE in *.
  pose proof (blen_nonneg k). pose proof (blen_nonneg (OverlayEntry.contents o)).
  destruct (checked_add (record_offset r) 9) as [he|] eqn:Ehe; [|done].
  apply checked_add_Some in Ehe as [-> _]. cbn in *.
  destruct (get_range bs (record_offset r) _) as [header|] eqn:Hh; [|done].
  rewrite (get_range_take _ n _ _ _ Hh) by lia. cbn in *.
  destruct (header !! 0%nat) as [b|]; [|done]. cbn in *.
  destruct (Marker.from_byte b) as [mk|]; [|done]. cbn in *.
  destruct (negb _); [done|].
  destruct (from_le_bytes <$> get_range header 1 5) as [kl|]; [|done]. cbn in *.
  destruct (from_le_bytes <$> get_range header 5 9) as [vl|]; [|done]. cbn in *.
  destruct (_ && _); [done|].
  destruct (checked_add _ kl) as [ke|] eqn:Eke; [|done]. cbn in *.
  destruct (checked_add ke vl) as [ve|] eqn:Eve; [|done]. cbn in *.
  destruct (get_range bs _ ke) as [key|] eqn:Hk; [|done]. cbn in *.
  pose proof (get_range_Some _ _ _ _ Hk) as (_&_&Hkl&_).
  destruct mk.
  1: { destruct (get_range bs ke ve) as [v|] eqn:Hv; [|done]. cbn in Hs. injection Hs as -> <-. cbn in *.
    pose proof (get_range_Some _ _ _ _ Hv) as (_&_&Hvl&_).
    rewrite (get_range_take _ n _ _ _ Hk) by lia. cbn. by rewrite (get_range_take _ n _ _ _ Hv) by lia. }
  all: cbn in Hs; injection Hs as -> <-; cbn in *; by rewrite (get_range_take _ n _ _ _ Hk) by lia.
Qed.

Lemma checked_slices_nil r : mapped_record.checked_slices r [] = None.
Proof.
  unfold mapped_record.checked_slices, OPERATION_HEADER_SIZE.
  destruct (checked_add _ _) as [he|] eqn:E; [|done]. cbn. run_inv.
  destruct (get_range [] _ _) as [h|] eqn:Hg; [|done].
  apply get_range_Some in Hg as (?&?&_). rewrite blen_nil in *. lia.
Qed.

(** The operation format: lengths are [u32]. *)
Definition op_fits (m : mutation) : Prop :=
  blen m.1 < U32 ∧ blen (OverlayEntry.contents m.2) < U32.

(** An operation written at [blen pre] is read back at that offset. *)
Lemma checked_slices_encode pre m post :
  op_fits m → blen (pre ++ log.encode_op m ++ post) < U64 →
  mapped_record.checked_slices (MkMappedRecord (blen pre)) (pre ++ log.encode_op m ++ post) = Some m.
Proof.
  destruct m as [k o]. intros [Hk Hv] Hl. cbn [fst snd] in Hk, Hv.
  autorewrite with len in Hl. rewrite log.blen_encode_op in Hl. cbn [fst snd] in Hl.
  set (v := OverlayEntry.contents o) in *.
  pose proof (blen_nonneg pre). pose proof (blen_nonneg k). pose proof (blen_nonneg v).
  pose proof (blen_nonneg post).
  unfold mapped_record.checked_slices, OPERATION_HEADER_SIZE, record_offset, log.encode_op. fold v.
  set (mk := if o then Marker.Put else Marker.Delete).
  rewrite checked_add_ok by lia. cbn [mbind option_bind].
  set (header := [Marker.as_u8 mk] ++ u32_le (blen k) ++ u32_le (blen v)).
  replace ([Marker.as_u8 mk] ++ u32_le (blen k) ++ u32_le (blen v) ++ k ++ v)
    with (header ++ k ++ v) by (unfold header; by rewrite <- !app_assoc).
  assert (Hh : blen header = 9) by (unfold header; len).
  rewrite <- !app_assoc. rewrite get_range_mid by lia. cbn [mbind option_bind].
  change (header !! 0%nat) with (Some (Marker.as_u8 mk)). cbn [mbind option_bind].
  rewrite Marker.from_byte_as_u8. cbn [mbind option_bind].
  replace (negb _) with false by (subst mk; by destruct o).
  assert (get_range header 1 5 = Some (u32_le (blen k))) as ->
    by (unfold header; apply (get_range_mid [_]); len).
  assert (get_range header 5 9 = Some (u32_le (blen v))) as ->.
  { unfold header. rewrite app_assoc.
    rewrite <- (app_nil_r (u32_le (blen v))) at 1. apply get_range_mid; len. }
  cbn [fmap option_fmap option_map mbind option_bind].
  rewrite !from_to_le_bytes_small by lia.
  replace (bool_decide (mk = Marker.Delete) && negb (blen v =? 0)) with false
    by (subst mk v; by destruct o).
  rewrite checked_add_ok by lia. cbn [mbind option_bind].
  rewrite checked_add_ok by lia. cbn [mbind option_bind].
  assert (get_range (pre ++ header ++ k ++ v ++ post) (blen pre + 9) (blen pre + 9 + blen k)
          = Some k) as ->
    by (rewrite app_assoc; apply get_range_mid; autorewrite with len; lia).
  assert (get_range (pre ++ header ++ k ++ v ++ post) (blen pre + 9 + blen k)
            (blen pre + 9 + blen k + blen v) = Some v) as ->
    by (rewrite !app_assoc, <- (app_assoc _ v); apply get_range_mid; autorewrite with len; lia).
  subst mk v. by destruct o.
Qed.

(** ** The index as a map from keys to their latest mutation *)

Section Represents.
Context `{Xxh3, HashTablesLaws}.
Implicit Types (log : bytes) (M : mutations_map) (m : OverlayMap).

Definition owned_view (e : bytes * OverlayEntry) : option mutation :=
  match e.2 with
  | OverlayEntry.Put (ValueBytes.Owned v) => Some (e.1, Some v)
  | OverlayEntry.Put (ValueBytes.Mapped _ _ _) => None
  | OverlayEntry.Delete => Some (e.1, None)
  end.

Definition record_view (mapping : bytes) (r : MappedRecord) : option mutation :=
  mapped_record.checked_slices r mapping.

(** A tail entry agrees with the record it will be mapped at, and its value is
    small enough to be charged in full. *)
Definition tail_view log (e : TailOverlayEntry) : option mutation :=
  match owned_view (tail_key e, tail_value e) with
  | Some p => if decide (record_view log (tail_mapped e) = Some p ∧ charge_inline p = charge_owned p)
              then Some p else None
  | None => None
  end.

(** [m] over the log bytes [log] holds the mutations [M]. *)
Definition represents log m M : Prop :=
  match m with
  | OverlayMap.Memory table => table_rep owned_view table M
  | OverlayMap.Mapped bs table tail =>
      ∃ mapping Mt Ml, OverlayMap.mapping_or_empty bs = Ok mapping ∧ mapping `prefix_of` log
        ∧ table_rep (record_view mapping) table Mt ∧ table_rep (tail_view log) tail Ml
        ∧ Mt ##ₘ Ml ∧ M = Mt ∪ Ml
  end.

Definition charge_of m : mutation → Z :=
  match m with OverlayMap.Memory _ => charge_owned | OverlayMap.Mapped _ _ _ => charge_inline end.

Lemma charge_of_nonneg m kv : 0 ≤ charge_of m kv.
Proof. destruct m; cbn; auto with lkv. Qed.

(** The state's charge is the charge of the map it holds. *)
Definition state_holds log (s : OverlayState) M : Prop :=
  represents log (OverlayState.index s) M
  ∧ OverlayState.memory s = total (charge_of (OverlayState.index s)) M
  ∧ OverlayState.memory s < U64.

Lemma owned_view_answer e k o : owned_view e = Some (k, o) → e.1 = k ∧ entry_answer e.2 = Ok o.
Proof. destruct e as [? [[]|]]; cbn; intros; simplify_eq; done. Qed.

Lemma owned_view_charge e kv :
  owned_view e = Some kv → overlay_entry_memory e.1 e.2 = charge_owned kv.
Proof. by destruct e as [? [[]|]]; cbn; intros; simplify_eq. Qed.

Lemma tail_view_inv log e kv :
  tail_view log e = Some kv →
  owned_view (tail_key e, tail_value e) = Some kv ∧ record_view log (tail_mapped e) = Some kv
  ∧ charge_inline kv = charge_owned kv.
Proof.
  unfold tail_view. destruct (owned_view _) as [p|]; [|done]. case_decide; [|done].
  intros [= ->]. naive_solver.
Qed.

Lemma tail_view_prefix log log' e kv :
  log `prefix_of` log' → tail_view log e = Some kv → tail_view log' e = Some kv.
Proof.
  intros Hp (Ho&Hr&Hc)%tail_view_inv. unfold tail_view. rewrite Ho.
  rewrite decide_True; [done|]. split; [|done]. by eapply checked_slices_prefix.
Qed.

Lemma slices_view mapping r kv :
  record_view mapping r = Some kv → mapped_record.slices r mapping = Ok kv.
Proof. unfold record_view, mapped_record.slices. by intros ->. Qed.

Lemma record_charge mapping r kv :
  record_view mapping r = Some kv → mapped_record.memory_charge r mapping = Ok (charge_inline kv).
Proof.
  intros Hr. unfold mapped_record.memory_charge. rewrite (slices_view _ _ _ Hr). by destruct kv.
Qed.

Lemma owned_eq_reads key : eq_reads owned_view key (OverlayMap.owned_has_key key).
Proof. intros [k' e] k v [Hk _]%owned_view_answer. cbn in Hk. by subst. Qed.
Lemma tail_eq_reads log key : eq_reads (tail_view log) key (OverlayMap.tail_has_key key).
Proof. intros e k v (([= Hk]&_)%owned_view_answer&_)%tail_view_inv. cbn in Hk. by subst. Qed.
Lemma record_eq_reads mapping key :
  eq_reads (record_view mapping) key (OverlayMap.record_has_key mapping key).
Proof. intros r k v Hr. unfold OverlayMap.record_has_key. by rewrite (slices_view _ _ _ Hr). Qed.

Lemma owned_hash_reads : hash_reads owned_view (λ e, Ok (xxh3_64 e.1)).
Proof. intros [k' e] k v [Hk _]%owned_view_answer. cbn in Hk. by subst. Qed.
Lemma tail_hash_reads log : hash_reads (tail_view log) (λ e, Ok (xxh3_64 (tail_key e))).
Proof. intros e k v (([= Hk]&_)%owned_view_answer&_)%tail_view_inv. cbn in Hk. by subst. Qed.
Lemma record_hash_reads mapping :
  hash_reads (record_view mapping) (OverlayMap.record_hash mapping).
Proof. intros r k v Hr. unfold OverlayMap.record_hash. by rewrite (slices_view _ _ _ Hr). Qed.

Lemma record_view_prefix bs bs' r kv :
  bs `prefix_of` bs' → record_view bs r = Some kv → record_view bs' r = Some kv.
Proof. apply checked_slices_prefix. Qed.

(** Without a mapping the table of records is empty. *)
Lemma rep_no_mapping table Mt : table_rep (record_view []) table Mt → Mt = ∅.
Proof.
  intros Hr. apply (rep_empty _ _ _ Hr). destruct (ht_elems table) as [|[h r] l] eqn:E; [done|].
  destruct (rep_elem _ _ _ h r Hr) as (k&v&Hv&_); [rewrite E; by left|].
  unfold record_view in Hv. by rewrite checked_slices_nil in Hv.
Qed.

End Represents.
#[export] Hint Resolve owned_eq_reads tail_eq_reads record_eq_reads owned_hash_reads
  tail_hash_reads record_hash_reads charge_of_nonneg : lkv.

Module overlay_map_facts.
Section Facts.
Context `{Xxh3, HashTablesLaws}.
Implicit Types (log : bytes) (M : mutations_map) (m : OverlayMap).

Lemma get_hashed_spec log m M key :
  represents log m M → OverlayMap.get_hashed m key (xxh3_64 key) = Ok (M !! key).
Proof.
  destruct m as [table|bs table tail]; cbn [represents OverlayMap.get_hashed].
  - intros Hr. destruct (rep_find _ _ _ key _ Hr (owned_eq_reads key)) as (o&->&Ho). rstep.
    destruct o as [[k e]|]; [|by rewrite Ho].
    destruct Ho as (v&Hv&->). apply owned_view_answer in Hv as [_ Ha]. cbn in Ha. by rewrite Ha.
  - intros (mapping&Mt&Ml&Hb&Hpre&Ht&Hl&Hd&->).
    destruct (rep_find _ _ _ key _ Hl (tail_eq_reads log key)) as (o&->&Ho). rstep.
    destruct o as [e|].
    + destruct Ho as (v&Hv&Hm). apply tail_view_inv in Hv as (Hv&_).
      apply owned_view_answer in Hv as [_ Ha]. cbn in Ha. rewrite Ha. rstep. f_equal. symmetry.
      apply lookup_union_Some_raw. right. split; [|done]. by eapply map_disjoint_Some_r.
    + rewrite lookup_union_l by done. destruct bs as [b|]; cbn in Hb.
      * rewrite Hb. rstep.
        destruct (rep_find _ _ _ key _ Ht (record_eq_reads mapping key)) as (o&->&Ho'). rstep.
        destruct o as [r|]; [|by rewrite Ho']. destruct Ho' as (v&Hv&->).
        by rewrite (slices_view _ _ _ Hv).
      * injection Hb as <-. by rewrite (rep_no_mapping _ _ Ht), lookup_empty.
Qed.

Lemma len_spec log m M : represents log m M → OverlayMap.len m = Z.of_nat (size M).
Proof.
  destruct m as [table|bs table tail]; cbn.
  - apply rep_len.
  - intros (mapping&Mt&Ml&_&_&Ht&Hl&Hd&->).
    rewrite (rep_len _ _ _ Ht), (rep_len _ _ _ Hl), map_size_disj_union by done. lia.
Qed.

(** Reading every element of a list with a view that is defined on all of them. *)
Lemma mapM_view {T} (view : T → option mutation) (f : T → result mutation) l ms :
  (∀ x kv, view x = Some kv → f x = Ok kv) → view <$> l = Some <$> ms → mapM_result f l = Ok ms.
Proof.
  intros Hf. revert ms. induction l as [|x l IH]; intros [|kv ms]; csimpl; try done.
  intros [= Hx Hms]. rewrite (Hf _ _ Hx). rstep. by rewrite (IH ms).
Qed.

Lemma rep_iter_list {T} (view : T → option mutation) t M :
  table_rep view t M → ∃ ms, view <$> ht_iter t = Some <$> ms ∧ ms ≡ₚ map_to_list M.
Proof.
  intros Hr%rep_iter. apply Permutation_map_inv in Hr as (ms&Hms&Hp). by exists ms.
Qed.

Lemma iter_spec log m M :
  represents log m M → ∃ ms, OverlayMap.iter m = Ok ms ∧ ms ≡ₚ map_to_list M.
Proof.
  destruct m as [table|bs table tail]; cbn [represents OverlayMap.iter].
  - intros (ms&Hms&Hp)%rep_iter_list. exists ms. split; [|done].
    apply (mapM_view owned_view); [|done].
    intros [k e] [k' o] [Hk Ha]%owned_view_answer. cbn in *. subst. by rewrite Ha.
  - intros (mapping&Mt&Ml&->&_&(l1&Hl1&P1)%rep_iter_list&(l2&Hl2&P2)%rep_iter_list&Hd&->). rstep.
    exists (l1 ++ l2).
    rewrite (mapM_view (record_view mapping) _ _ l1), (mapM_view (tail_view log) _ _ l2);
      [|intros e [k o] ([Hk Ha]%owned_view_answer&_)%tail_view_inv; cbn in *; subst; by rewrite Ha
       |done|intros r kv Hr; apply slices_view, Hr|done].
    split; [done|]. rewrite P1, P2. symmetry. by apply map_to_list_disj_union.
Qed.

(** What a record that was found stands for, and what it is charged. *)
Definition previous_is (mapping : bytes) (Mt : mutations_map) (k : bytes) (previous : option MappedRecord) : Prop :=
  match previous with
  | Some r => ∃ v, record_view mapping r = Some (k, v) ∧ Mt !! k = Some v
  | None => Mt !! k = None
  end.

(** [view] may see fewer bytes than the mapping the operation works on. *)
Lemma insert_mapped_record_within view mapping table Mt r k o :
  (∀ x p, view x = Some p → record_view mapping x = Some p) →
  table_rep view table Mt → view r = Some (k, o) →
  ∃ previous table',
    OverlayMap.insert_mapped_record_hashed table mapping r (xxh3_64 k) = Ok (previous, table')
    ∧ table_rep view table' (<[k:=o]> Mt) ∧ previous_is mapping Mt k previous.
Proof.
  intros Hv Ht Hr. unfold OverlayMap.insert_mapped_record_hashed. rewrite (slices_view _ _ _ (Hv _ _ Hr)). rstep.
  assert (He : eq_reads view k (OverlayMap.record_has_key mapping k))
    by (intros x k' v' Hx; by eapply record_eq_reads, Hv).
  assert (Hh : hash_reads view (OverlayMap.record_hash mapping))
    by (intros x k' v' Hx; by eapply record_hash_reads, Hv).
  destruct (rep_find_mut _ _ _ k _ (λ _, r) Ht He) as (fo&->&Ho). rstep.
  destruct fo as [[x t']|].
  - destruct Ho as (v&Hx&Hm&Hrep). exists (Some x), t'. split_and!; eauto. exists v. split; [by apply Hv|done].
  - destruct (rep_insert_unique _ _ _ k r o _ Ht Hh Hr Ho) as (t'&->&Ht').
    rstep. by exists None, t'.
Qed.

Lemma insert_mapped_record_hashed_spec mapping table Mt r k o :
  table_rep (record_view mapping) table Mt → record_view mapping r = Some (k, o) →
  ∃ previous table',
    OverlayMap.insert_mapped_record_hashed table mapping r (xxh3_64 k) = Ok (previous, table')
    ∧ table_rep (record_view mapping) table' (<[k:=o]> Mt) ∧ previous_is mapping Mt k previous.
Proof. by apply insert_mapped_record_within. Qed.

Lemma insert_mapped_record_spec mapping table Mt r k o :
  table_rep (record_view mapping) table Mt → record_view mapping r = Some (k, o) →
  ∃ previous table',
    OverlayMap.insert_mapped_record table mapping r = Ok (previous, table')
    ∧ table_rep (record_view mapping) table' (<[k:=o]> Mt) ∧ previous_is mapping Mt k previous.
Proof.
  intros Ht Hr. unfold OverlayMap.insert_mapped_record. rewrite (slices_view _ _ _ Hr). rstep.
  by apply insert_mapped_record_hashed_spec.
Qed.

Lemma previous_charge mapping Mt k previous :
  previous_is mapping Mt k previous →
  match previous with
  | None => Ok 0
  | Some r => mapped_record.memory_charge r mapping
  end = Ok (old_charge charge_inline Mt k).
Proof.
  unfold old_charge. destruct previous as [r|]; cbn; [|by intros ->].
  intros (v&Hv&->). by apply record_charge.
Qed.

(** *** [install_mapped] *)

(** Moving the tail into the table of records, which has none of its keys. *)
Lemma move_tail_spec log l ms table Mt :
  table_rep (record_view log) table Mt → tail_view log <$> l = Some <$> ms →
  NoDup ms.*1 → (∀ k, k ∈ ms.*1 → Mt !! k = None) →
  ∃ table', foldM (OverlayMap.move_tail_step log) table l = Ok table'
    ∧ table_rep (record_view log) table' (apply_muts Mt ms).
Proof.
  revert ms table Mt. induction l as [|e l IH]; intros [|[k o] ms] table Mt Ht; csimpl; try done.
  { intros _ _ _. by exists table. }
  intros [= (Hk&Hr&_)%tail_view_inv Hms] [Hn Hnd]%NoDup_cons Hnone.
  unfold OverlayMap.move_tail_step at 2. rewrite (slices_view _ _ _ Hr). rstep.
  apply owned_view_answer in Hk as [Hk _]. cbn in Hk. rewrite bool_decide_true by done. rstep.
  destruct (insert_mapped_record_spec log table Mt _ k o Ht Hr) as (pr&t'&->&Ht'&Hpr). rstep.
  assert (pr = None) as ->.
  { destruct pr as [r|]; [|done]. destruct Hpr as (v&_&E). rewrite (Hnone k) in E by (by left). done. }
  rstep. apply (IH ms); [done|done|done|]. intros k' Hk'. rewrite lookup_insert_ne by (intros ->; done). apply Hnone. by right.
Qed.

Lemma apply_muts_union Mt Ml ms :
  Mt ##ₘ Ml → ms ≡ₚ map_to_list Ml → apply_muts Mt ms = Mt ∪ Ml.
Proof.
  intros Hd Hp. apply map_eq. intros k.
  assert (Hnd : NoDup ms.*1) by (rewrite Hp; apply NoDup_fst_map_to_list).
  rewrite apply_muts_lookup, KeyMap.get_list_to_map by done.
  replace (list_to_map ms : mutations_map) with Ml
    by (rewrite (list_to_map_proper ms (map_to_list Ml)) by done; by rewrite list_to_map_to_list).
  destruct (Ml !! k) eqn:E; symmetry.
  - apply lookup_union_Some_raw. right. split; [|done]. by eapply map_disjoint_Some_r.
  - by apply lookup_union_l.
Qed.

(** The mutations of a batch at their places in the log. *)
Definition located log (mutations : list MappedMutation) (muts : list mutation) : Prop :=
  Forall2 (λ mu kv, record_view log (into_record mu) = Some kv) mutations muts.

Lemma install_mapped_loop log mutations muts table M r a :
  table_rep (record_view log) table M → located log mutations muts →
  r + removed_by charge_inline M muts < U64 → a + added_by charge_inline muts < U64 →
  ∃ table',
    foldM (OverlayMap.install_mapped_step log) (table, r, a) mutations
      = Ok (table', r + removed_by charge_inline M muts, a + added_by charge_inline muts)
    ∧ table_rep (record_view log) table' (apply_muts M muts).
Proof.
  intros Ht Hl. revert table M r a Ht.
  induction Hl as [|mu [k o] mutations muts Hr Hl IH]; intros table M r a Ht Hrm Had.
  { exists table. cbn. by rewrite !Z.add_0_r. }
  cbn [removed_by added_by foldr fst snd] in *. fold (added_by charge_inline muts) in *.
  pose proof (removed_by_nonneg charge_inline charge_inline_nonneg (<[k:=o]> M) muts).
  pose proof (added_by_nonneg charge_inline charge_inline_nonneg muts).
  cbn [foldM]. unfold OverlayMap.install_mapped_step at 2. cbv beta iota zeta.
  rewrite (record_charge _ _ _ Hr). rstep.
  destruct (insert_mapped_record_spec log table M _ k o Ht Hr) as (pr&t'&->&Ht'&Hpr). rstep.
  destruct (IH t' (<[k:=o]> M) (r + old_charge charge_inline M k) (a + charge_inline (k, o)))
    as (t''&Hf&Hrep); [done|lia..|].
  exists t''. rewrite apply_muts_cons. split; [|done].
  rewrite !Z.add_assoc. rewrite <- Hf.
  apply previous_charge in Hpr. unfold saturating_add.
  destruct pr as [p|]; [rewrite Hpr|injection Hpr as <-]; rstep; do 3 f_equal; lia.
Qed.

Lemma install_mapped_spec log m M bs mutations muts :
  represents log m M → (∀ table, m ≠ OverlayMap.Memory table) → BaseBytes.deref bs = Ok log →
  located log mutations muts →
  removed_by charge_inline M muts < U64 → added_by charge_inline muts < U64 →
  ∃ table, OverlayMap.install_mapped m bs mutations
      = Ok (removed_by charge_inline M muts, added_by charge_inline muts,
            OverlayMap.Mapped (Some bs) table ht_new)
    ∧ represents log (OverlayMap.Mapped (Some bs) table ht_new) (apply_muts M muts).
Proof.
  intros Hm Hn Hbs Hl Hr Ha. destruct m as [table|bs0 table tail]; [by destruct (Hn table)|].
  destruct Hm as (mapping&Mt&Ml&_&Hpre&Ht&(ms&Hms&Hp)%rep_iter_list&Hd&->).
  cbn [OverlayMap.install_mapped]. rewrite Hbs. rstep.
  apply (rep_mono _ (record_view log)) in Ht; [|intros ??; by apply record_view_prefix].
  assert (Hnd : NoDup ms.*1) by (rewrite Hp; apply NoDup_fst_map_to_list).
  destruct (move_tail_spec log _ ms table Mt Ht Hms Hnd) as (t1&->&Ht1).
  { intros k (kv&->&Hin)%list_elem_of_fmap. rewrite Hp in Hin. destruct kv as [k o]. apply elem_of_map_to_list in Hin.
    by eapply map_disjoint_Some_r. }
  rstep.
  rewrite (apply_muts_union _ Ml) in Ht1 by done.
  destruct (install_mapped_loop log mutations muts t1 _ 0 0 Ht1 Hl) as (t2&->&Ht2); [lia..|].
  rstep. exists t2. split; [done|]. exists log, (apply_muts (Mt ∪ Ml) muts), ∅.
  split_and!; auto using rep_new; [apply map_disjoint_empty_r|by rewrite (right_id_L ∅ (∪))].
Qed.

(** *** [install_tail] *)

(** A staged entry with its record in the log. *)
Definition tail_entry log (e : bytes * OverlayEntry * MappedMutation) (kv : mutation) : Prop :=
  tail_view log (MkTail e.1.1 e.1.2 (into_record e.2)) = Some kv.

(** What [removed] becomes when the old entry of [k] in [M] is dropped. *)
Definition drop_charge (M : mutations_map) (k : bytes) (r : Z) : Z :=
  if decide (is_Some (M !! k)) then saturating_add r (old_charge charge_inline M k) else r.

(** The record of a key that moves to the tail leaves the table. *)
Lemma evict_record_spec bs mapping table Mt k r :
  OverlayMap.mapping_or_empty bs = Ok mapping → table_rep (record_view mapping) table Mt →
  ∃ table',
    match bs with
    | None => Ok (table, r)
    | Some b =>
        mapping ← BaseBytes.deref b;
        found ← ht_find_remove table (xxh3_64 k) (OverlayMap.record_has_key mapping k);
        match found with
        | None => Ok (table, r)
        | Some (old, table) =>
            c ← mapped_record.memory_charge old mapping;
            Ok (table, saturating_add r c)
        end
    end = Ok (table', drop_charge Mt k r)
    ∧ table_rep (record_view mapping) table' (delete k Mt).
Proof.
  intros Hb Ht. unfold drop_charge, old_charge. destruct bs as [b|]; cbn in Hb.
  - rewrite Hb. rstep.
    destruct (rep_find_remove _ _ _ k _ Ht (record_eq_reads mapping k)) as (fo&->&Hfr). rstep.
    destruct fo as [[x tab']|].
    + destruct Hfr as (v&Hx&Hm&Htab). rewrite (record_charge _ _ _ Hx). rstep.
      rewrite Hm, decide_True by eauto. eauto.
    + rewrite Hfr, decide_False by (intros [? [=]]). exists table. by rewrite delete_id.
  - injection Hb as <-. pose proof (rep_no_mapping _ _ Ht) as ->.
    rewrite lookup_empty, decide_False by (intros [? [=]]). exists table. by rewrite delete_empty.
Qed.

Lemma install_tail_step_spec log bs table tail M e k o r a :
  represents log (OverlayMap.Mapped bs table tail) M → tail_entry log e (k, o) →
  ∃ table' tail',
    OverlayMap.install_tail_step bs (table, tail, r, a) e
      = Ok (table', tail', drop_charge M k r, saturating_add a (charge_inline (k, o)))
    ∧ represents log (OverlayMap.Mapped bs table' tail') (<[k:=o]> M).
Proof.
  intros (mapping&Mt&Ml&Hb&Hpre&Ht&Hl&Hd&->) He. destruct e as [[k' e] mu].
  unfold tail_entry in He. cbn [fst snd] in He.
  pose proof He as (Ho&_&Hc)%tail_view_inv. cbn [tail_key tail_value tail_mapped] in *.
  pose proof (owned_view_answer _ _ _ Ho) as [Hk _]. cbn in Hk. subst k'.
  pose proof (owned_view_charge _ _ Ho) as Hch. cbn [fst snd] in Hch.
  cbn [OverlayMap.install_tail_step]. rewrite Hch, <- Hc.
  destruct (rep_find_mut _ _ _ k _ (λ x, MkTail (tail_key x) e (into_record mu)) Hl
              (tail_eq_reads log k)) as (fo&->&Hf). rstep.
  destruct fo as [[x t']|].
  - destruct Hf as (v&Hx&Hm&Hrep). exists table, t'.
    assert (Hn : Mt !! k = None) by (by eapply map_disjoint_Some_r).
    assert (Hu : (Mt ∪ Ml) !! k = Some v) by (apply lookup_union_Some_raw; auto).
    apply tail_view_inv in Hx as (Hx&_&Hxc).
    pose proof (owned_view_answer _ _ _ Hx) as [Hxk _]. cbn in Hxk.
    pose proof (owned_view_charge _ _ Hx) as Hxch. cbn [fst snd] in Hxch.
    rewrite Hxch, <- Hxc. unfold drop_charge, old_charge. rewrite Hu, decide_True by eauto.
    split; [done|]. exists mapping, Mt, (<[k:=o]> Ml). split_and!; auto.
    + apply Hrep. by rewrite Hxk.
    + by apply map_disjoint_insert_r_2.
    + by rewrite insert_union_r.
  - destruct (rep_insert_unique _ _ _ k _ o _ Hl (tail_hash_reads log) He Hf) as (t'&Ht'&Hrep).
    destruct (evict_record_spec bs mapping table Mt k r Hb Ht) as (table'&->&Htab). rstep.
    rewrite Ht'. rstep. exists table', t'.
    unfold drop_charge, old_charge. rewrite lookup_union_l by done. split; [done|].
    exists mapping, (delete k Mt), (<[k:=o]> Ml). split_and!; auto.
    + apply map_disjoint_insert_r_2; [apply lookup_delete_eq|by apply map_disjoint_delete_l].
    + rewrite <- insert_union_r by apply lookup_delete_eq.
      rewrite <- (delete_id Ml k) at 2 by done. rewrite <- delete_union.
      by rewrite insert_delete_eq.
Qed.

Lemma drop_charge_eq M k r :
  0 ≤ r → r + old_charge charge_inline M k < U64 → drop_charge M k r = r + old_charge charge_inline M k.
Proof.
  unfold drop_charge, old_charge, saturating_add. intros Hr Hb.
  destruct (M !! k) as [o|]; [rewrite decide_True by eauto|rewrite decide_False by (intros [? [=]])]; lia.
Qed.

Lemma install_tail_loop log bs l muts table tail M r a :
  represents log (OverlayMap.Mapped bs table tail) M → Forall2 (tail_entry log) l muts →
  0 ≤ r → r + removed_by charge_inline M muts < U64 → a + added_by charge_inline muts < U64 →
  ∃ table' tail',
    foldM (OverlayMap.install_tail_step bs) (table, tail, r, a) l
      = Ok (table', tail', r + removed_by charge_inline M muts, a + added_by charge_inline muts)
    ∧ represents log (OverlayMap.Mapped bs table' tail') (apply_muts M muts).
Proof.
  intros Hm Hl. revert table tail M r a Hm.
  induction Hl as [|e [k o] l muts He Hl IH]; intros table tail M r a Hm Hr0 Hrm Had.
  { exists table, tail. cbn [foldM removed_by added_by foldr]. by rewrite !Z.add_0_r. }
  cbn [removed_by added_by foldr fst snd] in *. fold (added_by charge_inline muts) in *.
  pose proof (removed_by_nonneg charge_inline charge_inline_nonneg (<[k:=o]> M) muts).
  pose proof (added_by_nonneg charge_inline charge_inline_nonneg muts).
  pose proof (old_charge_nonneg charge_inline charge_inline_nonneg M k).
  cbn [foldM].
  destruct (install_tail_step_spec log bs table tail M e k o r a Hm He) as (t1&l1&->&Hm1). rstep.
  rewrite drop_charge_eq by lia. unfold saturating_add. rewrite Z.min_l by lia.
  destruct (IH t1 l1 (<[k:=o]> M) (r + old_charge charge_inline M k) (a + charge_inline (k, o)))
    as (t2&l2&->&Hm2); [done|lia..|].
  exists t2, l2. rewrite apply_muts_cons, !Z.add_assoc. done.
Qed.

Lemma install_tail_spec log m M staged mutations muts :
  represents log m M → (∀ table, m ≠ OverlayMap.Memory table) →
  Forall2 (tail_entry log) (zip staged mutations) muts →
  removed_by charge_inline M muts < U64 → added_by charge_inline muts < U64 →
  ∃ m', OverlayMap.install_tail m staged mutations
      = Ok (removed_by charge_inline M muts, added_by charge_inline muts, m')
    ∧ represents log m' (apply_muts M muts) ∧ (∀ table, m' ≠ OverlayMap.Memory table).
Proof.
  intros Hm Hn Hl Hr Ha. destruct m as [table|bs table tail]; [by destruct (Hn table)|].
  cbn [OverlayMap.install_tail].
  destruct (install_tail_loop log bs _ muts table tail M 0 0 Hm Hl) as (t'&l'&->&Hm'); [lia..|].
  rstep. eexists. split_and!; [done|done|]. done.
Qed.

(** *** [install_recovered], [try_reserve_mapped], [replace_mapped_bytes] *)

(** While the log is scanned, every entry is a record of its first [used] bytes. *)
Definition recovering log (used : Z) b m M : Prop :=
  BaseBytes.deref b = Ok log ∧
  ∃ table, m = OverlayMap.Mapped (Some b) table ht_new
    ∧ table_rep (record_view (take (Z.to_nat used) log)) table M.

Lemma record_view_take log n r p :
  record_view (take n log) r = Some p → record_view log r = Some p.
Proof. apply checked_slices_prefix. exists (drop n log). by rewrite take_drop. Qed.

Lemma recovering_mono log used used' b m M :
  recovering log used b m M → used ≤ used' → recovering log used' b m M.
Proof.
  intros (Hb&table&->&Ht) Hu. split; [done|]. exists table. split; [done|].
  eapply rep_mono; [|exact Ht]. intros x p. apply checked_slices_prefix.
  exists (drop (Z.to_nat used) (take (Z.to_nat used') log)).
  rewrite <- (take_drop (Z.to_nat used) (take (Z.to_nat used') log)) at 1. f_equal.
  rewrite take_take. f_equal. lia.
Qed.

Lemma table_represents log b table M :
  BaseBytes.deref b = Ok log → table_rep (record_view log) table M →
  represents log (OverlayMap.Mapped (Some b) table ht_new) M.
Proof.
  intros Hb Ht. exists log, M, ∅. split_and!; auto using rep_new;
    [apply map_disjoint_empty_r|by rewrite (right_id_L ∅ (∪))].
Qed.

Lemma recovering_represents log used b m M : recovering log used b m M → represents log m M.
Proof.
  intros (Hb&table&->&Ht). apply table_represents; [done|].
  eapply rep_mono; [|exact Ht]. intros x p. apply record_view_take.
Qed.

Lemma install_recovered_spec log used b m M mu k o :
  recovering log used b m M → record_view (take (Z.to_nat used) log) (into_record mu) = Some (k, o) →
  ∃ m', OverlayMap.install_recovered m mu (xxh3_64 k)
      = Ok (old_charge charge_inline M k, charge_inline (k, o), m')
    ∧ recovering log used b m' (<[k:=o]> M).
Proof.
  intros (Hb&table&->&Ht) Hr. cbn [OverlayMap.install_recovered]. rewrite Hb. rstep.
  rewrite bool_decide_true by (exists (k, o); exact (record_view_take _ _ _ _ Hr)). rstep.
  rewrite (record_charge _ _ _ (record_view_take _ _ _ _ Hr)). rstep.
  destruct (insert_mapped_record_within _ log table M _ k o (record_view_take log _) Ht Hr)
    as (pr&t'&->&Ht'&Hpr). rstep.
  rewrite (previous_charge _ _ _ _ Hpr). rstep. eexists. split; [done|]. split; [done|]. eauto.
Qed.

Lemma try_reserve_mapped_spec log used b m M n :
  recovering log used b m M →
  ∃ ok m', OverlayMap.try_reserve_mapped m n = Ok (ok, m') ∧ recovering log used b m' M.
Proof.
  intros (Hb&table&->&Ht). cbn [OverlayMap.try_reserve_mapped OverlayMap.mapping_or_empty].
  rewrite Hb. rstep.
  assert (Hh : hash_reads (record_view (take (Z.to_nat used) log)) (OverlayMap.record_hash log))
    by (intros x k v Hx; by eapply record_hash_reads, record_view_take).
  destruct (rep_try_reserve _ _ _ n _ Ht Hh) as (ok&t'&->&Ht'). rstep.
  exists ok. eexists. split; [done|]. split; [done|]. eauto.
Qed.

(** *** [set_memory] and the other operations *)

Lemma set_memory_spec log table M k e o :
  represents log (OverlayMap.Memory table) M → owned_view (k, e) = Some (k, o) →
  ∃ previous table',
    OverlayMap.set_memory (OverlayMap.Memory table) k e = Ok (previous, OverlayMap.Memory table')
    ∧ represents log (OverlayMap.Memory table') (<[k:=o]> M)
    ∧ match previous with
      | Some p => ∃ v, owned_view (k, p) = Some (k, v) ∧ M !! k = Some v
      | None => M !! k = None
      end.
Proof.
  cbn [represents OverlayMap.set_memory]. intros Ht He.
  destruct (rep_find_mut _ _ _ k _ (λ x, (x.1, e)) Ht (owned_eq_reads k)) as (fo&->&Hf). rstep.
  destruct fo as [[[k' p] t']|].
  - destruct Hf as (v&Hv&Hm&Hrep). pose proof (owned_view_answer _ _ _ Hv) as [Hk _].
    cbn in Hk. subst k'. exists (Some p), t'. split_and!; eauto.
  - destruct (rep_insert_unique _ _ _ k (k, e) o _ Ht owned_hash_reads He Hf) as (t'&->&Ht').
    rstep. by exists None, t'.
Qed.

(** The index stays what it is when bytes are appended to the log. *)
Lemma represents_prefix log log' m M :
  log `prefix_of` log' → represents log m M → represents log' m M.
Proof.
  intros Hp. destruct m as [table|bs table tail]; [done|].
  intros (mapping&Mt&Ml&Hb&Hpre&Ht&Hl&Hd&HM). exists mapping, Mt, Ml. split_and!; auto.
  - by etrans.
  - eapply rep_mono; [|done]. intros e kv. by apply tail_view_prefix.
Qed.

Lemma represents_memory_new log : represents log OverlayMap.memory ∅.
Proof. apply rep_new. Qed.

Lemma represents_mapped_new log bs mapping :
  OverlayMap.mapping_or_empty bs = Ok mapping → mapping `prefix_of` log →
  represents log (OverlayMap.mapped bs) ∅.
Proof.
  intros Hb Hp. exists mapping, ∅, ∅. split_and!; auto using rep_new. apply map_disjoint_empty_l.
Qed.

Lemma represents_clear log m : represents log (OverlayMap.clear m) ∅.
Proof.
  destruct m; [apply represents_memory_new|].
  apply (represents_mapped_new _ None []); [done|apply prefix_nil].
Qed.

(** The charge recomputed from the tables. *)
Lemma sum_charges {T} (view : T → option mutation) (f : T → result Z) (c : mutation → Z) l ms a :
  (∀ x kv, view x = Some kv → f x = Ok (c kv)) → (∀ kv, 0 ≤ c kv) →
  view <$> l = Some <$> ms → a + added_by c ms < U64 →
  foldM (λ a x, n ← f x; add_ovf a n) a l = Ok (a + added_by c ms).
Proof.
  intros Hf Hc. revert ms a. induction l as [|x l IH]; intros [|kv ms] a; csimpl; try done.
  { intros _ _. by rewrite Z.add_0_r. }
  intros [= Hx Hms] Ha. rewrite (Hf _ _ Hx). rstep.
  pose proof (added_by_nonneg c Hc ms). unfold added_by in *.
  rewrite add_ovf_ok by lia. rstep. rewrite (IH ms) by (done || lia). f_equal. lia.
Qed.

Lemma memory_charge_spec log m M :
  represents log m M → total (charge_of m) M < U64 →
  OverlayMap.memory_charge m = Ok (total (charge_of m) M).
Proof.
  destruct m as [table|bs table tail]; cbn [represents charge_of OverlayMap.memory_charge].
  - intros (ms&Hms&Hp)%rep_iter_list. unfold total. rewrite <- (sum_Permutation _ _ _ Hp).
    intros Hb. apply (sum_charges owned_view (λ e, Ok (overlay_entry_memory e.1 e.2))
      charge_owned _ ms 0); auto with lkv.
    intros [k e] kv Hv. by rewrite (owned_view_charge _ _ Hv).
  - intros (mapping&Mt&Ml&->&_&(l1&Hl1&P1)%rep_iter_list&(l2&Hl2&P2)%rep_iter_list&Hd&->). rstep.
    rewrite total_disjoint_union by done. unfold total.
    rewrite <- (sum_Permutation _ _ _ P1), <- (sum_Permutation _ _ _ P2). fold (added_by charge_inline l1).
    fold (added_by charge_inline l2). intros Hb.
    pose proof (added_by_nonneg charge_inline charge_inline_nonneg l1).
    pose proof (added_by_nonneg charge_inline charge_inline_nonneg l2).
    rewrite (sum_charges (record_view mapping) (λ r, mapped_record.memory_charge r mapping)
      charge_inline _ l1 0); [|intros ??; apply record_charge|auto with lkv|done|lia]. rstep.
    rewrite (sum_charges (tail_view log) (λ e, Ok (overlay_entry_memory (tail_key e) (tail_value e)))
      charge_inline _ l2 0); [| |auto with lkv|done|lia].
    + rstep. by rewrite add_ovf_ok by lia.
    + intros e kv (Hv&_&Hc)%tail_view_inv. apply owned_view_charge in Hv. cbn in Hv. by rewrite Hv, Hc.
Qed.

(** *** [OverlayState] *)

Lemma set_holds log s table M k e o :
  state_holds log s M → OverlayState.index s = OverlayMap.Memory table →
  owned_view (k, e) = Some (k, o) → total charge_owned (<[k:=o]> M) < U64 →
  ∃ s' table', OverlayState.set s k e = Ok s' ∧ OverlayState.index s' = OverlayMap.Memory table'
    ∧ state_holds log s' (<[k:=o]> M).
Proof.
  intros (Hm&Hmem&Hb) Hi He Ht. rewrite Hi in *. unfold OverlayState.set. rewrite Hi.
  destruct (set_memory_spec log table M k e o Hm He) as (pr&table'&->&Hm'&Hpr). rstep.
  pose proof (owned_view_charge _ _ He) as Hch. cbn [fst snd] in Hch. rewrite Hch.
  pose proof (total_insert charge_owned M k o) as Hti. unfold old_charge in Hti.
  pose proof (old_charge_le charge_owned charge_owned_nonneg M k) as Hle. unfold old_charge in Hle.
  pose proof (charge_owned_nonneg (k, o)). cbn [charge_of] in Hmem.
  destruct pr as [p|].
  - destruct Hpr as (v&Hv&HM). rewrite HM in *. apply owned_view_charge in Hv.
    cbn [fst snd] in Hv. unfold overlay_entry_memory in Hv. fold (previous_value_memory p) in Hv.
    rewrite add_ovf_ok by lia. rstep. rewrite Hv. eexists _, table'. split_and!; [done..|].
    split_and!; cbn [OverlayState.index OverlayState.memory charge_of]; [done|..];
      unfold saturating_add, saturating_sub; lia.
  - rewrite Hpr in *. rstep. eexists _, table'. split_and!; [done..|].
    split_and!; cbn [OverlayState.index OverlayState.memory charge_of]; [done|..];
      unfold saturating_add; lia.
Qed.

(** The charge after a batch of distinct keys. *)
Lemma charge_after log s M muts :
  state_holds log s M → (∀ table, OverlayState.index s ≠ OverlayMap.Memory table) →
  NoDup muts.*1 → total charge_inline M + added_by charge_inline muts < U64 →
  removed_by charge_inline M muts < U64 ∧ added_by charge_inline muts < U64
  ∧ saturating_add (saturating_sub (OverlayState.memory s) (removed_by charge_inline M muts))
      (added_by charge_inline muts) = total charge_inline (apply_muts M muts)
  ∧ total charge_inline (apply_muts M muts) < U64.
Proof.
  intros (_&Hmem&Hb) Hn Hnd Ht.
  assert (Hc : charge_of (OverlayState.index s) = charge_inline)
    by (destruct (OverlayState.index s) as [table|]; [by destruct (Hn table)|done]).
  rewrite Hc in Hmem.
  pose proof (removed_by_le charge_inline charge_inline_nonneg M muts Hnd).
  pose proof (removed_by_nonneg charge_inline charge_inline_nonneg M muts).
  pose proof (added_by_nonneg charge_inline charge_inline_nonneg muts).
  pose proof (total_nonneg charge_inline charge_inline_nonneg M).
  rewrite total_apply_muts. unfold saturating_add, saturating_sub. lia.
Qed.

Lemma install_mapped_holds log s M bs mutations muts :
  state_holds log s M → (∀ table, OverlayState.index s ≠ OverlayMap.Memory table) →
  BaseBytes.deref bs = Ok log → located log mutations muts → NoDup muts.*1 →
  total charge_inline M + added_by charge_inline muts < U64 →
  ∃ s', OverlayState.install_mapped s bs mutations = Ok s'
    ∧ state_holds log s' (apply_muts M muts)
    ∧ (∀ table, OverlayState.index s' ≠ OverlayMap.Memory table).
Proof.
  intros Hs Hn Hbs Hl Hnd Ht. destruct (charge_after log s M muts Hs Hn Hnd Ht) as (Hr&Ha&Hc&Hu).
  unfold OverlayState.install_mapped.
  destruct (install_mapped_spec log _ M bs mutations muts (proj1 Hs) Hn Hbs Hl Hr Ha)
    as (table&->&Hm). rstep. eexists. split; [done|]. split; [|done].
  split_and!; cbn [OverlayState.index OverlayState.memory charge_of]; [done|..]; lia.
Qed.

Lemma install_tail_holds log s M staged mutations muts :
  state_holds log s M → (∀ table, OverlayState.index s ≠ OverlayMap.Memory table) →
  Forall2 (tail_entry log) (zip staged mutations) muts → NoDup muts.*1 →
  total charge_inline M + added_by charge_inline muts < U64 →
  ∃ s', OverlayState.install_tail s staged mutations = Ok s'
    ∧ state_holds log s' (apply_muts M muts)
    ∧ (∀ table, OverlayState.index s' ≠ OverlayMap.Memory table).
Proof.
  intros Hs Hn Hl Hnd Ht. destruct (charge_after log s M muts Hs Hn Hnd Ht) as (Hr&Ha&Hc&Hu).
  unfold OverlayState.install_tail.
  destruct (install_tail_spec log _ M staged mutations muts (proj1 Hs) Hn Hl Hr Ha)
    as (m'&->&Hm&Hn'). rstep. eexists. split; [done|]. split; [|done].
  destruct m' as [table|bs table tail]; [by destruct (Hn' table)|].
  split_and!; cbn [OverlayState.index OverlayState.memory charge_of]; [done|..]; lia.
Qed.

Lemma clear_holds log s : state_holds log (OverlayState.clear s) ∅.
Proof.
  unfold OverlayState.clear. split_and!; cbn; [apply represents_clear| |lia].
  by rewrite total_empty.
Qed.

End Facts.
End overlay_map_facts.

(** ** Properties *)

Import overlay_map_facts.

Section Properties.
Context `{Xxh3, HashTablesLaws}.

(** C32: the index answers as the map it holds. Whatever the split between the
    records of the mapped log and the unmapped tail, a lookup returns the latest
    mutation of the key (value, tombstone or absence), [len] counts the keys, the
    iterator yields every binding exactly once, and the charge the state keeps
    incrementally is the one [memory_charge] recomputes from the tables. *)
Theorem overlay_reads_map log s M :
  state_holds log s M →
  (∀ key, OverlayMap.get (OverlayState.index s) key = Ok (M !! key))
  ∧ OverlayMap.len (OverlayState.index s) = Z.of_nat (size M)
  ∧ (∃ ms, OverlayMap.iter (OverlayState.index s) = Ok ms ∧ ms ≡ₚ map_to_list M)
  ∧ OverlayMap.memory_charge (OverlayState.index s) = Ok (OverlayState.memory s).
Proof.
  intros (Hm&Hmem&Hb). split_and!.
  - intros key. by eapply get_hashed_spec.
  - by eapply len_spec.
  - by eapply iter_spec.
  - rewrite Hmem in Hb |- *. by eapply memory_charge_spec.
Qed.

(** Publishing a batch without remapping. [install_tail] of a batch whose
    records are in the log makes exactly the batch visible over the previous
    contents, keeps the index consistent with the grown log, and keeps the memory
    charge exact: it is charged for the keys and inline-sized values now live. *)
Theorem install_tail_publishes log log' s M staged mutations muts :
  state_holds log s M → (∀ table, OverlayState.index s ≠ OverlayMap.Memory table) →
  log `prefix_of` log' →
  Forall2 (tail_entry log') (zip staged mutations) muts → NoDup muts.*1 →
  total charge_inline M + added_by charge_inline muts < U64 →
  ∃ s', OverlayState.install_tail s staged mutations = Ok s'
    ∧ state_holds log' s' (apply_muts M muts)
    ∧ ∀ key, OverlayMap.get (OverlayState.index s') key =
        Ok (match KeyMap.get muts key with Some o => Some o | None => M !! key end).
Proof.
  intros (Hm&Hmem&Hb) Hn Hp Hl Hnd Ht.
  destruct (install_tail_holds log' s M staged mutations muts) as (s'&Hs'&Hh&_); auto.
  { split_and!; auto. by eapply represents_prefix. }
  exists s'. split_and!; auto. intros key. unfold OverlayMap.get.
  rewrite (get_hashed_spec log' _ _ key (proj1 Hh)). by rewrite apply_muts_lookup.
Qed.

(** Publishing a batch with a new mapping. [install_mapped] moves every tail
    entry to its record in the new mapping and then installs the batch; it is
    observationally the same update as [install_tail], with the same charge. *)
Theorem install_mapped_publishes log log' s M bs mutations muts :
  state_holds log s M → (∀ table, OverlayState.index s ≠ OverlayMap.Memory table) →
  log `prefix_of` log' → BaseBytes.deref bs = Ok log' →
  located log' mutations muts → NoDup muts.*1 →
  total charge_inline M + added_by charge_inline muts < U64 →
  ∃ s', OverlayState.install_mapped s bs mutations = Ok s'
    ∧ state_holds log' s' (apply_muts M muts)
    ∧ ∀ key, OverlayMap.get (OverlayState.index s') key =
        Ok (match KeyMap.get muts key with Some o => Some o | None => M !! key end).
Proof.
  intros (Hm&Hmem&Hb) Hn Hp Hbs Hl Hnd Ht.
  destruct (install_mapped_holds log' s M bs mutations muts) as (s'&Hs'&Hh&_); auto.
  { split_and!; auto. by eapply represents_prefix. }
  exists s'. split_and!; auto. intros key. unfold OverlayMap.get.
  rewrite (get_hashed_spec log' _ _ key (proj1 Hh)). by rewrite apply_muts_lookup.
Qed.

End Properties.

(** *** A concrete Overlay: one batch in the log, then a second one in the tail *)

Module overlay_demo.
Import RefInstances.

Definition batch1 : list mutation := [([Byte.x61], Some [Byte.x01]); ([Byte.x62], None)].
Definition batch2 : list mutation := [([Byte.x61], Some [Byte.x02; Byte.x03])].
Definition staged2 : KeyMap OverlayEntry :=
  [([Byte.x61], OverlayEntry.Put (ValueBytes.Owned [Byte.x02; Byte.x03]))].
Definition log1 : bytes := log.encode_ops batch1.
Definition log2 : bytes := log.encode_ops (batch1 ++ batch2).

Definition empty_state : OverlayState := OverlayState.with_memory (OverlayMap.mapped None) 0.
Definition mutations1 : list MappedMutation := [MkMappedMutation 0; MkMappedMutation 11].
Definition mutations2 : list MappedMutation := [MkMappedMutation 21].

Lemma empty_holds : state_holds [] empty_state ∅.
Proof.
  split_and!; [|reflexivity|vm_compute; reflexivity].
  eapply represents_mapped_new; [reflexivity|done].
Qed.

Definition state1 : OverlayState :=
  OverlayState.Mk (OverlayMap.Mapped (Some (BaseBytes.Mapped log1))
    [(ref_xxh3 [Byte.x62], MkMappedRecord 11); (ref_xxh3 [Byte.x61], MkMappedRecord 0)] []) 3.

Lemma state1_run :
  OverlayState.install_mapped empty_state (BaseBytes.Mapped log1) mutations1 = Ok state1.
Proof. vm_compute. reflexivity. Qed.

Lemma located1 : located log1 mutations1 batch1.
Proof. repeat constructor. Qed.

Lemma state1_holds : state_holds log1 state1 (apply_muts ∅ batch1).
Proof.
  destruct (install_mapped_holds log1 empty_state ∅ (BaseBytes.Mapped log1) mutations1 batch1)
    as (s'&Hs'&Hh&_); [|done|done|exact located1| |vm_compute; reflexivity|].
  - destruct empty_holds as (Hm&?&?). split_and!; auto.
    eapply represents_prefix; [apply prefix_nil|exact Hm].
  - vm_compute. repeat constructor; set_solver.
  - rewrite state1_run in Hs'. injection Hs' as <-. exact Hh.
Qed.

Lemma overlay_reads_map_witness :
  OverlayMap.get (OverlayState.index state1) [Byte.x61] = Ok (Some (Some [Byte.x01]))
  ∧ OverlayMap.memory_charge (OverlayState.index state1) = Ok 3.
Proof.
  destruct (overlay_reads_map log1 state1 _ state1_holds) as (Hg&_&_&Hc).
  split; [|exact Hc]. rewrite Hg. reflexivity.
Defined.

Lemma install_tail_publishes_witness :
  ∃ s', OverlayState.install_tail state1 staged2 mutations2 = Ok s'
    ∧ OverlayMap.get (OverlayState.index s') [Byte.x61] = Ok (Some (Some [Byte.x02; Byte.x03])).
Proof.
  destruct (install_tail_publishes log1 log2 state1 (apply_muts ∅ batch1) staged2 mutations2 batch2)
    as (s'&Hs'&_&Hg).
  - exact state1_holds.
  - done.
  - exists (log.encode_ops batch2). reflexivity.
  - repeat constructor.
  - vm_compute. repeat constructor. set_solver.
  - vm_compute. reflexivity.
  - exists s'. split; [exact Hs'|]. rewrite Hg. reflexivity.
Defined.

Lemma install_mapped_publishes_witness :
  ∃ s', OverlayState.install_mapped state1 (BaseBytes.Mapped log2) mutations2 = Ok s'
    ∧ OverlayMap.get (OverlayState.index s') [Byte.x62] = Ok (Some None).
Proof.
  destruct (install_mapped_publishes log1 log2 state1 (apply_muts ∅ batch1) (BaseBytes.Mapped log2)
              mutations2 batch2) as (s'&Hs'&_&Hg).
  - exact state1_holds.
  - done.
  - exists (log.encode_ops batch2). reflexivity.
  - reflexivity.
  - repeat constructor.
  - vm_compute. repeat constructor. set_solver.
  - vm_compute. reflexivity.
  - exists s'. split; [exact Hs'|]. rewrite Hg. reflexivity.
Defined.

End overlay_demo.
