(* ===== verification/Recovery.v ===== *)
(** * Log recovery: [lkv/src/database/recovery.rs]

    The scan that rebuilds the Overlay from the mapped log. The theorems show
    that scanning the bytes of any sequence of batches (followed by nothing, by a
    compact marker or by a record cut short by a crash) rebuilds exactly the map of
    those batches with the exact memory charge, that a batch is recovered entirely
    or not at all, and that the scan ends with [Ok] or an error on any bytes. *)

From S2P Require Import Prelude Errors Crates Io Superblock Values Log Segment Overlay.
Import overlay_map_facts.

Module OverlayScan.
Section OverlayScan.
Context `{Xxh3, HashTables}.

Record t := Mk { index : OverlayMap; memory : Z; valid_len : Z }.

Definition empty (valid_len : Z) : t := Mk (OverlayMap.mapped None) 0 valid_len.

Definition release_mapping (s : t) : result t :=
  index ← OverlayMap.replace_mapped_bytes (index s) None;
  Ok (Mk index (memory s) (valid_len s)).

Definition replace_mapping (s : t) (mapping : option BaseBytes) : result t :=
  index ← OverlayMap.replace_mapped_bytes (index s) mapping;
  Ok (Mk index (memory s) (valid_len s)).

Definition into_index (s : t) : OverlayMap * Z := (index s, memory s).

End OverlayScan.
End OverlayScan.
Abbreviation OverlayScan := OverlayScan.t.

Module recovery.
Section Recovery.
Context `{Crc32c, Xxh3, HashTables}.

Definition invalid_data (m : string) : Error := error.from_io InvalidData m.

(** The checks of one operation of a batch: where it starts, its key, and where
    the next one starts. *)
Definition parse_operation (payload : bytes) (payload_offset cursor : Z)
    : result (Z * bytes * Z) :=
  operation_offset ← ok_or (checked_add payload_offset cursor)
    (error.invalid_base "overlay operation offset overflow");
  header_end ← ok_or (checked_add cursor 9)
    (error.invalid_base "overlay operation offset overflow");
  header ← ok_or (get_range payload cursor header_end) (invalid_data "truncated batch operation");
  b ← unwrap (header !! 0%nat);
  let marker := Marker.from_byte b in
  key_len ← (from_le_bytes <$> index_range header 1 5);
  value_len ← (from_le_bytes <$> index_range header 5 9);
  _ ← fail_if (negb (bool_decide (marker = Some Marker.Put ∨ marker = Some Marker.Delete))
               || (bool_decide (marker = Some Marker.Delete) && negb (value_len =? 0))
               || (segment.MAX_KEY_SIZE <? key_len)
               || (segment.MAX_VALUE_SIZE <? value_len))
        (invalid_data "invalid batch operation");
  key_end ← ok_or (checked_add header_end key_len) (error.invalid_base "batch key offset overflow");
  value_end ← ok_or (checked_add key_end value_len)
    (error.invalid_base "batch value offset overflow");
  key ← ok_or (get_range payload header_end key_end) (invalid_data "truncated batch key");
  _ ← fail_if (bool_decide (get_range payload key_end value_end = None))
        (invalid_data "truncated batch value");
  Ok (operation_offset, key, value_end).

(** The operation loop of [apply_batch_payload]. *)
Fixpoint apply_operations (count : nat) (payload : bytes) (payload_offset cursor : Z)
    (index : OverlayMap) (memory : Z) : result (Z * OverlayMap * Z) :=
  match count with
  | O => Ok (cursor, index, memory)
  | S count =>
      '(operation_offset, key, value_end) ← parse_operation payload payload_offset cursor;
      '(removed, added, index) ←
        OverlayMap.install_recovered index (MkMappedMutation operation_offset) (xxh3_64 key);
      let memory := saturating_add (saturating_sub memory removed) added in
      apply_operations count payload payload_offset value_end index memory
  end.

Definition apply_batch_payload (mapping payload : bytes) (payload_offset : Z)
    (index : OverlayMap) (memory : Z) : result (OverlayMap * Z) :=
  count_bytes ← ok_or (get_range payload 0 4) (invalid_data "truncated batch count");
  let count := from_le_bytes count_bytes in
  _ ← fail_if (log.MAX_BATCH_OPERATIONS <? count)
        (invalid_data "batch operation count exceeds the runtime limit");
  '(reserved, index) ← OverlayMap.try_reserve_mapped index count;
  _ ← fail_if (negb reserved) (error.invalid_base "Overlay index allocation failed");
  '(cursor, index, memory) ← apply_operations (Z.to_nat count) payload payload_offset 4 index memory;
  _ ← fail_if (negb (cursor =? blen payload)) (invalid_data "trailing bytes in batch");
  mapped ← OverlayMap.mapped_bytes_len index;
  _ ← assert (mapped =? blen mapping);
  Ok (index, memory).

(** One iteration of the loop of [scan_overlay]; [None] is [break]. *)
Definition scan_record (bs : bytes) (mapping_offset : Z) (index : OverlayMap) (memory offset : Z)
    : result (option (OverlayMap * Z * Z)) :=
  header_end ← ok_or (checked_add offset log.LOG_HEADER_SIZE)
    (error.invalid_base "overlay header offset overflow");
  match get_range bs offset header_end with
  | None => Ok None
  | Some header =>
  absolute_offset ← ok_or (checked_add mapping_offset offset)
    (error.invalid_base "overlay offset overflow");
  expected_header_checksum ← (from_le_bytes <$>
    index_range header log.LOG_HEADER_CHECKSUM_OFFSET log.LOG_HEADER_SIZE);
  fields ← index_range header 0 log.LOG_HEADER_CHECKSUM_OFFSET;
  _ ← fail_if (negb (crc32c fields =? expected_header_checksum))
        (error.corrupted_log absolute_offset
          ("overlay header checksum mismatch at offset " +:+ fmt_num absolute_offset));
  marker_byte ← unwrap (header !! 0%nat);
  key_len ← (from_le_bytes <$> index_range header 1 5);
  value_len ← (from_le_bytes <$> index_range header 5 9);
  expected_record_checksum ← (from_le_bytes <$> index_range header 9 13);
  payload_len ← ok_or (checked_add key_len value_len)
    (invalid_data "overlay record length overflow");
  record_end ← ok_or (checked_add header_end payload_len)
    (error.invalid_base "overlay record offset overflow");
  match get_range bs header_end record_end with
  | None => Ok None
  | Some payload =>
  marker ← ok_or (Marker.from_byte marker_byte)
    (invalid_data ("invalid overlay operation at offset " +:+ fmt_num absolute_offset));
  if bool_decide (marker = Marker.Compact) && (key_len =? 0) && (value_len =? 0) then
    if expected_record_checksum =? log.record_checksum marker 0 0 [] then Ok None
    else Err (error.corrupted_log absolute_offset
           ("invalid compact marker checksum at offset " +:+ fmt_num absolute_offset))
  else
  _ ← fail_if (negb (bool_decide (marker = Marker.Batch)) || negb (key_len =? 0))
        (invalid_data ("unexpected overlay marker at offset " +:+ fmt_num absolute_offset));
  _ ← fail_if (log.MAX_LOG_PAYLOAD_SIZE <? payload_len)
        (invalid_data "overlay record exceeds configured format limits");
  let checksum :=
    crc32c_append (log.record_checksum_start marker key_len value_len) payload in
  _ ← fail_if (negb (checksum =? expected_record_checksum))
        (error.corrupted_log absolute_offset
          ("overlay checksum mismatch at offset " +:+ fmt_num absolute_offset));
  '(index, memory) ← apply_batch_payload bs payload header_end index memory;
  Ok (Some (index, memory, record_end))
  end end.

(** The loop; a record takes at least 17 bytes, so the length of the log bounds it. *)
Fixpoint scan_loop (fuel : nat) (bs : bytes) (mapping_offset : Z)
    (index : OverlayMap) (memory offset : Z) : result (OverlayMap * Z * Z) :=
  if blen bs <=? offset then Ok (index, memory, offset) else
  match fuel with
  | O => Panic
  | S fuel =>
      next ← scan_record bs mapping_offset index memory offset;
      match next with
      | None => Ok (index, memory, offset)
      | Some (index, memory, offset) => scan_loop fuel bs mapping_offset index memory offset
      end
  end.

Definition scan_overlay (mapping : BaseBytes) (mapping_offset : Z) : result OverlayScan :=
  bs ← BaseBytes.deref mapping;
  '(index, memory, offset) ←
    scan_loop (length bs) bs mapping_offset (OverlayMap.mapped (Some mapping)) 0 0;
  valid_len ← ok_or (checked_add mapping_offset offset)
    (error.invalid_base "overlay length overflow");
  Ok (OverlayScan.Mk index memory valid_len).

End Recovery.

(** ** Lemmas *)

Section Facts.
Context `{Crc32cLaws, Xxh3, HashTablesLaws}.
Implicit Types (bs payload : bytes) (index : OverlayMap) (M : mutations_map).

(** A slice of the log. *)
Definition slice_of bs offset payload : Prop :=
  0 ≤ offset ∧ get_range bs offset (offset + blen payload) = Some payload.

Lemma slice_of_get bs offset payload a b :
  slice_of bs offset payload → 0 ≤ a → b ≤ blen payload →
  get_range payload a b = get_range bs (offset + a) (offset + b).
Proof. intros [? Hg] ??. apply (get_range_get_range _ _ _ _ a b Hg); lia. Qed.

Lemma slice_of_bound bs offset payload :
  slice_of bs offset payload → offset + blen payload ≤ blen bs.
Proof. intros [_ (?&?&_)%get_range_Some]. lia. Qed.

(** An accepted operation is a readable record of the log. *)
Lemma parse_operation_sound bs payload po cursor oo key ve :
  slice_of bs po payload → blen bs ≤ ISIZE_MAX → 0 ≤ cursor →
  parse_operation payload po cursor = Ok (oo, key, ve) →
  ∃ o, record_view bs (MkMappedRecord oo) = Some (key, o)
    ∧ ve = cursor + 9 + blen key + blen (OverlayEntry.contents o) ∧ ve ≤ blen payload.
Proof.
  intros Hs Hbs Hc Hp. pose proof (slice_of_bound _ _ _ Hs) as Hsb. pose proof Hs as [Hpo _].
  unfold parse_operation in Hp.
  apply bind_Ok in Hp as (oo'&[-> Hoo]%ok_or_Ok%checked_add_Some&Hp).
  apply bind_Ok in Hp as (he&[-> Hhe]%ok_or_Ok%checked_add_Some&Hp).
  apply bind_Ok in Hp as (header&Hh%ok_or_Ok&Hp).
  apply bind_Ok in Hp as (b&Hb%unwrap_Ok&Hp).
  apply bind_Ok in Hp as (kl&(klb&Hkl%index_range_Ok&->)%fmap_Ok&Hp).
  apply bind_Ok in Hp as (vl&(vlb&Hvl%index_range_Ok&->)%fmap_Ok&Hp).
  apply bind_Ok in Hp as ([]&Hf%fail_if_Ok&Hp).
  apply bind_Ok in Hp as (ke&[-> Hke]%ok_or_Ok%checked_add_Some&Hp).
  apply bind_Ok in Hp as (ve'&[-> Hve]%ok_or_Ok%checked_add_Some&Hp).
  apply bind_Ok in Hp as (key'&Hk%ok_or_Ok&Hp).
  apply bind_Ok in Hp as ([]&Hv%fail_if_Ok&Hp). injection Hp as <- <- <-. bool_prop.
  pose proof (get_range_Some _ _ _ _ Hh) as (_&Hhb&_&_).
  pose proof (get_range_Some _ _ _ _ Hk) as (Hk1&Hk2&Hk3&_).
  set (kl := from_le_bytes klb) in *. set (vl := from_le_bytes vlb) in *.
  destruct (get_range payload (cursor + 9 + kl) (cursor + 9 + kl + vl)) as [value|] eqn:Hval;
    [|done]. pose proof (get_range_Some _ _ _ _ Hval) as (Hv1&Hv2&Hv3&_).
  rewrite (slice_of_get bs po) in Hh, Hk, Hval by (done || lia).
  unfold record_view, mapped_record.checked_slices, OPERATION_HEADER_SIZE, record_offset.
  rewrite checked_add_ok by lia. cbn [mbind option_bind].
  replace (po + cursor + 9) with (po + (cursor + 9)) by lia.
  rewrite Hh. cbn [mbind option_bind]. rewrite Hb. cbn [mbind option_bind].
  assert (Hmk : ∃ mk, Marker.from_byte b = Some mk ∧ (mk = Marker.Put ∨ mk = Marker.Delete))
    by (match goal with E : _ ∨ _ |- _ => destruct E; eauto end).
  destruct Hmk as (mk&Hmk&Hor). rewrite Hmk in *. cbn [mbind option_bind].
  rewrite bool_decide_true by done. cbn [negb].
  rewrite Hkl, Hvl. cbn [fmap option_fmap option_map mbind option_bind]. fold kl vl.
  replace (bool_decide (mk = Marker.Delete) && negb (vl =? 0)) with false
    by (destruct Hor as [-> | ->]; [done|];
        match goal with E : _ && negb (vl =? 0) = false |- _ => symmetry; exact E end).
  rewrite checked_add_ok by lia. cbn [mbind option_bind].
  rewrite checked_add_ok by lia. cbn [mbind option_bind].
  replace (po + (cursor + 9) + kl) with (po + (cursor + 9 + kl)) by lia.
  replace (po + (cursor + 9 + kl) + vl) with (po + (cursor + 9 + kl + vl)) by lia.
  rewrite Hk. cbn [mbind option_bind]. destruct Hor as [-> | ->].
  - rewrite Hval. exists (Some value). split; [done|]. cbn. lia.
  - exists None. split; [done|]. change (blen (OverlayEntry.contents None)) with 0.
    match goal with E : _ && negb (vl =? 0) = false |- _ =>
      rewrite bool_decide_true in E by done; cbn in E end. bool_prop. lia.
Qed.

Lemma parse_operation_no_panic payload po cursor :
  0 ≤ cursor → no_panic (parse_operation payload po cursor).
Proof.
  intros Hc. unfold parse_operation.
  apply bind_no_panic; [by destruct (checked_add _ _)|intros ? _].
  apply bind_no_panic; [by destruct (checked_add _ _)|].
  intros he [-> _]%ok_or_Ok%checked_add_Some.
  apply bind_no_panic; [by destruct (get_range _ _ _)|].
  intros header (_&_&Hl&_)%ok_or_Ok%get_range_Some.
  destruct header as [|b header]; [rewrite blen_nil in Hl; lia|].
  apply bind_no_panic; [done|intros ? _].
  apply bind_no_panic; [no_panic_step; apply index_range_no_panic; lia|intros ? _].
  apply bind_no_panic; [no_panic_step; apply index_range_no_panic; lia|intros ? _].
  repeat no_panic_step.
Qed.

(** An operation in its place is accepted. *)
Definition op_ok (m : mutation) : Prop :=
  blen m.1 ≤ segment.MAX_KEY_SIZE ∧ blen (OverlayEntry.contents m.2) ≤ segment.MAX_VALUE_SIZE.

Lemma op_ok_fits m : op_ok m → op_fits m.
Proof. unfold op_ok, op_fits, segment.MAX_KEY_SIZE, segment.MAX_VALUE_SIZE. lia. Qed.

Lemma parse_operation_complete pre m post po :
  op_ok m → 0 ≤ po → po + blen (pre ++ log.encode_op m ++ post) < U64 →
  parse_operation (pre ++ log.encode_op m ++ post) po (blen pre)
    = Ok (po + blen pre, m.1, blen pre + blen (log.encode_op m)).
Proof.
  destruct m as [k o]. intros [Hk Hv] Hpo Hl. rewrite log.blen_encode_op. cbn [fst snd] in *.
  autorewrite with len in Hl. rewrite log.blen_encode_op in Hl. cbn [fst snd] in Hl.
  unfold log.encode_op. set (v := OverlayEntry.contents o) in *.
  unfold segment.MAX_KEY_SIZE, segment.MAX_VALUE_SIZE in Hk, Hv.
  pose proof (blen_nonneg pre). pose proof (blen_nonneg k). pose proof (blen_nonneg v).
  pose proof (blen_nonneg post).
  set (mk := if o then Marker.Put else Marker.Delete).
  set (header := [Marker.as_u8 mk] ++ u32_le (blen k) ++ u32_le (blen v)).
  replace ([Marker.as_u8 mk] ++ u32_le (blen k) ++ u32_le (blen v) ++ k ++ v)
    with (header ++ k ++ v) by (unfold header; by rewrite <- !app_assoc).
  assert (Hh : blen header = 9) by (unfold header; len).
  rewrite <- !app_assoc. unfold parse_operation.
  rewrite checked_add_ok by lia. rstep. rewrite checked_add_ok by lia. rstep.
  rewrite get_range_mid by lia. rstep. change (header !! 0%nat) with (Some (Marker.as_u8 mk)).
  rstep. rewrite Marker.from_byte_as_u8. unfold index_range.
  assert (get_range header 1 5 = Some (u32_le (blen k))) as ->
    by (unfold header; apply (get_range_mid [_]); len).
  assert (get_range header 5 9 = Some (u32_le (blen v))) as ->.
  { unfold header. rewrite app_assoc.
    rewrite <- (app_nil_r (u32_le (blen v))) at 1. apply get_range_mid; len. }
  rstep. rewrite !from_to_le_bytes_small by lia. cbv zeta.
  replace (bool_decide _) with true by (symmetry; apply bool_decide_true; subst mk; destruct o; auto).
  replace (bool_decide (Some mk = Some Marker.Delete) && negb (blen v =? 0)) with false
    by (subst mk v; by destruct o).
  unfold segment.MAX_KEY_SIZE, segment.MAX_VALUE_SIZE.
  replace (_ <? blen k) with false by lia. replace (_ <? blen v) with false by lia. rstep.
  rewrite checked_add_ok by lia. rstep. rewrite checked_add_ok by lia. rstep.
  assert (get_range (pre ++ header ++ k ++ v ++ post) (blen pre + 9) (blen pre + 9 + blen k)
          = Some k) as ->
    by (rewrite app_assoc; apply get_range_mid; autorewrite with len; lia).
  assert (get_range (pre ++ header ++ k ++ v ++ post) (blen pre + 9 + blen k)
            (blen pre + 9 + blen k + blen v) = Some v) as ->
    by (rewrite !app_assoc, <- (app_assoc _ v); apply get_range_mid; autorewrite with len; lia).
  rstep. rewrite bool_decide_false by done. rstep. do 2 f_equal. lia.
Qed.

(** *** Batches *)

(** The state of the scan after [used] bytes: the index holds [M], the charge is
    exact, and it is covered by the bytes already read. *)
Definition scan_inv bs (b : BaseBytes) index memory used M : Prop :=
  recovering bs used b index M ∧ memory = total charge_inline M ∧ memory ≤ used.

Lemma scan_inv_mono bs b index memory used used' M :
  scan_inv bs b index memory used M → used ≤ used' → scan_inv bs b index memory used' M.
Proof. intros (Hr&?&?) Hu. split_and!; [by eapply recovering_mono|done|lia]. Qed.

(** Installing the operation at the end of what was read. *)
Lemma install_recovered_inv bs b index memory used M k o :
  scan_inv bs b index memory used M → blen bs ≤ ISIZE_MAX → 0 ≤ used →
  record_view bs (MkMappedRecord used) = Some (k, o) →
  used + 9 + blen k + blen (OverlayEntry.contents o) ≤ blen bs →
  ∃ removed added index', OverlayMap.install_recovered index (MkMappedMutation used) (xxh3_64 k)
      = Ok (removed, added, index')
    ∧ scan_inv bs b index' (saturating_add (saturating_sub memory removed) added)
        (used + 9 + blen k + blen (OverlayEntry.contents o)) (<[k:=o]> M).
Proof.
  intros (Hr&Hm&Hu) Hbs Hub Hv Hend. set (end_ := used + 9 + blen k + blen (OverlayEntry.contents o)) in *.
  pose proof (blen_nonneg k). pose proof (blen_nonneg (OverlayEntry.contents o)).
  assert (Hv' : record_view (take (Z.to_nat end_) bs) (into_record (MkMappedMutation used)) = Some (k, o))
    by (apply checked_slices_take; [done|done|unfold end_; cbn; lia]).
  destruct (install_recovered_spec bs end_ b index M (MkMappedMutation used) k o) as (index'&Hi&Hr');
    [eapply recovering_mono; [exact Hr|unfold end_; lia]|exact Hv'|].
  eexists _, _, index'. split; [exact Hi|]. split; [done|].
  pose proof (old_charge_le charge_inline charge_inline_nonneg M k).
  pose proof (old_charge_nonneg charge_inline charge_inline_nonneg M k).
  pose proof (charge_inline_owned (k, o)) as Hc. unfold charge_owned in Hc. cbn [fst snd] in Hc.
  pose proof (charge_inline_nonneg (k, o)). rewrite total_insert.
  unfold saturating_add, saturating_sub. lia.
Qed.

Lemma apply_operations_safe bs b count payload po cursor index memory M :
  blen bs ≤ ISIZE_MAX → slice_of bs po payload → 0 ≤ cursor ≤ blen payload →
  scan_inv bs b index memory (po + cursor) M →
  safe (apply_operations count payload po cursor index memory) (λ '(cursor', index', memory'),
    cursor ≤ cursor' ≤ blen payload ∧ ∃ M', scan_inv bs b index' memory' (po + cursor') M').
Proof.
  intros Hbs Hs. pose proof (slice_of_bound _ _ _ Hs). pose proof (proj1 Hs).
  revert cursor index memory M. induction count as [|count IH]; intros cursor index memory M Hc Hi;
    cbn [apply_operations].
  { split; [lia|eauto]. }
  apply (safe_bind _ _ (λ _, True));
    [apply safe_intro; [apply parse_operation_no_panic; lia|done]|].
  intros [[oo key] ve] Hp _.
  destruct (parse_operation_sound bs payload po cursor oo key ve) as (o&Hv&Hve&Hle); auto; [lia|].
  assert (oo = po + cursor) as ->.
  { unfold parse_operation in Hp. apply bind_Ok in Hp as (?&[-> _]%ok_or_Ok%checked_add_Some&Hp).
    run_inv. by simplify_eq. }
  pose proof (blen_nonneg key). pose proof (blen_nonneg (OverlayEntry.contents o)).
  destruct (install_recovered_inv bs b index memory (po + cursor) M key o Hi) as (rm&ad&index'&->&Hi'); [lia|lia|done|lia|].
  rstep. eapply safe_mono; [apply (IH ve _ _ (<[key:=o]> M)); [lia|]|].
  - replace (po + ve) with (po + cursor + 9 + blen key + blen (OverlayEntry.contents o)) by lia.
    exact Hi'.
  - intros [[cursor' index''] memory'] [??]. split; [lia|done].
Qed.

Lemma apply_operations_complete bs b p0 pre muts q index memory M :
  bs = p0 ++ (pre ++ log.encode_ops muts) ++ q → blen bs ≤ ISIZE_MAX → Forall op_ok muts →
  scan_inv bs b index memory (blen p0 + blen pre) M →
  ∃ index' memory',
    apply_operations (length muts) (pre ++ log.encode_ops muts) (blen p0) (blen pre) index memory
      = Ok (blen (pre ++ log.encode_ops muts), index', memory')
    ∧ scan_inv bs b index' memory' (blen p0 + blen (pre ++ log.encode_ops muts)) (apply_muts M muts).
Proof.
  intros Hbs Hl Hok. revert pre index memory M Hbs.
  induction Hok as [|[k o] muts Hm Hok IH]; intros pre index memory M Hbs Hi; cbn [length apply_operations].
  { change (log.encode_ops []) with (@nil byte). rewrite app_nil_r. eauto. }
  rewrite log.encode_ops_cons in *.
  assert (Hlen : blen p0 + blen (pre ++ log.encode_op (k, o) ++ log.encode_ops muts) ≤ blen bs)
    by (subst bs; pose proof (blen_nonneg q); autorewrite with len; lia).
  pose proof (blen_nonneg p0).
  rewrite parse_operation_complete by (done || lia). rstep.
  assert (Hv : record_view bs (into_record (MkMappedMutation (blen p0 + blen pre))) = Some (k, o)).
  { subst bs. unfold record_view, into_record. cbn [operation_offset].
    rewrite <- blen_app. rewrite <- !app_assoc, (app_assoc p0 pre).
    apply checked_slices_encode; [by apply op_ok_fits|]. revert Hl. autorewrite with len. lia. }
  pose proof (log.blen_encode_op (k, o)) as Hop. cbn [fst snd] in Hop.
  autorewrite with len in Hlen. rewrite Hop in Hlen.
  pose proof (blen_nonneg (log.encode_ops muts)). pose proof (blen_nonneg pre).
  pose proof (blen_nonneg k). pose proof (blen_nonneg (OverlayEntry.contents o)).
  destruct (install_recovered_inv bs b index memory (blen p0 + blen pre) M k o Hi)
    as (rm&ad&index'&->&Hi'); [lia|lia|done|lia|]. rstep.
  rewrite app_assoc, <- blen_app. cbn [fst snd]. rewrite apply_muts_cons.
  apply IH; [by rewrite Hbs, <- !app_assoc|].
  replace (blen p0 + blen (pre ++ log.encode_op (k, o)))
    with (blen p0 + blen pre + 9 + blen k + blen (OverlayEntry.contents o))
    by (autorewrite with len; lia). exact Hi'.
Qed.

(** The index stays over its mapping. *)
Lemma mapped_len_recovering log used b m M : recovering log used b m M → OverlayMap.mapped_bytes_len m = Ok (blen log).
Proof. intros (Hb&table&->&_). cbn. by rewrite Hb. Qed.

Lemma apply_batch_payload_safe bs b payload po index memory M :
  blen bs ≤ ISIZE_MAX → slice_of bs po payload → scan_inv bs b index memory po M →
  safe (apply_batch_payload bs payload po index memory) (λ '(index', memory'),
    ∃ M', scan_inv bs b index' memory' (po + blen payload) M').
Proof.
  intros Hbs Hs Hi. pose proof (scan_inv_mono _ _ _ _ _ (po + 4) _ Hi ltac:(lia)) as (Hr&Hm&Hu).
  unfold apply_batch_payload.
  eapply safe_bind; [apply safe_ok_or|]. intros cb _ (_&H4&_)%get_range_Some.
  eapply safe_bind; [apply safe_fail_if|]. intros _ _ _.
  destruct (try_reserve_mapped_spec bs _ b index M (from_le_bytes cb) Hr) as (ok&index1&->&Hr1). rstep.
  eapply safe_bind; [apply safe_fail_if|]. intros _ _ _.
  eapply safe_bind; [apply (apply_operations_safe bs b _ payload po 4 index1 memory M); auto|].
  - destruct Hs. lia.
  - by split_and!.
  - intros [[cursor index'] memory'] _ (_&M'&Hi').
    eapply safe_bind; [apply safe_fail_if|]. intros [] _ Hc. bool_prop. subst cursor.
    rewrite (mapped_len_recovering _ _ _ _ _ (proj1 Hi')). rstep. rewrite Z.eqb_refl. rstep. by exists M'.
Qed.

(** The index can grow: [try_reserve] never reports a failure. *)
Definition reserve_succeeds : Prop :=
  ∀ (t : HashTable MappedRecord) n hasher r, ht_try_reserve t n hasher = Ok r → r.1 = true.

Definition batch_ok (muts : list mutation) : Prop :=
  blen muts ≤ log.MAX_BATCH_OPERATIONS ∧ blen (log.encode_payload muts) ≤ log.MAX_LOG_PAYLOAD_SIZE
  ∧ Forall op_ok muts.

Lemma apply_batch_payload_complete bs b p0 muts q index memory M :
  reserve_succeeds → bs = p0 ++ log.encode_payload muts ++ q → blen bs ≤ ISIZE_MAX →
  batch_ok muts → scan_inv bs b index memory (blen p0) M →
  ∃ index' memory', apply_batch_payload bs (log.encode_payload muts) (blen p0) index memory
      = Ok (index', memory')
    ∧ scan_inv bs b index' memory' (blen p0 + blen (log.encode_payload muts)) (apply_muts M muts).
Proof.
  intros Hres Hbs Hl (Hn&_&Hok) Hi0.
  pose proof (scan_inv_mono _ _ _ _ _ (blen p0 + 4) _ Hi0 ltac:(lia)) as (Hr&Hm&Hu). unfold apply_batch_payload.
  unfold log.MAX_BATCH_OPERATIONS in Hn |- *. pose proof (blen_nonneg muts).
  assert (get_range (log.encode_payload muts) 0 4 = Some (u32_le (blen muts))) as ->
    by (unfold log.encode_payload; apply get_range_head; len).
  rstep. rewrite from_to_le_bytes_small by lia. replace (_ <? blen muts) with false by lia. rstep.
  destruct (try_reserve_mapped_spec bs _ b index M (blen muts) Hr) as (ok&index1&Ht&Hr1).
  assert (ok = true) as ->.
  { destruct Hr as (Hb&table&->&_). cbn in Ht. rewrite Hb in Ht. cbn in Ht.
    apply bind_Ok in Ht as ([ok' t']&Ht&[= <- _]). by apply Hres in Ht. }
  rewrite Ht. rstep.
  destruct (apply_operations_complete bs b p0 (u32_le (blen muts)) muts q index1 memory M)
    as (index'&memory'&Ha&Hi); auto; [by rewrite blen_to_le_bytes|].
  replace (Z.to_nat (blen muts)) with (length muts) by (unfold blen; lia).
  fold (log.encode_payload muts) in Ha, Hi. rewrite blen_to_le_bytes in Ha.
  change (Z.of_nat 4) with 4 in Ha. rewrite Ha. rstep. rewrite Z.eqb_refl. rstep.
  rewrite (mapped_len_recovering _ _ _ _ _ (proj1 Hi)). rstep. rewrite Z.eqb_refl. rstep. eauto.
Qed.

(** *** Records *)

(** The fields of a record header, as the scan reads them. *)
Lemma record_header_fields mk kl vl rc :
  0 ≤ kl < U32 → 0 ≤ vl < U32 → 0 ≤ rc < U32 →
  let fields := [Marker.as_u8 mk] ++ u32_le kl ++ u32_le vl ++ u32_le rc in
  let h := log.record_header mk kl vl rc in
  h !! 0%nat = Some (Marker.as_u8 mk)
  ∧ index_range h 13 17 = Ok (u32_le (crc32c fields)) ∧ index_range h 0 13 = Ok fields
  ∧ index_range h 1 5 = Ok (u32_le kl) ∧ index_range h 5 9 = Ok (u32_le vl)
  ∧ index_range h 9 13 = Ok (u32_le rc).
Proof.
  intros Hk Hv Hr fields h. unfold index_range, h, log.record_header. fold fields.
  assert (Hf : blen fields = 13) by (unfold fields; len).
  assert (get_range (fields ++ u32_le (crc32c fields)) 13 17 = Some (u32_le (crc32c fields))) as ->.
  { rewrite <- (app_nil_r (u32_le (crc32c fields))) at 1. apply get_range_mid; len. }
  rewrite get_range_head by done. rewrite !get_range_app_l by lia.
  split; [done|]. do 2 (split; [done|]). unfold fields. split_and!.
  - rewrite (get_range_mid [Marker.as_u8 mk] (u32_le kl)) by len. done.
  - rewrite (app_assoc [Marker.as_u8 mk]). rewrite (get_range_mid _ (u32_le vl)) by len. done.
  - rewrite !(app_assoc [Marker.as_u8 mk]), (app_assoc _ (u32_le vl)).
    rewrite <- (app_nil_r (u32_le rc)) at 1. rewrite (get_range_mid _ (u32_le rc)) by len. done.
Qed.

(** What the scan does with a record whose header is intact. *)
Definition scan_body bs (mapping_offset : Z) index memory (header_end : Z) (marker : Marker)
    (key_len value_len record_checksum : Z) payload : result (option (OverlayMap * Z * Z)) :=
  let absolute_offset := mapping_offset + (header_end - log.LOG_HEADER_SIZE) in
  if bool_decide (marker = Marker.Compact) && (key_len =? 0) && (value_len =? 0) then
    if record_checksum =? log.record_checksum marker 0 0 [] then Ok None
    else Err (error.corrupted_log absolute_offset
           ("invalid compact marker checksum at offset " +:+ fmt_num absolute_offset))
  else
  _ ← fail_if (negb (bool_decide (marker = Marker.Batch)) || negb (key_len =? 0))
        (invalid_data ("unexpected overlay marker at offset " +:+ fmt_num absolute_offset));
  _ ← fail_if (log.MAX_LOG_PAYLOAD_SIZE <? key_len + value_len)
        (invalid_data "overlay record exceeds configured format limits");
  _ ← fail_if (negb (crc32c_append (log.record_checksum_start marker key_len value_len) payload
                     =? record_checksum))
        (error.corrupted_log absolute_offset
          ("overlay checksum mismatch at offset " +:+ fmt_num absolute_offset));
  '(index, memory) ← apply_batch_payload bs payload header_end index memory;
  Ok (Some (index, memory, header_end + (key_len + value_len))).

Lemma scan_record_header bs mo index memory p0 mk kl vl rc rest :
  bs = p0 ++ log.record_header mk kl vl rc ++ rest → blen bs ≤ ISIZE_MAX →
  mo + blen bs < U64 → 0 ≤ mo → 0 ≤ kl < U32 → 0 ≤ vl < U32 → 0 ≤ rc < U32 →
  scan_record bs mo index memory (blen p0) =
    match get_range rest 0 (kl + vl) with
    | None => Ok None
    | Some payload => scan_body bs mo index memory (blen p0 + log.LOG_HEADER_SIZE) mk kl vl rc payload
    end.
Proof.
  intros Hbs Hl Hmo Hmo0 Hk Hv Hr. pose proof (log.blen_record_header mk kl vl rc) as Hh.
  assert (blen bs = blen p0 + 17 + blen rest).
  { rewrite Hbs. autorewrite with len. rewrite Hh. unfold log.LOG_HEADER_SIZE. lia. }
  pose proof (blen_nonneg p0). pose proof (blen_nonneg rest).
  destruct (record_header_fields mk kl vl rc Hk Hv Hr) as (H0'&Hc&Hf&Hkl&Hvl&Hrc).
  unfold scan_record, log.LOG_HEADER_CHECKSUM_OFFSET, log.LOG_HEADER_SIZE in *.
  rewrite (checked_add_ok (blen p0)) by lia. rstep.
  assert (get_range bs (blen p0) (blen p0 + 17) = Some (log.record_header mk kl vl rc)) as ->
    by (rewrite Hbs; apply get_range_mid; lia). rewrite (checked_add_ok mo) by lia. rstep.
  rewrite Hc, Hf, H0', Hkl, Hvl, Hrc. rstep.
  rewrite (from_to_le_bytes_small 4 (crc32c _)) by apply crc32c_range. rewrite Z.eqb_refl. rstep.
  rewrite !from_to_le_bytes_small by done. rewrite checked_add_ok by lia. rstep.
  rewrite checked_add_ok by lia. rstep.
  assert (get_range bs (blen p0 + 17) (blen p0 + 17 + (kl + vl)) = get_range rest 0 (kl + vl)) as ->.
  { rewrite Hbs, app_assoc. rewrite get_range_skip by (autorewrite with len; lia). f_equal.
    all: autorewrite with len; lia. }
  destruct (get_range rest 0 (kl + vl)) as [payload|]; [|done].
  rewrite Marker.from_byte_as_u8. rstep. unfold scan_body, log.LOG_HEADER_SIZE.
  replace (mo + (blen p0 + 17 - 17)) with (mo + blen p0) by lia. done.
Qed.

Lemma scan_record_batch bs b mo index memory p0 muts q M :
  reserve_succeeds → bs = p0 ++ log.encode_record muts ++ q → blen bs ≤ ISIZE_MAX →
  0 ≤ mo → mo + blen bs < U64 → batch_ok muts → scan_inv bs b index memory (blen p0) M →
  ∃ index' memory', scan_record bs mo index memory (blen p0)
      = Ok (Some (index', memory', blen p0 + blen (log.encode_record muts)))
    ∧ scan_inv bs b index' memory' (blen p0 + blen (log.encode_record muts)) (apply_muts M muts).
Proof.
  intros Hres Hbs Hl Hmo0 Hmo Hok Hi0. pose proof Hok as (_&Hp&_).
  pose proof (blen_nonneg (log.encode_payload muts)). unfold log.MAX_LOG_PAYLOAD_SIZE in Hp.
  unfold log.encode_record in Hbs. rewrite <- app_assoc in Hbs.
  rewrite (scan_record_header bs mo index memory p0 _ _ _ _ _ Hbs)
    by (done || lia || apply log.record_checksum_range).
  rewrite Z.add_0_l, get_range_head by done. unfold scan_body.
  rewrite bool_decide_false by done. rewrite bool_decide_true by done. cbn [andb negb orb Z.eqb].
  rewrite Z.add_0_l. unfold log.MAX_LOG_PAYLOAD_SIZE at 1. replace (_ <? _) with false by lia. rstep.
  fold (log.record_checksum Marker.Batch 0 (blen (log.encode_payload muts)) (log.encode_payload muts)).
  rewrite Z.eqb_refl. rstep.
  pose proof (log.blen_record_header Marker.Batch 0 (blen (log.encode_payload muts))
    (log.record_checksum Marker.Batch 0 (blen (log.encode_payload muts)) (log.encode_payload muts))) as Hh.
  rewrite app_assoc in Hbs.
  destruct (apply_batch_payload_complete bs b _ muts q index memory M Hres Hbs Hl Hok)
    as (index'&memory'&Ha&Hi).
  { eapply scan_inv_mono; [exact Hi0|]. rewrite blen_app, Hh. unfold log.LOG_HEADER_SIZE. lia. }
  rewrite blen_app, Hh in Ha, Hi. rewrite Ha. rstep.
  rewrite log.blen_encode_record. exists index', memory'.
  rewrite Z.add_assoc. done.
Qed.

Lemma scan_record_compact bs mo index memory p0 q :
  bs = p0 ++ log.compact_marker ++ q → blen bs ≤ ISIZE_MAX → 0 ≤ mo → mo + blen bs < U64 →
  scan_record bs mo index memory (blen p0) = Ok None.
Proof.
  intros Hbs Hl Hmo0 Hmo. unfold log.compact_marker in Hbs.
  rewrite (scan_record_header bs mo index memory p0 _ _ _ _ _ Hbs)
    by (done || lia || apply log.record_checksum_range).
  rewrite get_range_in_bounds by (pose proof (blen_nonneg q); lia).
  unfold scan_body. rewrite bool_decide_true by done. cbn [andb Z.eqb].
  by rewrite Z.eqb_refl.
Qed.

Lemma scan_record_short bs mo index memory offset :
  0 ≤ offset ≤ blen bs → blen bs ≤ ISIZE_MAX → blen bs < offset + log.LOG_HEADER_SIZE →
  scan_record bs mo index memory offset = Ok None.
Proof.
  intros Ho Hl Hs. unfold scan_record, log.LOG_HEADER_SIZE in *.
  rewrite (checked_add_ok offset) by lia. rstep.
  assert (get_range bs offset (offset + 17) = None) as -> by (apply get_range_None; lia). done.
Qed.

Lemma scan_record_truncated bs mo index memory p0 muts n :
  bs = p0 ++ take n (log.encode_record muts) → blen bs ≤ ISIZE_MAX → 0 ≤ mo → mo + blen bs < U64 →
  batch_ok muts → Z.of_nat n < blen (log.encode_record muts) →
  scan_record bs mo index memory (blen p0) = Ok None.
Proof.
  intros Hbs Hl Hmo0 Hmo (_&Hp&_) Hn. pose proof (blen_nonneg p0).
  pose proof (blen_nonneg (log.encode_payload muts)). unfold log.MAX_LOG_PAYLOAD_SIZE in Hp.
  rewrite log.blen_encode_record in Hn.
  set (h := log.record_header Marker.Batch 0 (blen (log.encode_payload muts))
    (log.record_checksum Marker.Batch 0 (blen (log.encode_payload muts)) (log.encode_payload muts))).
  assert (Hh : blen h = 17) by apply log.blen_record_header.
  unfold log.LOG_HEADER_SIZE in Hn.
  assert (Hlen : blen bs = blen p0 + Z.of_nat n).
  { rewrite Hbs. autorewrite with len. rewrite log.blen_encode_record.
    unfold log.LOG_HEADER_SIZE. lia. }
  destruct (decide (Z.of_nat n < 17)).
  { apply scan_record_short; unfold log.LOG_HEADER_SIZE; lia. }
  unfold log.encode_record in Hbs. fold h in Hbs.
  rewrite take_app_ge in Hbs by (unfold blen in *; lia).
  rewrite (scan_record_header bs mo index memory p0 _ _ _ _ _ Hbs)
    by (done || lia || apply log.record_checksum_range).
  assert (get_range (take (n - length h) (log.encode_payload muts)) 0
            (0 + blen (log.encode_payload muts)) = None) as ->; [|done].
  apply get_range_None; [lia|]. right. rewrite blen_take. unfold blen in *. lia.
Qed.

(** *** The loop *)

Definition encode_log (batches : list (list mutation)) : bytes :=
  concat (log.encode_record <$> batches).

(** What may follow the last complete batch: nothing, fewer bytes than a header,
    the marker of a compaction, or a batch whose record was cut short. *)
Definition log_end (rest : bytes) : Prop :=
  blen rest < log.LOG_HEADER_SIZE
  ∨ (∃ junk, rest = log.compact_marker ++ junk)
  ∨ (∃ muts n, batch_ok muts ∧ rest = take n (log.encode_record muts)
       ∧ Z.of_nat n < blen (log.encode_record muts)).

Lemma scan_record_end bs mo index memory p0 rest :
  bs = p0 ++ rest → log_end rest → blen bs ≤ ISIZE_MAX → 0 ≤ mo → mo + blen bs < U64 →
  scan_record bs mo index memory (blen p0) = Ok None.
Proof.
  intros Hbs He Hl Hmo0 Hmo. destruct He as [Hs|[[junk ->]|(muts&n&Hok&->&Hn)]].
  - pose proof (blen_nonneg p0). pose proof (blen_nonneg rest).
    apply scan_record_short; [|done|]; rewrite Hbs, blen_app; lia.
  - by eapply scan_record_compact.
  - by eapply scan_record_truncated.
Qed.

(** The loop passes over complete batches. *)
Lemma scan_loop_through fuel bs b mo index memory p0 batches rest M :
  reserve_succeeds → bs = p0 ++ encode_log batches ++ rest →
  blen bs ≤ ISIZE_MAX → 0 ≤ mo → mo + blen bs < U64 → Forall batch_ok batches →
  blen bs - blen p0 ≤ Z.of_nat fuel → scan_inv bs b index memory (blen p0) M →
  ∃ fuel' index' memory', scan_loop fuel bs mo index memory (blen p0)
      = scan_loop fuel' bs mo index' memory' (blen p0 + blen (encode_log batches))
    ∧ blen rest ≤ Z.of_nat fuel'
    ∧ scan_inv bs b index' memory' (blen p0 + blen (encode_log batches)) (apply_muts M (concat batches)).
Proof.
  intros Hres Hbs Hl Hmo0 Hmo Hok. revert fuel p0 index memory M Hbs.
  induction Hok as [|muts batches Hm Hok IH]; intros fuel p0 index memory M Hbs Hf Hi.
  - change (encode_log []) with (@nil byte) in *. rewrite blen_nil, Z.add_0_r.
    exists fuel, index, memory. split_and!; [done| |done]. rewrite Hbs in Hf. cbn [app] in Hf. rewrite blen_app in Hf. lia.
  - change (encode_log (muts :: batches)) with (log.encode_record muts ++ encode_log batches) in *.
    rewrite <- app_assoc in Hbs. cbn [concat]. rewrite apply_muts_app.
    destruct (scan_record_batch bs b mo index memory p0 muts _ M Hres Hbs Hl Hmo0 Hmo Hm Hi)
      as (index1&memory1&Hs&Hi1).
    assert (Hlen : blen bs = blen p0 + (blen (log.encode_record muts)
                     + (blen (encode_log batches) + blen rest))) by (rewrite Hbs; by len_norm).
    pose proof (log.blen_encode_record muts) as Hr. unfold log.LOG_HEADER_SIZE in Hr.
    pose proof (blen_nonneg (log.encode_payload muts)). pose proof (blen_nonneg p0).
    pose proof (blen_nonneg (encode_log batches)). pose proof (blen_nonneg rest).
    destruct fuel as [|fuel]; [lia|]. cbn [scan_loop]. replace (_ <=? blen p0) with false by lia.
    rewrite Hs. rstep. rewrite <- blen_app in Hi1 |- *.
    destruct (IH fuel (p0 ++ log.encode_record muts) index1 memory1 (apply_muts M muts))
      as (fuel2&index2&memory2&Hl2&Hf2&Hi2);
      [by rewrite Hbs, <- app_assoc|autorewrite with len; lia|exact Hi1|].
    exists fuel2, index2, memory2. rewrite Hl2. revert Hi2. autorewrite with len.
    rewrite !Z.add_assoc. auto.
Qed.

Lemma scan_loop_complete fuel bs b mo index memory p0 batches rest M :
  reserve_succeeds → bs = p0 ++ encode_log batches ++ rest → log_end rest →
  blen bs ≤ ISIZE_MAX → 0 ≤ mo → mo + blen bs < U64 → Forall batch_ok batches →
  blen bs - blen p0 ≤ Z.of_nat fuel → scan_inv bs b index memory (blen p0) M →
  ∃ index' memory', scan_loop fuel bs mo index memory (blen p0)
      = Ok (index', memory', blen p0 + blen (encode_log batches))
    ∧ scan_inv bs b index' memory' (blen p0 + blen (encode_log batches))
        (apply_muts M (concat batches)).
Proof.
  intros Hres Hbs He Hl Hmo0 Hmo Hok Hf Hi.
  destruct (scan_loop_through fuel bs b mo index memory p0 batches rest M) as (fuel'&index'&memory'&->&Hf'&Hi'); try done.
  exists index', memory'. split; [|done]. rewrite app_assoc in Hbs. rewrite <- blen_app.
  destruct fuel' as [|fuel']; cbn [scan_loop]; destruct (blen bs <=? _) eqn:Eb; bool_prop; try done.
  - exfalso. rewrite Hbs, !blen_app in Eb. lia.
  - by rewrite (scan_record_end bs mo index' memory' _ rest Hbs).
Qed.

(** A prefix of a log is whole batches and an end. *)
Lemma take_encode_log batches n :
  Forall batch_ok batches →
  ∃ j rest, take n (encode_log batches) = encode_log (take j batches) ++ rest
    ∧ (j ≤ length batches)%nat ∧ log_end rest.
Proof.
  intros Hok. revert n. induction Hok as [|muts batches Hm Hok IH]; intros n.
  - exists 0%nat, []. change (encode_log []) with (@nil byte). rewrite take_nil.
    split_and!; [done|done|]. by left.
  - change (encode_log (muts :: batches)) with (log.encode_record muts ++ encode_log batches).
    destruct (decide (Z.of_nat n < blen (log.encode_record muts))) as [Hlt|Hge].
    + exists 0%nat, (take n (log.encode_record muts)).
      rewrite take_app_le by (unfold blen in Hlt; lia). split_and!; [done|cbn; lia|].
      right; right. by exists muts, n.
    + destruct (IH (n - length (log.encode_record muts))%nat) as (j&rest&Hj&Hle&He).
      exists (S j), rest. rewrite take_app_ge by (unfold blen in Hge; lia). rewrite Hj.
      change (encode_log (take (S j) (muts :: batches)))
        with (log.encode_record muts ++ encode_log (take j batches)).
      split_and!; [by rewrite app_assoc|cbn; lia|done].
Qed.

(** *** Arbitrary bytes *)

Lemma scan_record_safe bs b mo index memory offset M :
  blen bs ≤ ISIZE_MAX → 0 ≤ offset ≤ blen bs → scan_inv bs b index memory offset M →
  safe (scan_record bs mo index memory offset) (λ r,
    match r with
    | None => True
    | Some (index', memory', offset') =>
        offset + log.LOG_HEADER_SIZE ≤ offset' ≤ blen bs
        ∧ ∃ M', scan_inv bs b index' memory' offset' M'
    end).
Proof.
  intros Hbs Ho Hi0. unfold scan_record, log.LOG_HEADER_SIZE, log.LOG_HEADER_CHECKSUM_OFFSET.
  eapply safe_bind; [apply safe_ok_or|]. intros he _ [-> _]%checked_add_Some.
  destruct (get_range bs offset _) as [header|] eqn:Hh; [|done].
  pose proof (get_range_Some _ _ _ _ Hh) as (_&_&Hl&_).
  assert (Hix : ∀ a c, 0 ≤ a ≤ c → c ≤ 17 → ∃ x, index_range header a c = Ok x ∧ blen x = c - a).
  { intros a c ??. unfold index_range. rewrite get_range_in_bounds by lia. cbn.
    eexists; split; [done|]. len. }
  eapply safe_bind; [apply safe_ok_or|]. intros ao _ _.
  destruct (Hix 13 17) as (x1&->&_); [lia..|]. destruct (Hix 0 13) as (x2&->&_); [lia..|]. rstep.
  eapply safe_bind; [apply safe_fail_if|]. intros _ _ _.
  destruct header as [|hb header]; [rewrite blen_nil in Hl; lia|].
  change ((hb :: header) !! 0%nat) with (Some hb).
  destruct (Hix 1 5) as (x3&->&_); [lia..|]. destruct (Hix 5 9) as (x4&->&_); [lia..|].
  destruct (Hix 9 13) as (x5&->&_); [lia..|]. rstep.
  pose proof (from_le_bytes_range x3). pose proof (from_le_bytes_range x4).
  eapply safe_bind; [apply safe_ok_or|]. intros pl _ [-> _]%checked_add_Some.
  eapply safe_bind; [apply safe_ok_or|]. intros re _ [-> _]%checked_add_Some.
  destruct (get_range bs (offset + 17) _) as [payload|] eqn:Hp; [|done].
  pose proof (get_range_Some _ _ _ _ Hp) as (?&?&Hpl&_).
  eapply safe_bind; [apply safe_ok_or|]. intros mk _ _.
  destruct (_ && _ && _); [by destruct (_ =? _)|].
  do 3 (eapply safe_bind; [apply safe_fail_if|]; intros _ _ _).
  eapply safe_bind; [apply (apply_batch_payload_safe bs b payload (offset + 17) index memory M); auto|].
  - split; [lia|]. rewrite <- Hp. f_equal. lia.
  - eapply scan_inv_mono; [exact Hi0|lia].
  - intros [index' memory'] _ (M'&Hi). split; [lia|]. exists M'.
    replace (offset + 17 + (from_le_bytes x3 + from_le_bytes x4))
      with (offset + 17 + blen payload) by lia. done.
Qed.

Lemma scan_loop_safe fuel bs b mo index memory offset M :
  blen bs ≤ ISIZE_MAX → 0 ≤ offset ≤ blen bs → blen bs - offset ≤ Z.of_nat fuel →
  scan_inv bs b index memory offset M →
  safe (scan_loop fuel bs mo index memory offset) (λ '(index', memory', offset'),
    offset ≤ offset' ≤ blen bs ∧ ∃ M', scan_inv bs b index' memory' offset' M').
Proof.
  intros Hbs. revert index memory offset M.
  induction fuel as [|fuel IH]; intros index memory offset M Ho Hf Hi; cbn [scan_loop];
    destruct (_ <=? offset) eqn:?; bool_prop; try lia.
  1,2: split; [lia|eauto].
  eapply safe_bind; [by apply (scan_record_safe bs b mo index memory offset M)|].
  intros [[[index1 memory1] offset1]|] _ Hn; [|split; [lia|eauto]].
  unfold log.LOG_HEADER_SIZE in Hn. destruct Hn as (?&M1&Hi1).
  eapply safe_mono; [apply (IH index1 memory1 offset1 M1); [lia|lia|done]|].
  intros [[index2 memory2] offset2] [??]. split; [lia|done].
Qed.

Lemma scan_start bs b : BaseBytes.deref b = Ok bs → scan_inv bs b (OverlayMap.mapped (Some b)) 0 0 ∅.
Proof.
  intros Hb. split_and!; [|by rewrite total_empty|lia]. split; [done|].
  exists ht_new. split; [done|]. apply rep_new.
Qed.

Lemma scan_inv_holds bs b index memory used M :
  scan_inv bs b index memory used M → used ≤ ISIZE_MAX →
  state_holds bs (OverlayState.with_memory index memory) M.
Proof.
  intros (Hr&Hm&Hu) Hb. pose proof Hr as (_&table&Ht&_).
  split_and!; [by eapply recovering_represents| |cbn; lia]. cbn. by rewrite Ht.
Qed.

(** What a scan of any bytes leaves: an index of the part that was accepted. *)
Lemma scan_overlay_safe bs b mo :
  BaseBytes.deref b = Ok bs → blen bs ≤ ISIZE_MAX →
  safe (scan_overlay b mo) (λ scan, ∃ used M, OverlayScan.valid_len scan = mo + used ∧ 0 ≤ used ≤ blen bs
    ∧ scan_inv bs b (OverlayScan.index scan) (OverlayScan.memory scan) used M).
Proof.
  intros Hb Hl. unfold scan_overlay. rewrite Hb. rstep. pose proof (blen_nonneg bs).
  eapply safe_bind.
  { apply (scan_loop_safe _ bs b mo _ 0 0 ∅); [done|lia|unfold blen; lia|by apply scan_start]. }
  intros [[index memory] offset] _ (Ho&M&Hi).
  eapply safe_bind; [apply safe_ok_or|]. intros vl _ [-> _]%checked_add_Some. cbn [safe]. exists offset, M. split; [done|]. split; [lia|done].
Qed.

Lemma scan_overlay_complete bs b mo batches rest :
  reserve_succeeds → BaseBytes.deref b = Ok bs → bs = encode_log batches ++ rest → log_end rest →
  blen bs ≤ ISIZE_MAX → 0 ≤ mo → mo + blen bs < U64 → Forall batch_ok batches →
  ∃ index memory, scan_overlay b mo
      = Ok (OverlayScan.Mk index memory (mo + blen (encode_log batches)))
    ∧ scan_inv bs b index memory (blen (encode_log batches)) (apply_muts ∅ (concat batches)).
Proof.
  intros Hres Hb Hbs He Hl Hmo0 Hmo Hok. unfold scan_overlay. rewrite Hb. rstep.
  destruct (scan_loop_complete (length bs) bs b mo (OverlayMap.mapped (Some b)) 0 [] batches rest ∅)
    as (index&memory&Hs&Hi); auto; [unfold blen; cbn; lia|by apply scan_start|].
  change (blen (@nil byte)) with 0 in Hs, Hi. rewrite Z.add_0_l in Hs. rewrite Z.add_0_l in Hi.
  rewrite Hs. rstep.
  assert (blen (encode_log batches) ≤ blen bs)
    by (rewrite Hbs, blen_app; pose proof (blen_nonneg rest); lia).
  rewrite checked_add_ok by lia. rstep. eauto.
Qed.

End Facts.

(** ** Properties *)

Section Properties.
Context `{Crc32cLaws, Xxh3, HashTablesLaws}.

(** C18: recovery round trip. The bytes of any sequence of batches, followed by
    nothing, a torn header, a torn record or the marker of a compaction, are
    scanned to an Overlay that holds exactly the result of applying the batches in
    order, with the exact memory charge; [valid_len] is the end of the last
    complete batch. *)
Theorem scan_recovers_batches bs b mo batches rest :
  reserve_succeeds → BaseBytes.deref b = Ok bs → bs = encode_log batches ++ rest → log_end rest →
  blen bs ≤ ISIZE_MAX → 0 ≤ mo → mo + blen bs < U64 → Forall batch_ok batches →
  ∃ scan, scan_overlay b mo = Ok scan
    ∧ OverlayScan.valid_len scan = mo + blen (encode_log batches)
    ∧ state_holds bs (OverlayState.with_memory (OverlayScan.index scan) (OverlayScan.memory scan))
        (apply_muts ∅ (concat batches)).
Proof.
  intros Hres Hb Hbs He Hl Hmo0 Hmo Hok.
  destruct (scan_overlay_complete bs b mo batches rest) as (index&memory&Hs&Hi); auto.
  eexists; split; [exact Hs|]. split; [done|]. eapply scan_inv_holds; [exact Hi|].
  rewrite Hbs, blen_app in Hl. pose proof (blen_nonneg rest). lia.
Qed.

(** C17: a crash keeps whole batches. Whatever prefix of the log survives, the
    scan recovers some number of leading batches completely and nothing of the
    next one: no batch is ever applied in part. *)
Theorem prefix_recovers_whole_batches b mo batches n :
  reserve_succeeds → BaseBytes.deref b = Ok (take n (encode_log batches)) →
  blen (encode_log batches) ≤ ISIZE_MAX → 0 ≤ mo → mo + blen (encode_log batches) < U64 →
  Forall batch_ok batches →
  ∃ j scan, scan_overlay b mo = Ok scan
    ∧ (j ≤ length batches)%nat
    ∧ OverlayScan.valid_len scan = mo + blen (encode_log (take j batches))
    ∧ state_holds (take n (encode_log batches))
        (OverlayState.with_memory (OverlayScan.index scan) (OverlayScan.memory scan))
        (apply_muts ∅ (concat (take j batches))).
Proof.
  intros Hres Hb Hl Hmo0 Hmo Hok.
  destruct (take_encode_log batches n Hok) as (j&rest&Hj&Hle&He).
  assert (Hlen : blen (take n (encode_log batches)) ≤ blen (encode_log batches)) by len.
  destruct (scan_overlay_complete _ b mo (take j batches) rest Hres Hb Hj He)
    as (index&memory&Hs&Hi); [lia|lia|lia|by apply Forall_take|].
  exists j. eexists; split; [exact Hs|]. split_and!; [done|done|].
  eapply scan_inv_holds; [exact Hi|]. rewrite Hj, blen_app in Hlen. pose proof (blen_nonneg rest). lia.
Qed.

(** C29: the scan is total on untrusted bytes. It never panics and never loops;
    when it accepts a log, [valid_len] lies inside it and the index it returns
    holds some map of mutations with its exact charge, so every later lookup
    succeeds as well. *)
Theorem scan_overlay_total bs b mo :
  BaseBytes.deref b = Ok bs → blen bs ≤ ISIZE_MAX →
  safe (scan_overlay b mo) (λ scan,
    mo ≤ OverlayScan.valid_len scan ≤ mo + blen bs
    ∧ ∃ M, state_holds bs
        (OverlayState.with_memory (OverlayScan.index scan) (OverlayScan.memory scan)) M
      ∧ ∀ key, OverlayMap.get (OverlayScan.index scan) key = Ok (M !! key)).
Proof.
  intros Hb Hl. eapply safe_mono; [by apply scan_overlay_safe|]. intros scan (used&M&->&Hu&Hi). split; [lia|]. exists M.
  assert (Hh : state_holds bs (OverlayState.with_memory (OverlayScan.index scan) (OverlayScan.memory scan)) M)
    by (eapply scan_inv_holds; [exact Hi|lia]).
  split; [done|]. intros key. apply (get_hashed_spec bs _ M key). apply Hh.
Qed.

End Properties.

(** *** A concrete log *)

Import RefInstances.

Definition demo_batches : list (list mutation) := [overlay_demo.batch1; overlay_demo.batch2].

Lemma ref_reserve_succeeds : reserve_succeeds.
Proof. intros t n hasher r [= <-]. done. Qed.

Lemma demo_batches_ok : Forall batch_ok demo_batches.
Proof.
  repeat constructor; vm_compute; discriminate.
Qed.

Lemma scan_recovers_batches_witness :
  ∃ scan, scan_overlay (BaseBytes.Mapped (encode_log demo_batches ++ log.compact_marker)) 8244 = Ok scan
    ∧ OverlayScan.valid_len scan = 8244 + blen (encode_log demo_batches)
    ∧ state_holds (encode_log demo_batches ++ log.compact_marker)
        (OverlayState.with_memory (OverlayScan.index scan) (OverlayScan.memory scan))
        (apply_muts ∅ (concat demo_batches)).
Proof.
  apply (scan_recovers_batches (encode_log demo_batches ++ log.compact_marker)
    (BaseBytes.Mapped (encode_log demo_batches ++ log.compact_marker)) 8244 demo_batches
    log.compact_marker).
  - exact ref_reserve_succeeds.
  - reflexivity.
  - reflexivity.
  - right; left. exists []. by rewrite app_nil_r.
  - vm_compute. discriminate.
  - lia.
  - vm_compute. reflexivity.
  - exact demo_batches_ok.
Defined.

Lemma prefix_recovers_whole_batches_witness :
  ∃ j scan, scan_overlay (BaseBytes.Mapped (take 50 (encode_log demo_batches))) 8244 = Ok scan
    ∧ (j ≤ length demo_batches)%nat
    ∧ OverlayScan.valid_len scan = 8244 + blen (encode_log (take j demo_batches))
    ∧ state_holds (take 50 (encode_log demo_batches))
        (OverlayState.with_memory (OverlayScan.index scan) (OverlayScan.memory scan))
        (apply_muts ∅ (concat (take j demo_batches))).
Proof.
  apply (prefix_recovers_whole_batches
    (BaseBytes.Mapped (take 50 (encode_log demo_batches))) 8244 demo_batches 50).
  - exact ref_reserve_succeeds.
  - reflexivity.
  - vm_compute. discriminate.
  - lia.
  - vm_compute. reflexivity.
  - exact demo_batches_ok.
Defined.

(** Bytes that are no log are refused. *)
Lemma scan_overlay_total_witness :
  no_panic (scan_overlay (BaseBytes.Mapped (replicate 20 Byte.x07)) 8244).
Proof.
  eapply safe_no_panic.
  apply (scan_overlay_total (replicate 20 Byte.x07) (BaseBytes.Mapped (replicate 20 Byte.x07)) 8244).
  - reflexivity.
  - vm_compute. discriminate.
Defined.

End recovery.
