(* ===== verification/View.v ===== *)
(** * Lazy verification and point lookups: [SegmentVerifier] of
    [lkv/src/database/state.rs] and [lkv/src/database/view.rs]

    The verifier remembers which blocks of a Base have been checked against the
    checksum table; a lookup probes the hash index and, in [OnRead] mode, checks
    every block it touches first. The theorems show that the verifier's bitmap and
    counters are exact, that an accepted range consists of intact blocks, and that
    a lookup in a written Base returns exactly the value stored for the key. *)

From S2P Require Import Prelude Errors Crates Io Superblock Values Log Segment Overlay.

(** [VerificationMode] of [options.rs]. *)
Inductive VerificationMode := Full | OnRead.

#[global] Instance VerificationMode_eq_dec : EqDecision VerificationMode.
Proof. solve_decision. Defined.

(** ** [SegmentVerifier]

    The atomics are the fields of a state that the operations update in order. *)

Record SegmentVerifier := MkVerifier {
  v_offset : Z;
  v_data_size : Z;
  v_checksums : list Z;
  v_verified : list Z;
  v_remaining : Z;
  v_fully_verified : bool;
  v_semantically_verified : bool
}.

Module verifier.
Section Verifier.
Context `{Crc32c}.

(** [chunks_exact(4)]. *)
Definition chunks_exact4 (bs : bytes) : list bytes :=
  filter (λ c, length c = 4%nat) (chunks 4 bs).

Definition new (offset : Z) (layout : segment.SegmentLayout) (fully_verified : bool)
    : SegmentVerifier :=
  let checksums := from_le_bytes <$> chunks_exact4 (segment.layout_checksums layout) in
  let words := div_ceil (blen checksums) 64 in
  let initial := if fully_verified then U64 - 1 else 0 in
  MkVerifier offset (blen (segment.layout_data layout)) checksums
    (replicate (Z.to_nat words) initial)
    (if fully_verified then 0 else blen (segment.layout_checksums layout) / 4)
    fully_verified fully_verified.

Definition set_verified (word new_ : Z) (v : SegmentVerifier) : SegmentVerifier :=
  MkVerifier (v_offset v) (v_data_size v) (v_checksums v)
    (<[Z.to_nat word := new_]> (v_verified v)) (v_remaining v)
    (v_fully_verified v) (v_semantically_verified v).
Definition set_remaining (n : Z) (v : SegmentVerifier) : SegmentVerifier :=
  MkVerifier (v_offset v) (v_data_size v) (v_checksums v) (v_verified v) n
    (v_fully_verified v) (v_semantically_verified v).
Definition set_fully (b : bool) (v : SegmentVerifier) : SegmentVerifier :=
  MkVerifier (v_offset v) (v_data_size v) (v_checksums v) (v_verified v) (v_remaining v)
    b (v_semantically_verified v).

(** [fetch_sub(1)] wraps around. *)
Definition wrapping_pred (n : Z) : Z := (n - 1) mod U64.

(** One iteration of the loop of [verify_range]. *)
Definition verify_block (mapping : bytes) (block : Z) : M SegmentVerifier () :=
  let word := block / 64 in
  let mask := Z.shiftl 1 (block mod 64) in
  v ← gets (λ v, v);
  current ← lift (unwrap (v_verified v !! Z.to_nat word));
  if negb (Z.land current mask =? 0) then mret () else
  let block_start := block * segment.CHECKSUM_BLOCK_SIZE in
  let block_end := Z.min (block_start + segment.CHECKSUM_BLOCK_SIZE) (v_data_size v) in
  content ← lift (index_range mapping block_start block_end);
  expected ← lift (unwrap (v_checksums v !! Z.to_nat block));
  if negb (crc32c content =? expected)
  then lift (Err (error.corrupted_block (v_offset v) block)) else
  (* fetch_or *)
  previous ← lift (unwrap (v_verified v !! Z.to_nat word));
  _ ← modify (set_verified word (Z.lor previous mask));
  if Z.land previous mask =? 0 then
    let remaining := v_remaining v in
    _ ← modify (set_remaining (wrapping_pred remaining));
    if remaining =? 1 then modify (set_fully true) else mret ()
  else mret ().

Fixpoint verify_blocks_from (count : nat) (mapping : bytes) (block : Z) : M SegmentVerifier () :=
  match count with
  | O => mret ()
  | S count => _ ← verify_block mapping block; verify_blocks_from count mapping (block + 1)
  end.

Definition verify_range (mapping : bytes) (start end_ : Z) : M SegmentVerifier () :=
  v ← gets (λ v, v);
  if v_fully_verified v then mret () else
  if end_ <? start then lift (Err (error.invalid_base "read range lies outside segment")) else
  if v_data_size v <? end_
  then lift (Err (error.invalid_base "read range lies outside segment data")) else
  if start =? end_ then mret () else
  let first := start / segment.CHECKSUM_BLOCK_SIZE in
  let last := (end_ - 1) / segment.CHECKSUM_BLOCK_SIZE in
  verify_blocks_from (Z.to_nat (last + 1 - first)) mapping first.

Definition mark_semantically_verified : M SegmentVerifier () := modify (λ v,
  MkVerifier (v_offset v) (v_data_size v) (v_checksums v) (v_verified v) (v_remaining v)
    (v_fully_verified v) true).

End Verifier.

(** *** The invariant of the bitmap *)

Section Facts.
Context `{Crc32cLaws}.
Implicit Types (v : SegmentVerifier) (mapping : bytes).
Abbreviation BS := segment.CHECKSUM_BLOCK_SIZE.

Definition nblocks v : Z := blen (v_checksums v).
Definition bit v (b : Z) : bool :=
  Z.testbit (default 0 (v_verified v !! Z.to_nat (b / 64))) (b mod 64).

(** The bytes of a block have the checksum of the table. *)
Definition block_good mapping v (b : Z) : Prop :=
  ∃ content, get_range mapping (b * BS) (Z.min (b * BS + BS) (v_data_size v)) = Some content
    ∧ v_checksums v !! Z.to_nat b = Some (crc32c content).

(** The blocks that have not been verified yet. *)
Definition unset v : list Z := filter (λ b, bit v b = false) (seqZ 0 (nblocks v)).

(** The sizes agree, a set bit means an intact block, and until the last block is
    verified [remaining] counts the blocks that are left. *)
Definition verifier_inv mapping v : Prop :=
  0 ≤ v_data_size v ≤ blen mapping ∧ blen mapping ≤ ISIZE_MAX
  ∧ nblocks v = div_ceil (v_data_size v) BS ∧ blen (v_verified v) = div_ceil (nblocks v) 64
  ∧ (∀ b, 0 ≤ b < nblocks v → bit v b = true → block_good mapping v b)
  ∧ (v_fully_verified v = true → ∀ b, 0 ≤ b < nblocks v → bit v b = true)
  ∧ (v_fully_verified v = false → v_remaining v = blen (unset v)).

Lemma land_shiftl x n :
  0 ≤ n → Z.land x (Z.shiftl 1 n) = if Z.testbit x n then Z.shiftl 1 n else 0.
Proof.
  intros Hn. rewrite Z.shiftl_1_l. apply Z.bits_inj'. intros i Hi.
  rewrite Z.land_spec, Z.pow2_bits_eqb by done.
  destruct (n =? i) eqn:E; bool_prop.
  - subst i. destruct (Z.testbit x n) eqn:Hb; cbn; rewrite ?Z.pow2_bits_true, ?Z.bits_0 by done; done.
  - rewrite andb_false_r. destruct (Z.testbit x n); rewrite ?Z.pow2_bits_false, ?Z.bits_0 by done; done.
Qed.

Lemma land_shiftl_eqb x n : 0 ≤ n → (Z.land x (Z.shiftl 1 n) =? 0) = negb (Z.testbit x n).
Proof.
  intros Hn. rewrite land_shiftl by done. destruct (Z.testbit x n); [|done]. cbn.
  rewrite Z.shiftl_1_l. pose proof (Z.pow_pos_nonneg 2 n). lia.
Qed.

Lemma bit_set v block current b :
  0 ≤ block → 0 ≤ b → v_verified v !! Z.to_nat (block / 64) = Some current →
  bit (set_verified (block / 64) (Z.lor current (Z.shiftl 1 (block mod 64))) v) b
    = (b =? block) || bit v b.
Proof.
  intros Hbl Hb Hc. pose proof (Z.mod_pos_bound block 64 ltac:(lia)).
  pose proof (Z.mod_pos_bound b 64 ltac:(lia)).
  unfold bit, set_verified. cbn [v_verified].
  destruct (decide (b / 64 = block / 64)) as [E|E].
  - rewrite E, list_lookup_insert_eq by (by eapply lookup_lt_Some). rewrite Hc. cbn [from_option id].
    rewrite Z.lor_spec, Z.shiftl_1_l, Z.pow2_bits_eqb by lia. rewrite orb_comm. f_equal.
    destruct (b =? block) eqn:?, (block mod 64 =? b mod 64) eqn:?; bool_prop; try done; dmlia.
  - rewrite list_lookup_insert_ne by (intros E'; apply E;
      pose proof (Z.div_pos b 64); pose proof (Z.div_pos block 64); lia).
    replace (b =? block) with false; [done|]. symmetry. apply Z.eqb_neq. congruence.
Qed.

Lemma elem_of_unset v b : b ∈ unset v ↔ bit v b = false ∧ 0 ≤ b < nblocks v.
Proof. unfold unset. rewrite list_elem_of_filter, elem_of_seqZ. naive_solver lia. Qed.

Lemma unset_set v v' block :
  nblocks v' = nblocks v → 0 ≤ block < nblocks v → bit v block = false →
  (∀ b, 0 ≤ b → bit v' b = (b =? block) || bit v b) →
  unset v ≡ₚ block :: unset v'.
Proof.
  intros Hn Hb Hu Hv. apply NoDup_Permutation.
  - apply NoDup_filter, NoDup_seqZ.
  - constructor; [|apply NoDup_filter, NoDup_seqZ].
    intros [Hbit _]%elem_of_unset. rewrite Hv, Z.eqb_refl in Hbit by lia. done.
  - intros b. rewrite elem_of_cons, !elem_of_unset, Hn.
    destruct (decide (0 ≤ b)); [|naive_solver lia]. rewrite Hv by done.
    destruct (b =? block) eqn:E; bool_prop; naive_solver.
Qed.

Lemma block_in_bounds mapping v b :
  verifier_inv mapping v → 0 ≤ b < nblocks v →
  ∃ content, get_range mapping (b * BS) (Z.min (b * BS + BS) (v_data_size v)) = Some content.
Proof.
  intros (Hd&Hm&Hn&_) Hb. rewrite Hn in Hb. unfold segment.CHECKSUM_BLOCK_SIZE in *.
  pose proof (div_ceil_mul (v_data_size v) (64 * 1024) ltac:(lia)).
  rewrite get_range_in_bounds by lia. eauto.
Qed.

Lemma word_in_bounds mapping v b :
  verifier_inv mapping v → 0 ≤ b < nblocks v → is_Some (v_verified v !! Z.to_nat (b / 64)).
Proof.
  intros (_&_&_&Hw&_) Hb. apply lookup_lt_is_Some_2.
  pose proof (div_ceil_mul (nblocks v) 64 ltac:(lia)). unfold blen in Hw. dmlia.
Qed.

Lemma unset_le v : blen (unset v) ≤ nblocks v.
Proof.
  unfold unset. pose proof (length_filter (λ b, bit v b = false) (seqZ 0 (nblocks v))) as Hlf.
  rewrite length_seqZ in Hlf. pose proof (blen_nonneg (v_checksums v)).
  unfold blen in *. unfold nblocks, blen in *. lia.
Qed.

(** One block: it is accepted exactly when it is intact. *)
Lemma verify_block_spec mapping v block :
  verifier_inv mapping v → 0 ≤ block < nblocks v →
  ∃ v', verifier_inv mapping v' ∧ v_data_size v' = v_data_size v ∧ v_checksums v' = v_checksums v
    ∧ v_offset v' = v_offset v
    ∧ ((verify_block mapping block v = (Ok (), v') ∧ block_good mapping v block)
       ∨ (verify_block mapping block v = (Err (error.corrupted_block (v_offset v) block), v')
          ∧ ¬ block_good mapping v block)).
Proof.
  intros Hinv Hb. pose proof Hinv as (Hd&Hm&Hn&Hw&Hbits&Hfull&Hrem).
  destruct (word_in_bounds _ _ _ Hinv Hb) as [current Hc].
  destruct (block_in_bounds _ _ _ Hinv Hb) as [content Hg].
  assert (Hck : is_Some (v_checksums v !! Z.to_nat block))
    by (apply lookup_lt_is_Some_2; unfold nblocks, blen in Hb; lia).
  destruct Hck as [expected He].
  pose proof (Z.mod_pos_bound block 64 ltac:(lia)) as Hmod.
  unfold verify_block. rewrite (M_bind_ok (gets _) _ v v v eq_refl), Hc.
  cbn [unwrap]. rewrite M_lift_ok.
  rewrite land_shiftl_eqb, negb_involutive by lia.
  assert (Hbit : bit v block = Z.testbit current (block mod 64)) by (unfold bit; by rewrite Hc).
  rewrite <- Hbit. destruct (bit v block) eqn:Hbv.
  { exists v. do 4 (split; [done|]). left. split; [done|]. by apply Hbits. }
  assert (Hf : v_fully_verified v = false)
    by (destruct (v_fully_verified v); [by rewrite Hfull in Hbv|done]).
  unfold index_range. rewrite Hg. cbn [unwrap]. rewrite M_lift_ok, He. cbn [unwrap]. rewrite M_lift_ok.
  destruct (crc32c content =? expected) eqn:Hcrc; bool_prop; cbn [negb].
  2: { exists v. do 4 (split; [done|]). right. split; [done|]. intros (c'&Hg'&He'). congruence. }
  rewrite M_lift_ok.
  set (v1 := set_verified (block / 64) (Z.lor current (Z.shiftl 1 (block mod 64))) v).
  rewrite (M_bind_ok (modify (set_verified _ _)) _ v () v1 eq_refl). cbn [v_remaining].
  assert (Hgood : block_good mapping v block) by (exists content; rewrite He, Hcrc; done).
  assert (Hb1 : ∀ b, 0 ≤ b → bit v1 b = (b =? block) || bit v b)
    by (intros b ?; apply bit_set; auto; lia).
  assert (Hu : unset v ≡ₚ block :: unset v1) by (by apply unset_set).
  assert (Hub : blen (unset v) = 1 + blen (unset v1)) by (unfold blen; rewrite Hu; cbn; lia).
  pose proof (unset_le v) as Hnb. assert (Hnu : nblocks v < U64).
  { pose proof (div_ceil_mul (v_data_size v) BS ltac:(done)). unfold segment.CHECKSUM_BLOCK_SIZE in *. lia. }
  rewrite land_shiftl_eqb, <- Hbit by lia. cbn [negb]. rewrite (Hrem Hf).
  set (v2 := set_remaining (wrapping_pred (blen (unset v))) v1).
  rewrite (M_bind_ok (modify (set_remaining _)) _ v1 () v2 eq_refl).
  assert (Hpred : wrapping_pred (blen (unset v)) = blen (unset v1)).
  { unfold wrapping_pred. pose proof (blen_nonneg (unset v1)). rewrite Z.mod_small; lia. }
  assert (Hw' : blen (<[Z.to_nat (block / 64) := Z.lor current (Z.shiftl 1 (block mod 64))]> (v_verified v))
                = div_ceil (nblocks v) 64) by (unfold blen in *; by rewrite length_insert).
  assert (Hbits1 : ∀ b, 0 ≤ b < nblocks v → bit v1 b = true → block_good mapping v b).
  { intros b Hbb. rewrite Hb1 by lia. intros [Hbe|?]%orb_true_iff; [|by apply Hbits].
    apply Z.eqb_eq in Hbe as ->. done. }
  destruct (blen (unset v) =? 1) eqn:Hlast; bool_prop.
  - exists (set_fully true v2). split; [|do 3 (split; [done|]); left; done].
    assert (Hall : ∀ b, 0 ≤ b < nblocks v → bit v1 b = true).
    { intros b Hbb. destruct (bit v1 b) eqn:Eb; [done|].
      assert (Hin : b ∈ unset v1) by (by apply elem_of_unset).
      rewrite (blen_0 (unset v1)) in Hin by lia. set_solver. }
    refine (conj Hd (conj Hm (conj Hn (conj Hw' (conj Hbits1 (conj (λ _, Hall) _)))))). done.
  - exists v2. split; [|do 3 (split; [done|]); left; done].
    refine (conj Hd (conj Hm (conj Hn (conj Hw' (conj Hbits1 (conj _ (λ _, Hpred))))))).
    cbn. congruence.
Qed.

(** What stays the same in every operation. *)
Definition same_segment v v' : Prop :=
  v_data_size v' = v_data_size v ∧ v_checksums v' = v_checksums v ∧ v_offset v' = v_offset v.

#[global] Instance same_segment_preorder : PreOrder same_segment.
Proof. split; [by intros v|]. intros v1 v2 v3 (?&?&?) (?&?&?). split_and!; congruence. Qed.

Lemma block_good_same mapping v v' b :
  same_segment v v' → block_good mapping v' b ↔ block_good mapping v b.
Proof. intros (E1&E2&_). unfold block_good. by rewrite E1, E2. Qed.

Lemma verify_blocks_from_spec mapping count v block :
  verifier_inv mapping v → 0 ≤ block → block + Z.of_nat count ≤ nblocks v →
  ∃ r v', verify_blocks_from count mapping block v = (r, v')
    ∧ verifier_inv mapping v' ∧ same_segment v v'
    ∧ ((r = Ok () ∧ ∀ b, block ≤ b < block + Z.of_nat count → block_good mapping v b)
       ∨ ∃ b, block ≤ b < block + Z.of_nat count ∧ r = Err (error.corrupted_block (v_offset v) b)
              ∧ ¬ block_good mapping v b).
Proof.
  revert v block. induction count as [|count IH]; intros v block Hinv Hb Hl.
  { exists (Ok ()), v. do 3 (split; [done|]). left. split; [done|]. intros; lia. }
  destruct (verify_block_spec mapping v block Hinv ltac:(lia))
    as (v1&Hinv1&E1&E2&E3&[[Hr Hg]|[Hr Hg]]); cbn [verify_blocks_from].
  - mrun Hr. assert (Hs : same_segment v v1) by done.
    destruct (IH v1 (block + 1) Hinv1) as (r&v2&Hr2&Hinv2&Hs2&Ho); [lia|unfold nblocks in *; rewrite E2; lia|].
    exists r, v2. split_and!; [done|done|destruct Hs2 as (?&?&?); split_and!; congruence|].
    destruct Ho as [[-> Hall]|(b&Hbb&->&Hbad)].
    + left. split; [done|]. intros b Hbb. destruct (decide (b = block)) as [->|]; [done|].
      apply (block_good_same mapping v v1); [done|]. apply Hall. lia.
    + right. exists b. rewrite E3. split_and!; [lia|lia|done|].
      by rewrite <- (block_good_same mapping v v1 b Hs).
  - exists (Err (error.corrupted_block (v_offset v) block)), v1.
    rewrite (M_bind_err _ _ _ _ _ Hr). do 3 (split; [done|]).
    right. exists block. split_and!; [lia|lia|done|done].
Qed.

(** The blocks a range of bytes touches. *)
Definition touches (start end_ b : Z) : Prop := start < (b + 1) * BS ∧ b * BS < end_.

Lemma touches_iff start end_ b :
  0 ≤ start < end_ → touches start end_ b ↔ start / BS ≤ b ≤ (end_ - 1) / BS.
Proof.
  intros Hse. unfold touches, segment.CHECKSUM_BLOCK_SIZE. split; intros [??]; dmlia.
Qed.

Lemma verify_range_spec mapping v start end_ :
  verifier_inv mapping v → 0 ≤ start →
  ∃ r v', verify_range mapping start end_ v = (r, v')
    ∧ verifier_inv mapping v' ∧ same_segment v v'
    ∧ match r with
      | Ok _ => (v_fully_verified v = false → start ≤ end_ ≤ v_data_size v)
          ∧ ∀ b, 0 ≤ b < nblocks v → start < end_ → touches start end_ b → block_good mapping v b
      | Err e => v_fully_verified v = false ∧
          ((end_ < start ∨ v_data_size v < end_)
           ∨ ∃ b, touches start end_ b ∧ ¬ block_good mapping v b
                  ∧ e = error.corrupted_block (v_offset v) b)
      | Panic => False
      end.
Proof.
  intros Hinv Hs. pose proof Hinv as (Hd&Hm&Hn&_&Hbits&Hfull&_). unfold verify_range.
  rewrite (M_bind_ok (gets (λ v, v)) _ v v v eq_refl).
  destruct (v_fully_verified v) eqn:Hf.
  { exists (Ok ()), v. do 3 (split; [done|]). split; [done|]. intros b Hb _ _. apply Hbits; auto. }
  destruct (end_ <? start) eqn:E1; bool_prop.
  { eexists _, v. do 3 (split; [done|]). split; [done|]. left. lia. }
  destruct (v_data_size v <? end_) eqn:E2; bool_prop.
  { eexists _, v. do 3 (split; [done|]). split; [done|]. left. lia. }
  destruct (start =? end_) eqn:E3; bool_prop.
  { exists (Ok ()), v. do 3 (split; [done|]). split; [lia|]. intros; lia. }
  assert (Hblk : 0 ≤ start / BS ∧ start / BS ≤ (end_ - 1) / BS ∧ (end_ - 1) / BS < nblocks v).
  { rewrite Hn. pose proof (div_ceil_mul (v_data_size v) BS ltac:(done)).
    unfold segment.CHECKSUM_BLOCK_SIZE in *. dmlia. }
  destruct (verify_blocks_from_spec mapping (Z.to_nat ((end_ - 1) / BS + 1 - start / BS)) v (start / BS))
    as (r&v'&Hr&Hinv'&Hsame&Ho); [done|lia|lia|].
  exists r, v'. do 3 (split; [done|]).
  destruct Ho as [[-> Hall]|(b&Hb&->&Hbad)].
  - split; [lia|]. intros b _ Hlt Ht%touches_iff; [|lia]. apply Hall. lia.
  - split; [done|]. right. exists b. split_and!; [apply touches_iff; lia..|done|done].
Qed.

(** *** A fresh verifier *)

Lemma chunks_exact4_all bs : blen bs mod 4 = 0 → chunks_exact4 bs = chunks 4 bs.
Proof.
  unfold chunks_exact4. intros Hm. revert Hm. pattern bs. revert bs.
  apply (chunks_ind 4); [lia|done|]. intros bs Hbs IH Hm.
  pose proof (blen_pos bs Hbs). rewrite chunks_cons by (done || lia). rewrite filter_cons.
  rewrite decide_True by (rewrite length_take; unfold blen in *; dmlia).
  f_equal. apply IH. rewrite blen_drop. dmlia.
Qed.

Lemma new_checksums offset layout fully :
  blen (segment.layout_checksums layout) mod 4 = 0 →
  v_checksums (new offset layout fully) = from_le_bytes <$> chunks 4 (segment.layout_checksums layout)
  ∧ nblocks (new offset layout fully) = blen (segment.layout_checksums layout) / 4.
Proof.
  intros Hm. unfold nblocks, new. cbn [v_checksums]. rewrite chunks_exact4_all by done.
  split; [done|]. rewrite blen_fmap, blen_chunks by lia. unfold div_ceil.
  change (Z.of_nat 4) with 4. rewrite Hm. cbn. lia.
Qed.

(** The blocks [verify_segment_blocks] has accepted. *)
Lemma verify_blocks_good blocks checksums o index i c :
  segment.verify_blocks blocks checksums o index = Ok () → blocks !! i = Some c →
  format.u32_at checksums ((index + Z.of_nat i) * 4) = Ok (crc32c c).
Proof.
  revert index i. induction blocks as [|b blocks IH]; intros index i Hv Hi; [done|].
  cbn [segment.verify_blocks] in Hv. apply bind_Ok in Hv as (e&He&Hv).
  destruct (crc32c b =? e) eqn:E; [|done]. bool_prop. cbn in Hv. destruct i as [|i].
  - injection Hi as ->. subst e. rewrite Z.add_0_r. exact He.
  - cbn in Hi. rewrite <- (IH _ _ Hv Hi). f_equal. lia.
Qed.

Lemma u32_at_chunk bs (i : nat) z :
  0 ≤ Z.of_nat i → format.u32_at bs (Z.of_nat i * 4) = Ok z →
  (from_le_bytes <$> chunks 4 bs) !! i = Some z.
Proof.
  intros _ Hu. unfold format.u32_at in Hu. apply bind_Ok in Hu as (e&He&Hu).
  apply unwrap_Ok, checked_add_Some in He as [-> _].
  apply bind_Ok in Hu as (s&Hs%index_range_Ok&[= <-]).
  pose proof (get_range_Some _ _ _ _ Hs) as (?&Hle&_&->).
  assert (Hlt : is_Some (chunks 4 bs !! i)).
  { apply lookup_lt_is_Some_2. pose proof (blen_chunks 4 bs ltac:(lia)) as Hl.
    pose proof (div_ceil_mul (blen bs) 4 ltac:(lia)). change (Z.of_nat 4) with 4 in Hl.
    unfold blen in *. lia. }
  destruct Hlt as [c Hc]. rewrite list_lookup_fmap, Hc. cbn. do 2 f_equal.
  apply chunks_lookup in Hc as [-> _]; [|lia]. f_equal; [lia|]. f_equal. lia.
Qed.

Lemma block_slice data (i : nat) c mapping :
  chunks segment.BLOCK data !! i = Some c → data `prefix_of` mapping →
  get_range mapping (Z.of_nat i * BS) (Z.min (Z.of_nat i * BS + BS) (blen data)) = Some c.
Proof.
  intros [-> Hi]%chunks_lookup Hp; [|apply segment.BLOCK_pos]. pose proof segment.BLOCK_Z as HB.
  eapply get_range_prefix; [done|]. pose proof segment.BLOCK_pos.
  assert (Z.of_nat i * BS < blen data) by (unfold blen; lia).
  rewrite get_range_in_bounds by lia. f_equal.
  replace (Z.to_nat (Z.of_nat i * BS)) with (i * segment.BLOCK)%nat by lia.
  destruct (decide (Z.of_nat i * BS + BS ≤ blen data)).
  - f_equal. lia.
  - rewrite !take_ge; [done|rewrite length_drop; unfold blen in *; lia..].
Qed.

(** The layout of a mapping, as [segment_layout] returns it. *)
Definition layout_of mapping (layout : segment.SegmentLayout) : Prop :=
  (∃ footer, mapping = segment.layout_data layout ++ segment.layout_checksums layout ++ footer)
  ∧ blen mapping ≤ ISIZE_MAX
  ∧ blen (segment.layout_checksums layout) = div_ceil (blen (segment.layout_data layout)) BS * 4.

Lemma layout_blocks mapping layout offset fully :
  layout_of mapping layout →
  v_checksums (new offset layout fully) = from_le_bytes <$> chunks 4 (segment.layout_checksums layout)
  ∧ nblocks (new offset layout fully) = div_ceil (blen (segment.layout_data layout)) BS.
Proof.
  intros (_&_&Hc). destruct (new_checksums offset layout fully) as [Hck Hn]; [dmlia|].
  split; [done|]. rewrite Hn. dmlia.
Qed.

Lemma new_block_good mapping offset layout fully b :
  layout_of mapping layout → segment.verify_segment_blocks layout offset = Ok () →
  0 ≤ b < nblocks (new offset layout fully) → block_good mapping (new offset layout fully) b.
Proof.
  intros Hlay Hv Hb. destruct (layout_blocks mapping layout offset fully Hlay) as [Hck Hn].
  unfold segment.verify_segment_blocks in Hv. set (data := segment.layout_data layout) in *.
  assert (Hlt : is_Some (chunks segment.BLOCK data !! Z.to_nat b)).
  { apply lookup_lt_is_Some_2. pose proof (blen_chunks segment.BLOCK data segment.BLOCK_pos) as Hbc.
    rewrite segment.BLOCK_Z in Hbc. unfold blen in *. lia. }
  destruct Hlt as [c Hcb]. pose proof (verify_blocks_good _ _ _ _ _ _ Hv Hcb) as Hu.
  rewrite Z.add_0_l in Hu. apply u32_at_chunk in Hu; [|lia]. exists c. rewrite Hck. split; [|done].
  pose proof (block_slice data _ c mapping Hcb) as Hbs. rewrite Z2Nat.id in Hbs by lia. apply Hbs.
  destruct Hlay as ((footer&->)&_). by eexists.
Qed.

Lemma bit_new_false offset layout b : bit (new offset layout false) b = false.
Proof.
  unfold bit, new. cbn [v_verified].
  destruct (replicate _ 0 !! _) as [x|] eqn:E; [apply lookup_replicate in E as [-> _]|];
    cbn [from_option id]; apply Z.bits_0.
Qed.

Lemma bit_new_true offset layout b :
  0 ≤ b < nblocks (new offset layout true) → bit (new offset layout true) b = true.
Proof.
  intros Hb. unfold bit. cbn [v_verified new].
  assert (Hlt : (Z.to_nat (b / 64) < Z.to_nat (div_ceil (nblocks (new offset layout true)) 64))%nat).
  { pose proof (div_ceil_mul (nblocks (new offset layout true)) 64 ltac:(lia)). dmlia. }
  unfold nblocks in Hlt. cbn [v_checksums new] in Hlt. rewrite lookup_replicate_2 by exact Hlt.
  cbn [from_option id]. change (U64 - 1) with (Z.ones 64).
  apply Z.ones_spec_low, Z.mod_pos_bound. lia.
Qed.

Lemma new_inv mapping offset layout fully :
  layout_of mapping layout →
  (fully = true → segment.verify_segment_blocks layout offset = Ok ()) →
  verifier_inv mapping (new offset layout fully).
Proof.
  intros Hlay Hfull. pose proof Hlay as ((footer&Hmap)&Hb&Hc).
  destruct (layout_blocks mapping layout offset fully Hlay) as [Hck Hn].
  refine (conj _ (conj Hb (conj Hn (conj _ (conj _ (conj _ _)))))).
  - cbn. rewrite Hmap, !blen_app. pose proof (blen_nonneg (segment.layout_data layout)).
    pose proof (blen_nonneg (segment.layout_checksums layout)). pose proof (blen_nonneg footer). lia.
  - unfold nblocks. cbn [v_verified v_checksums new]. rewrite blen_replicate.
    set (l := from_le_bytes <$> _). pose proof (blen_nonneg l).
    pose proof (div_ceil_mul (blen l) 64 ltac:(lia)). lia.
  - intros b Hbb Hbit. destruct fully; [by apply new_block_good; auto|].
    by rewrite bit_new_false in Hbit.
  - intros Hf b Hbb. cbn in Hf. subst fully. by apply bit_new_true.
  - intros Hf. cbn in Hf. subst fully. unfold unset.
    rewrite filter_all by (apply Forall_forall; intros; apply bit_new_false).
    unfold blen. rewrite length_seqZ. cbn [v_remaining new].
    destruct (new_checksums offset layout false) as [_ Hn4]; [dmlia|]. rewrite <- Hn4.
    unfold nblocks. pose proof (blen_nonneg (v_checksums (new offset layout false))). lia.
Qed.

(** *** Intact segments: every range inside the data is accepted *)

Definition all_good mapping v : Prop := ∀ b, 0 ≤ b < nblocks v → block_good mapping v b.

Lemma all_good_same mapping v v' : same_segment v v' → all_good mapping v → all_good mapping v'.
Proof.
  intros Hs Hg b Hb. apply (block_good_same mapping v v' b Hs). apply Hg.
  destruct Hs as (_&E&_). unfold nblocks in *. by rewrite E in Hb.
Qed.

Lemma verify_range_good mapping v start end_ :
  verifier_inv mapping v → all_good mapping v → 0 ≤ start ≤ end_ → end_ ≤ v_data_size v →
  ∃ v', verify_range mapping start end_ v = (Ok (), v')
    ∧ verifier_inv mapping v' ∧ same_segment v v'.
Proof.
  intros Hinv Hg Hs He. destruct (verify_range_spec mapping v start end_ Hinv ltac:(lia))
    as (r&v'&Hr&Hinv'&Hsame&Ho). exists v'. destruct r as [[]|e|]; [done| |done].
  destruct Ho as (_&[?|(b&Ht&Hbad&_)]); [lia|]. exfalso. apply Hbad, Hg.
  pose proof Hinv as (Hd&_&Hn&_). rewrite Hn.
  pose proof (div_ceil_mul (v_data_size v) BS ltac:(done)).
  unfold touches, segment.CHECKSUM_BLOCK_SIZE in *. lia.
Qed.

End Facts.
End verifier.

(** ** [view.rs] *)

Module view.
Section View.
Context `{Crc32c}.

(** The reads of [view.rs] are those of [format/mod.rs]. *)
Definition u32_at (bs : bytes) (offset : Z) : result Z := format.u32_at bs offset.
Definition u64_at (bs : bytes) (offset : Z) : result Z := format.u64_at bs offset.

(** The record a slot points to: [None] is the early [return Ok(None)]; otherwise
    the start of the record, of its key and value, and its end. *)
Definition slot_record (mapping : bytes) (segment_offset data_size absolute_offset : Z)
    : result (option (Z * Z * Z * Z)) :=
  match checked_sub absolute_offset segment_offset with
  | None => Ok None
  | Some offset =>
  match checked_add offset 8 with
  | None => Ok None
  | Some header_end =>
  match get_range mapping offset header_end with
  | None => Ok None
  | Some header =>
  if data_size <? header_end then Ok None else
  key_len ← u32_at header 0;
  value_len ← u32_at header 4;
  let key_start := offset + 8 in
  match checked_add key_start key_len with
  | None => Ok None
  | Some value_start =>
  match checked_add value_start value_len with
  | None => Ok None
  | Some value_end => Ok (Some (offset, key_start, value_start, value_end))
  end end end end end.

(** The probe loop of [lookup_segment]. *)
Fixpoint probe_loop (count : nat) (mapping : bytes) (verify_on_read : bool)
    (segment_offset slots : Z) (key : bytes) (key_hash probe : Z)
    : M SegmentVerifier (option bytes) :=
  match count with
  | O => mret None
  | S count =>
      let slot := Z.land ((key_hash + probe) mod U64) (slots - 1) in
      let slot_offset := BASE_HEADER + slot * segment.SLOT_SIZE in
      _ ← (if verify_on_read
           then verifier.verify_range mapping slot_offset (slot_offset + segment.SLOT_SIZE)
           else mret ());
      stored_fingerprint ← lift (u32_at mapping slot_offset);
      absolute_offset ← lift (u64_at mapping (slot_offset + 4));
      if absolute_offset =? 0 then mret None else
      if stored_fingerprint =? Z.shiftr key_hash 32 then
        data_size ← gets v_data_size;
        found ← lift (slot_record mapping segment_offset data_size absolute_offset);
        match found with
        | None => mret None
        | Some (offset, key_start, value_start, value_end) =>
            _ ← (if verify_on_read then verifier.verify_range mapping offset value_end else mret ());
            if (value_end <=? data_size)
               && bool_decide (get_range mapping key_start value_start = Some key)
            then mret (get_range mapping value_start value_end)
            else probe_loop count mapping verify_on_read segment_offset slots key key_hash (probe + 1)
        end
      else probe_loop count mapping verify_on_read segment_offset slots key key_hash (probe + 1)
  end.

Definition lookup_segment (mapping : bytes) (verification : VerificationMode)
    (segment_offset slots : Z) (key : bytes) (key_hash : Z) : M SegmentVerifier (option bytes) :=
  if slots =? 0 then mret None else
  fully ← gets v_fully_verified;
  let verify_on_read := bool_decide (verification = OnRead) && negb fully in
  probe_loop (Z.to_nat slots) mapping verify_on_read segment_offset slots key key_hash 0.

End View.

(** [BaseView] and [ReadView]; the verifier is the state the operations thread. *)
Section ReadView.
Context `{Crc32c, Xxh3, HashTables}.

Record BaseView := MkBaseView { bv_mapping : bytes; bv_offset : Z; bv_slots : Z }.
Record ReadView := MkReadView {
  rv_base : BaseView;
  rv_overlay : OverlayMap;
  rv_verification : VerificationMode
}.

Definition get (rv : ReadView) (key : bytes) : M SegmentVerifier (option bytes) :=
  let key_hash := xxh3_64 key in
  found ← lift (OverlayMap.get_hashed (rv_overlay rv) key key_hash);
  match found with
  | Some value => mret value
  | None =>
      lookup_segment (bv_mapping (rv_base rv)) (rv_verification rv) (bv_offset (rv_base rv))
        (bv_slots (rv_base rv)) key key_hash
  end.

(** A slice with the address it starts at. *)
Record Slice := MkSlice { slice_addr : Z; slice_bytes : bytes }.

Definition pair_range (mapping key value : Slice) : option (Z * Z) :=
  let mapping_start := slice_addr mapping in
  let mapping_end := mapping_start + blen (slice_bytes mapping) in
  let key_start := slice_addr key in
  let value_end := slice_addr value + blen (slice_bytes value) in
  if (mapping_start <=? key_start) && (key_start <=? value_end) && (value_end <=? mapping_end)
  then Some (key_start - mapping_start, value_end - mapping_start)
  else None.

(** [verify_pair]: the mapping of the view starts at [base_addr]. *)
Definition verify_pair (rv : ReadView) (base_addr : Z) (key value : Slice) : M SegmentVerifier () :=
  if negb (bool_decide (rv_verification rv = OnRead)) then mret () else
  match pair_range (MkSlice base_addr (bv_mapping (rv_base rv))) key value with
  | Some (start, end_) => verifier.verify_range (bv_mapping (rv_base rv)) start end_
  | None => mret ()
  end.

End ReadView.
(** ** Lookups in a written Base *)

Section Lookup.
Context `{Crc32cLaws, Xxh3Laws}.
Implicit Types (entries : list (bytes * bytes)) (index : list (Z * Z)) (v : SegmentVerifier).

(** A mapping that holds the Base of [entries] written at [start], with a
    verifier that belongs to it. *)
Definition base_mapped mapping start slots index entries v : Prop :=
  let data := segment.base_data slots index entries in
  segment.pow2 slots ∧ slots < U64 ∧ 0 ≤ start ∧ start + blen mapping ≤ ISIZE_MAX
  ∧ Forall segment.entry_ok entries ∧ NoDup entries.*1
  ∧ segment.index_ok slots index
      (segment.placed_from (start + BASE_HEADER + slots * segment.SLOT_SIZE) entries)
  ∧ data `prefix_of` mapping ∧ v_data_size v = blen data
  ∧ verifier.verifier_inv mapping v ∧ verifier.all_good mapping v.

Lemma base_mapped_same mapping start slots index entries v v' :
  base_mapped mapping start slots index entries v →
  verifier.verifier_inv mapping v' → verifier.same_segment v v' →
  base_mapped mapping start slots index entries v'.
Proof.
  intros (?&?&?&?&?&?&?&?&Hd&_&Hg) Hinv Hs. pose proof Hs as (E&_&_).
  repeat (split; [done|]). split; [by rewrite E|]. split; [done|]. by eapply verifier.all_good_same.
Qed.

(** The record of a placed key. *)
Lemma placed_split rs entries k o :
  (k, o) ∈ segment.placed_from rs entries →
  ∃ es1 val es2, entries = es1 ++ (k, val) :: es2 ∧ o = rs + blen (segment.encode_entries es1).
Proof.
  revert rs. induction entries as [|[k' v'] entries IH]; intros rs; cbn [segment.placed_from]; [set_solver|].
  rewrite elem_of_cons. intros [[= -> ->]|Hin].
  - exists [], v', entries. split; [done|]. change (blen (segment.encode_entries [])) with 0. lia.
  - destruct (IH _ Hin) as (es1&val&es2&->&->). exists ((k', v') :: es1), val, es2.
    split; [done|]. rewrite segment.encode_entries_cons, blen_app. lia.
Qed.

Lemma placed_elem rs entries k val :
  (k, val) ∈ entries → ∃ o, (k, o) ∈ segment.placed_from rs entries.
Proof.
  revert rs. induction entries as [|[k' v'] entries IH]; intros rs; [set_solver|].
  cbn [segment.placed_from]. intros [[= -> ->]|Hin]%elem_of_cons; [exists rs; set_solver|].
  destruct (IH (rs + blen (segment.encode_entry (k', v'))) Hin) as [o Ho]. exists o. set_solver.
Qed.

(** Where the record of a placed key is in the mapping. *)
Lemma record_bytes mapping start slots index entries v k o :
  base_mapped mapping start slots index entries v →
  (k, o) ∈ segment.placed_from (start + BASE_HEADER + slots * segment.SLOT_SIZE) entries →
  ∃ val off, (k, val) ∈ entries ∧ o = start + off ∧ 0 ≤ off
    ∧ off + 8 + blen k + blen val ≤ v_data_size v
    ∧ get_range mapping off (off + 8) = Some (u32_le (blen k) ++ u32_le (blen val))
    ∧ get_range mapping (off + 8) (off + 8 + blen k) = Some k
    ∧ get_range mapping (off + 8 + blen k) (off + 8 + blen k + blen val) = Some val.
Proof.
  intros (Hp&Hs&Hst&Hb&Hok&_&(Hil&_)&Hpre&Hds&Hinv&_) Hin.
  pose proof (segment.pow2_pos _ Hp).
  destruct (placed_split _ _ _ _ Hin) as (es1&val&es2&Hes&->).
  set (pre := segment.base_header slots (blen entries) ++ segment.encode_slots index
              ++ segment.encode_entries es1).
  remember (blen pre) as off eqn:Hop.
  assert (Hoff : off = BASE_HEADER + slots * segment.SLOT_SIZE + blen (segment.encode_entries es1)).
  { rewrite Hop. unfold pre. rewrite !blen_app, segment.blen_base_header, segment.blen_encode_slots. lia. }
  assert (Hdata : segment.base_data slots index entries
                  = pre ++ segment.encode_entry (k, val) ++ segment.encode_entries es2).
  { unfold segment.base_data, pre. rewrite Hes at 2. unfold segment.encode_entries.
    rewrite fmap_app, fmap_cons, concat_app. cbn [concat]. by rewrite <- !app_assoc. }
  pose proof (blen_nonneg k). pose proof (blen_nonneg val). pose proof (blen_nonneg pre).
  pose proof (blen_nonneg (segment.encode_entries es2)).
  exists val, off. split; [subst; set_solver|]. split; [lia|]. split; [lia|]. split.
  { rewrite Hds, Hdata, !blen_app, segment.blen_encode_entry. cbn [fst snd]. lia. }
  assert (Hr : ∀ a b x, get_range (segment.encode_entry (k, val) ++ segment.encode_entries es2)
              (a - off) (b - off) = Some x → off ≤ a → get_range mapping a b = Some x).
  { intros a b x Hx ?. eapply get_range_prefix; [done|].
    rewrite Hdata, get_range_skip by lia. rewrite <- Hop. exact Hx. }
  unfold segment.encode_entry in Hr. cbn [fst snd] in Hr. split_and!; apply Hr; try lia.
  - rewrite <- !app_assoc, app_assoc, Z.sub_diag. apply get_range_head. len.
  - by seek_field.
  - by seek_field.
Qed.

(** Reading the record a used slot points to. *)
Lemma slot_record_placed mapping start slots index entries v k o :
  base_mapped mapping start slots index entries v →
  (k, o) ∈ segment.placed_from (start + BASE_HEADER + slots * segment.SLOT_SIZE) entries →
  ∃ val off, (k, val) ∈ entries
    ∧ slot_record mapping start (v_data_size v) o
        = Ok (Some (off, off + 8, off + 8 + blen k, off + 8 + blen k + blen val))
    ∧ 0 ≤ off ∧ off + 8 + blen k + blen val ≤ v_data_size v
    ∧ get_range mapping (off + 8) (off + 8 + blen k) = Some k
    ∧ get_range mapping (off + 8 + blen k) (off + 8 + blen k + blen val) = Some val.
Proof.
  intros Hm Hin. destruct (record_bytes _ _ _ _ _ _ _ _ Hm Hin)
    as (val&off&Hkv&->&Ho&Hend&Hhead&Hkey&Hval).
  destruct Hm as (Hp&Hs&Hst&Hb&Hok&_&_&Hpre&Hds&(Hd&_)&_).
  assert (Hfit : segment.entry_ok (k, val)) by (rewrite Forall_forall in Hok; by apply Hok).
  destruct Hfit as [Hk Hv]. cbn [fst snd] in Hk, Hv. unfold segment.MAX_KEY_SIZE, segment.MAX_VALUE_SIZE in *.
  pose proof (blen_nonneg k). pose proof (blen_nonneg val).
  exists val, off. split; [done|]. split; [|split_and!; [lia|lia|done|done]].
  unfold slot_record, checked_sub. replace (start <=? _) with true by lia.
  replace (start + off - start) with off by lia.
  rewrite checked_add_ok by lia. rewrite Hhead. replace (v_data_size v <? off + 8) with false by lia.
  unfold u32_at.
  rewrite (format.u32_at_get _ 0 (blen k)) by (first [by rewrite get_range_head by len | lia]). rstep.
  rewrite (format.u32_at_get _ 4 (blen val)) by (first [by seek_field | lia]). rstep.
  rewrite checked_add_ok by lia. rewrite checked_add_ok by lia. done.
Qed.

(** Reading a slot of the index. *)
Lemma slot_fields_at mapping slots index entries i f o :
  segment.base_data slots index entries `prefix_of` mapping → index !! i = Some (f, o) →
  0 ≤ f < U32 → 0 ≤ o < U64 → blen mapping ≤ ISIZE_MAX →
  let slot_offset := BASE_HEADER + Z.of_nat i * segment.SLOT_SIZE in
  u32_at mapping slot_offset = Ok f ∧ u64_at mapping (slot_offset + 4) = Ok o
  ∧ slot_offset + segment.SLOT_SIZE ≤ blen (segment.base_data slots index entries).
Proof.
  intros Hpre Hi Hf Ho Hb so.
  assert (Hlt : Z.of_nat i < blen index) by (apply lookup_lt_Some in Hi; unfold blen; lia).
  set (pre := segment.base_header slots (blen entries) ++ segment.encode_slots (take i index)).
  assert (Hpl : blen pre = so).
  { unfold pre. rewrite blen_app, segment.blen_base_header, segment.blen_encode_slots, blen_take.
    unfold so. rewrite Z.min_l by lia. lia. }
  assert (Hdata : segment.base_data slots index entries = pre ++ segment.encode_slot (f, o)
            ++ segment.encode_slots (drop (S i) index) ++ segment.encode_entries entries).
  { unfold segment.base_data, pre. rewrite <- (take_drop_middle index i _ Hi) at 1.
    unfold segment.encode_slots. rewrite fmap_app, fmap_cons, concat_app. cbn [concat].
    by rewrite <- !app_assoc. }
  assert (Hr : ∀ a b x, get_range (segment.encode_slot (f, o) ++ segment.encode_slots (drop (S i) index)
               ++ segment.encode_entries entries) (a - so) (b - so) = Some x → so ≤ a →
              get_range mapping a b = Some x).
  { intros a b x Hx ?. eapply get_range_prefix; [done|].
    rewrite Hdata, get_range_skip by lia. rewrite Hpl. exact Hx. }
  unfold segment.encode_slot in Hr. cbn [fst snd] in Hr.
  assert (Hend : so + segment.SLOT_SIZE ≤ blen (segment.base_data slots index entries)).
  { rewrite segment.blen_base_data. pose proof (blen_nonneg (segment.encode_entries entries)).
    unfold so, BASE_HEADER, segment.SLOT_SIZE. lia. }
  assert (blen (segment.base_data slots index entries) ≤ blen mapping)
    by (destruct Hpre as [tl ->]; rewrite blen_app; pose proof (blen_nonneg tl); lia).
  clearbody so. pose proof (blen_nonneg pre). unfold segment.SLOT_SIZE in Hend. split_and!; [| |done].
  - apply format.u32_at_get; [apply Hr; [by seek_field|lia]|lia|lia].
  - apply format.u64_at_get; [apply Hr; [by seek_field|lia]|lia|lia].
Qed.

Lemma slot_fields mapping start slots index entries v i f o :
  base_mapped mapping start slots index entries v → index !! i = Some (f, o) →
  let slot_offset := BASE_HEADER + Z.of_nat i * segment.SLOT_SIZE in
  u32_at mapping slot_offset = Ok f ∧ u64_at mapping (slot_offset + 4) = Ok o
  ∧ slot_offset + segment.SLOT_SIZE ≤ v_data_size v.
Proof.
  intros (Hp&Hs&Hst&Hb&Hok&_&(Hil&Hent&_)&Hpre&Hds&(Hd&_)&_) Hi.
  pose proof (segment.pow2_pos _ Hp). rewrite Hds.
  assert (Hfo : 0 ≤ f < U32 ∧ 0 ≤ o < U64).
  { destruct (Hent _ _ _ Hi) as [[= -> ->]|(k&Hin&->&_)]; [lia|].
    split; [apply segment.fingerprint_range|].
    pose proof (segment.placed_from_bound (start + BASE_HEADER + slots * segment.SLOT_SIZE) entries) as Hlo.
    pose proof (segment.placed_from_upper (start + BASE_HEADER + slots * segment.SLOT_SIZE) entries) as Hup.
    rewrite Forall_forall in Hlo, Hup. specialize (Hlo _ Hin). specialize (Hup _ Hin).
    cbn [snd] in Hlo, Hup.
    pose proof (segment.blen_base_data slots index entries) as Hl. rewrite Hil in Hl.
    assert (0 ≤ BASE_HEADER + slots * segment.SLOT_SIZE) by (unfold BASE_HEADER, segment.SLOT_SIZE; lia).
    lia. }
  destruct Hfo. apply slot_fields_at; try done. lia.
Qed.

(** [verify_on_read] or not: the check of a range inside the data succeeds. *)
Lemma maybe_verify mapping start slots index entries v (c : bool) a b :
  base_mapped mapping start slots index entries v → 0 ≤ a ≤ b → b ≤ v_data_size v →
  ∃ v', (if c then verifier.verify_range mapping a b else mret ()) v = (Ok (), v')
    ∧ base_mapped mapping start slots index entries v'.
Proof.
  intros Hm Ha Hb. destruct c; [|by exists v].
  pose proof Hm as (_&_&_&_&_&_&_&_&_&Hinv&Hg).
  destruct (verifier.verify_range_good mapping v a b Hinv Hg Ha Hb) as (v'&Hr&Hinv'&Hs).
  exists v'. split; [done|]. by eapply base_mapped_same.
Qed.

(** The slot of the [p]-th probe. *)
Lemma probe_slot slots h p :
  segment.pow2 slots → slots < U64 → 0 ≤ h → 0 ≤ p →
  Z.land ((h + p) mod U64) (slots - 1) = Z.of_nat (segment.slot_at slots h p).
Proof.
  intros Hp Hs Hh Hp0. rewrite (segment.land_mask _ _ Hp). pose proof (segment.pow2_pos _ Hp).
  destruct Hp as (bits&Hb&->). unfold segment.slot_at.
  rewrite Z2Nat.id by (apply Z.mod_pos_bound; lia).
  assert (bits ≤ 64) by (apply (Z.pow_le_mono_r_iff 2); [lia..|]; change (2 ^ 64) with U64; lia).
  change U64 with (2 ^ 64). replace 64 with (bits + (64 - bits)) by lia.
  rewrite Z.pow_add_r by lia. rewrite Z.rem_mul_r by lia.
  rewrite Z.mul_comm, Z_mod_plus_full. by rewrite Z.mod_mod by lia.
Qed.

Lemma placed_inj (placed : list (bytes * Z)) k k' o :
  NoDup placed.*2 → (k, o) ∈ placed → (k', o) ∈ placed → k = k'.
Proof.
  induction placed as [|[k0 o0] placed IH]; [set_solver|]. csimpl. intros [Hn Hnd]%NoDup_cons.
  assert (Hf : ∀ x, (x, o0) ∉ placed)
    by (intros x Hx; apply Hn, list_elem_of_fmap; by exists (x, o0)).
  intros [Ha|Ha]%elem_of_cons [Hb|Hb]%elem_of_cons; simplify_eq; auto; by edestruct Hf.
Qed.

(** No slot before probe [p] holds the record of [key]. *)
Definition passed slots index (placed : list (bytes * Z)) (key : bytes) (p : Z) : Prop :=
  ∀ d, 0 ≤ d < p → ∀ o, (key, o) ∈ placed →
    index !! segment.slot_at slots (xxh3_64 key) d ≠ Some (segment.fingerprint key, o).

Lemma passed_absent mapping start slots index entries v key p :
  base_mapped mapping start slots index entries v →
  passed slots index (segment.placed_from (start + BASE_HEADER + slots * segment.SLOT_SIZE) entries) key p →
  p = slots ∨ (0 ≤ p < slots ∧ ∃ f, index !! segment.slot_at slots (xxh3_64 key) p = Some (f, 0)) →
  KeyMap.get entries key = None.
Proof.
  intros (Hp&_&_&_&_&Hnd&(Hil&_&Hpl&Hperm)&_) Hpass Hend.
  rewrite KeyMap.get_list_to_map by done. destruct (list_to_map entries !! key) as [val|] eqn:E; [|done].
  apply elem_of_list_to_map_2 in E.
  destruct (placed_elem (start + BASE_HEADER + slots * segment.SLOT_SIZE) entries key val E) as [o Ho].
  destruct (Hpl key o Ho) as (d&Hd&Hi&Hused). exfalso.
  destruct (decide (d < p)) as [Hlt|Hge]; [by apply (Hpass d ltac:(lia) o Ho)|].
  destruct Hend as [->|(Hpr&f&Hf)]; [lia|].
  destruct (decide (p = d)) as [->|Hne].
  - assert (o = 0) as -> by congruence.
    assert (Hz : 0 ∈ filter (λ o, o ≠ 0) index.*2)
      by (rewrite Hperm; apply list_elem_of_fmap; by exists (key, 0)).
    by apply list_elem_of_filter in Hz as [? _].
  - apply (segment.used_not_free index (segment.slot_at slots (xxh3_64 key) p)); [apply Hused; lia|].
    by exists f.
Qed.

Lemma passed_step slots index placed key p f o :
  passed slots index placed key p → 0 ≤ p →
  index !! segment.slot_at slots (xxh3_64 key) p = Some (f, o) →
  (f = segment.fingerprint key → (key, o) ∉ placed) →
  passed slots index placed key (p + 1).
Proof.
  intros Hpass Hp Hi Hn d Hd o' Ho'. destruct (decide (d = p)) as [->|]; [|apply Hpass; [lia|done]].
  rewrite Hi. intros [= -> ->]. by apply Hn.
Qed.

Lemma probe_loop_spec count mapping vor start slots index entries key p v :
  base_mapped mapping start slots index entries v → 0 ≤ p → p + Z.of_nat count = slots →
  passed slots index (segment.placed_from (start + BASE_HEADER + slots * segment.SLOT_SIZE) entries) key p →
  ∃ v', probe_loop count mapping vor start slots key (xxh3_64 key) p v = (Ok (KeyMap.get entries key), v')
    ∧ base_mapped mapping start slots index entries v'.
Proof.
  revert p v. induction count as [|count IH]; intros p v Hm Hp0 Hc Hpass.
  { exists v. split; [|done]. cbn [probe_loop]. rewrite (passed_absent _ _ _ _ _ _ _ _ Hm Hpass); [done|].
    left. lia. }
  pose proof Hm as (Hp&Hs64&_&_&_&Hnd&(Hil&Hent&_)&_). pose proof (segment.pow2_pos _ Hp).
  pose proof (xxh3_64_range key). cbn [probe_loop]. rewrite (probe_slot slots _ _ Hp) by lia.
  set (i := segment.slot_at slots (xxh3_64 key) p).
  assert (Hi : is_Some (index !! i)).
  { apply lookup_lt_is_Some_2. pose proof (segment.slot_at_bound slots (xxh3_64 key) p).
    unfold blen in Hil. unfold i. lia. }
  destruct Hi as [[f o] Hi]. destruct (slot_fields _ _ _ _ _ _ _ _ _ Hm Hi) as (Hf&Ho&Hso).
  destruct (maybe_verify _ _ _ _ _ _ vor (BASE_HEADER + Z.of_nat i * segment.SLOT_SIZE)
    (BASE_HEADER + Z.of_nat i * segment.SLOT_SIZE + segment.SLOT_SIZE) Hm) as (v1&Hv1&Hm1);
    [unfold BASE_HEADER, segment.SLOT_SIZE; lia|done|]. mrun Hv1.
  rewrite Hf, M_lift_ok, Ho, M_lift_ok.
  destruct (o =? 0) eqn:Eo; bool_prop.
  { subst o. exists v1. split; [|done]. rewrite (passed_absent _ _ _ _ _ _ _ _ Hm Hpass); [done|].
    right. split; [lia|]. by exists f. }
  fold (segment.fingerprint key).
  destruct (f =? segment.fingerprint key) eqn:Ef; bool_prop.
  2: { apply (IH (p + 1) v1); [done|lia|lia|]. eapply passed_step; [done|done|exact Hi|done]. }
  destruct (Hent _ _ _ Hi) as [[= -> ->]|(k'&Hin&_&_)]; [done|].
  rewrite (M_bind_ok (gets v_data_size) _ v1 _ v1 eq_refl).
  destruct (slot_record_placed _ _ _ _ _ _ _ _ Hm1 Hin) as (val&off&Hkv&->&Hoff&Hend&Hgk&Hgv).
  rewrite M_lift_ok. pose proof (blen_nonneg k'). pose proof (blen_nonneg val).
  destruct (maybe_verify _ _ _ _ _ _ vor off (off + 8 + blen k' + blen val) Hm1) as (v2&Hv2&Hm2);
    [lia|lia|]. mrun Hv2. rewrite Hgk, Hgv.
  replace (_ <=? v_data_size v1) with true by lia. cbn [andb].
  case_bool_decide as Ek.
  - injection Ek as ->. exists v2. split; [|done]. rewrite KeyMap.get_list_to_map by done.
    by rewrite (elem_of_list_to_map_1 entries key val Hnd Hkv).
  - apply (IH (p + 1) v2); [done|lia|lia|]. eapply passed_step; [done|done|exact Hi|].
    intros _ Hin'. apply Ek. f_equal.
    assert (Hnd2 := segment.placed_from_NoDup (start + BASE_HEADER + slots * segment.SLOT_SIZE) entries).
    eapply (placed_inj _ _ _ _ Hnd2 Hin Hin').
Qed.

Lemma lookup_segment_spec mapping mode start slots index entries key v :
  base_mapped mapping start slots index entries v →
  ∃ v', lookup_segment mapping mode start slots key (xxh3_64 key) v = (Ok (KeyMap.get entries key), v')
    ∧ base_mapped mapping start slots index entries v'.
Proof.
  intros Hm. pose proof Hm as (Hp&_). pose proof (segment.pow2_pos _ Hp). unfold lookup_segment.
  replace (slots =? 0) with false by lia.
  rewrite (M_bind_ok (gets v_fully_verified) _ v _ v eq_refl).
  apply probe_loop_spec; [done|lia|lia|]. intros d ?. lia.
Qed.

End Lookup.

(** A freshly opened Base is mapped. *)
Lemma base_mapped_new `{Crc32cLaws, Xxh3Laws} start slots index entries fully :
  let data := segment.base_data slots index entries in
  segment.pow2 slots → slots < U64 → 0 ≤ start →
  start + blen (segment.segment_bytes data) ≤ ISIZE_MAX →
  Forall segment.entry_ok entries → NoDup entries.*1 →
  segment.index_ok slots index
    (segment.placed_from (start + BASE_HEADER + slots * segment.SLOT_SIZE) entries) →
  base_mapped (segment.segment_bytes data) start slots index entries
    (verifier.new start (segment.MkLayout data (segment.block_table data)) fully).
Proof.
  intros data Hp Hs Hst Hb Hok Hnd Hi.
  assert (Hlay : verifier.layout_of (segment.segment_bytes data)
                   (segment.MkLayout data (segment.block_table data))).
  { split_and!; [by exists (segment.base_footer data)|lia|].
    cbn [segment.layout_data segment.layout_checksums]. by rewrite segment.blen_block_table. }
  assert (Hv : segment.verify_segment_blocks (segment.MkLayout data (segment.block_table data)) start = Ok ())
    by (apply segment.verify_segment_blocks_encode; lia).
  repeat (split; [done|]). split; [by exists (segment.base_metadata data)|]. split; [done|].
  split; [by apply verifier.new_inv|]. intros b Hbb. by apply verifier.new_block_good.
Qed.

(** ** Lookups in untrusted mappings *)

Section Untrusted.
Context `{Crc32cLaws, Xxh3}.
Implicit Types (v : SegmentVerifier) (mapping : bytes).

(** Bytes of the mapping whose blocks have all been checked. *)
Definition checked_bytes mapping v (bs : bytes) : Prop :=
  ∃ a b, 0 ≤ a ≤ b ∧ b ≤ v_data_size v ∧ get_range mapping a b = Some bs
    ∧ ∀ blk, 0 ≤ blk < verifier.nblocks v → verifier.touches a b blk → verifier.block_good mapping v blk.

(** What one optional check leaves behind. *)
Lemma maybe_verify_any mapping v (c : bool) a b :
  verifier.verifier_inv mapping v → 0 ≤ a →
  ∃ r v', (if c then verifier.verify_range mapping a b else mret ()) v = (r, v')
    ∧ verifier.verifier_inv mapping v' ∧ verifier.same_segment v v' ∧ r ≠ Panic
    ∧ (r = Ok () → c = true → a < b →
       ∀ blk, 0 ≤ blk < verifier.nblocks v → verifier.touches a b blk → verifier.block_good mapping v blk).
Proof.
  intros Hinv Ha. destruct c; [|by exists (Ok ()), v].
  destruct (verifier.verify_range_spec mapping v a b Hinv Ha) as (r&v'&Hr&Hinv'&Hs&Ho).
  exists r, v'. split_and!; [done|done|apply Hs..| |].
  - by intros ->.
  - intros -> _ Hlt blk Hb Ht. destruct Ho as [_ Hg]. by apply Hg.
Qed.

Lemma slot_record_inv mapping start ds o r :
  slot_record mapping start ds o = Ok r → 0 ≤ ds ≤ ISIZE_MAX →
  match r with
  | None => True
  | Some (off, ks, vs, ve) => 0 ≤ off ∧ ks = off + 8 ∧ ks ≤ vs ∧ vs ≤ ve
  end.
Proof.
  unfold slot_record. intros Hr Hds. destruct (checked_sub o start) as [off|] eqn:E1; [|by injection Hr as <-].
  apply checked_sub_Some in E1 as [-> Hle].
  destruct (checked_add _ 8) as [he|]; [|by injection Hr as <-].
  destruct (get_range mapping _ he) as [h|] eqn:Hh; [|by injection Hr as <-].
  apply get_range_Some in Hh as (Hh&_). destruct (ds <? he); [by injection Hr as <-|].
  apply bind_Ok in Hr as (kl&[Hkl _]%format.u32_at_Ok&Hr); [|lia].
  apply bind_Ok in Hr as (vl&[Hvl _]%format.u32_at_Ok&Hr); [|lia].
  destruct (checked_add _ kl) as [vs|] eqn:E2; [|by injection Hr as <-].
  destruct (checked_add vs vl) as [ve|] eqn:E3; [|by injection Hr as <-].
  apply checked_add_Some in E2 as [-> _], E3 as [-> _]. injection Hr as <-. lia.
Qed.

Lemma slot_record_no_panic mapping start ds o : no_panic (slot_record mapping start ds o).
Proof.
  unfold slot_record. repeat (match goal with |- no_panic (match ?x with _ => _ end) =>
    destruct x eqn:?; [|done] end).
  destruct (ds <? _); [done|].
  match goal with E : get_range _ _ _ = Some _ |- _ => apply get_range_Some in E as (_&_&Hl&_) end.
  match goal with E : checked_add _ 8 = Some _ |- _ => apply checked_add_Some in E as [-> _] end.
  apply bind_no_panic; [apply format.u32_at_no_panic; lia|]. intros kl _.
  apply bind_no_panic; [apply format.u32_at_no_panic; lia|]. intros vl _.
  repeat no_panic_step.
Qed.

(** A probe of any index that fits in the data ends, and what it returns lies in
    checked blocks when blocks are checked on the way. *)
Lemma probe_loop_safe count mapping vor start slots key h p v :
  verifier.verifier_inv mapping v → segment.pow2 slots →
  BASE_HEADER + slots * segment.SLOT_SIZE ≤ v_data_size v →
  ∃ r v', probe_loop count mapping vor start slots key h p v = (r, v')
    ∧ verifier.verifier_inv mapping v' ∧ verifier.same_segment v v' ∧ r ≠ Panic
    ∧ (∀ val, r = Ok (Some val) → vor = true → checked_bytes mapping v val).
Proof.
  intros Hinv Hpow. pose proof (segment.pow2_pos _ Hpow) as Hpos. revert p v Hinv.
  induction count as [|count IH]; intros p v Hinv Hds; [by exists (Ok None), v|].
  pose proof Hinv as (Hd&Hmb&_). unfold BASE_HEADER, segment.SLOT_SIZE in Hds.
  assert (Hslot : 0 ≤ Z.land ((h + p) mod U64) (slots - 1) < slots).
  { rewrite (segment.land_mask _ _ Hpow). by apply Z.mod_pos_bound. }
  cbn [probe_loop]. set (slot := Z.land _ _) in *. set (so := BASE_HEADER + slot * segment.SLOT_SIZE).
  assert (Hso : 0 ≤ so ∧ so + 12 ≤ v_data_size v) by (unfold so, BASE_HEADER, segment.SLOT_SIZE; lia).
  destruct (maybe_verify_any mapping v vor so (so + segment.SLOT_SIZE) Hinv ltac:(lia))
    as (r1&v1&Hr1&Hinv1&Hs1&Hnp1&_).
  pose proof Hs1 as (Ed1&Ec1&_).
  destruct r1 as [[]|e|]; [|exists (Err e), v1; rewrite (M_bind_err _ _ _ _ _ Hr1); done|done].
  mrun Hr1. unfold u32_at, u64_at.
  destruct (format.u32_at_in_bounds mapping so) as (f&->&_); [lia..|].
  destruct (format.u64_at_in_bounds mapping (so + 4)) as (o&->&_); [lia..|]. rewrite !M_lift_ok.
  destruct (o =? 0); [by exists (Ok None), v1|].
  (* the rest of the loop, from a state of the same segment *)
  assert (Hrest : ∀ v2, verifier.verifier_inv mapping v2 → verifier.same_segment v v2 →
    ∃ r v', probe_loop count mapping vor start slots key h (p + 1) v2 = (r, v')
      ∧ verifier.verifier_inv mapping v' ∧ verifier.same_segment v v' ∧ r ≠ Panic
      ∧ (∀ val, r = Ok (Some val) → vor = true → checked_bytes mapping v val)).
  { intros v2 Hinv2 Hs2. pose proof Hs2 as (E1&E2&E3).
    destruct (IH (p + 1) v2 Hinv2) as (r&v'&Hr&Hinv'&(F1&F2&F3)&Hnp&Hval);
      [rewrite E1; unfold BASE_HEADER, segment.SLOT_SIZE; lia|].
    exists r, v'. do 2 (split; [done|]). split; [split_and!; congruence|]. split; [done|]. intros val Hv Hvor.
    destruct (Hval val Hv Hvor) as (a&b&?&?&?&Hg). exists a, b. rewrite <- E1. split_and!; [lia..|done|].
    intros blk Hblk Ht. apply (verifier.block_good_same mapping v v2 blk Hs2). apply Hg; [|done].
    unfold verifier.nblocks in *. by rewrite E2. }
  destruct (f =? Z.shiftr h 32); [|by apply Hrest].
  rewrite (M_bind_ok (gets v_data_size) _ v1 _ v1 eq_refl).
  destruct (slot_record mapping start (v_data_size v1) o) as [sr|e|] eqn:Hsr;
    [|by exists (Err e), v1|by apply slot_record_no_panic in Hsr].
  rewrite M_lift_ok. apply slot_record_inv in Hsr; [|lia].
  destruct sr as [[[[off ks] vs] ve]|]; [|by exists (Ok None), v1]. destruct Hsr as (Hoff&->&Hvs&Hve).
  destruct (maybe_verify_any mapping v1 vor off ve Hinv1 Hoff) as (r2&v2&Hr2&Hinv2&Hs2&Hnp2&Hgood).
  assert (Hs02 : verifier.same_segment v v2)
    by (destruct Hs1 as (?&?&?), Hs2 as (?&?&?); split_and!; congruence).
  destruct r2 as [[]|e|]; [|exists (Err e), v2; rewrite (M_bind_err _ _ _ _ _ Hr2); done|done].
  mrun Hr2. destruct ((ve <=? v_data_size v1) && _) eqn:Ehit; [|by apply Hrest].
  apply andb_true_iff in Ehit as [Hvd%Z.leb_le _].
  exists (Ok (get_range mapping vs ve)), v2. split_and!; [done|done|apply Hs02..|done|].
  intros val [= Hv] Hvor. exists vs, ve. split_and!; [lia|lia|lia|done|].
  intros blk Hblk [Ht1 Ht2]. apply (verifier.block_good_same mapping v v1 blk Hs1).
  apply Hgood; [done|done|lia|unfold verifier.nblocks in *; by rewrite Ec1|]. split; lia.
Qed.

Lemma lookup_segment_safe mapping mode start slots key h v :
  verifier.verifier_inv mapping v → slots = 0 ∨ segment.pow2 slots →
  BASE_HEADER + slots * segment.SLOT_SIZE ≤ v_data_size v →
  ∃ r v', lookup_segment mapping mode start slots key h v = (r, v')
    ∧ verifier.verifier_inv mapping v' ∧ verifier.same_segment v v' ∧ r ≠ Panic
    ∧ (∀ val, r = Ok (Some val) → mode = OnRead → v_fully_verified v = false →
         checked_bytes mapping v val).
Proof.
  intros Hinv Hs Hds. unfold lookup_segment. destruct (slots =? 0) eqn:E; bool_prop; [by exists (Ok None), v; split_and!|].
  destruct Hs as [?|Hpow]; [done|].
  rewrite (M_bind_ok (gets v_fully_verified) _ v _ v eq_refl).
  destruct (probe_loop_safe (Z.to_nat slots) mapping (bool_decide (mode = OnRead) && negb (v_fully_verified v))
    start slots key h 0 v Hinv Hpow Hds) as (r&v'&Hr&Hinv'&Hs&Hnp&Hval).
  exists r, v'. split_and!; [done|done|apply Hs..|done|]. intros val Hv -> Hf. apply Hval; [done|]. by rewrite Hf.
Qed.

End Untrusted.

(** ** Properties *)

Section Properties.
Context `{Crc32cLaws, Xxh3Laws}.

(** C31: lazy verification is sound and exact. Starting from a consistent
    verifier, [verify_range] keeps the bitmap and the counters consistent, never
    panics, and accepts a range only if every block the range touches has the
    checksum of the table; it reports a block as corrupted only if it is. *)
Theorem verify_range_exact mapping v start end_ :
  verifier.verifier_inv mapping v → 0 ≤ start →
  ∃ r v', verifier.verify_range mapping start end_ v = (r, v')
    ∧ verifier.verifier_inv mapping v'
    ∧ match r with
      | Ok _ => ∀ b, 0 ≤ b < verifier.nblocks v → start < end_ → verifier.touches start end_ b →
                  verifier.block_good mapping v b
      | Err e => end_ < start ∨ v_data_size v < end_
          ∨ ∃ b, verifier.touches start end_ b ∧ ¬ verifier.block_good mapping v b
                 ∧ e = error.corrupted_block (v_offset v) b
      | Panic => False
      end.
Proof.
  intros Hinv Hs.
  destruct (verifier.verify_range_spec mapping v start end_ Hinv Hs) as (r&v'&Hr&Hinv'&_&Ho).
  exists r, v'. split; [done|]. split; [done|]. destruct r as [[]|e|]; [|tauto|done].
  destruct Ho as [_ Hg]. exact Hg.
Qed.

(** C19: a lookup finds exactly what was written. In the segment written for a
    list of entries with distinct keys, and in either verification mode, looking a
    key up returns the value of its entry, or nothing when there is none; hash
    collisions, fingerprint collisions and the order of insertion do not matter. *)
Theorem lookup_finds_entries start slots index entries fully mode key :
  let data := segment.base_data slots index entries in
  segment.pow2 slots → slots < U64 → 0 ≤ start →
  start + blen (segment.segment_bytes data) ≤ ISIZE_MAX →
  Forall segment.entry_ok entries → NoDup entries.*1 →
  segment.fold_index slots
    (segment.placed_from (start + BASE_HEADER + slots * segment.SLOT_SIZE) entries)
    (replicate (Z.to_nat slots) (0, 0)) = Ok index →
  blen entries ≤ slots →
  ∃ v', lookup_segment (segment.segment_bytes data) mode start slots key (xxh3_64 key)
          (verifier.new start (segment.MkLayout data (segment.block_table data)) fully)
        = (Ok (KeyMap.get entries key), v').
Proof.
  intros data Hp Hs Hst Hb Hok Hnd Hfold Hcap.
  pose proof (segment.fold_index_ok start slots entries index Hp Hst Hcap Hfold) as Hi.
  destruct (lookup_segment_spec (segment.segment_bytes data) mode start slots index entries key
    (verifier.new start (segment.MkLayout data (segment.block_table data)) fully)) as (v'&Hv&_).
  - by apply base_mapped_new.
  - by exists v'.
Qed.

(** C30: on any mapping, however corrupted, whose header fits, a lookup neither
    panics nor loops, and in [OnRead] mode a value it returns lies inside the data
    and in blocks whose checksums have been checked. *)
Theorem lookup_returns_checked_bytes mapping mode start slots key h v :
  verifier.verifier_inv mapping v → slots = 0 ∨ segment.pow2 slots →
  BASE_HEADER + slots * segment.SLOT_SIZE ≤ v_data_size v →
  ∃ r v', lookup_segment mapping mode start slots key h v = (r, v')
    ∧ verifier.verifier_inv mapping v' ∧ r ≠ Panic
    ∧ (∀ val, r = Ok (Some val) → mode = OnRead → v_fully_verified v = false →
         checked_bytes mapping v val).
Proof.
  intros Hinv Hs Hd.
  destruct (lookup_segment_safe mapping mode start slots key h v Hinv Hs Hd) as (r&v'&Hr&Hinv'&_&Ho).
  by exists r, v'.
Qed.

End Properties.

Section HiddenKey.
Context `{Crc32cLaws, Xxh3Laws, Alloc}.

(** Two slots, the only record entered in the one that is not the home of its key. *)
Definition hidden_index (key : bytes) : list (Z * Z) :=
  let entry := (segment.fingerprint key, 8192 + BASE_HEADER + 2 * segment.SLOT_SIZE) in
  if xxh3_64 key mod 2 =? 0 then [(0, 0); entry] else [entry; (0, 0)].

Lemma hidden_index_blen key : blen (hidden_index key) = 2.
Proof. unfold hidden_index. by case_match. Qed.

Lemma hidden_index_lists key value :
  segment.index_lists 2 (hidden_index key)
    (segment.placed_from (8192 + BASE_HEADER + 2 * segment.SLOT_SIZE) [(key, value)]).
Proof.
  split; [apply hidden_index_blen|]. cbn [segment.placed_from fst].
  unfold hidden_index. split.
  - intros i f o Hi. case_match; destruct i as [|[|i]]; cbn in Hi; simplify_eq; auto;
      right; exists key; (split; [by left|done]).
  - by case_match.
Qed.

Lemma hidden_home key : hidden_index key !! Z.to_nat (xxh3_64 key mod 2) = Some (0, 0).
Proof.
  unfold hidden_index. pose proof (Z.mod_pos_bound (xxh3_64 key) 2 ltac:(lia)).
  case_match eqn:E; bool_prop; [by rewrite E|]. by replace (_ mod 2) with 1 by lia.
Qed.

Lemma hidden_probe mapping key value v count :
  segment.base_data 2 (hidden_index key) [(key, value)] `prefix_of` mapping →
  blen mapping ≤ ISIZE_MAX →
  probe_loop (S count) mapping false 8192 2 key (xxh3_64 key) 0 v = (Ok None, v).
Proof.
  intros Hpre Hb. pose proof (xxh3_64_range key) as Hh. cbn [probe_loop].
  rewrite Z.add_0_r, (Z.mod_small _ _ Hh), (segment.land_mask 2) by (by exists 1).
  pose proof (Z.mod_pos_bound (xxh3_64 key) 2 ltac:(lia)).
  destruct (slot_fields_at mapping 2 _ _ _ 0 0 Hpre (hidden_home key)) as (F1&F2&_); [lia..|].
  rewrite Z2Nat.id in F1, F2 by lia.
  rewrite (M_bind_ok (mret ()) _ v () v eq_refl), F1, M_lift_ok, F2, M_lift_ok. done.
Qed.

(** C37: what a full verification does not check. [validate_base] checks that
    every record is in the index once, with the right fingerprint, but not that it
    can be reached from the hash of its key: for any entry there is a Base that
    holds it, passes the header check and the full check, and in which looking the
    key up finds nothing. *)
Theorem validated_base_hides_key key value :
  segment.entry_ok (key, value) → (∀ n, try_reserve n = true) →
  let data := segment.base_data 2 (hidden_index key) [(key, value)] in
  segment.validate_base data 8192 2 1 = Ok ()
  ∧ segment.read_base_header data = Ok (2, 1)
  ∧ ∀ mode, ∃ v', lookup_segment (segment.segment_bytes data) mode 8192 2 key (xxh3_64 key)
      (verifier.new 8192 (segment.MkLayout data (segment.block_table data)) true) = (Ok None, v').
Proof.
  intros Hok Ha data.
  assert (Hd : blen data = 56 + blen key + blen value).
  { unfold data. rewrite segment.blen_base_data, hidden_index_blen, segment.encode_entries_cons, blen_app,
      segment.blen_encode_entry. cbn [fst snd]. change (blen (segment.encode_entries [])) with 0.
    unfold BASE_HEADER, segment.SLOT_SIZE. lia. }
  destruct Hok as [Hk Hv]. unfold segment.MAX_KEY_SIZE, segment.MAX_VALUE_SIZE in *. cbn [fst snd] in *.
  split_and!.
  - change 1 with (blen [(key, value)]). apply segment.validate_base_listed; try done; try lia.
    + constructor; [done|constructor].
    + repeat constructor. set_solver.
    + apply hidden_index_lists.
    + fold data. lia.
  - change 1 with (blen [(key, value)]). apply segment.read_base_header_encode; try done; try lia.
    + right. by exists 1.
    + apply hidden_index_blen.
    + fold data. lia.
  - intros mode. set (v := verifier.new _ _ _). exists v. unfold lookup_segment. cbn [Z.eqb].
    rewrite (M_bind_ok (gets v_fully_verified) _ v true v eq_refl).
    rewrite andb_false_r. change (Z.to_nat 2) with 2%nat. apply (hidden_probe _ key value).
    + by eexists.
    + fold data. rewrite segment.blen_segment_bytes, Hd. 
      unfold segment.CHECKSUM_BLOCK_SIZE, segment.CHECKSUM_FOOTER_SIZE, div_ceil in *.
      pose proof (blen_nonneg key). pose proof (blen_nonneg value). destruct (_ =? 0); dmlia.
Qed.

End HiddenKey.

(** *** Concrete Bases *)

Import RefInstances.

Definition demo_entries : list (bytes * bytes) := segment.demo_entries.
Definition demo_rs : Z := 8192 + 24 + 4 * 12.
(** [a] and [aa] share their slot; [aa] is displaced. *)
Definition demo_index : list (Z * Z) :=
  [(0, 0); (1, demo_rs); (1, demo_rs + 11); (2, demo_rs + 20)].
Definition demo_data : bytes := segment.base_data 4 demo_index demo_entries.
Definition demo_layout : segment.SegmentLayout := segment.MkLayout demo_data (segment.block_table demo_data).
Definition demo_verifier : SegmentVerifier := verifier.new 8192 demo_layout false.

Lemma demo_pow2 : segment.pow2 4.
Proof. exists 2. done. Qed.

Lemma demo_entries_ok : Forall segment.entry_ok demo_entries ∧ NoDup demo_entries.*1.
Proof.
  split; [repeat constructor; vm_compute; discriminate|repeat constructor; set_solver].
Qed.

Lemma demo_fold :
  segment.fold_index 4 (segment.placed_from demo_rs demo_entries) (replicate 4 (0, 0)) = Ok demo_index.
Proof. vm_compute. reflexivity. Qed.

Lemma lookup_finds_entries_witness :
  ∃ v', lookup_segment (segment.segment_bytes demo_data) OnRead 8192 4 [Byte.x61; Byte.x61]
          (ref_xxh3 [Byte.x61; Byte.x61]) demo_verifier = (Ok (Some [Byte.x03]), v').
Proof.
  destruct (lookup_finds_entries 8192 4 demo_index demo_entries false OnRead [Byte.x61; Byte.x61])
    as (v'&Hv).
  - exact demo_pow2.
  - lia.
  - lia.
  - vm_compute. discriminate.
  - exact (proj1 demo_entries_ok).
  - exact (proj2 demo_entries_ok).
  - exact demo_fold.
  - vm_compute. discriminate.
  - exists v'. exact Hv.
Defined.

Lemma demo_inv : verifier.verifier_inv (segment.segment_bytes demo_data) demo_verifier.
Proof.
  apply verifier.new_inv; [|done]. split_and!; [by exists (segment.base_footer demo_data)| |].
  - vm_compute. discriminate.
  - vm_compute. reflexivity.
Qed.

Lemma verify_range_exact_witness :
  ∃ r v', verifier.verify_range (segment.segment_bytes demo_data) 24 72 demo_verifier = (r, v')
    ∧ verifier.verifier_inv (segment.segment_bytes demo_data) v' ∧ r ≠ Panic.
Proof.
  destruct (verify_range_exact (segment.segment_bytes demo_data) demo_verifier 24 72 demo_inv)
    as (r&v'&Hr&Hinv&Ho); [lia|].
  exists r, v'. split; [exact Hr|]. split; [exact Hinv|]. intros E. rewrite E in Ho. exact Ho.
Defined.

Lemma lookup_returns_checked_bytes_witness :
  ∃ r v', lookup_segment (segment.segment_bytes demo_data) OnRead 8192 4 [Byte.x62]
            (ref_xxh3 [Byte.x62]) demo_verifier = (r, v') ∧ r ≠ Panic.
Proof.
  destruct (lookup_returns_checked_bytes (segment.segment_bytes demo_data) OnRead 8192 4 [Byte.x62]
    (ref_xxh3 [Byte.x62]) demo_verifier demo_inv (or_intror demo_pow2)) as (r&v'&Hr&_&Hnp&_).
  - vm_compute. discriminate.
  - exists r, v'. split; [exact Hr|exact Hnp].
Defined.

Lemma validated_base_hides_key_witness :
  segment.validate_base (segment.base_data 2 (hidden_index [Byte.x61]) [([Byte.x61], [Byte.x07])])
    8192 2 1 = Ok ().
Proof.
  apply (validated_base_hides_key [Byte.x61] [Byte.x07]); [split; vm_compute; discriminate|done].
Defined.

End view.
