(* ===== verification/Base.v ===== *)
(** * The active Base

    [ActiveBase] of [database/state.rs]: the installed immutable generation, with
    its mapping, the verifier of its blocks and the fields of the root that
    describe it; how it is opened from an untrusted mapping, installed after it
    was written, and verified in full. The verifier has interior mutability in the
    source; here it is a field that the operations update. *)

From S2P Require Import Prelude Errors Crates Io Superblock Values Log Segment Overlay View.

Record ActiveBase := MkBase {
  ab_mapping : BaseBytes;
  ab_verifier : SegmentVerifier;
  ab_offset : Z;
  ab_checksum : Z;
  ab_slots : Z;
  ab_len : Z;
  ab_generation : Z;
  ab_log_start : Z
}.

Module active_base.
Section ActiveBase.
Context `{Crc32c, Xxh3, Alloc}.

Definition new (mapping : BaseBytes) (v : SegmentVerifier) (sb : Superblock) (slots len : Z)
    : ActiveBase :=
  MkBase mapping v (base_offset sb) (base_checksum sb) slots len (generation sb) (log_start sb).

Definition open (mapping : BaseBytes) (sb : Superblock) (verification : VerificationMode)
    : result ActiveBase :=
  bs ← BaseBytes.deref mapping;
  layout ← segment.segment_layout bs;
  checksum ← segment.segment_metadata_checksum bs;
  _ ← fail_if (negb (checksum =? base_checksum sb))
        (error.from_io InvalidData "base checksum metadata mismatch");
  _ ← (if bool_decide (verification = Full)
       then segment.verify_segment_blocks layout (base_offset sb) else Ok ());
  let v := verifier.new (base_offset sb) layout (bool_decide (verification = Full)) in
  '(slots, len) ← segment.read_base_header (segment.layout_data layout);
  _ ← fail_if (negb (slots =? base_slots sb) || negb (len =? base_len sb))
        (error.from_io InvalidData "superblock and base header disagree");
  _ ← match verification with
      | Full => segment.validate_base (segment.layout_data layout) (base_offset sb) slots len
      | OnRead => Ok ()
      end;
  Ok (new mapping v sb slots len).

Definition install (mapping : BaseBytes) (sb : Superblock) : result ActiveBase :=
  bs ← BaseBytes.deref mapping;
  layout ← segment.segment_layout bs;
  '(slots, len) ← segment.read_base_header (segment.layout_data layout);
  _ ← fail_if (negb (slots =? base_slots sb) || negb (len =? base_len sb))
        (error.from_io InvalidData "installed superblock and base header disagree");
  let v := verifier.new (base_offset sb) layout true in
  Ok (new mapping v sb slots len).

(** Runs an operation of the verifier. *)
Definition with_verifier {A} (m : M SegmentVerifier A) : M ActiveBase A :=
  zoom ab_verifier (λ v b, MkBase (ab_mapping b) v (ab_offset b) (ab_checksum b) (ab_slots b)
                             (ab_len b) (ab_generation b) (ab_log_start b)) m.

Definition verify : M ActiveBase () :=
  b ← gets (λ b : ActiveBase, b);
  bs ← lift (BaseBytes.deref (ab_mapping b));
  layout ← lift (segment.segment_layout bs);
  checksum ← lift (segment.segment_metadata_checksum bs);
  _ ← lift (fail_if (negb (checksum =? ab_checksum b))
              (error.from_io InvalidData "base content checksum mismatch"));
  _ ← with_verifier (verifier.verify_range bs 0 (blen (segment.layout_data layout)));
  semantically_verified ← gets (λ b : ActiveBase, v_semantically_verified (ab_verifier b));
  if (semantically_verified : bool) then mret () else
  _ ← lift (segment.validate_base (segment.layout_data layout) (ab_offset b) (ab_slots b) (ab_len b));
  with_verifier verifier.mark_semantically_verified.

(** [ActiveBase] as the [BaseView] of a read. *)
Definition base_view (b : ActiveBase) : result view.BaseView :=
  bs ← BaseBytes.deref (ab_mapping b);
  Ok (view.MkBaseView bs (ab_offset b) (ab_slots b)).

(** [BaseView { mapping: &self.base.mapping, .. }] and the lookup through it. *)
Definition lookup (mode : VerificationMode) (key : bytes) : M ActiveBase (option bytes) :=
  b ← gets (λ b : ActiveBase, b);
  bv ← lift (base_view b);
  with_verifier (view.lookup_segment (view.bv_mapping bv) mode (view.bv_offset bv)
                   (view.bv_slots bv) key (xxh3_64 key)).

End ActiveBase.

(** ** A Base that holds entries *)

Section Holds.
Context `{Crc32cLaws, Xxh3Laws, Alloc}.
Implicit Types (entries : list (bytes * bytes)) (b : ActiveBase) (sb : Superblock).

(** The bytes of the Base written for [entries] at [offset]. *)
Definition segment_with (index : list (Z * Z)) (offset slots : Z) (entries : list (bytes * bytes))
    (bs : bytes) : Prop :=
  bs = segment.segment_bytes (segment.base_data slots index entries)
  ∧ (slots = 0 ∧ entries = [] ∨ segment.pow2 slots) ∧ slots < U64
  ∧ 0 ≤ offset ∧ offset + blen bs ≤ ISIZE_MAX
  ∧ Forall segment.entry_ok entries ∧ NoDup entries.*1
  ∧ segment.index_ok slots index
      (segment.placed_from (offset + BASE_HEADER + slots * segment.SLOT_SIZE) entries).

Definition segment_for (offset slots : Z) (entries : list (bytes * bytes)) (bs : bytes) : Prop :=
  ∃ index, segment_with index offset slots entries bs.

(** A root that describes such a Base. *)
Definition describes sb (entries : list (bytes * bytes)) (bs : bytes) : Prop :=
  segment_for (base_offset sb) (base_slots sb) entries bs
  ∧ base_len sb = blen entries ∧ base_size sb = blen bs
  ∧ segment.segment_metadata_checksum bs = Ok (base_checksum sb).

(** An open Base that holds exactly [entries], with a consistent verifier. *)
Definition holds b entries : Prop :=
  ∃ bs, BaseBytes.deref (ab_mapping b) = Ok bs
    ∧ segment_for (ab_offset b) (ab_slots b) entries bs
    ∧ ab_len b = blen entries
    ∧ segment.segment_metadata_checksum bs = Ok (ab_checksum b)
    ∧ (∃ layout, segment.segment_layout bs = Ok layout
         ∧ v_data_size (ab_verifier b) = blen (segment.layout_data layout))
    ∧ verifier.verifier_inv bs (ab_verifier b) ∧ verifier.all_good bs (ab_verifier b).

Lemma segment_with_layout index offset slots entries bs :
  segment_with index offset slots entries bs →
  let data := segment.base_data slots index entries in
    segment.segment_layout bs = Ok (segment.MkLayout data (segment.block_table data))
    ∧ segment.segment_metadata_checksum bs = Ok (crc32c (segment.base_metadata data))
    ∧ (∀ o, segment.verify_segment_blocks (segment.MkLayout data (segment.block_table data)) o = Ok ())
    ∧ segment.read_base_header data = Ok (slots, blen entries)
    ∧ (try_reserve (blen entries) = true → segment.validate_base data offset slots (blen entries) = Ok ())
    ∧ (try_reserve (blen entries) = false → ∃ e, segment.validate_base data offset slots (blen entries) = Err e)
    ∧ verifier.layout_of bs (segment.MkLayout data (segment.block_table data)).
Proof.
  intros (Hbs&Hsl&Hs&Ho&Hb&Hok&Hnd&Hi) data. fold data in Hbs.
  pose proof Hi as (Hil&_). subst bs.
  assert (Hs0 : 0 ≤ slots) by (subst; apply blen_nonneg).
  assert (Hdl : blen data ≤ blen (segment.segment_bytes data)).
  { unfold segment.segment_bytes. rewrite blen_app. pose proof (blen_nonneg (segment.base_metadata data)). lia. }
  split_and!; [apply segment.segment_layout_encode; lia|apply segment.segment_metadata_checksum_encode; lia
    |intros o; apply segment.verify_segment_blocks_encode; lia| | | |].
  - apply segment.read_base_header_encode; try done; [|fold data; lia]. destruct Hsl as [[-> _]|?]; auto.
  - intros Ha. apply segment.validate_base_encode; try done. fold data. lia.
  - intros Ha. apply segment.validate_base_starved; try done. fold data. lia.
  - split; [by exists (segment.base_footer data)|]. split; [lia|].
    cbn [segment.layout_data segment.layout_checksums]. by rewrite segment.blen_block_table.
Qed.

(** Opening the Base a root describes succeeds in both modes. *)
Lemma open_describes mapping bs sb entries mode :
  BaseBytes.deref mapping = Ok bs → describes sb entries bs → (∀ n, try_reserve n = true) →
  ∃ b, open mapping sb mode = Ok b ∧ holds b entries
    ∧ ab_mapping b = mapping ∧ ab_offset b = base_offset sb
    ∧ ab_generation b = generation sb ∧ ab_log_start b = log_start sb.
Proof.
  intros Hd (Hseg&Hlen&_&Hck) Ha. pose proof Hseg as [index Hw].
  destruct (segment_with_layout _ _ _ _ _ Hw) as (Hlay&Hmc&Hv&Hh&Hvb&_&Hlo).
  unfold open. rewrite Hd. rstep. rewrite Hlay. rstep. rewrite Hck. rstep. rewrite Z.eqb_refl. rstep.
  rewrite Hv. replace (if bool_decide (mode = Full) then Ok () else Ok ()) with (Ok ()) by (by destruct mode).
  rstep. cbn [segment.layout_data]. rewrite Hh. rstep. rewrite Hlen, !Z.eqb_refl. rstep.
  rewrite Hvb by done. replace (match mode with Full => Ok () | OnRead => Ok () end) with (Ok ())
    by (by destruct mode). rstep.
  eexists; split; [done|]. split; [|done]. exists bs. unfold new. cbn [ab_mapping ab_offset ab_slots ab_len
    ab_checksum ab_verifier].
  split_and!; [done|done|done|done|by eexists|by apply verifier.new_inv|].
  intros blk Hblk. by apply verifier.new_block_good.
Qed.

(** Installing it does, too. *)
Lemma install_describes mapping bs sb entries :
  BaseBytes.deref mapping = Ok bs → describes sb entries bs →
  ∃ b, install mapping sb = Ok b ∧ holds b entries
    ∧ ab_mapping b = mapping ∧ ab_offset b = base_offset sb
    ∧ ab_generation b = generation sb ∧ ab_log_start b = log_start sb
    ∧ v_semantically_verified (ab_verifier b) = true.
Proof.
  intros Hd (Hseg&Hlen&_&Hck). pose proof Hseg as [index Hw].
  destruct (segment_with_layout _ _ _ _ _ Hw) as (Hlay&Hmc&Hv&Hh&Hvb&_&Hlo).
  unfold install. rewrite Hd. rstep. rewrite Hlay. rstep. cbn [segment.layout_data]. rewrite Hh. rstep.
  rewrite Hlen, !Z.eqb_refl. rstep.
  eexists; split; [done|]. split; [|done]. exists bs. unfold new. cbn [ab_mapping ab_offset ab_slots ab_len
    ab_checksum ab_verifier].
  split_and!; [done|done|done|done|by eexists|by apply verifier.new_inv|].
  intros blk Hblk. by apply verifier.new_block_good.
Qed.

(** Two states of a Base that differ only in what has been verified. *)
Definition same_base b b' : Prop :=
  ab_mapping b' = ab_mapping b ∧ ab_offset b' = ab_offset b ∧ ab_checksum b' = ab_checksum b
  ∧ ab_slots b' = ab_slots b ∧ ab_len b' = ab_len b ∧ ab_generation b' = ab_generation b
  ∧ ab_log_start b' = ab_log_start b.

#[global] Instance same_base_preorder : PreOrder same_base.
Proof. split; [by intros b|]. intros b1 b2 b3 (?&?&?&?&?&?&?) (?&?&?&?&?&?&?). split_and!; congruence. Qed.

Lemma with_verifier_run {A} (m : M SegmentVerifier A) b r v :
  m (ab_verifier b) = (r, v) →
  ∃ b', with_verifier m b = (r, b') ∧ same_base b b' ∧ ab_verifier b' = v.
Proof. intros Hm. unfold with_verifier, zoom. rewrite Hm. by eexists. Qed.

Lemma holds_same b b' entries :
  holds b entries → same_base b b' →
  (∀ bs, BaseBytes.deref (ab_mapping b) = Ok bs →
     verifier.verifier_inv bs (ab_verifier b') ∧ verifier.same_segment (ab_verifier b) (ab_verifier b')) →
  holds b' entries.
Proof.
  intros (bs&Hd&Hseg&Hl&Hc&(lay&Hlay&Hds)&Hinv&Hg) (E1&E2&E3&E4&E5&_) Hv.
  destruct (Hv _ Hd) as [Hinv' Hs]. exists bs. rewrite E1, E2, E3, E4, E5.
  split_and!; [done..| |done|by eapply verifier.all_good_same].
  exists lay. split; [done|]. destruct Hs as (->&_). done.
Qed.

(** A lookup returns the value of the entry, and only the verifier changes. *)
Lemma lookup_holds b entries mode key :
  holds b entries →
  ∃ b', lookup mode key b = (Ok (KeyMap.get entries key), b') ∧ same_base b b' ∧ holds b' entries.
Proof.
  intros Hh. pose proof Hh as (bs&Hd&Hseg&Hl&Hc&(lay&Hlay&Hds)&Hinv&Hg).
  unfold lookup. rewrite (M_bind_ok (gets _) _ b b b eq_refl). unfold base_view. rewrite Hd.
  cbn [mbind result_bind]. rewrite M_lift_ok. cbn [view.bv_mapping view.bv_offset view.bv_slots].
  pose proof Hseg as (index&Hw). pose proof Hw as (Hbs&[[Hs0 He]|Hp]&Hs&Ho&Hb&Hok&Hnd&Hi).
  - destruct (with_verifier_run (view.lookup_segment bs mode (ab_offset b) (ab_slots b) key (xxh3_64 key))
      b (Ok None) (ab_verifier b)) as (b'&Hb'&Hsame&Hv).
    { unfold view.lookup_segment. by rewrite Hs0. }
    exists b'. rewrite Hb', He. split; [done|]. split; [done|]. rewrite <- He.
    eapply holds_same; [done|done|]. intros bs' E. rewrite Hd in E. injection E as <-. rewrite Hv.
    split; [done|]. by split_and!.
  - destruct (segment_with_layout _ _ _ _ _ Hw) as (Hlay'&_). rewrite Hlay in Hlay'. injection Hlay' as ->.
    cbn [segment.layout_data] in Hds.
    destruct (view.lookup_segment_spec bs mode (ab_offset b) (ab_slots b) index entries key (ab_verifier b))
      as (v'&Hv'&Hm').
    { subst bs. refine (conj Hp (conj Hs (conj Ho (conj Hb (conj Hok (conj Hnd (conj Hi
        (conj _ (conj Hds (conj Hinv Hg)))))))))). by eexists. }
    destruct (with_verifier_run _ _ _ _ Hv') as (b'&Hb'&Hsame&Hv).
    exists b'. split; [done|]. split; [done|].
    eapply holds_same; [done|done|]. intros bs' E. rewrite Hd in E. injection E as <-. rewrite Hv.
    destruct (view.lookup_segment_safe bs mode (ab_offset b) (ab_slots b) key (xxh3_64 key) (ab_verifier b))
      as (r&v''&Hr&Hinv'&Hs'&_); [done|by right| |].
    + rewrite Hds, segment.blen_base_data. destruct Hi as [-> _].
      pose proof (blen_nonneg (segment.encode_entries entries)). lia.
    + rewrite Hv' in Hr. by injection Hr as <- <-.
Qed.

(** A full verification accepts it, unless there is no memory for it. *)
Lemma verify_any b entries :
  holds b entries →
  ∃ r b', verify b = (r, b') ∧ same_base b b' ∧ holds b' entries
    ∧ (r = Ok () ∧ v_semantically_verified (ab_verifier b') = true ∨ ∃ e n, r = Err e ∧ try_reserve n = false).
Proof.
  intros Hh. pose proof Hh as (bs&Hd&Hseg&Hl&Hc&(lay&Hlay&Hds)&Hinv&Hg).
  unfold verify. rewrite (M_bind_ok (gets _) _ b b b eq_refl). rewrite Hd, M_lift_ok, Hlay, M_lift_ok, Hc, M_lift_ok.
  rewrite Z.eqb_refl. cbn [negb fail_if]. rewrite M_lift_ok.
  destruct (verifier.verify_range_good bs (ab_verifier b) 0 (blen (segment.layout_data lay)))
    as (v1&Hv1&Hinv1&Hs1); [done|done|pose proof (blen_nonneg (segment.layout_data lay)); lia|lia|].
  destruct (with_verifier_run _ _ _ _ Hv1) as (b1&Hb1&Hsame1&E1). mrun Hb1.
  rewrite (M_bind_ok (gets _) _ b1 _ b1 eq_refl). cbv beta.
  assert (Hh1 : holds b1 entries).
  { eapply holds_same; [done|done|]. intros bs' E. rewrite Hd in E. injection E as <-. by rewrite E1. }
  destruct (v_semantically_verified (ab_verifier b1)) eqn:Hsem; [exists (Ok ()), b1; by split_and!; auto|].
  pose proof Hseg as [index Hw]. destruct (segment_with_layout _ _ _ _ _ Hw) as (Hlay'&_&_&_&Hvb&Hvs&_).
  rewrite Hlay in Hlay'. injection Hlay' as ->. cbn [segment.layout_data]. rewrite Hl.
  destruct (try_reserve (blen entries)) eqn:Ha.
  2:{ destruct (Hvs eq_refl) as [e ->]. exists (Err e), b1. split_and!; try done. right. by eexists _, _. }
  rewrite Hvb, M_lift_ok by done.
  destruct (with_verifier_run verifier.mark_semantically_verified b1 _ _ eq_refl) as (b2&Hb2&Hsame2&E2).
  exists (Ok ()), b2. split; [done|]. split.
  { by etrans. }
  split; [|left; by rewrite E2]. eapply holds_same; [exact Hh1|done|]. intros bs' Hd'. rewrite E2.
  destruct Hsame1 as (Em&_). rewrite Em, Hd in Hd'. injection Hd' as <-.
  split; [by rewrite E1|by split_and!].
Qed.

Lemma verify_holds b entries :
  holds b entries → (∀ n, try_reserve n = true) →
  ∃ b', verify b = (Ok (), b') ∧ same_base b b' ∧ holds b' entries
    ∧ v_semantically_verified (ab_verifier b') = true.
Proof.
  intros Hh Ha. destruct (verify_any b entries Hh) as (r&b'&Hr&Hs&Hh'&[[-> ?]|(e&n&_&Hn)]); [by exists b'|by rewrite Ha in Hn].
Qed.

End Holds.

(** ** Opening untrusted mappings *)

Section Untrusted.
Context `{Crc32cLaws, Xxh3Laws, Alloc}.
Implicit Types (b : ActiveBase) (sb : Superblock).

Lemma pow2_is_power_of_two n : segment.is_power_of_two n = true → segment.pow2 n.
Proof.
  unfold segment.is_power_of_two. intros [Hn Hl]%andb_true_iff. bool_prop.
  exists (Z.log2 n). split; [apply Z.log2_nonneg|].
  pose proof (Z.log2_spec n Hn) as [Hlo Hhi]. destruct (decide (n = 2 ^ Z.log2 n)) as [|Hne]; [done|].
  exfalso. pose proof (Z.log2_nonneg n).
  assert (Hl1 : Z.log2 (n - 1) = Z.log2 n) by (apply Z.log2_unique; lia).
  assert (Hb : Z.testbit (Z.land n (n - 1)) (Z.log2 n) = true).
  { rewrite Z.land_spec, (Z.bit_log2 n) by lia. rewrite <- Hl1 at 1.
    apply Z.bit_log2. assert (0 < 2 ^ Z.log2 n) by (by apply Z.pow_pos_nonneg). lia. }
  by rewrite Hl, Z.bits_0 in Hb.
Qed.

(** What every read relies on: the sizes fit and the verifier is consistent. *)
Definition readable b : Prop :=
  ∃ bs, BaseBytes.deref (ab_mapping b) = Ok bs ∧ verifier.verifier_inv bs (ab_verifier b)
    ∧ (ab_slots b = 0 ∨ segment.pow2 (ab_slots b))
    ∧ BASE_HEADER + ab_slots b * segment.SLOT_SIZE ≤ v_data_size (ab_verifier b)
    ∧ ∃ layout, segment.segment_layout bs = Ok layout
        ∧ v_data_size (ab_verifier b) = blen (segment.layout_data layout).

Lemma layout_of_safe bs layout :
  segment.segment_layout bs = Ok layout → blen bs ≤ ISIZE_MAX → verifier.layout_of bs layout.
Proof.
  intros Hl Hb. pose proof (segment.segment_layout_safe bs Hb) as Hs. rewrite Hl in Hs.
  destruct Hs as (footer&->&_&Hc). split; [by exists footer|]. by split.
Qed.

Lemma verify_segment_blocks_safe bs layout o :
  verifier.layout_of bs layout → no_panic (segment.verify_segment_blocks layout o).
Proof.
  intros ((footer&Hbs)&Hb&Hc). unfold segment.verify_segment_blocks.
  pose proof (blen_nonneg (segment.layout_data layout)). pose proof (blen_nonneg footer).
  apply (f_equal blen) in Hbs. rewrite !blen_app in Hbs.
  apply segment.verify_blocks_safe; [lia|lia|].
  pose proof (blen_chunks segment.BLOCK (segment.layout_data layout) segment.BLOCK_pos) as Hbc.
  rewrite segment.BLOCK_Z in Hbc. lia.
Qed.

Lemma segment_metadata_checksum_safe bs layout :
  segment.segment_layout bs = Ok layout → verifier.layout_of bs layout →
  no_panic (segment.segment_metadata_checksum bs).
Proof.
  intros Hl ((footer&Hbs)&_). unfold segment.segment_metadata_checksum. rewrite Hl. rstep.
  apply (f_equal blen) in Hbs. rewrite !blen_app in Hbs.
  pose proof (blen_nonneg (segment.layout_data layout)). pose proof (blen_nonneg footer).
  pose proof (blen_nonneg (segment.layout_checksums layout)).
  unfold index_range. by rewrite get_range_in_bounds by lia.
Qed.

(** The verdict of a full check of the blocks and the index. *)
Definition fully_checked b : Prop :=
  ∃ bs layout, BaseBytes.deref (ab_mapping b) = Ok bs ∧ segment.segment_layout bs = Ok layout
    ∧ verifier.all_good bs (ab_verifier b)
    ∧ segment.validate_base (segment.layout_data layout) (ab_offset b) (ab_slots b) (ab_len b) = Ok ().

Lemma open_safe mapping bs sb mode :
  BaseBytes.deref mapping = Ok bs → 0 ≤ base_offset sb → base_offset sb + blen bs ≤ ISIZE_MAX →
  safe (open mapping sb mode) (λ b, readable b ∧ (mode = Full → fully_checked b)).
Proof.
  intros Hd Ho Hb. assert (Hb0 : blen bs ≤ ISIZE_MAX) by lia. unfold open. rewrite Hd. rstep.
  destruct (segment.segment_layout bs) as [layout|e|] eqn:Hlay; rstep; [|done|].
  2:{ pose proof (segment.segment_layout_safe bs Hb0) as Hs. by rewrite Hlay in Hs. }
  pose proof (layout_of_safe bs layout Hlay Hb0) as Hlo.
  pose proof (segment_metadata_checksum_safe bs layout Hlay Hlo) as Hnp.
  destruct (segment.segment_metadata_checksum bs) as [ck|e|] eqn:Hck; rstep; [|done|done].
  eapply safe_bind; [apply safe_fail_if|]. intros [] _ _.
  assert (Hvs : safe (if bool_decide (mode = Full) then segment.verify_segment_blocks layout (base_offset sb)
                else Ok ()) (λ _, mode = Full → segment.verify_segment_blocks layout (base_offset sb) = Ok ())).
  { case_bool_decide; [|by cbn; intros]. pose proof (verify_segment_blocks_safe bs layout (base_offset sb) Hlo) as Hn.
    destruct (segment.verify_segment_blocks _ _) as [[]|e|] eqn:E; done. }
  eapply safe_bind; [exact Hvs|]. intros [] _ Hv.
  assert (Hdl : blen (segment.layout_data layout) ≤ blen bs).
  { destruct Hlo as ((footer&->)&_). rewrite !blen_app. pose proof (blen_nonneg footer).
    pose proof (blen_nonneg (segment.layout_checksums layout)). lia. }
  eapply safe_bind; [apply segment.read_base_header_safe; lia|].
  intros [slots len] Hrh (Hs0&Hl0&Hp&Hfit). rstep.
  eapply safe_bind; [apply safe_fail_if|]. intros [] _ _.
  assert (Hval : safe (match mode with
      | Full => segment.validate_base (segment.layout_data layout) (base_offset sb) slots len
      | OnRead => Ok () end)
      (λ _, mode = Full → segment.validate_base (segment.layout_data layout) (base_offset sb) slots len = Ok ())).
  { destruct mode; [|done].
    pose proof (segment.validate_base_no_panic (segment.layout_data layout) (base_offset sb) slots len) as Hn.
    destruct (segment.validate_base _ _ _ _) as [[]|e|] eqn:E; [done..|]. apply Hn; [lia|lia|lia|done]. }
  eapply safe_bind; [exact Hval|]. intros [] _ Hvb.
  cbn [safe]. unfold new, readable, fully_checked. cbn [ab_mapping ab_verifier ab_slots ab_offset ab_len].
  split.
  - exists bs. split_and!; [done| | |done|by exists layout].
    + apply verifier.new_inv; [done|]. intros Hf. apply Hv. by apply bool_decide_eq_true in Hf.
    + destruct Hp as [?|Hp]; [by left|right]. by apply pow2_is_power_of_two.
  - intros Hf. exists bs, layout. split_and!; auto. intros blk Hblk. by apply verifier.new_block_good; auto.
Qed.

Lemma lookup_readable b mode key :
  readable b → ∃ r b', lookup mode key b = (r, b') ∧ same_base b b' ∧ readable b' ∧ r ≠ Panic
    ∧ ∀ val bs, r = Ok (Some val) → BaseBytes.deref (ab_mapping b) = Ok bs → mode = OnRead →
        v_fully_verified (ab_verifier b) = false → view.checked_bytes bs (ab_verifier b) val.
Proof.
  intros (bs&Hd&Hinv&Hp&Hfit&Hlay). unfold lookup. rewrite (M_bind_ok (gets _) _ b b b eq_refl).
  unfold base_view. rewrite Hd. cbn [mbind result_bind]. rewrite M_lift_ok.
  cbn [view.bv_mapping view.bv_offset view.bv_slots].
  destruct (view.lookup_segment_safe bs mode (ab_offset b) (ab_slots b) key (xxh3_64 key) (ab_verifier b))
    as (r&v'&Hr&Hinv'&Hs&Hnp&Hval); [done|done|done|].
  destruct (with_verifier_run _ _ _ _ Hr) as (b'&Hb'&Hsame&E). pose proof Hsame as (E1&_&_&E4&_).
  exists r, b'. split; [done|]. split; [done|]. split; [|split; [done|]].
  - exists bs. rewrite E1, E4, E. destruct Hs as (->&_). done.
  - intros val bs' Hv E' ??. injection E' as <-. by apply Hval.
Qed.

(** Checking blocks does not touch the semantic flag. *)
Lemma verify_block_flag mapping block v :
  v_semantically_verified (verifier.verify_block mapping block v).2 = v_semantically_verified v.
Proof.
  unfold verifier.verify_block, mbind, M_bind, lift, gets, modify.
  repeat (case_match; simplify_eq/=; try done).
Qed.

Lemma verify_blocks_flag mapping n block v :
  v_semantically_verified (verifier.verify_blocks_from n mapping block v).2 = v_semantically_verified v.
Proof.
  revert v block. induction n as [|n IH]; intros v block; [done|]. cbn [verifier.verify_blocks_from].
  pose proof (verify_block_flag mapping block v) as Hf. unfold mbind, M_bind.
  destruct (verifier.verify_block mapping block v) as [[[]|e|] v1]; cbn in Hf; [|done..].
  by rewrite IH.
Qed.

Lemma verify_range_flag mapping start end_ v :
  v_semantically_verified (verifier.verify_range mapping start end_ v).2 = v_semantically_verified v.
Proof.
  unfold verifier.verify_range. rewrite (M_bind_ok (gets (λ v, v)) _ v v v eq_refl).
  destruct (v_fully_verified v); [done|].
  destruct (end_ <? start); [done|]. destruct (v_data_size v <? end_); [done|].
  destruct (start =? end_); [done|]. apply verify_blocks_flag.
Qed.

End Untrusted.
(** ** Properties *)

Section Properties.
Context `{Crc32cLaws, Xxh3Laws, Alloc}.

(** A written Base opens and is read back. For a root that describes the
    Base written for [entries], [open] succeeds in both modes, [verify] then
    accepts it, and before and after that every lookup returns the value of the
    key's entry, or nothing when there is none. *)
Theorem open_reads_entries mapping bs sb entries mode :
  BaseBytes.deref mapping = Ok bs → describes sb entries bs → (∀ n, try_reserve n = true) →
  ∃ b b', open mapping sb mode = Ok b ∧ verify b = (Ok (), b')
    ∧ ∀ key, fst (lookup mode key b) = Ok (KeyMap.get entries key)
           ∧ fst (lookup mode key b') = Ok (KeyMap.get entries key).
Proof.
  intros Hd Hdesc Ha. destruct (open_describes mapping bs sb entries mode Hd Hdesc Ha) as (b&Hb&Hh&_).
  destruct (verify_holds b entries Hh Ha) as (b'&Hv&_&Hh'&_). exists b, b'. split_and!; [done|done|].
  intros key. destruct (lookup_holds b entries mode key Hh) as (?&->&_).
  by destruct (lookup_holds b' entries mode key Hh') as (?&->&_).
Qed.

(** Opening is total on untrusted mappings. Whatever the bytes and the root,
    [open] never panics; a Base it returns answers every lookup without a panic,
    in [OnRead] mode with bytes of checked blocks only, and after a [Full] open
    every block has its checksum and the whole index was validated. *)
Theorem open_total mapping bs sb mode :
  BaseBytes.deref mapping = Ok bs → 0 ≤ base_offset sb → base_offset sb + blen bs ≤ ISIZE_MAX →
  safe (open mapping sb mode) (λ b,
    (mode = Full → fully_checked b)
    ∧ ∀ key, ∃ r b', lookup mode key b = (r, b') ∧ r ≠ Panic
        ∧ ∀ val, r = Ok (Some val) → mode = OnRead → v_fully_verified (ab_verifier b) = false →
            ∃ bs', BaseBytes.deref (ab_mapping b) = Ok bs' ∧ view.checked_bytes bs' (ab_verifier b) val).
Proof.
  intros Hd Ho Hb. eapply safe_mono; [by eapply open_safe|]. intros b [Hr Hf]. split; [done|]. intros key.
  destruct (lookup_readable b mode key Hr) as (r&b'&Hl&_&_&Hnp&Hval). exists r, b'. split_and!; [done|done|].
  intros val Hv Hm Hfv. destruct Hr as (bs'&Hd'&_). exists bs'. split; [done|]. by apply (Hval val bs').
Qed.

End Properties.

(** *** Concrete Bases *)

Import RefInstances.

Definition demo_bytes : bytes := segment.segment_bytes view.demo_data.
Definition demo_mapping : BaseBytes := BaseBytes.Mapped demo_bytes.
Definition demo_root : Superblock :=
  MkSuperblock 1 8192 (blen demo_bytes) 4 3 (8192 + blen demo_bytes)
    (crc32c (segment.base_metadata view.demo_data)).

Lemma demo_describes : describes demo_root view.demo_entries demo_bytes.
Proof.
  assert (Hb : 8192 + blen demo_bytes ≤ ISIZE_MAX) by (vm_compute; discriminate).
  split; [|split; [done|split; [done|]]].
  - exists view.demo_index. cbn [base_offset base_slots demo_root].
    refine (conj eq_refl (conj (or_intror view.demo_pow2) (conj _ (conj _ (conj Hb
      (conj (proj1 view.demo_entries_ok) (conj (proj2 view.demo_entries_ok) _))))))); [done|done|].
    apply segment.fold_index_ok; [exact view.demo_pow2|done|vm_compute; discriminate|exact view.demo_fold].
  - apply segment.segment_metadata_checksum_encode. fold demo_bytes. lia.
Qed.

Lemma open_reads_entries_witness :
  ∃ b b', open demo_mapping demo_root Full = Ok b ∧ verify b = (Ok (), b')
    ∧ fst (lookup Full [Byte.x61; Byte.x61] b) = Ok (Some [Byte.x03]).
Proof.
  destruct (open_reads_entries demo_mapping demo_bytes demo_root view.demo_entries Full eq_refl
    demo_describes (λ _, eq_refl)) as (b&b'&Hb&Hv&Hl).
  exists b, b'. split; [exact Hb|]. split; [exact Hv|]. exact (proj1 (Hl [Byte.x61; Byte.x61])).
Defined.

Lemma open_total_witness : open (BaseBytes.Mapped [Byte.x00]) demo_root OnRead ≠ Panic.
Proof.
  pose proof (open_total (BaseBytes.Mapped [Byte.x00]) [Byte.x00] demo_root OnRead eq_refl) as Hs.
  eapply safe_no_panic. apply Hs; vm_compute; discriminate.
Defined.

Definition demo_base : ActiveBase := new demo_mapping view.demo_verifier demo_root 4 3.

End active_base.
