(* ===== verification/Storage.v ===== *)
(** * Storage backends

    [database/storage.rs]: the file and the volatile backend behind one
    interface. [MemoryStorage] keeps a header, the active Base and a tail apart
    and lets obsolete generations and the log take up logical offsets without
    bytes; its logical content is the [image] below. *)

From S2P Require Import Prelude Errors Crates Io Superblock Values Segment.

#[local] Abbreviation DATA_START := superblock.DATA_START.

(** [Arc<Vec<u8>>] at a logical offset. *)
Record MemoryRegion := MkRegion { region_offset : Z; region_bytes : bytes }.

Record MemoryStorage := MkMemory {
  ms_header : bytes;
  ms_base : option MemoryRegion;
  ms_tail_start : Z;
  ms_tail : bytes;
  ms_len : Z;
  ms_position : Z
}.

Module memory.
Section Memory.
Context `{Alloc}.

Definition default : MemoryStorage := MkMemory [] None DATA_START [] 0 0.

Definition set_position (p : Z) (m : MemoryStorage) : MemoryStorage :=
  MkMemory (ms_header m) (ms_base m) (ms_tail_start m) (ms_tail m) (ms_len m) p.
Definition set_length (n : Z) (m : MemoryStorage) : MemoryStorage :=
  MkMemory (ms_header m) (ms_base m) (ms_tail_start m) (ms_tail m) n (ms_position m).
Definition set_header (h : bytes) (m : MemoryStorage) : MemoryStorage :=
  MkMemory h (ms_base m) (ms_tail_start m) (ms_tail m) (ms_len m) (ms_position m).
Definition set_base (b : MemoryRegion) (m : MemoryStorage) : MemoryStorage :=
  MkMemory (ms_header m) (Some b) (ms_tail_start m) (ms_tail m) (ms_len m) (ms_position m).
Definition set_tail (start : Z) (t : bytes) (m : MemoryStorage) : MemoryStorage :=
  MkMemory (ms_header m) (ms_base m) start t (ms_len m) (ms_position m).

Definition resize_bytes (bs : bytes) (len : Z) : result bytes :=
  _ ← fail_if ((blen bs <? len) && negb (try_reserve (len - blen bs)))
        (error.from_io OutOfMemory "could not grow memory storage");
  Ok (take (Z.to_nat len) bs ++ replicate (Z.to_nat (len - blen bs)) Byte.x00).

Definition set_len (len : Z) : M MemoryStorage () :=
  m ← gets (λ m : MemoryStorage, m);
  match ms_base m with
  | Some _ =>
      _ ← lift (fail_if (len <? ms_tail_start m)
                  (error.from_io InvalidInput "cannot truncate the active in-memory Base"));
      let tail_len := len - ms_tail_start m in
      tail ← lift (resize_bytes (ms_tail m) tail_len);
      _ ← modify (set_tail (ms_tail_start m) tail);
      modify (set_length len)
  | None =>
      _ ← (if len <=? DATA_START then
             header ← lift (resize_bytes (ms_header m) len);
             _ ← modify (set_header header);
             modify (set_tail DATA_START [])
           else
             header ← lift (resize_bytes (ms_header m) DATA_START);
             _ ← modify (set_header header);
             _ ← modify (set_tail DATA_START (ms_tail m));
             let tail_len := len - DATA_START in
             tail ← lift (resize_bytes (ms_tail m) tail_len);
             modify (set_tail DATA_START tail));
      modify (set_length len)
  end.

(** One iteration of the loop of [read]: the bytes it copies when [wanted] are
    still missing. *)
Definition read_chunk (wanted : Z) : M MemoryStorage bytes :=
  m ← gets (λ m : MemoryStorage, m);
  let position := ms_position m in
  let copied (src : bytes) (start : Z) : M MemoryStorage bytes :=
    let len := Z.min (blen src - start) wanted in
    chunk ← lift (index_range src start (start + len));
    _ ← modify (set_position (position + len));
    mret chunk in
  if position <? blen (ms_header m) then copied (ms_header m) position else
  let in_base := match ms_base m with
                 | Some base => (region_offset base <=? position)
                                && (position <? region_offset base + blen (region_bytes base))
                 | None => false
                 end in
  match ms_base m, in_base with
  | Some base, true => copied (region_bytes base) (position - region_offset base)
  | _, _ =>
      let tail_end := ms_tail_start m + blen (ms_tail m) in
      if (ms_tail_start m <=? position) && (position <? tail_end)
      then copied (ms_tail m) (position - ms_tail_start m)
      else
        let next := ms_len m in
        let next := match ms_base m with
                    | Some base => if position <? region_offset base
                                   then Z.min next (region_offset base) else next
                    | None => next
                    end in
        let next := if position <? ms_tail_start m then Z.min next (ms_tail_start m) else next in
        let len := Z.min (next - position) wanted in
        _ ← modify (set_position (position + len));
        mret (replicate (Z.to_nat len) Byte.x00)
  end.

(** The loop of [read]: every iteration copies at least one byte, so the number
    of bytes bounds it. *)
Fixpoint read_loop (fuel : nat) (wanted : Z) : M MemoryStorage bytes :=
  if wanted <=? 0 then mret [] else
  match fuel with
  | O => lift Panic
  | S fuel =>
      chunk ← read_chunk wanted;
      rest ← read_loop fuel (wanted - blen chunk);
      mret (chunk ++ rest)
  end.

Definition read (n : Z) : M MemoryStorage bytes :=
  m ← gets (λ m : MemoryStorage, m);
  if (n =? 0) || (ms_len m <=? ms_position m) then mret [] else
  let available := Z.min (ms_len m - ms_position m) n in
  read_loop (Z.to_nat available) available.

(** [io::Error::new(error.kind(), error)]. *)
Definition as_io (e : Error) : io_Error := IoError (error.kind e) (error.fmt e).
Definition map_io {A} (r : result A) : result A :=
  match r with Err e => Err (error.from (as_io e)) | r => r end.

Definition write (bs : bytes) : M MemoryStorage Z :=
  match bs with
  | [] => mret 0
  | _ =>
      m ← gets (λ m : MemoryStorage, m);
      let start := ms_position m in
      end_ ← lift (ok_or (checked_add start (blen bs))
                    (error.from_io InvalidInput "write range overflow"));
      _ ← (if end_ <=? DATA_START then
             header ← lift (map_io (resize_bytes (ms_header m) end_));
             modify (set_header (splice header start bs))
           else if ms_tail_start m <=? start then
             let start := start - ms_tail_start m in
             tail_end ← lift (ok_or (checked_add start (blen bs))
                               (error.from_io InvalidInput "write range overflow"));
             tail ← lift (map_io (resize_bytes (ms_tail m) tail_end));
             modify (set_tail (ms_tail_start m) (splice tail start bs))
           else lift (Err (error.from_io InvalidInput "cannot overwrite an immutable in-memory Base")));
      _ ← modify (set_position end_);
      _ ← modify (set_length (Z.max (ms_len m) end_));
      mret (blen bs)
  end.

Definition seek (p : SeekFrom) : M MemoryStorage Z :=
  m ← gets (λ m : MemoryStorage, m);
  match p with
  | Start position => _ ← modify (set_position position); mret position
  | End_ offset | Current offset =>
      let base := match p with End_ _ => ms_len m | _ => ms_position m end in
      let position := base + offset in
      _ ← lift (fail_if (negb ((0 <=? position) && (position <? U64)))
                  (error.from_io InvalidInput "invalid seek position"));
      _ ← modify (set_position position);
      mret position
  end.

#[global] Instance memory_stream : Stream MemoryStorage := {|
  Io.seek := seek; Io.write := write; Io.read := read
|}.

Definition load_immutable (offset size : Z) : M MemoryStorage BaseBytes :=
  m ← gets (λ m : MemoryStorage, m);
  _ ← lift (fail_if (size =? 0) (error.from_io InvalidData "cannot load an empty segment"));
  end_ ← lift (ok_or (opt_filter (λ e, e <=? ms_len m) (checked_add offset size))
                (error.invalid_base "segment extends beyond memory storage"));
  let shared := match ms_base m with
                | Some base =>
                    if (region_offset base <=? offset)
                       && (end_ <=? region_offset base + blen (region_bytes base))
                    then Some base else None
                | None => None
                end in
  match shared with
  | Some base =>
      mret (BaseBytes.Memory (region_bytes base) (offset - region_offset base)
              (end_ - region_offset base))
  | None =>
      if negb (bool_decide (is_Some (ms_base m))) && (offset =? ms_tail_start m)
         && (end_ =? ms_len m)
      then
        let bs := ms_tail m in
        _ ← modify (set_tail end_ []);
        _ ← modify (set_base (MkRegion offset bs));
        mret (BaseBytes.Memory bs 0 (blen bs))
      else
        _ ← lift (fail_if (negb (try_reserve size))
                    (error.from_io OutOfMemory "could not allocate immutable bytes"));
        let previous := ms_position m in
        _ ← modify (set_position offset);
        catch (read_exact size) (λ r,
          _ ← modify (set_position previous);
          bs ← lift r;
          mret (BaseBytes.Memory bs 0 (blen bs)))
  end.

Definition replace_base (offset : Z) (bs : bytes) : M MemoryStorage () :=
  _ ← lift (fail_if ((offset <? DATA_START) || (blen bs =? 0))
              (error.from_io InvalidInput "invalid in-memory Base range"));
  end_ ← lift (ok_or (checked_add offset (blen bs))
                (error.invalid_base "in-memory Base range overflows"));
  m ← gets (λ m : MemoryStorage, m);
  header ← lift (resize_bytes (ms_header m) DATA_START);
  modify (λ _, MkMemory header (Some (MkRegion offset bs)) end_ [] end_ end_).

Definition extend_log (additional : Z) : M MemoryStorage () :=
  m ← gets (λ m : MemoryStorage, m);
  len ← lift (ok_or (checked_add (ms_len m) additional)
               (error.from_io InvalidInput "memory log size overflow"));
  _ ← modify (set_length len);
  modify (set_position len).

End Memory.
End memory.

(** ** [Storage] *)

Inductive Storage :=
  | SFile (f : File)
  | SMemory (m : MemoryStorage).

Module storage.
Section Storage.
Context `{Alloc}.

(** Dispatch on the backend. *)
Definition dispatch {A} (on_file : M File A) (on_memory : M MemoryStorage A) : M Storage A := λ s,
  match s with
  | SFile f => let '(r, f) := on_file f in (r, SFile f)
  | SMemory m => let '(r, m) := on_memory m in (r, SMemory m)
  end.

Definition memory : Storage := SMemory memory.default.
Definition is_memory (s : Storage) : bool :=
  match s with SMemory _ => true | SFile _ => false end.

Definition len : M Storage Z := dispatch file.len (gets ms_len).
Definition set_len (n : Z) : M Storage () := dispatch (file.set_len n) (memory.set_len n).
Definition sync_data : M Storage () := dispatch file.sync (mret ()).
Definition sync_all : M Storage () := dispatch file.sync (mret ()).

Definition load_immutable (offset size : Z) : M Storage BaseBytes :=
  dispatch (bs ← segment.map offset size; mret (BaseBytes.Mapped bs))
           (memory.load_immutable offset size).

Definition replace_memory_base (offset : Z) (bs : bytes) : M Storage () :=
  dispatch (lift (Err (error.from_io InvalidInput "cannot install an in-memory Base into file storage")))
           (memory.replace_base offset bs).

Definition extend_memory_log (additional : Z) : M Storage () :=
  dispatch (lift (Err (error.from_io InvalidInput "cannot extend an in-memory log in file storage")))
           (memory.extend_log additional).

#[global] Instance storage_stream : Stream Storage := {|
  seek p := dispatch (Io.seek p) (Io.seek p);
  write bs := dispatch (Io.write bs) (Io.write bs);
  read n := dispatch (Io.read n) (Io.read n)
|}.

End Storage.
End storage.

(** ** The logical image of the volatile backend *)

Module memory_facts.
Section Facts.
Context `{Alloc}.
Implicit Types (m : MemoryStorage) (p n : Z).

Definition byte_in (bs : bytes) (p : Z) : byte := default Byte.x00 (bs !! Z.to_nat p).

Definition in_region (b : MemoryRegion) (p : Z) : bool :=
  (region_offset b <=? p) && (p <? region_offset b + blen (region_bytes b)).

(** The byte at a logical offset; offsets without backing bytes read as zero. *)
Definition byte_at m p : byte :=
  if p <? blen (ms_header m) then byte_in (ms_header m) p else
  match ms_base m with
  | Some b =>
      if in_region b p then byte_in (region_bytes b) (p - region_offset b)
      else if (ms_tail_start m <=? p) && (p <? ms_tail_start m + blen (ms_tail m))
      then byte_in (ms_tail m) (p - ms_tail_start m) else Byte.x00
  | None =>
      if (ms_tail_start m <=? p) && (p <? ms_tail_start m + blen (ms_tail m))
      then byte_in (ms_tail m) (p - ms_tail_start m) else Byte.x00
  end.

Definition range m p n : bytes := byte_at m <$> seqZ p n.
Definition image m : bytes := range m 0 (ms_len m).

(** Header, Base and tail lie one behind the other inside the logical length. *)
Definition wf m : Prop :=
  blen (ms_header m) ≤ DATA_START ∧ blen (ms_header m) ≤ ms_len m ∧ ms_len m ≤ ISIZE_MAX
  ∧ DATA_START ≤ ms_tail_start m ∧ 0 ≤ ms_position m
  ∧ (ms_tail m ≠ [] → ms_tail_start m + blen (ms_tail m) ≤ ms_len m)
  ∧ (∀ b, ms_base m = Some b → DATA_START ≤ region_offset b
       ∧ region_offset b + blen (region_bytes b) ≤ ms_tail_start m ∧ ms_tail_start m ≤ ms_len m).

Lemma blen_range m p n : 0 ≤ n → blen (range m p n) = n.
Proof. intros. unfold range, blen. rewrite length_fmap, length_seqZ. lia. Qed.

Lemma range_app m p n k : 0 ≤ n → 0 ≤ k → range m p (n + k) = range m p n ++ range m (p + n) k.
Proof. intros. unfold range. by rewrite seqZ_app, fmap_app by lia. Qed.

Lemma range_set_position m q p n : range (memory.set_position q m) p n = range m p n.
Proof. done. Qed.

Lemma range_ext m m' p n :
  (∀ q, p ≤ q < p + n → byte_at m' q = byte_at m q) → range m' p n = range m p n.
Proof.
  intros Hq. unfold range. apply list_fmap_ext. intros i q [-> Hi]%lookup_seqZ. apply Hq. lia.
Qed.

(** A slice of one of the parts is the range of the image it backs. *)
Lemma range_slice m src off p n :
  0 ≤ off → off ≤ p → 0 ≤ n → p + n ≤ off + blen src →
  (∀ q, off ≤ q < off + blen src → byte_at m q = byte_in src (q - off)) →
  get_range src (p - off) (p - off + n) = Some (range m p n).
Proof.
  intros ???? Hb. rewrite get_range_in_bounds by lia. f_equal. unfold range.
  apply list_eq. intros i. rewrite list_lookup_fmap.
  destruct (decide (Z.of_nat i < n)).
  - rewrite lookup_take_lt, lookup_drop, lookup_seqZ_lt by lia. cbn. rewrite Hb by lia. unfold byte_in.
    replace (Z.to_nat (p - off) + i)%nat with (Z.to_nat (p + Z.of_nat i - off)) by lia.
    destruct (lookup_lt_is_Some_2 src (Z.to_nat (p + Z.of_nat i - off))) as [x ->]; [unfold blen in *; lia|done].
  - rewrite lookup_take_ge, lookup_seqZ_ge by lia. done.
Qed.

Lemma range_zero m p n :
  0 ≤ n → (∀ q, p ≤ q < p + n → byte_at m q = Byte.x00) → range m p n = replicate (Z.to_nat n) Byte.x00.
Proof.
  intros Hn Hz. unfold range. apply list_eq. intros i. rewrite list_lookup_fmap.
  destruct (decide (Z.of_nat i < n)).
  - rewrite lookup_seqZ_lt, lookup_replicate_2 by lia. cbn. by rewrite Hz by lia.
  - rewrite lookup_seqZ_ge by lia. symmetry. apply lookup_replicate_None. lia.
Qed.

(** Which part backs an offset. *)
Lemma byte_at_header m p : 0 ≤ p < blen (ms_header m) → byte_at m p = byte_in (ms_header m) p.
Proof. intros. unfold byte_at. by replace (p <? _) with true by lia. Qed.

Lemma byte_at_base m b p :
  wf m → ms_base m = Some b → region_offset b ≤ p < region_offset b + blen (region_bytes b) →
  byte_at m p = byte_in (region_bytes b) (p - region_offset b).
Proof.
  intros (Hh&_&_&_&_&_&Hb) E Hp. destruct (Hb b E) as (?&?&?). unfold byte_at, in_region. rewrite E.
  replace (p <? blen (ms_header m)) with false by lia.
  replace (region_offset b <=? p) with true by lia. by replace (p <? _) with true by lia.
Qed.

Lemma byte_at_tail m p :
  wf m → ms_tail_start m ≤ p < ms_tail_start m + blen (ms_tail m) →
  byte_at m p = byte_in (ms_tail m) (p - ms_tail_start m).
Proof.
  intros (Hh&_&_&?&_&_&Hb) Hp. unfold byte_at, in_region.
  replace (p <? blen (ms_header m)) with false by lia.
  replace (ms_tail_start m <=? p) with true by lia. replace (p <? ms_tail_start m + _) with true by lia.
  destruct (ms_base m) as [b|] eqn:E; [|done]. destruct (Hb b eq_refl) as (?&?&?).
  by replace (p <? region_offset b + _) with false by lia; rewrite andb_false_r.
Qed.

Lemma byte_at_gap m p :
  blen (ms_header m) ≤ p →
  (∀ b, ms_base m = Some b → in_region b p = false) →
  ¬ (ms_tail_start m ≤ p < ms_tail_start m + blen (ms_tail m)) → byte_at m p = Byte.x00.
Proof.
  intros Hh Hb Ht. unfold byte_at. replace (p <? blen (ms_header m)) with false by lia.
  replace ((ms_tail_start m <=? p) && (p <? ms_tail_start m + blen (ms_tail m))) with false
    by (symmetry; apply andb_false_iff; lia).
  destruct (ms_base m) as [b|] eqn:E; [|done]. by rewrite (Hb b eq_refl).
Qed.

Lemma wf_set_position m q : wf m → 0 ≤ q → wf (memory.set_position q m).
Proof. intros (?&?&?&?&?&?&?) ?. by split_and!. Qed.

(** One iteration of the read loop. *)
Lemma read_chunk_spec m wanted :
  wf m → 0 < wanted ≤ ms_len m - ms_position m →
  ∃ k, 0 < k ≤ wanted
    ∧ memory.read_chunk wanted m
      = (Ok (range m (ms_position m) k), memory.set_position (ms_position m + k) m).
Proof.
  intros Hwf Hw. pose proof Hwf as (Hh&Hhl&Hlen&Hts&Hp&Ht&Hb).
  unfold memory.read_chunk. rewrite (M_bind_ok (gets _) _ m m m eq_refl). set (p := ms_position m) in *.
  assert (Hcopy : ∀ src off, 0 ≤ off → off ≤ p < off + blen src →
      (∀ q, off ≤ q < off + blen src → byte_at m q = byte_in src (q - off)) →
      ∃ k, 0 < k ≤ wanted ∧
        (chunk ← lift (index_range src (p - off) (p - off + Z.min (blen src - (p - off)) wanted));
         _ ← modify (memory.set_position (p + Z.min (blen src - (p - off)) wanted)); mret chunk) m
        = (Ok (range m p k), memory.set_position (p + k) m)).
  { intros src off Ho Hin Hsrc. exists (Z.min (blen src - (p - off)) wanted). split; [lia|].
    unfold index_range. rewrite (range_slice m src off) by (done || lia). done. }
  cbv zeta. destruct (p <? blen (ms_header m)) eqn:E1; bool_prop.
  { destruct (Hcopy (ms_header m) 0) as (k&Hk&Hr); [lia|lia| |].
    - intros q Hq. rewrite byte_at_header by lia. by rewrite Z.sub_0_r.
    - exists k. rewrite Z.sub_0_r in Hr. done. }
  assert (Htail : ms_tail_start m ≤ p < ms_tail_start m + blen (ms_tail m) → ∃ k, 0 < k ≤ wanted ∧
      (chunk ← lift (index_range (ms_tail m) (p - ms_tail_start m)
         (p - ms_tail_start m + Z.min (blen (ms_tail m) - (p - ms_tail_start m)) wanted));
       _ ← modify (memory.set_position
         (p + Z.min (blen (ms_tail m) - (p - ms_tail_start m)) wanted)); mret chunk) m
      = (Ok (range m p k), memory.set_position (p + k) m)).
  { intros. apply Hcopy; [unfold superblock.DATA_START, superblock.SUPERBLOCK_SIZE in *; lia|lia|].
    intros q Hq. by apply byte_at_tail. }
  assert (Hgap : ∀ next, p < next → (∀ q, p ≤ q < next → byte_at m q = Byte.x00) →
      ∃ k, 0 < k ≤ wanted ∧
        (_ ← modify (memory.set_position (p + Z.min (next - p) wanted));
         mret (replicate (Z.to_nat (Z.min (next - p) wanted)) Byte.x00)) m
        = (Ok (range m p k), memory.set_position (p + k) m)).
  { intros next Hn Hz. exists (Z.min (next - p) wanted). split; [lia|].
    rewrite (range_zero m p) by (lia || (intros; apply Hz; lia)). done. }
  destruct (ms_base m) as [b|] eqn:E2.
  - destruct (Hb b eq_refl) as (?&?&?).
    destruct ((region_offset b <=? p) && (p <? region_offset b + blen (region_bytes b))) eqn:E3.
    + apply andb_true_iff in E3 as [??]. bool_prop.
      apply (Hcopy (region_bytes b) (region_offset b));
        [unfold superblock.DATA_START, superblock.SUPERBLOCK_SIZE in *; lia|lia|].
      intros q Hq. by apply byte_at_base.
    + destruct ((ms_tail_start m <=? p) && _) eqn:E4;
        [apply andb_true_iff in E4 as [??]; bool_prop; by apply Htail|].
      apply andb_false_iff in E3, E4. apply Hgap; [repeat case_match; lia|].
      intros q Hq. apply byte_at_gap; [lia| |].
      * intros b' Eb. rewrite E2 in Eb. injection Eb as <-. unfold in_region. apply andb_false_iff. repeat case_match; bool_prop; lia.
      * pose proof (blen_nonneg (ms_tail m)). repeat case_match; bool_prop; lia.
  - destruct ((ms_tail_start m <=? p) && _) eqn:E4;
      [apply andb_true_iff in E4 as [??]; bool_prop; by apply Htail|].
    apply andb_false_iff in E4. apply Hgap; [case_match; lia|].
    intros q Hq. apply byte_at_gap; [lia|by rewrite E2|]. case_match; bool_prop; lia.
Qed.

Lemma read_loop_spec m fuel wanted :
  wf m → 0 ≤ wanted ≤ ms_len m - ms_position m → wanted ≤ Z.of_nat fuel →
  memory.read_loop fuel wanted m
  = (Ok (range m (ms_position m) wanted), memory.set_position (ms_position m + wanted) m).
Proof.
  revert m wanted. induction fuel as [|fuel IH]; intros m wanted Hwf Hw Hf; cbn [memory.read_loop].
  { replace (wanted <=? 0) with true by lia. replace wanted with 0 by lia. rewrite Z.add_0_r.
    by destruct m. }
  destruct (wanted <=? 0) eqn:E; bool_prop.
  { replace wanted with 0 by lia. rewrite Z.add_0_r. by destruct m. }
  destruct (read_chunk_spec m wanted Hwf ltac:(lia)) as (k&Hk&Hr). mrun Hr.
  rewrite blen_range by lia. pose proof Hwf as (_&_&_&_&?&_).
  assert (Hwf' : wf (memory.set_position (ms_position m + k) m)) by (apply wf_set_position; [done|lia]).
  rewrite (M_bind_ok _ _ _ _ _ (IH _ (wanted - k) Hwf' ltac:(cbn; lia) ltac:(lia))).
  cbn [ms_position memory.set_position]. rewrite range_set_position.
  replace wanted with (k + (wanted - k)) at 3 by lia. rewrite range_app by lia.
  unfold mret, M_ret. unfold memory.set_position. cbn. do 2 f_equal. lia.
Qed.

Lemma read_spec m n :
  wf m → 0 ≤ n →
  let k := Z.max 0 (Z.min (ms_len m - ms_position m) n) in
  memory.read n m = (Ok (range m (ms_position m) k), memory.set_position (ms_position m + k) m).
Proof.
  intros Hwf Hn k. unfold memory.read. rewrite (M_bind_ok (gets _) _ m m m eq_refl).
  destruct ((n =? 0) || (ms_len m <=? ms_position m)) eqn:E.
  - apply orb_true_iff in E. replace k with 0 by lia. rewrite Z.add_0_r. by destruct m.
  - apply orb_false_iff in E as [??]. bool_prop. replace k with (Z.min (ms_len m - ms_position m) n) by lia.
    apply read_loop_spec; [done|lia|lia].
Qed.

(** While there is no Base, the tail backs everything behind the header. *)
Definition backed m : Prop :=
  ms_base m = None → ms_tail_start m = DATA_START
    ∧ (DATA_START ≤ ms_len m → DATA_START + blen (ms_tail m) = ms_len m).

Lemma read_exact_spec m n :
  wf m → 0 ≤ n ≤ ms_len m - ms_position m →
  read_exact n m = (Ok (range m (ms_position m) n), memory.set_position (ms_position m + n) m).
Proof.
  intros Hwf Hn. unfold read_exact. destruct (Z.to_nat n) as [|f] eqn:Ef.
  { replace n with 0 by lia. cbn. rewrite Z.add_0_r. by destruct m. }
  cbn [read_exact_loop]. replace (n =? 0) with false by lia.
  pose proof (read_spec m n Hwf ltac:(lia)) as Hr. cbv zeta in Hr.
  replace (Z.max 0 (Z.min (ms_len m - ms_position m) n)) with n in Hr by lia.
  assert (Hr' : Io.read n m = (Ok (range m (ms_position m) n), memory.set_position (ms_position m + n) m))
    by exact Hr.
  rewrite (M_bind_ok _ _ _ _ _ Hr').
  assert (Hl : blen (range m (ms_position m) n) = n) by (apply blen_range; lia).
  destruct (range m (ms_position m) n) as [|x l] eqn:E; [rewrite blen_nil in Hl; lia|].
  rewrite Hl, Z.sub_diag.
  assert (H0 : ∀ t : MemoryStorage, read_exact_loop f 0 t = (Ok [], t)) by (by destruct f).
  rewrite (M_bind_ok _ _ _ _ _ (H0 _)), app_nil_r. done.
Qed.

(** Loading a range returns the bytes of the image; the Base that is installed
    on the way out of the tail does not change it. *)
Lemma load_immutable_spec m offset size :
  wf m → backed m → (∀ n, try_reserve n = true) → 0 ≤ offset → 0 < size → offset + size ≤ ms_len m →
  ∃ b m', memory.load_immutable offset size m = (Ok b, m')
    ∧ BaseBytes.deref b = Ok (range m offset size)
    ∧ wf m' ∧ backed m' ∧ ms_len m' = ms_len m ∧ ms_position m' = ms_position m
    ∧ (∀ p, byte_at m' p = byte_at m p).
Proof.
  intros Hwf Hbk Ha Ho Hs Hend. pose proof Hwf as (Hh&Hhl&Hlen&Hts&Hp&Ht&Hb).
  unfold memory.load_immutable. rewrite (M_bind_ok (gets _) _ m m m eq_refl).
  replace (size =? 0) with false by lia. cbn [fail_if]. rewrite M_lift_ok.
  rewrite checked_add_ok by lia. cbn [opt_filter]. replace (offset + size <=? ms_len m) with true by lia.
  cbn [ok_or]. rewrite M_lift_ok.
  assert (Hcopy : ∃ b m', (_ ← lift (fail_if (negb (try_reserve size))
                    (error.from_io OutOfMemory "could not allocate immutable bytes"));
        let previous := ms_position m in
        _ ← modify (memory.set_position offset);
        catch (read_exact size) (λ r,
          _ ← modify (memory.set_position previous);
          bs ← lift r;
          mret (BaseBytes.Memory bs 0 (blen bs)))) m = (Ok b, m')
    ∧ BaseBytes.deref b = Ok (range m offset size)
    ∧ wf m' ∧ backed m' ∧ ms_len m' = ms_len m ∧ ms_position m' = ms_position m
    ∧ (∀ p, byte_at m' p = byte_at m p)).
  { rewrite Ha. cbn [negb fail_if]. rewrite M_lift_ok. cbv zeta.
    rewrite (M_bind_ok (modify _) _ m () (memory.set_position offset m) eq_refl). unfold catch.
    rewrite read_exact_spec; [|by apply wf_set_position|cbn; lia].
    eexists _, _. split; [done|]. split.
    { cbn [BaseBytes.deref]. unfold index_range. by rewrite get_range_all. }
    split; [by split_and!|]. by split_and!. }
  destruct (ms_base m) as [b|] eqn:Eb.
  - destruct ((region_offset b <=? offset) && _) eqn:E.
    + apply andb_true_iff in E as [??]. bool_prop. destruct (Hb b eq_refl) as (?&?&?).
      eexists _, m. split; [done|]. split; [|by split_and!]. cbn [BaseBytes.deref]. unfold index_range.
      replace (offset + size - region_offset b) with (offset - region_offset b + size) by lia.
      rewrite (range_slice m (region_bytes b) (region_offset b)); [done| | | | |].
      1: unfold superblock.DATA_START, superblock.SUPERBLOCK_SIZE in *; lia.
      1-3: lia. intros q Hq. by apply byte_at_base.
    + rewrite bool_decide_true by done. exact Hcopy.
  - rewrite bool_decide_false by (intros [? ?]; done). cbn [negb andb].
    destruct ((offset =? ms_tail_start m) && (offset + size =? ms_len m)) eqn:E; [|exact Hcopy].
    apply andb_true_iff in E as [??]. bool_prop. destruct (Hbk Eb) as [Hts0 Htl]. specialize (Htl ltac:(lia)).
    eexists _, _. split; [done|]. split.
    { cbn [BaseBytes.deref]. unfold index_range. rewrite get_range_all by done. cbn. f_equal.
      pose proof (range_slice m (ms_tail m) (ms_tail_start m) offset size) as Hr.
      replace (offset - ms_tail_start m) with 0 in Hr by lia.
      rewrite get_range_all in Hr by lia. symmetry.
      assert (Some (ms_tail m) = Some (range m offset size)) as [= <-]; [|done].
      unfold superblock.DATA_START, superblock.SUPERBLOCK_SIZE in *.
      apply Hr; [lia|lia|lia|lia|]. intros q Hq. by apply byte_at_tail. }
    split; [|split; [intros E'; discriminate E'|split; [done|split; [done|]]]].
    + unfold wf. cbn. split_and!; try done; try lia. intros b' [= <-]. cbn. lia.
    + intros p. unfold byte_at. cbn. rewrite Eb. unfold in_region. cbn [region_offset region_bytes].
      destruct (p <? blen (ms_header m)) eqn:?; [done|].
      replace offset with (ms_tail_start m) by lia. destruct (_ && _) eqn:?; [done|].
      rewrite blen_nil, Z.add_0_r. by case_match.
Qed.

Lemma resize_bytes_ok (bs : bytes) n :
  (∀ k, try_reserve k = true) →
  memory.resize_bytes bs n = Ok (take (Z.to_nat n) bs ++ replicate (Z.to_nat (n - blen bs)) Byte.x00).
Proof. intros Ha. unfold memory.resize_bytes. by rewrite Ha, andb_false_r. Qed.

(** The buffer of a write: resized to the end of the write, then overwritten. *)
Definition resized (bs : bytes) n : bytes :=
  take (Z.to_nat n) bs ++ replicate (Z.to_nat (n - blen bs)) Byte.x00.

Lemma splice_resized (bs data : bytes) p :
  0 ≤ p → blen bs ≤ p + blen data → splice (resized bs (p + blen data)) p data = splice bs p data.
Proof.
  intros Hp Hl. pose proof (blen_nonneg data). pose proof (blen_nonneg bs). unfold resized.
  rewrite take_ge by (unfold blen in *; lia). apply list_eq. intros i.
  rewrite !splice_lookup, !blen_app, blen_replicate by lia. repeat case_decide; try done; try lia.
  - by rewrite lookup_app_l by (unfold blen in *; lia).
  - rewrite lookup_app_r by (unfold blen in *; lia).
    rewrite lookup_replicate_2 by (unfold blen in *; lia). done.
  - rewrite lookup_app_r by (unfold blen in *; lia).
    trans (@None byte); [apply lookup_replicate_None|symmetry; apply lookup_ge_None_2];
      unfold blen in *; lia.
Qed.

Lemma blen_splice_resized (bs data : bytes) p :
  0 ≤ p → blen (splice (resized bs (p + blen data)) p data) = p + blen data.
Proof.
  intros Hp. pose proof (blen_nonneg data). rewrite blen_splice by done. unfold resized. len.
Qed.

Lemma byte_in_splice (bs data : bytes) p q :
  0 ≤ p → 0 ≤ q →
  byte_in (splice bs p data) q
  = if decide (q < p) then byte_in bs q
    else if decide (q < p + blen data) then byte_in data (q - p) else byte_in bs q.
Proof.
  intros Hp Hq. unfold byte_in. rewrite splice_lookup by done. rewrite Z2Nat.id by done.
  repeat case_decide; try done.
  - rewrite lookup_ge_None_2; [done|unfold blen in *; lia].
  - do 2 f_equal. lia.
Qed.

Lemma byte_in_ge (bs : bytes) q : blen bs ≤ q → byte_in bs q = Byte.x00.
Proof. intros. unfold byte_in. rewrite lookup_ge_None_2; [done|unfold blen in *; lia]. Qed.

Lemma byte_at_low m q : wf m → 0 ≤ q < DATA_START → byte_at m q = byte_in (ms_header m) q.
Proof.
  intros (Hh&_&_&Hts&_&_&Hb) Hq. destruct (decide (q < blen (ms_header m))); [apply byte_at_header; lia|].
  rewrite byte_in_ge by lia. apply byte_at_gap; [lia| |lia]. intros b Eb. destruct (Hb b Eb) as (?&?&?).
  unfold in_region. by replace (region_offset b <=? q) with false by lia.
Qed.

Lemma byte_at_high m q :
  wf m → ms_tail_start m ≤ q → byte_at m q = byte_in (ms_tail m) (q - ms_tail_start m).
Proof.
  intros Hwf Hq. pose proof Hwf as (Hh&_&_&Hts&_&_&Hb).
  destruct (decide (q < ms_tail_start m + blen (ms_tail m))); [by apply byte_at_tail|].
  rewrite byte_in_ge by lia. apply byte_at_gap; [lia| |lia]. intros b Eb. destruct (Hb b Eb) as (?&?&?).
  unfold in_region. replace (q <? _) with false by lia. apply andb_false_r.
Qed.

(** A write into the header; it ends at or behind the end of the header. *)
Lemma write_header_spec m (bs : bytes) :
  wf m → (∀ n, try_reserve n = true) → bs ≠ [] →
  ms_position m + blen bs ≤ DATA_START → blen (ms_header m) ≤ ms_position m + blen bs →
  let end_ := ms_position m + blen bs in
  let m' := MkMemory (splice (ms_header m) (ms_position m) bs) (ms_base m) (ms_tail_start m) (ms_tail m)
              (Z.max (ms_len m) end_) end_ in
  memory.write bs m = (Ok (blen bs), m') ∧ wf m' ∧ blen (ms_header m') = end_
  ∧ ∀ q, 0 ≤ q → byte_at m' q =
      if decide (ms_position m ≤ q < end_) then byte_in bs (q - ms_position m) else byte_at m q.
Proof.
  intros Hwf Ha Hne Hend Hr end_ m'. pose proof Hwf as (Hh&Hhl&Hlen&Hts&Hp&Ht&Hb).
  pose proof (blen_pos bs Hne) as Hbl. pose proof (blen_nonneg (ms_header m)).
  assert (HD : DATA_START = 8192) by done.
  assert (Hl : blen (splice (ms_header m) (ms_position m) bs) = end_) by (rewrite blen_splice by done; lia).
  assert (Hwf' : wf m').
  { unfold wf, m'. cbn [ms_header ms_base ms_tail_start ms_tail ms_len ms_position].
    split_and!; try lia; [intros Hn; specialize (Ht Hn); lia|]. intros b Eb. specialize (Hb b Eb). lia. }
  split; [|split; [done|split; [done|]]].
  - unfold memory.write. destruct bs as [|b0 bs0]; [done|]. fold end_.
    rewrite (M_bind_ok (gets _) _ m m m eq_refl). fold end_.
    rewrite (checked_add_ok (ms_position m)) by lia. cbn [ok_or]. rewrite M_lift_ok. fold end_.
    replace (end_ <=? DATA_START) with true by lia. rewrite resize_bytes_ok by done.
    fold (resized (ms_header m) end_). cbn [memory.map_io]. unfold m'.
    rewrite <- (splice_resized (ms_header m) (b0 :: bs0) (ms_position m)) by done. done.
  - intros q Hq. destruct (decide (q < DATA_START)).
    + rewrite !byte_at_low by (done || lia). cbn [m' ms_header]. rewrite byte_in_splice by lia.
      repeat case_decide; try done; lia.
    + rewrite decide_False by lia. unfold byte_at, m'. cbn [ms_header ms_base ms_tail_start ms_tail].
      rewrite Hl. replace (q <? end_) with false by lia. by replace (q <? blen (ms_header m)) with false by lia.
Qed.

(** A write into the tail; it ends at or behind the end of the tail. *)
Lemma write_tail_spec m (bs : bytes) :
  wf m → (∀ n, try_reserve n = true) → bs ≠ [] → ms_position m + blen bs ≤ ISIZE_MAX →
  ms_tail_start m ≤ ms_position m → ms_tail_start m + blen (ms_tail m) ≤ ms_position m + blen bs →
  ms_base m = None ∨ ms_tail_start m ≤ ms_len m →
  let end_ := ms_position m + blen bs in
  let m' := MkMemory (ms_header m) (ms_base m) (ms_tail_start m)
              (splice (ms_tail m) (ms_position m - ms_tail_start m) bs) (Z.max (ms_len m) end_) end_ in
  memory.write bs m = (Ok (blen bs), m') ∧ wf m' ∧ ms_tail_start m + blen (ms_tail m') = end_
  ∧ ∀ q, 0 ≤ q → byte_at m' q =
      if decide (ms_position m ≤ q < end_) then byte_in bs (q - ms_position m) else byte_at m q.
Proof.
  intros Hwf Ha Hne Hmax Hpos Hr Hbl0 end_ m'. pose proof Hwf as (Hh&Hhl&Hlen&Hts&Hp&Ht&Hb).
  pose proof (blen_pos bs Hne) as Hbl. pose proof (blen_nonneg (ms_header m)).
  pose proof (blen_nonneg (ms_tail m)). assert (HD : DATA_START = 8192) by done.
  assert (Hl : blen (splice (ms_tail m) (ms_position m - ms_tail_start m) bs) = end_ - ms_tail_start m)
    by (rewrite blen_splice by lia; lia).
  assert (Hwf' : wf m').
  { unfold wf, m'. cbn [ms_header ms_base ms_tail_start ms_tail ms_len ms_position].
    split_and!; try lia; intros b Eb; specialize (Hb b Eb); lia. }
  split; [|split; [done|split; [cbn [m' ms_tail]; lia|]]].
  - unfold memory.write. destruct bs as [|b0 bs0]; [done|].
    rewrite (M_bind_ok (gets _) _ m m m eq_refl).
    rewrite (checked_add_ok (ms_position m)) by lia. cbn [ok_or]. rewrite M_lift_ok. fold end_.
    replace (end_ <=? DATA_START) with false by lia.
    replace (ms_tail_start m <=? ms_position m) with true by lia.
    rewrite (checked_add_ok (ms_position m - ms_tail_start m)) by lia. cbn [ok_or].
    unfold lift, mbind, M_bind. cbv beta iota. rewrite resize_bytes_ok by done.
    fold (resized (ms_tail m) (ms_position m - ms_tail_start m + blen (b0 :: bs0))). cbn [memory.map_io].
    unfold m'. rewrite <- (splice_resized (ms_tail m) (b0 :: bs0) (ms_position m - ms_tail_start m)) by lia.
    done.
  - intros q Hq. destruct (decide (ms_tail_start m ≤ q)).
    + rewrite !byte_at_high by done. cbn [m' ms_tail ms_tail_start]. rewrite byte_in_splice by lia.
      repeat case_decide; try done; try lia. f_equal. lia.
    + rewrite decide_False by lia. unfold byte_at, m'. cbn [ms_header ms_base ms_tail_start ms_tail].
      by replace (ms_tail_start m <=? q) with false by lia.
Qed.

Lemma blen_image m : wf m → blen (image m) = ms_len m.
Proof. intros (?&?&_). apply blen_range. pose proof (blen_nonneg (ms_header m)). lia. Qed.

Lemma image_lookup m i :
  image m !! i = if decide (Z.of_nat i < ms_len m) then Some (byte_at m (Z.of_nat i)) else None.
Proof.
  unfold image, range. rewrite list_lookup_fmap. case_decide.
  - by rewrite lookup_seqZ_lt by lia.
  - by rewrite lookup_seqZ_ge by lia.
Qed.

Lemma image_range m p n :
  wf m → 0 ≤ p → 0 ≤ n → p + n ≤ ms_len m → get_range (image m) p (p + n) = Some (range m p n).
Proof.
  intros Hwf ???. rewrite get_range_in_bounds by (rewrite ?blen_image by done; lia). f_equal.
  replace (p + n - p) with n by lia. apply list_eq. intros i. unfold range. rewrite list_lookup_fmap.
  destruct (decide (Z.of_nat i < n)).
  - rewrite lookup_take_lt, lookup_drop, image_lookup, lookup_seqZ_lt by lia.
    rewrite decide_True by lia. cbn. do 2 f_equal. lia.
  - by rewrite lookup_take_ge, lookup_seqZ_ge by lia.
Qed.

(** A store that changes the bytes of a range splices them into the image. *)
Lemma image_splice m m' p (bs : bytes) :
  wf m → wf m' → 0 ≤ p → ms_len m' = Z.max (ms_len m) (p + blen bs) →
  (∀ q, 0 ≤ q → byte_at m' q = if decide (p ≤ q < p + blen bs) then byte_in bs (q - p) else byte_at m q) →
  (∀ q, ms_len m ≤ q → byte_at m q = Byte.x00) →
  image m' = splice (image m) p bs.
Proof.
  intros Hwf Hwf' Hp Hl Hq Hz. apply list_eq. intros i.
  rewrite image_lookup, splice_lookup, blen_image, image_lookup by done. rewrite Hl, Hq by lia.
  pose proof (blen_nonneg bs).
  repeat case_decide; try done; try lia.
  - unfold byte_in. replace (i - Z.to_nat p)%nat with (Z.to_nat (Z.of_nat i - p)) by lia.
    destruct (lookup_lt_is_Some_2 bs (Z.to_nat (Z.of_nat i - p))) as [x ->]; [unfold blen in *; lia|done].
  - f_equal. apply Hz. lia.
Qed.

Lemma byte_at_beyond m q : wf m → ms_len m ≤ q → byte_at m q = Byte.x00.
Proof.
  intros (Hh&Hhl&_&Hts&_&Ht&Hb) Hq. apply byte_at_gap; [lia| |].
  - intros b Eb. destruct (Hb b Eb) as (?&?&?). unfold in_region.
    replace (q <? _) with false by lia. apply andb_false_r.
  - destruct (ms_tail m) as [|x t] eqn:E; [rewrite blen_nil; lia|].
    specialize (Ht ltac:(done)). lia.
Qed.

End Facts.

(** ** Properties *)

Section Properties.
Context `{Alloc}.

(** The volatile backend reads as one byte string. Across the header, the
    shared Base, the tail and the gaps between them, [read] returns exactly the
    next bytes of the logical image, up to its end, and advances by as much. *)
Theorem memory_reads_image m n :
  wf m → 0 ≤ n → ms_position m ≤ ms_len m →
  let k := Z.min (ms_len m - ms_position m) n in
  ∃ bs, get_range (image m) (ms_position m) (ms_position m + k) = Some bs
    ∧ memory.read n m = (Ok bs, memory.set_position (ms_position m + k) m).
Proof.
  intros Hwf Hn Hp k. pose proof Hwf as (_&_&_&_&?&_). exists (range m (ms_position m) k).
  split; [apply image_range; [done|lia..]|].
  rewrite (read_spec m n Hwf Hn). cbv zeta. by replace (Z.max 0 _) with k by lia.
Qed.

(** Loading is reading. A range that lies inside the storage is returned as
    immutable bytes equal to that range of the image, whether it is shared with
    the Base, moved out of the tail or copied; the image, its length and the
    position stay as they are. *)
Theorem memory_load_reads_image m offset size :
  wf m → backed m → (∀ n, try_reserve n = true) → 0 ≤ offset → 0 < size → offset + size ≤ ms_len m →
  ∃ b m' bs, memory.load_immutable offset size m = (Ok b, m')
    ∧ get_range (image m) offset (offset + size) = Some bs ∧ BaseBytes.deref b = Ok bs
    ∧ wf m' ∧ image m' = image m ∧ ms_position m' = ms_position m.
Proof.
  intros Hwf Hbk Ha Ho Hs He.
  destruct (load_immutable_spec m offset size Hwf Hbk Ha Ho Hs He) as (b&m'&Hl&Hd&Hwf'&_&Hlen&Hp&Hq).
  exists b, m', (range m offset size). split_and!; try done; [apply image_range; [done|lia..]|].
  unfold image. rewrite Hlen. apply range_ext. intros; apply Hq.
Qed.

(** Appending writes go to the image. A write that ends at or behind the end
    of the header, or of the tail, returns the full length and splices the bytes
    into the image at the position. *)
Theorem memory_write_splices m bs :
  wf m → (∀ n, try_reserve n = true) → bs ≠ [] → ms_position m + blen bs ≤ ISIZE_MAX →
  (ms_position m + blen bs ≤ superblock.DATA_START ∧ blen (ms_header m) ≤ ms_position m + blen bs)
  ∨ (ms_tail_start m ≤ ms_position m ∧ ms_tail_start m + blen (ms_tail m) ≤ ms_position m + blen bs
     ∧ (ms_base m = None ∨ ms_tail_start m ≤ ms_len m)) →
  ∃ m', memory.write bs m = (Ok (blen bs), m') ∧ wf m'
    ∧ image m' = splice (image m) (ms_position m) bs ∧ ms_position m' = ms_position m + blen bs.
Proof.
  intros Hwf Ha Hne Hmax Hreg. pose proof Hwf as (_&_&_&_&?&_).
  assert (Hz : ∀ q, ms_len m ≤ q → byte_at m q = Byte.x00) by (intros; by apply byte_at_beyond).
  destruct Hreg as [[He Hh]|(Hts&Ht&Hb)].
  - destruct (write_header_spec m bs Hwf Ha Hne He Hh) as (Hw&Hwf'&_&Hq).
    eexists. split; [exact Hw|]. split; [done|]. split; [|done]. by apply image_splice.
  - destruct (write_tail_spec m bs Hwf Ha Hne Hmax Hts Ht Hb) as (Hw&Hwf'&_&Hq).
    eexists. split; [exact Hw|]. split; [done|]. split; [|done]. by apply image_splice.
Qed.

(** C38: a write that ends inside the stored header cuts the header off. [write] resizes the
    header to the end of the write, so every byte the area of the root pages held behind it
    reads as zero afterwards, although the storage keeps its length: writing the first root
    page drops the second one. A write to a file replaces the bytes it covers and no
    others. *)
Theorem memory_write_truncates m bs :
  wf m → (∀ n, try_reserve n = true) → bs ≠ [] → ms_position m + blen bs < blen (ms_header m) →
  ∃ m', memory.write bs m = (Ok (blen bs), m') ∧ wf m' ∧ ms_len m' = ms_len m
    ∧ ∀ q, ms_position m + blen bs ≤ q < superblock.DATA_START → byte_at m' q = Byte.x00.
Proof.
  intros Hwf Ha Hne Hend. pose proof Hwf as (Hh&Hhl&Hlen&Hts&Hp&Ht&Hb).
  pose proof (blen_pos bs Hne) as Hbl. assert (HD : superblock.DATA_START = 8192) by done.
  set (end_ := ms_position m + blen bs) in *.
  assert (Hl : blen (splice (resized (ms_header m) end_) (ms_position m) bs) = end_)
    by (apply blen_splice_resized; done).
  exists (MkMemory (splice (resized (ms_header m) end_) (ms_position m) bs) (ms_base m) (ms_tail_start m)
       (ms_tail m) (Z.max (ms_len m) end_) end_).
  match goal with |- _ ∧ wf ?x ∧ _ => assert (Hwf' : wf x) end.
  { unfold wf. cbn [ms_header ms_base ms_tail_start ms_tail ms_len ms_position].
    split_and!; try lia; [intros Hn; specialize (Ht Hn); lia|]. intros b Eb. specialize (Hb b Eb). lia. }
  split; [|split; [done|split; [cbn [ms_len]; lia|]]].
  - unfold memory.write. destruct bs as [|b0 bs0]; [done|].
    rewrite (M_bind_ok (gets _) _ m m m eq_refl).
    rewrite (checked_add_ok (ms_position m)) by lia. cbn [ok_or]. rewrite M_lift_ok. fold end_.
    replace (end_ <=? superblock.DATA_START) with true by lia. by rewrite resize_bytes_ok by done.
  - intros q Hq. rewrite byte_at_low by (done || lia). cbn [ms_header]. apply byte_in_ge. lia.
Qed.

End Properties.

(** *** A concrete store: two root pages, a Base of three bytes and a tail *)

Import RefInstances.

Definition demo_store : MemoryStorage :=
  MkMemory (replicate 8192 Byte.x01) (Some (MkRegion 8192 [Byte.x02; Byte.x03; Byte.x04])) 8200
    [Byte.x05] 8201 8190.

Lemma demo_wf : wf demo_store.
Proof.
  unfold wf, demo_store. cbn [ms_header ms_base ms_tail_start ms_tail ms_len ms_position].
  rewrite blen_replicate.
  split_and!; [vm_compute; discriminate..|lia| |].
  - intros _. vm_compute. discriminate.
  - intros b [= <-]. split_and!; vm_compute; discriminate.
Qed.

Lemma memory_reads_image_witness :
  ∃ bs, memory.read 20 demo_store = (Ok bs, memory.set_position 8201 demo_store).
Proof.
  destruct (memory_reads_image demo_store 20 demo_wf) as (bs&_&Hr); [lia|vm_compute; discriminate|].
  exists bs. exact Hr.
Defined.

Lemma memory_load_reads_image_witness :
  ∃ b m' bs, memory.load_immutable 8193 2 demo_store = (Ok b, m') ∧ BaseBytes.deref b = Ok bs.
Proof.
  destruct (memory_load_reads_image demo_store 8193 2 demo_wf) as (b&m'&bs&Hl&_&Hd&_).
  - intros E. discriminate E.
  - reflexivity.
  - lia.
  - lia.
  - vm_compute. discriminate.
  - exists b, m', bs. split; [exact Hl|exact Hd].
Defined.

Lemma memory_write_splices_witness :
  ∃ m', memory.write [Byte.x09; Byte.x0a] (memory.set_position 8200 demo_store) = (Ok 2, m')
    ∧ ms_position m' = 8202.
Proof.
  destruct (memory_write_splices (memory.set_position 8200 demo_store) [Byte.x09; Byte.x0a])
    as (m'&Hw&_&_&Hp).
  - apply wf_set_position; [exact demo_wf|lia].
  - reflexivity.
  - discriminate.
  - vm_compute. discriminate.
  - right. split; [vm_compute; discriminate|]. split; [vm_compute; discriminate|right; vm_compute; discriminate].
  - exists m'. split; [exact Hw|exact Hp].
Defined.

Lemma memory_write_truncates_witness :
  ∃ m', memory.write [Byte.x09] (memory.set_position 0 demo_store) = (Ok 1, m')
    ∧ byte_at m' 4096 = Byte.x00.
Proof.
  destruct (memory_write_truncates (memory.set_position 0 demo_store) [Byte.x09]) as (m'&Hw&_&_&Hq).
  - apply wf_set_position; [exact demo_wf|lia].
  - reflexivity.
  - discriminate.
  - reflexivity.
  - exists m'. split; [exact Hw|]. apply Hq. split; [vm_compute; discriminate|reflexivity].
Defined.

End memory_facts.
