(* ===== verification/Transaction.v ===== *)
(** * Write transactions

    The staging area of [database/transaction.rs]: [put], [put_reserved] with the
    sequential writer it hands to its callback, [delete], the limits they check
    and the cached checksums of large values. The part of a transaction that
    reads or commits to the database is in [Database]. *)

From S2P Require Import Prelude Errors Crates Io Superblock Values Log Segment Overlay Recovery.

(** Anonymous mappings of [memmap2]: both calls may fail; a fresh mapping is
    zero-filled. *)
Class MmapAnon := {
  map_anon : Z → result ();
  make_read_only : Z → result ()
}.

(** ** [ReservedValue] *)

Record ReservedValue := MkReserved {
  rsv_bytes : bytes;
  rsv_position : Z;
  rsv_checksum : option Z
}.

Module reserved.
Section Reserved.
Context `{Crc32c}.

Definition new (bs : bytes) (checksum : bool) : ReservedValue :=
  MkReserved bs 0 (if checksum then Some 0 else None).

Definition len (r : ReservedValue) : Z := blen (rsv_bytes r).
Definition is_empty (r : ReservedValue) : bool := bool_decide (rsv_bytes r = []).
Definition written (r : ReservedValue) : Z := rsv_position r.
Definition checksum (r : ReservedValue) : option Z := rsv_checksum r.

Definition require_complete (r : ReservedValue) : result () :=
  if rsv_position r =? blen (rsv_bytes r) then Ok () else
  Err (error.from_io InvalidInput
    ("reserved value is incomplete: wrote " +:+ fmt_num (rsv_position r) +:+ " of "
     +:+ fmt_num (blen (rsv_bytes r)) +:+ " bytes")).

(** [Write::write] of a [ReservedValue]. *)
Definition write (input : bytes) : M ReservedValue Z :=
  match input with
  | [] => mret 0
  | _ =>
      r ← gets (λ r : ReservedValue, r);
      let remaining := saturating_sub (blen (rsv_bytes r)) (rsv_position r) in
      _ ← lift (fail_if (remaining <? blen input)
                  (error.from_io InvalidInput "reserved value length exceeded"));
      _ ← lift (index_range (rsv_bytes r) (rsv_position r) (rsv_position r + blen input));
      _ ← modify (λ r, MkReserved (splice (rsv_bytes r) (rsv_position r) input)
                        (rsv_position r + blen input)
                        (match rsv_checksum r with
                         | Some c => Some (crc32c_append c input)
                         | None => None
                         end));
      mret (blen input)
  end.

(** The callback of [put_reserved]: any code that uses the public interface of
    the writer and ends with a result. *)
Inductive callback :=
  | Return (r : result ())
  | Write (input : bytes) (k : result Z → callback)
  | Observe (k : Z → Z → callback).   (* [len()], which [is_empty()] compares to zero, and [written()] *)

Fixpoint run (c : callback) : M ReservedValue () :=
  match c with
  | Return r => lift r
  | Write input k => λ s, let '(r, s) := write input s in run (k r) s
  | Observe k => λ s, run (k (len s) (written s)) s
  end.

End Reserved.
End reserved.

(** ** [WriteTransaction] *)

Record WriteTransaction := MkTx {
  tx_staged : KeyMap OverlayEntry;
  tx_value_checksums : KeyMap Z
}.

Module transaction.
Section Transaction.
Context `{Crc32c, Alloc, MmapAnon}.

Definition new : WriteTransaction := MkTx KeyMap.default KeyMap.default.

Definition check_single_put_size (key_len value_len : Z) : result () :=
  serialized ← ok_or (l ← checked_add 4 9; l ← checked_add l key_len; checked_add l value_len)
                     (error.from_io InvalidInput "value is too large");
  if serialized <=? log.MAX_LOG_PAYLOAD_SIZE then Ok ()
  else Err (error.from_io InvalidInput "value cannot fit in a transaction record").

Definition check_lengths_len (key : bytes) (value_len : Z) : result () :=
  _ ← fail_if (segment.MAX_VALUE_SIZE <? value_len)
        (error.from_io InvalidInput "value exceeds the format limit");
  _ ← segment.check_lengths key [];
  check_single_put_size (blen key) value_len.

Definition VALUE_COPY_CHUNK_SIZE : nat := Z.to_nat (256 * 1024).

(** [copy_value]: the value is copied and checksummed chunk by chunk. *)
Definition copy_value (value : bytes) : result (ValueBytes * Z) :=
  _ ← fail_if (negb (try_reserve (blen value)))
        (error.from_io OutOfMemory "could not copy value bytes");
  let '(bs, checksum) :=
    foldl (λ '(bs, checksum) chunk, (bs ++ chunk, crc32c_append checksum chunk)) ([], 0)
      (chunks VALUE_COPY_CHUNK_SIZE value) in
  Ok (ValueBytes.Owned bs, checksum).

(** The end of [put] and [put_reserved]: record or drop the checksum, then stage. *)
Definition stage (key : bytes) (value : ValueBytes) (checksum : option Z) : M WriteTransaction () :=
  modify (λ tx, MkTx (KeyMap.insert (tx_staged tx) key (OverlayEntry.Put value))
                  (match checksum with
                   | Some c => KeyMap.insert (tx_value_checksums tx) key c
                   | None => KeyMap.remove (tx_value_checksums tx) key
                   end)).

(** [put]; [memory] is [self.db.storage_is_memory()]. *)
Definition put (memory : bool) (key value : bytes) : M WriteTransaction () :=
  _ ← lift (segment.check_lengths key value);
  _ ← lift (check_single_put_size (blen key) (blen value));
  '(staged, checksum) ← lift (
    if (MAPPED_VALUE_THRESHOLD <=? blen value) && negb memory
    then '(v, c) ← copy_value value; Ok (v, Some c)
    else Ok (ValueBytes.Owned value, None));
  stage key staged checksum.

Definition zeroed (n : Z) : bytes := replicate (Z.to_nat n) Byte.x00.

(** Runs the callback on a fresh reservation: the filled buffer and the checksum. *)
Definition fill (value_len : Z) (checksum : bool) (c : reserved.callback)
    : result (bytes * option Z) :=
  let '(r, reserved) := reserved.run c (reserved.new (zeroed value_len) checksum) in
  _ ← r;
  _ ← reserved.require_complete reserved;
  Ok (rsv_bytes reserved, rsv_checksum reserved).

Definition put_reserved (memory : bool) (key : bytes) (value_len : Z) (c : reserved.callback)
    : M WriteTransaction () :=
  _ ← lift (check_lengths_len key value_len);
  '(value, checksum) ← lift (
    if (MAPPED_VALUE_THRESHOLD <=? value_len) && negb memory then
      _ ← map_anon value_len;
      '(mapping, checksum) ← fill value_len true c;
      _ ← make_read_only value_len;
      Ok (ValueBytes.Mapped (BaseBytes.Mapped mapping) 0 value_len, checksum)
    else
      _ ← fail_if (negb (try_reserve value_len))
            (error.from_io OutOfMemory "could not reserve value bytes");
      '(value, checksum) ← fill value_len
        ((MAPPED_VALUE_THRESHOLD <=? value_len) && negb memory) c;
      Ok (ValueBytes.Owned value, checksum));
  stage key value checksum.

Definition delete (key : bytes) : M WriteTransaction () :=
  _ ← lift (segment.check_lengths key []);
  modify (λ tx, MkTx (KeyMap.insert (tx_staged tx) key OverlayEntry.Delete)
                  (KeyMap.remove (tx_value_checksums tx) key)).

(** [get] of the staging area: the outer [None] falls through to the database. *)
Definition get_staged (tx : WriteTransaction) (key : bytes) : result (option (option bytes)) :=
  match KeyMap.get (tx_staged tx) key with
  | Some (OverlayEntry.Put value) => bs ← ValueBytes.as_slice value; Ok (Some (Some bs))
  | Some OverlayEntry.Delete => Ok (Some None)
  | None => Ok None
  end.

Definition len (tx : WriteTransaction) : Z := blen (tx_staged tx).
Definition is_empty (tx : WriteTransaction) : bool := len tx =? 0.

End Transaction.
End transaction.

(** ** The reference semantics

    A reservation is a string that grows up to its length; a transaction is the
    list of its mutations with the latest one per key. *)

Module tx_spec.
Section Spec.

(** What a callback does to a reservation of [n] bytes that holds [acc]. *)
Fixpoint run_callback (n : Z) (c : reserved.callback) (acc : bytes) : result () * bytes :=
  match c with
  | reserved.Return r => (r, acc)
  | reserved.Write input k =>
      if blen acc + blen input <=? n
      then run_callback n (k (Ok (blen input))) (acc ++ input)
      else run_callback n
             (k (Err (error.from_io InvalidInput "reserved value length exceeded"))) acc
  | reserved.Observe k => run_callback n (k n (blen acc)) acc
  end.

(** The value a callback leaves in a reservation, when it fills it. *)
Definition reserved_value (n : Z) (c : reserved.callback) : option bytes :=
  match run_callback n c [] with
  | (Ok _, bs) => if blen bs =? n then Some bs else None
  | _ => None
  end.

Definition put_fits (key_len value_len : Z) : Prop :=
  key_len ≤ segment.MAX_KEY_SIZE ∧ value_len ≤ segment.MAX_VALUE_SIZE
  ∧ 13 + key_len + value_len ≤ log.MAX_LOG_PAYLOAD_SIZE.
#[global] Instance put_fits_dec key_len value_len : Decision (put_fits key_len value_len).
Proof. unfold put_fits. apply _. Defined.

Inductive op :=
  | Put (key value : bytes)
  | PutReserved (key : bytes) (value_len : Z) (c : reserved.callback)
  | Delete (key : bytes).

(** The mutations after an operation; [None] when it is refused. *)
Definition step (muts : list mutation) (o : op) : option (list mutation) :=
  match o with
  | Put key value =>
      if decide (put_fits (blen key) (blen value)) then Some (KeyMap.insert muts key (Some value)) else None
  | PutReserved key n c =>
      if decide (put_fits (blen key) n)
      then bs ← reserved_value n c; Some (KeyMap.insert muts key (Some bs)) else None
  | Delete key =>
      if decide (blen key ≤ segment.MAX_KEY_SIZE) then Some (KeyMap.insert muts key None) else None
  end.

Definition steps (ops : list op) : list mutation :=
  foldl (λ muts o, default muts (step muts o)) [] ops.

End Spec.
End tx_spec.

(** The operations of the source on the same inputs. *)
Module tx_run.
Section Run.
Context `{Crc32c, Alloc, MmapAnon}.

Definition step (memory : bool) (o : tx_spec.op) : M WriteTransaction () :=
  match o with
  | tx_spec.Put key value => transaction.put memory key value
  | tx_spec.PutReserved key n c => transaction.put_reserved memory key n c
  | tx_spec.Delete key => transaction.delete key
  end.

Definition steps (memory : bool) (ops : list tx_spec.op) : WriteTransaction :=
  foldl (λ tx o, (step memory o tx).2) transaction.new ops.

End Run.
End tx_run.

(** ** Lemmas *)

Module tx_facts.
Section Facts.
Context `{Crc32cLaws, Alloc, MmapAnon}.
Implicit Types (tx : WriteTransaction) (muts : list mutation).

(** A reservation that holds [acc]. *)
Definition holding (n : Z) (ck : bool) (acc : bytes) (r : ReservedValue) : Prop :=
  rsv_bytes r = acc ++ transaction.zeroed (n - blen acc) ∧ blen acc ≤ n
  ∧ rsv_position r = blen acc ∧ rsv_checksum r = if ck then Some (crc32c acc) else None.

Lemma write_holding n ck acc r input :
  holding n ck acc r →
  if blen acc + blen input <=? n
  then ∃ r', reserved.write input r = (Ok (blen input), r') ∧ holding n ck (acc ++ input) r'
  else reserved.write input r = (Err (error.from_io InvalidInput "reserved value length exceeded"), r).
Proof.
  intros (Hb&Hn&Hp&Hc). pose proof (blen_nonneg acc). pose proof (blen_nonneg input).
  assert (Hl : blen (rsv_bytes r) = n) by (rewrite Hb; unfold transaction.zeroed; len).
  unfold reserved.write. destruct input as [|x input'].
  { rewrite blen_nil, Z.add_0_r. replace (blen acc <=? n) with true by lia.
    exists r. split; [done|]. by rewrite app_nil_r. }
  set (input := x :: input') in *. assert (0 < blen input) by (by apply blen_pos).
  rewrite (M_bind_ok (gets _) _ r r r eq_refl). rewrite Hl, Hp. unfold saturating_sub.
  replace (Z.max (n - blen acc) 0) with (n - blen acc) by lia.
  destruct (blen acc + blen input <=? n) eqn:E; bool_prop.
  - replace (n - blen acc <? blen input) with false by lia. cbn [fail_if]. rewrite M_lift_ok.
    unfold index_range. rewrite get_range_in_bounds by lia. cbn [unwrap]. rewrite M_lift_ok.
    eexists. split; [done|]. unfold holding. cbn [rsv_bytes rsv_position rsv_checksum].
    rewrite Hb, Hp, Hc, blen_app. split_and!; [|lia|done|].
    + unfold transaction.zeroed. rewrite splice_eq by lia. rewrite !blen_app, blen_replicate.
      rewrite take_app_le, take_ge by (unfold blen in *; lia).
      replace (Z.to_nat (blen acc - _)) with 0%nat by lia. cbn [replicate app].
      rewrite <- app_assoc. do 2 f_equal.
      rewrite drop_app_ge by (unfold blen in *; lia). rewrite drop_replicate. f_equal. unfold blen in *; lia.
    + destruct ck; [|done]. f_equal. rewrite !crc32c_is_append. by rewrite <- crc32c_append_app.
  - replace (n - blen acc <? blen input) with true by lia. done.
Qed.

Lemma run_holding n ck c acc r :
  holding n ck acc r →
  let '(o, acc') := tx_spec.run_callback n c acc in
  ∃ r', reserved.run c r = (o, r') ∧ holding n ck acc' r'.
Proof.
  revert acc r. induction c as [res|input k IH|k IH]; intros acc r Hh;
    cbn [tx_spec.run_callback reserved.run].
  - by exists r.
  - pose proof (write_holding n ck acc r input Hh) as Hw. destruct (_ <=? n).
    + destruct Hw as (r'&Hw&Hh'). rewrite Hw. by apply IH.
    + rewrite Hw. by apply IH.
  - pose proof Hh as (Hb&Hn&Hp&_). pose proof (blen_nonneg acc). unfold reserved.len, reserved.written.
    replace (blen (rsv_bytes r)) with n by (rewrite Hb; unfold transaction.zeroed; len).
    rewrite Hp. by apply IH.
Qed.

(** [fill] computes the value of the reservation, and its checksum. *)
Lemma fill_spec n ck c :
  0 ≤ n →
  match tx_spec.reserved_value n c with
  | Some bs => transaction.fill n ck c = Ok (bs, if ck then Some (crc32c bs) else None) ∧ blen bs = n
  | None => ∀ x, transaction.fill n ck c ≠ Ok x
  end.
Proof.
  intros Hn. unfold transaction.fill, tx_spec.reserved_value.
  pose proof (run_holding n ck c [] (reserved.new (transaction.zeroed n) ck)) as Hr.
  destruct (tx_spec.run_callback n c []) as [o bs]. destruct Hr as (r'&->&Hb&Hl&Hp&Hc).
  { unfold holding, reserved.new. cbn [rsv_bytes rsv_position rsv_checksum]. rewrite blen_nil, Z.sub_0_r.
    split_and!; try done. destruct ck; [|done]. by rewrite crc32c_is_append, crc32c_append_nil. }
  destruct o as [[]|e|]; [|done|done].
  unfold reserved.require_complete. rewrite Hp, Hb.
  assert (Hz : blen (bs ++ transaction.zeroed (n - blen bs)) = n).
  { unfold transaction.zeroed. pose proof (blen_nonneg bs). len. }
  rewrite Hz. destruct (blen bs =? n) eqn:E; bool_prop; [|done].
  split; [|done]. rewrite E, Z.sub_diag. unfold transaction.zeroed. cbn. by rewrite app_nil_r, Hc.
Qed.

Lemma copy_value_spec value :
  (∀ n, try_reserve n = true) → transaction.copy_value value = Ok (ValueBytes.Owned value, crc32c value).
Proof.
  intros Ha. unfold transaction.copy_value. rewrite Ha. cbn [negb fail_if]. rstep.
  assert (Hn : (0 < transaction.VALUE_COPY_CHUNK_SIZE)%nat) by (unfold transaction.VALUE_COPY_CHUNK_SIZE; lia).
  revert Hn. generalize transaction.VALUE_COPY_CHUNK_SIZE as n. intros n Hn.
  assert (Hf : ∀ acc, 0 ≤ crc32c acc < U32 →
    foldl (λ '(bs, checksum) chunk, (bs ++ chunk, crc32c_append checksum chunk)) (acc, crc32c acc)
      (chunks n value) = (acc ++ value, crc32c (acc ++ value))).
  { apply (chunks_ind n (λ value, ∀ acc, 0 ≤ crc32c acc < U32 →
      foldl (λ '(bs, checksum) chunk, (bs ++ chunk, crc32c_append checksum chunk)) (acc, crc32c acc)
        (chunks n value) = (acc ++ value, crc32c (acc ++ value)))); [done| |].
    - intros acc _. rewrite chunks_nil. cbn. by rewrite app_nil_r.
    - intros l Hl IH acc Hacc. rewrite chunks_cons by done. cbn [foldl].
      assert (E : crc32c_append (crc32c acc) (take n l) = crc32c (acc ++ take n l))
        by (rewrite !crc32c_is_append; by rewrite <- crc32c_append_app).
      rewrite E, IH by apply crc32c_range. by rewrite <- app_assoc, take_drop. }
  replace 0 with (crc32c (@nil byte)) by (by rewrite crc32c_is_append, crc32c_append_nil).
  by rewrite Hf by apply crc32c_range.
Qed.

(** ** What a transaction stands for *)

(** Only a large value of a file database is staged as a mapping. *)
Definition value_shape (memory : bool) (e : OverlayEntry) : Prop :=
  match e with
  | OverlayEntry.Put (ValueBytes.Mapped _ start end_) =>
      memory = false ∧ MAPPED_VALUE_THRESHOLD ≤ range_len start end_
  | _ => True
  end.

(** Every key once, each staged value readable and within the limits, and every
    cached checksum that of the staged value. *)
Definition tx_ok memory tx muts : Prop :=
  staged_denotes (tx_staged tx) muts ∧ NoDup muts.*1 ∧ Forall recovery.op_ok muts
  ∧ log.checksums_match (tx_staged tx) (Some (tx_value_checksums tx))
  ∧ Forall (λ e, value_shape memory e.2) (tx_staged tx).

Lemma staged_denotes_insert staged muts k e o :
  staged_denotes staged muts → OverlayEntry.denotes e o →
  staged_denotes (KeyMap.insert staged k e) (KeyMap.insert muts k o).
Proof.
  induction 1 as [|[k1 e1] [k2 o2] staged muts [E Hd] Hr IH]; intros He; cbn [KeyMap.insert].
  - repeat constructor. done.
  - cbn in E. subst k2. case_decide; constructor; try done. by apply IH.
Qed.

Lemma KeyMap_insert_elem {V} (m : KeyMap V) k v k' v' :
  NoDup m.*1 → (k', v') ∈ KeyMap.insert m k v → (k' = k ∧ v' = v) ∨ (k' ≠ k ∧ (k', v') ∈ m).
Proof.
  intros Hnd Hin. apply KeyMap.insert_wf with (k := k) (v := v) in Hnd as Hnd'.
  assert (Hg : KeyMap.get (KeyMap.insert m k v) k' = Some v').
  { rewrite KeyMap.get_list_to_map by done. by apply elem_of_list_to_map_1. }
  rewrite KeyMap.get_insert in Hg. case_decide; [left; naive_solver|right]. split; [done|].
  rewrite KeyMap.get_list_to_map in Hg by done. by apply elem_of_list_to_map_2 in Hg.
Qed.

Lemma Forall_insert_ok {V} (P : bytes * V → Prop) (m : KeyMap V) k v :
  NoDup m.*1 → Forall P m → P (k, v) → Forall P (KeyMap.insert m k v).
Proof.
  intros Hnd Hok Ho. apply Forall_forall. intros [k' o'] Hin.
  destruct (KeyMap_insert_elem _ _ _ _ _ Hnd Hin) as [[-> ->]|[_ Hin']]; [done|].
  rewrite Forall_forall in Hok. by apply Hok.
Qed.

(** Staging a value with the checksum of its bytes, or without one. *)
Lemma stage_ok memory tx muts key value bs checksum :
  tx_ok memory tx muts → ValueBytes.denotes value bs → recovery.op_ok (key, Some bs) →
  value_shape memory (OverlayEntry.Put value) →
  (∀ c, checksum = Some c → c = crc32c bs) →
  ∃ tx', transaction.stage key value checksum tx = (Ok (), tx')
    ∧ tx_ok memory tx' (KeyMap.insert muts key (Some bs)).
Proof.
  intros (Hd&Hnd&Hok&Hm&Hsh) Hv Ho Hvs Hc. eexists. split; [done|]. unfold tx_ok. cbn [tx_staged tx_value_checksums].
  assert (Hnds : NoDup (tx_staged tx).*1) by (by rewrite (staged_denotes_keys _ _ Hd)).
  split_and!; [by apply staged_denotes_insert|by apply KeyMap.insert_wf|by apply Forall_insert_ok| |by apply Forall_insert_ok].
  intros values k v c [= <-] Hin Hg.
  destruct (KeyMap_insert_elem _ _ _ _ _ Hnds Hin) as [[-> [= ->]]|[Hne Hin']].
  - exists bs. split; [done|]. destruct checksum as [c'|].
    + rewrite KeyMap.get_insert, decide_True in Hg by done. injection Hg as ->. by apply Hc.
    + rewrite KeyMap.get_remove, decide_True in Hg by done. done.
  - apply (Hm _ k v c eq_refl Hin'). destruct checksum as [c'|].
    + rewrite KeyMap.get_insert, decide_False in Hg by done. done.
    + rewrite KeyMap.get_remove, decide_False in Hg by done. done.
Qed.

Lemma check_lengths_iff key value :
  (segment.check_lengths key value = Ok ()
   ∧ blen key ≤ segment.MAX_KEY_SIZE ∧ blen value ≤ segment.MAX_VALUE_SIZE)
  ∨ ((∃ e, segment.check_lengths key value = Err e)
     ∧ ¬ (blen key ≤ segment.MAX_KEY_SIZE ∧ blen value ≤ segment.MAX_VALUE_SIZE)).
Proof.
  unfold segment.check_lengths. destruct (_ || _) eqn:E; cbn [fail_if].
  - right. split; [by eexists|]. apply orb_true_iff in E. lia.
  - left. apply orb_false_iff in E as [??]. bool_prop. split_and!; [done|lia|lia].
Qed.

Lemma check_single_put_size_iff kl vl :
  0 ≤ kl ≤ ISIZE_MAX → 0 ≤ vl ≤ ISIZE_MAX - 20 →
  (transaction.check_single_put_size kl vl = Ok () ∧ 13 + kl + vl ≤ log.MAX_LOG_PAYLOAD_SIZE)
  ∨ ((∃ e, transaction.check_single_put_size kl vl = Err e)
     ∧ ¬ 13 + kl + vl ≤ log.MAX_LOG_PAYLOAD_SIZE).
Proof.
  intros Hk Hv. unfold transaction.check_single_put_size.
  rewrite (checked_add_ok 4 9) by lia. cbn [mbind option_bind].
  rewrite (checked_add_ok (4 + 9) kl) by lia. cbn [mbind option_bind].
  rewrite (checked_add_ok (4 + 9 + kl) vl) by lia. cbn [ok_or mbind result_bind].
  destruct (_ <=? _) eqn:E; bool_prop; [left; split; [done|lia]|right; split; [by eexists|lia]].
Qed.

(** The anonymous mappings succeed. *)
Definition maps_succeed : Prop := ∀ n, map_anon n = Ok () ∧ make_read_only n = Ok ().

Definition step_spec memory tx muts (o : tx_spec.op) (run : M WriteTransaction ()) : Prop :=
  ∃ r tx', run tx = (r, tx')
    ∧ match tx_spec.step muts o with
      | Some muts' => r = Ok () ∧ tx_ok memory tx' muts'
      | None => r ≠ Ok () ∧ tx' = tx
      end.

Lemma put_spec memory tx muts key value :
  tx_ok memory tx muts → (∀ n, try_reserve n = true) →
  step_spec memory tx muts (tx_spec.Put key value) (transaction.put memory key value).
Proof.
  intros Htx Ha. unfold step_spec, transaction.put. cbn [tx_spec.step].
  pose proof (blen_nonneg key). pose proof (blen_nonneg value).
  destruct (check_lengths_iff key value) as [(->&Hk&Hv)|([e ->]&Hn)].
  2:{ eexists (Err e), tx. split; [done|]. rewrite decide_False by (unfold tx_spec.put_fits; tauto). done. }
  rewrite M_lift_ok. unfold segment.MAX_KEY_SIZE, segment.MAX_VALUE_SIZE in Hk, Hv.
  destruct (check_single_put_size_iff (blen key) (blen value)) as [[-> Hs]|[[e ->] Hs]]; [lia|lia| |].
  2:{ eexists (Err e), tx. split; [done|]. rewrite decide_False by (unfold tx_spec.put_fits; tauto). done. }
  rewrite M_lift_ok, decide_True by (by split_and!). rewrite copy_value_spec by done.
  assert (Hst : ∀ ck, (∀ c, ck = Some c → c = crc32c value) →
     ∃ r tx', (lift (Ok (ValueBytes.Owned value, ck)) ≫= λ '(staged, checksum),
                 transaction.stage key staged checksum) tx = (r, tx')
       ∧ r = Ok () ∧ tx_ok memory tx' (KeyMap.insert muts key (Some value))).
  { intros ck Hck. rewrite M_lift_ok.
    destruct (stage_ok memory tx muts key (ValueBytes.Owned value) value ck) as (tx'&Hr&Hok'); try done.
    by exists (Ok ()), tx'. }
  destruct (_ && _); apply Hst; [|done]. by intros c [= <-].
Qed.

Lemma delete_spec memory tx muts key :
  tx_ok memory tx muts → step_spec memory tx muts (tx_spec.Delete key) (transaction.delete key).
Proof.
  intros (Hd&Hnd&Hok&Hm&Hsh). unfold step_spec, transaction.delete. cbn [tx_spec.step].
  destruct (check_lengths_iff key []) as [(->&Hk&_)|([e ->]&Hn)].
  2:{ eexists (Err e), tx. split; [done|]. rewrite decide_False; [done|].
      intros ?. apply Hn. split; [done|]. by rewrite blen_nil. }
  rewrite M_lift_ok, decide_True by done. eexists (Ok ()), _. split; [done|]. split; [done|].
  unfold tx_ok. cbn [tx_staged tx_value_checksums].
  assert (Hnds : NoDup (tx_staged tx).*1) by (by rewrite (staged_denotes_keys _ _ Hd)).
  split_and!; [by apply staged_denotes_insert|by apply KeyMap.insert_wf|by apply Forall_insert_ok| |by apply Forall_insert_ok].
  intros values k v c [= <-] Hin Hg.
  destruct (KeyMap_insert_elem _ _ _ _ _ Hnds Hin) as [[_ ?]|[Hne Hin']]; [done|].
  apply (Hm _ k v c eq_refl Hin'). by rewrite KeyMap.get_remove, decide_False in Hg by done.
Qed.

Lemma put_reserved_spec memory tx muts key n c :
  tx_ok memory tx muts → (∀ n, try_reserve n = true) → maps_succeed → 0 ≤ n →
  step_spec memory tx muts (tx_spec.PutReserved key n c) (transaction.put_reserved memory key n c).
Proof.
  intros Htx Ha Hmaps Hn0. unfold step_spec, transaction.put_reserved, transaction.check_lengths_len.
  cbn [tx_spec.step]. pose proof (blen_nonneg key).
  destruct (segment.MAX_VALUE_SIZE <? n) eqn:Hv; bool_prop; cbn [fail_if mbind result_bind].
  { eexists _, tx. split; [done|]. rewrite decide_False; [done|]. unfold tx_spec.put_fits. lia. }
  destruct (check_lengths_iff key []) as [(->&Hk&_)|([e ->]&Hn)]; cbn [mbind result_bind].
  2:{ eexists (Err e), tx. split; [done|]. rewrite decide_False; [done|].
      intros (?&_). apply Hn. split; [done|]. by rewrite blen_nil. }
  unfold segment.MAX_KEY_SIZE, segment.MAX_VALUE_SIZE in Hk, Hv.
  destruct (check_single_put_size_iff (blen key) n) as [[-> Hs]|[[e ->] Hs]]; [lia|lia| |].
  2:{ eexists (Err e), tx. split; [done|]. rewrite decide_False by (unfold tx_spec.put_fits; tauto). done. }
  rewrite M_lift_ok, decide_True by (by split_and!). destruct (Hmaps n) as [Hm1 Hm2].
  pose proof (λ ck, fill_spec n ck c Hn0) as Hfill.
  destruct (tx_spec.reserved_value n c) as [bs|] eqn:Hrv; cbn [mbind option_bind].
  - assert (Hst : ∀ value ck, ValueBytes.denotes value bs →
        value_shape memory (OverlayEntry.Put value) → (∀ c, ck = Some c → c = crc32c bs) → blen bs = n →
       ∃ r tx', (lift (Ok (value, ck)) ≫= λ '(value, checksum),
                   transaction.stage key value checksum) tx = (r, tx')
         ∧ r = Ok () ∧ tx_ok memory tx' (KeyMap.insert muts key (Some bs))).
    { intros value ck Hvd Hvs Hck Hl. rewrite M_lift_ok.
      destruct (stage_ok memory tx muts key value bs ck) as (tx'&Hr&Hok'); try done; [|by exists (Ok ()), tx'].
      split; [done|]. cbn. unfold segment.MAX_VALUE_SIZE. lia. }
    destruct (_ && _) eqn:Eb.
    + destruct (Hfill true) as [Hf Hl]. rewrite Hm1. cbn [mbind result_bind]. rewrite Hf. cbn [mbind result_bind].
      rewrite Hm2. cbn [mbind result_bind]. apply Hst; [| |by intros ? [= <-]|done].
      * unfold ValueBytes.denotes. cbn. unfold index_range. by rewrite get_range_all.
      * apply andb_true_iff in Eb as [Hth Hmem]. bool_prop. split; [by destruct memory|].
        unfold range_len. lia.
    + destruct (Hfill false) as [Hf Hl]. rewrite Ha. cbn [negb fail_if mbind result_bind]. rewrite Hf.
      cbn [mbind result_bind]. by apply Hst.
  - assert (Hnok : ∀ ck (k : bytes * option Z → result (ValueBytes * option Z)),
      ∃ r tx', (lift (transaction.fill n ck c ≫= k) ≫= λ '(value, checksum),
                   transaction.stage key value checksum) tx = (r, tx') ∧ r ≠ Ok () ∧ tx' = tx).
    { intros ck k. specialize (Hfill ck). destruct (transaction.fill n ck c) as [x|e|].
      - by destruct (Hfill x).
      - by eexists (Err e), tx.
      - by eexists Panic, tx. }
    destruct (_ && _).
    + rewrite Hm1. cbn [mbind result_bind]. apply Hnok.
    + rewrite Ha. cbn [negb fail_if]. apply Hnok.
Qed.

Lemma tx_ok_new memory : tx_ok memory transaction.new [].
Proof.
  split_and!; [constructor|constructor|constructor| |constructor]. intros values k v c _ Hin. by apply elem_of_nil in Hin.
Qed.

(** The lengths the caller passes are machine integers. *)
Definition op_typed (o : tx_spec.op) : Prop :=
  match o with tx_spec.PutReserved _ n _ => 0 ≤ n | _ => True end.

Lemma step_refines memory tx muts o :
  tx_ok memory tx muts → (∀ n, try_reserve n = true) → maps_succeed → op_typed o →
  step_spec memory tx muts o (tx_run.step memory o).
Proof.
  intros Htx Ha Hm Ho. destruct o as [key value|key n c|key]; cbn [tx_run.step];
    [by apply put_spec|by apply put_reserved_spec|by apply delete_spec].
Qed.

Lemma steps_refine memory ops tx muts :
  tx_ok memory tx muts → (∀ n, try_reserve n = true) → maps_succeed → Forall op_typed ops →
  tx_ok memory (foldl (λ tx o, (tx_run.step memory o tx).2) tx ops)
        (foldl (λ muts o, default muts (tx_spec.step muts o)) muts ops).
Proof.
  intros Htx Ha Hm Hops. revert tx muts Htx. induction Hops as [|o ops Ho Hops IH]; intros tx muts Htx; [done|].
  cbn [foldl]. apply IH. destruct (step_refines memory tx muts o) as (r&tx'&->&Hs); try done.
  cbn [snd]. destruct (tx_spec.step muts o) as [muts'|]; cbn [from_option id].
  - apply Hs.
  - destruct Hs as [_ ->]. done.
Qed.

Lemma get_staged_spec memory tx muts key :
  tx_ok memory tx muts → transaction.get_staged tx key = Ok (KeyMap.get muts key).
Proof.
  intros (Hd&_). unfold transaction.get_staged.
  induction Hd as [|[k1 e] [k2 o] staged muts [E He] Hd IH]; [done|]. cbn [KeyMap.get]. cbn in E, He. subst k2.
  case_decide; [|exact IH]. destruct e as [v|], o as [bs|]; try done. cbn in He.
  unfold ValueBytes.denotes in He. by rewrite He.
Qed.

End Facts.

(** ** Properties *)

Section Properties.
Context `{Crc32cLaws, Alloc, MmapAnon}.

(** C33: staging refines a map of mutations. After any sequence of operations,
    refused ones included, the staging area stands for the mutations of the
    reference run: every key once with its latest value or tombstone, all within
    the format limits, the cached checksums those of the staged values. The next
    operation is accepted exactly when the reference accepts it, a refused one
    changes nothing, and reads see the reference map. *)
Theorem staging_refines memory ops o :
  (∀ n, try_reserve n = true) → maps_succeed → Forall op_typed ops → op_typed o →
  let tx := tx_run.steps memory ops in
  let muts := tx_spec.steps ops in
  tx_ok memory tx muts
  ∧ (∀ key, transaction.get_staged tx key = Ok (KeyMap.get muts key))
  ∧ step_spec memory tx muts o (tx_run.step memory o).
Proof.
  intros Ha Hm Hops Ho tx muts.
  assert (Htx : tx_ok memory tx muts) by (apply steps_refine; [apply tx_ok_new|done..]).
  split_and!; [apply Htx..| |by apply step_refines]. intros key. by eapply get_staged_spec.
Qed.

(** C34: a reservation holds exactly what was written. Whatever the callback does
    with the writer, a reservation of [n] bytes is accepted only if the callback
    succeeds and its accepted writes add up to exactly [n] bytes; the value is
    their concatenation and the running checksum is the checksum of the value. *)
Theorem reservation_exact n checksum c :
  0 ≤ n →
  match tx_spec.reserved_value n c with
  | Some bs => transaction.fill n checksum c = Ok (bs, if checksum then Some (crc32c bs) else None)
               ∧ blen bs = n
  | None => ∀ x, transaction.fill n checksum c ≠ Ok x
  end.
Proof. apply fill_spec. Qed.

End Properties.

(** *** Concrete transactions *)

Import RefInstances.

#[local] Instance ref_maps : MmapAnon := {| map_anon _ := Ok (); make_read_only _ := Ok () |}.

Definition demo_callback : reserved.callback :=
  reserved.Write [Byte.x01; Byte.x02] (λ _,
  reserved.Write [Byte.x03; Byte.x04] (λ _,
  reserved.Write [Byte.x03] (λ _, reserved.Return (Ok ())))).

Definition demo_ops : list tx_spec.op :=
  [tx_spec.Put [Byte.x61] [Byte.x07]; tx_spec.PutReserved [Byte.x62] 3 demo_callback;
   tx_spec.Delete [Byte.x61]].

(** The second write of the callback is refused and the third one fills the rest. *)
Lemma staging_refines_witness :
  transaction.get_staged (tx_run.steps false demo_ops) [Byte.x62]
    = Ok (Some (Some [Byte.x01; Byte.x02; Byte.x03]))
  ∧ transaction.get_staged (tx_run.steps false demo_ops) [Byte.x61] = Ok (Some None).
Proof.
  destruct (staging_refines false demo_ops (tx_spec.Delete [])) as (_&Hg&_).
  - reflexivity.
  - intros n. split; reflexivity.
  - repeat constructor. cbn. lia.
  - exact I.
  - split; [exact (Hg [Byte.x62])|exact (Hg [Byte.x61])].
Defined.

Lemma reservation_exact_witness :
  transaction.fill 3 true demo_callback
    = Ok ([Byte.x01; Byte.x02; Byte.x03], Some (crc32c [Byte.x01; Byte.x02; Byte.x03])).
Proof. apply (reservation_exact 3 true demo_callback). lia. Defined.

End tx_facts.
