(* ===== verification/Entries.v ===== *)
(** * Iteration

    [RawEntries] and [Entries] of [database/transaction.rs]: the Base records in
    file order without the keys the Overlay shadows, then the live values of the
    Overlay. The iterators hand out slices, and [Entries] tells by their addresses
    whether a pair lies in the Base mapping and has to be verified first. The
    Overlay iterator is the list of the bindings it still has to yield. *)

From S2P Require Import Prelude Errors Crates Io Superblock Values Log Segment Overlay View Base.
Import view.

(** Where slices live: the Base is mapped at [base_addr]; a pair of the Overlay
    lies somewhere else. *)
Class Placement := {
  base_addr : Z;
  place : bytes * bytes → Slice * Slice
}.

(** Distinct objects do not overlap. *)
Class PlacementLaws `{Placement} (mapping : bytes) : Prop := {
  place_bytes kv : (slice_bytes (place kv).1, slice_bytes (place kv).2) = kv;
  place_outside kv : pair_range (MkSlice base_addr mapping) (place kv).1 (place kv).2 = None
}.

Record RawEntries `{HashTables} := MkRaw {
  re_view : ReadView;
  re_base_offset : Z;
  re_base_remaining : Z;
  re_base_trusted : bool;
  re_pending_error : option Error;
  re_finished : bool;
  re_overlay : list (bytes * option bytes)
}.

Arguments MkRaw {_} _ _ _ _ _ _ _.
Arguments re_view {_} _.
Arguments re_base_offset {_} _.
Arguments re_base_remaining {_} _.
Arguments re_base_trusted {_} _.
Arguments re_pending_error {_} _.
Arguments re_finished {_} _.
Arguments re_overlay {_} _.

Module raw_entries.
Section RawEntries.
Context `{Crc32c, Xxh3, HashTables, Placement}.

Definition new (rv : ReadView) (v : SegmentVerifier) (base_remaining : Z) : result RawEntries :=
  overlay ← OverlayMap.iter (rv_overlay rv);
  Ok (MkRaw rv (BASE_HEADER + bv_slots (rv_base rv) * segment.SLOT_SIZE) base_remaining
        (v_semantically_verified v) None false overlay).

Definition set_base (offset remaining : Z) (r : RawEntries) : RawEntries :=
  MkRaw (re_view r) offset remaining (re_base_trusted r) (re_pending_error r) (re_finished r)
    (re_overlay r).
Definition finish (e : option Error) (r : RawEntries) : RawEntries :=
  MkRaw (re_view r) (re_base_offset r) (re_base_remaining r) (re_base_trusted r) e true (re_overlay r).
Definition set_overlay (l : list (bytes * option bytes)) (r : RawEntries) : RawEntries :=
  MkRaw (re_view r) (re_base_offset r) (re_base_remaining r) (re_base_trusted r)
    (re_pending_error r) (re_finished r) l.

Definition take_error : M RawEntries (option Error) :=
  r ← gets (λ r : RawEntries, r);
  _ ← modify (λ r, MkRaw (re_view r) (re_base_offset r) (re_base_remaining r) (re_base_trusted r) None
                     (re_finished r) (re_overlay r));
  mret (re_pending_error r).

(** The record at [offset], with or without the checks. *)
Definition record (r : RawEntries) (data_size offset : Z) : result (bytes * bytes * Z) :=
  let mapping := bv_mapping (rv_base (re_view r)) in
  if re_base_trusted r then segment.trusted_record_at mapping offset
  else segment.record_at mapping offset data_size.

(** The slices of a Base record. *)
Definition base_slices (offset : Z) (key value : bytes) : Slice * Slice :=
  (MkSlice (base_addr + offset + 8) key, MkSlice (base_addr + offset + 8 + blen key) value).

(** What the [for] loop over the Overlay does: skip the tombstones. *)
Fixpoint next_put (l : list (bytes * option bytes))
    : option (bytes * bytes) * list (bytes * option bytes) :=
  match l with
  | [] => (None, [])
  | (key, Some value) :: l => (Some (key, value), l)
  | (_, None) :: l => next_put l
  end.

(** The [while] loop of [next] over the Base; [None] when the Base is exhausted,
    [Some None] when it ended in an error. The remaining records bound it. *)
Fixpoint next_base (fuel : nat) (data_size : Z) : M RawEntries (option (option (Slice * Slice))) :=
  r ← gets (λ r : RawEntries, r);
  if re_base_remaining r <=? 0 then mret None else
  match fuel with
  | O => lift Panic
  | S fuel =>
      let offset := re_base_offset r in
      match record r data_size offset with
      | Panic => lift Panic
      | Err e => _ ← modify (finish (Some e)); mret (Some None)
      | Ok (key, value, end_) =>
          _ ← modify (set_base end_ (re_base_remaining r - 1));
          shadowed ← lift (OverlayMap.contains_key (rv_overlay (re_view r)) key);
          if (shadowed : bool) then next_base fuel data_size
          else mret (Some (Some (base_slices offset key value)))
      end
  end.

(** [next]; [data_size] is [self.view.base.verifier.data_size()]. *)
Definition next (data_size : Z) : M RawEntries (option (Slice * Slice)) :=
  r ← gets (λ r : RawEntries, r);
  if re_finished r then mret None else
  found ← next_base (Z.to_nat (re_base_remaining r)) data_size;
  match found with
  | Some item => mret item
  | None =>
      r ← gets (λ r : RawEntries, r);
      if negb (re_base_offset r =? data_size) then
        _ ← modify (finish (Some (error.invalid_base "base record count does not match data size")));
        mret None
      else
        let '(item, rest) := next_put (re_overlay r) in
        _ ← modify (set_overlay rest);
        match item with
        | Some kv => mret (Some (place kv))
        | None => _ ← modify (finish (re_pending_error r)); mret None
        end
  end.

(** The remaining items, as a consumer of the iterator sees them. Every call but
    the last one uses up a record of the Base or an entry of the Overlay. *)
Fixpoint drain (fuel : nat) (data_size : Z) : M RawEntries (list (bytes * bytes)) :=
  match fuel with
  | O => lift Panic
  | S fuel =>
      item ← next data_size;
      match item with
      | None => mret []
      | Some (k, v) =>
          rest ← drain fuel data_size;
          mret ((slice_bytes k, slice_bytes v) :: rest)
      end
  end.

Definition budget (r : RawEntries) : nat :=
  S (Z.to_nat (re_base_remaining r) + length (re_overlay r)).

Definition collect (data_size : Z) : M RawEntries (list (bytes * bytes)) := λ r,
  drain (budget r) data_size r.

(** [raw_len]: [count()] and then the pending error. *)
Definition count (data_size : Z) : M RawEntries Z :=
  items ← collect data_size;
  e ← take_error;
  match e with Some e => lift (Err e) | None => mret (blen items) end.

(** [Iterator::size_hint] of both iterators. *)
Definition size_hint (r : RawEntries) : result (Z * option Z) :=
  upper ← add_ovf (re_base_remaining r) (blen (re_overlay r)); Ok (0, Some upper).

(** *** [Entries] *)

(** [Entries::next], on the iterator and the verifier. *)
Definition entries_next : M (RawEntries * SegmentVerifier) (option (result (bytes * bytes))) := λ '(r, v),
  match next (v_data_size v) r with
  | (Panic, r) => (Panic, (r, v))
  | (Err e, r) => (Err e, (r, v))
  | (Ok (Some (key, value)), r) =>
      let '(res, v) := verify_pair (re_view r) base_addr key value v in
      match res with
      | Panic => (Panic, (r, v))
      | Err e => (Ok (Some (Err e)), (r, v))
      | Ok _ => (Ok (Some (Ok (slice_bytes key, slice_bytes value))), (r, v))
      end
  | (Ok None, r) =>
      match take_error r with
      | (Ok (Some e), r) => (Ok (Some (Err e)), (r, v))
      | (Ok None, r) => (Ok None, (r, v))
      | (_, r) => (Panic, (r, v))
      end
  end.

(** A consumer that stops at the first error, as [Snapshot::len] does. *)
Fixpoint try_collect (fuel : nat) : M (RawEntries * SegmentVerifier) (list (bytes * bytes)) :=
  match fuel with
  | O => lift Panic
  | S fuel =>
      item ← entries_next;
      match item with
      | None => mret []
      | Some r => kv ← lift r; rest ← try_collect fuel; mret (kv :: rest)
      end
  end.

Definition entries_collect : M (RawEntries * SegmentVerifier) (list (bytes * bytes)) := λ rv,
  try_collect (budget rv.1) rv.

End RawEntries.
End raw_entries.

(** ** Lemmas *)

Module entries_facts.
Section Records.
Context `{Crc32cLaws, Xxh3Laws, Alloc}.

(** The record of an entry is read back, with and without the checks. *)
Lemma record_read index offset slots entries bs es1 k v es2 :
  active_base.segment_with index offset slots entries bs → entries = es1 ++ (k, v) :: es2 →
  let o := BASE_HEADER + slots * segment.SLOT_SIZE + blen (segment.encode_entries es1) in
  let end_ := o + (8 + blen k + blen v) in
  segment.trusted_record_at bs o = Ok (k, v, end_)
  ∧ segment.record_at bs o (blen (segment.base_data slots index entries)) = Ok (k, v, end_)
  ∧ end_ ≤ blen (segment.base_data slots index entries).
Proof.
  intros (Hbs&Hsl&Hs&Ho&Hb&Hok&_&(Hil&_)) Hes o end_.
  assert (Hs0 : 0 ≤ slots) by (rewrite <- Hil; apply blen_nonneg).
  assert (Hfit : segment.entry_ok (k, v)) by (rewrite Forall_forall in Hok; apply Hok; set_solver).
  destruct Hfit as [Hk Hv]. cbn [fst snd] in Hk, Hv. unfold segment.MAX_KEY_SIZE, segment.MAX_VALUE_SIZE in *.
  set (pre := segment.base_header slots (blen entries) ++ segment.encode_slots index
              ++ segment.encode_entries es1).
  assert (Hpo : blen pre = o).
  { unfold pre, o. rewrite !blen_app, segment.blen_base_header, segment.blen_encode_slots. lia. }
  set (data := segment.base_data slots index entries) in *.
  assert (Hdata : data = pre ++ segment.encode_entry (k, v) ++ segment.encode_entries es2).
  { unfold data, segment.base_data, pre. rewrite Hes at 2. unfold segment.encode_entries.
    rewrite fmap_app, fmap_cons, concat_app. cbn [concat]. by rewrite <- !app_assoc. }
  pose proof (blen_nonneg k). pose proof (blen_nonneg v). pose proof (blen_nonneg pre).
  pose proof (blen_nonneg (segment.encode_entries es2)). pose proof (blen_nonneg (segment.base_metadata data)).
  assert (Hdl : blen data = o + (8 + blen k + blen v) + blen (segment.encode_entries es2))
    by (rewrite Hdata, !blen_app, segment.blen_encode_entry; cbn [fst snd]; lia).
  assert (Hbl : blen bs = blen data + blen (segment.base_metadata data))
    by (rewrite Hbs; unfold segment.segment_bytes; by rewrite blen_app).
  assert (Hr : ∀ a b x, get_range (segment.encode_entry (k, v) ++ segment.encode_entries es2)
              (a - o) (b - o) = Some x → o ≤ a → get_range bs a b = Some x).
  { intros a b x Hx ?. eapply get_range_prefix; [by exists (segment.base_metadata data)|].
    rewrite Hdata, get_range_skip by lia. rewrite Hpo. exact Hx. }
  unfold segment.encode_entry in Hr. cbn [fst snd] in Hr. clearbody o. subst end_.
  assert (Hhead : get_range bs o (o + 8) = Some (u32_le (blen k) ++ u32_le (blen v))).
  { apply Hr; [|lia]. rewrite <- !app_assoc, app_assoc, Z.sub_diag. apply get_range_head. len. }
  assert (Hkey : get_range bs (o + 8) (o + 8 + blen k) = Some k) by (apply Hr; [by seek_field|lia]).
  assert (Hval : get_range bs (o + 8 + blen k) (o + 8 + blen k + blen v) = Some v)
    by (apply Hr; [by seek_field|lia]).
  split_and!; [| |lia].
  - unfold segment.trusted_record_at.
    rewrite (format.u32_at_get bs o (blen k)); [|apply Hr; [by seek_field|lia]|lia|lia]. rstep.
    rewrite (add_ovf_ok o 4) by lia. rstep.
    rewrite (format.u32_at_get bs (o + 4) (blen v)); [|apply Hr; [by seek_field|lia]|lia|lia]. rstep.
    rewrite (add_ovf_ok o 8) by lia. rstep. rewrite (add_ovf_ok (o + 8)) by lia. rstep.
    rewrite (add_ovf_ok (o + 8 + blen k)) by lia. rstep. unfold index_range. rewrite Hkey. rstep. rewrite Hval. rstep.
    do 2 f_equal. lia.
  - unfold segment.record_at. rewrite (checked_add_ok o 8) by lia. cbn [opt_filter].
    replace (o + 8 <=? blen data) with true by lia. rstep. rewrite Hhead. rstep.
    rewrite (format.u32_at_get _ 0 (blen k)) by (first [by rewrite get_range_head by len | lia]). rstep.
    rewrite (format.u32_at_get _ 4 (blen v)) by (first [by seek_field | lia]). rstep.
    rewrite (checked_add_ok (o + 8)) by lia. rstep. rewrite (checked_add_ok (o + 8 + blen k)) by lia.
    cbn [opt_filter]. replace (_ <=? blen data) with true by lia. rstep. rewrite Hkey. rstep. rewrite Hval. rstep.
    do 2 f_equal. lia.
Qed.

End Records.

Section Iteration.
Context `{Crc32cLaws, Xxh3Laws, Alloc, HashTablesLaws, Placement}.
Context (log : bytes) (rv : ReadView) (M : mutations_map).
Context (index : list (Z * Z)) (offset : Z) (entries : list (bytes * bytes)).
Abbreviation bs := (bv_mapping (rv_base rv)).
Abbreviation slots := (bv_slots (rv_base rv)).
Abbreviation data := (segment.base_data slots index entries).
Hypothesis Hseg : active_base.segment_with index offset slots entries bs.
Hypothesis Hrep : represents log (rv_overlay rv) M.
Hypothesis Hplace : PlacementLaws bs.

(** The Base entries the Overlay does not shadow, and the values of the Overlay. *)
Definition unshadowed (es : list (bytes * bytes)) : list (bytes * bytes) :=
  filter (λ e, M !! e.1 = None) es.
Definition puts (ov : list (bytes * option bytes)) : list (bytes * bytes) :=
  omap (λ e, (λ v, (e.1, v)) <$> e.2) ov.

(** The iterator behind [done] of the Base, with [ov] of the Overlay left. *)
Definition iter_at (done todo : list (bytes * bytes)) (ov : list (bytes * option bytes))
    (r : RawEntries) : Prop :=
  entries = done ++ todo ∧ re_view r = rv
  ∧ re_base_offset r = BASE_HEADER + slots * segment.SLOT_SIZE + blen (segment.encode_entries done)
  ∧ re_base_remaining r = blen todo ∧ re_pending_error r = None ∧ re_finished r = false
  ∧ re_overlay r = ov.

Lemma contains_key_spec key :
  OverlayMap.contains_key (rv_overlay rv) key = Ok (bool_decide (is_Some (M !! key))).
Proof using All.
  unfold OverlayMap.contains_key, OverlayMap.get.
  by rewrite (overlay_map_facts.get_hashed_spec log _ _ key Hrep).
Qed.

Lemma encode_entries_snoc done k v :
  blen (segment.encode_entries (done ++ [(k, v)]))
    = blen (segment.encode_entries done) + (8 + blen k + blen v).
Proof.
  unfold segment.encode_entries. rewrite fmap_app, concat_app, blen_app. cbn [fmap list_fmap concat].
  rewrite app_nil_r, segment.blen_encode_entry. done.
Qed.

(** The loop over the Base finds the next entry that is not shadowed. *)
Lemma next_base_spec fuel done todo ov r :
  iter_at done todo ov r → (length todo ≤ fuel)%nat →
  (∃ r', raw_entries.next_base fuel (blen data) r = (Ok None, r')
     ∧ unshadowed todo = [] ∧ iter_at entries [] ov r')
  ∨ (∃ k v o done' todo' r', raw_entries.next_base fuel (blen data) r
       = (Ok (Some (Some (raw_entries.base_slices o k v))), r')
     ∧ 0 ≤ o ∧ o + (8 + blen k + blen v) ≤ blen data
     ∧ unshadowed todo = (k, v) :: unshadowed todo' ∧ (length todo' < length todo)%nat
     ∧ iter_at done' todo' ov r').
Proof using All.
  revert done todo r. induction fuel as [|fuel IH]; intros done todo r Hat Hf.
  { destruct todo; [|cbn in Hf; lia]. left. exists r. cbn [raw_entries.next_base].
    pose proof Hat as (Hd&_&_&Hr&_). rewrite (M_bind_ok (gets _) _ r r r eq_refl), Hr. cbn.
    rewrite app_nil_r in Hd. by subst done. }
  cbn [raw_entries.next_base]. pose proof Hat as (Hd&Hv&Ho&Hr&He&Hfin&Hov).
  rewrite (M_bind_ok (gets _) _ r r r eq_refl).
  destruct todo as [|[k v] todo].
  { left. exists r. rewrite Hr. cbn. rewrite app_nil_r in Hd. by subst done. }
  rewrite Hr, blen_cons. pose proof (blen_nonneg todo). replace (1 + blen todo <=? 0) with false by lia.
  destruct (record_read index offset slots entries bs done k v todo Hseg Hd) as (Ht&Hc&Hend).
  assert (Hrec : raw_entries.record r (blen data) (re_base_offset r)
            = Ok (k, v, re_base_offset r + (8 + blen k + blen v))).
  { unfold raw_entries.record. rewrite Hv, Ho. by destruct (re_base_trusted r). }
  rewrite Hrec. cbv zeta.
  set (r1 := raw_entries.set_base (re_base_offset r + (8 + blen k + blen v)) (1 + blen todo - 1) r).
  rewrite (M_bind_ok (modify (raw_entries.set_base (re_base_offset r + (8 + blen k + blen v))
    (1 + blen todo - 1))) _ r () r1 eq_refl).
  rewrite Hv, contains_key_spec, M_lift_ok.
  assert (Hat1 : iter_at (done ++ [(k, v)]) todo ov r1).
  { unfold iter_at, r1. cbn. rewrite encode_entries_snoc, <- app_assoc. split_and!; try done; lia. }
  assert (Hslots : 0 ≤ slots).
  { destruct Hseg as (_&_&_&_&_&_&_&(Hil&_)). rewrite <- Hil. apply blen_nonneg. }
  case_bool_decide as Hm.
  - destruct (IH _ _ _ Hat1) as [(r'&Hn&Hu&Hat')|(k'&v'&o&done'&todo'&r'&Hn&Ho1&Ho2&Hu&Hl&Hat')]; [cbn in Hf; lia|left|right].
    + exists r'. split; [done|]. split; [|done]. unfold unshadowed in *. rewrite filter_cons, decide_False; [done|].
      cbn. destruct Hm as [? ->]. done.
    + exists k', v', o, done', todo', r'. split; [done|]. split; [done|]. split; [done|]. split; [|split; [cbn; lia|done]].
      unfold unshadowed in *. rewrite filter_cons, decide_False; [done|]. cbn. destruct Hm as [? ->]. done.
  - right. exists k, v, (re_base_offset r), (done ++ [(k, v)]), todo, r1.
    split; [done|]. rewrite Ho. pose proof (blen_nonneg (segment.encode_entries done)).
    split; [unfold BASE_HEADER, segment.SLOT_SIZE; lia|]. split; [lia|]. split; [|split; [cbn; lia|done]].
    unfold unshadowed. rewrite filter_cons, decide_True; [done|]. cbn. by apply eq_None_not_Some.
Qed.

Lemma next_put_spec ov :
  match raw_entries.next_put ov with
  | (Some kv, ov') => puts ov = kv :: puts ov' ∧ (length ov' < length ov)%nat
  | (None, ov') => puts ov = [] ∧ ov' = []
  end.
Proof.
  induction ov as [|[k [v|]] ov IH]; cbn [raw_entries.next_put]; [done| |].
  - split; [done|cbn; lia].
  - destruct (raw_entries.next_put ov) as [[kv|] ov']; [|done]. destruct IH. split; [done|cbn; lia].
Qed.

Lemma data_end : blen data = BASE_HEADER + slots * segment.SLOT_SIZE + blen (segment.encode_entries entries).
Proof using All.
  destruct Hseg as (_&_&_&_&_&_&_&(Hil&_)). rewrite segment.blen_base_data. by rewrite Hil.
Qed.

(** One call of [next]. *)
Lemma next_spec done todo ov r :
  iter_at done todo ov r →
  (∃ k v o done' todo' r', raw_entries.next (blen data) r
       = (Ok (Some (raw_entries.base_slices o k v)), r')
     ∧ 0 ≤ o ∧ o + (8 + blen k + blen v) ≤ blen data
     ∧ unshadowed todo = (k, v) :: unshadowed todo' ∧ (length todo' < length todo)%nat
     ∧ iter_at done' todo' ov r')
  ∨ (unshadowed todo = [] ∧ ∃ kv ov' r', raw_entries.next (blen data) r = (Ok (Some (place kv)), r')
     ∧ puts ov = kv :: puts ov' ∧ (length ov' < length ov)%nat ∧ iter_at entries [] ov' r')
  ∨ (unshadowed todo = [] ∧ puts ov = [] ∧ ∃ r', raw_entries.next (blen data) r = (Ok None, r')
     ∧ re_pending_error r' = None ∧ re_finished r' = true).
Proof using All.
  intros Hat. pose proof Hat as (Hd&Hv&Ho&Hr&He&Hfin&Hov). unfold raw_entries.next.
  rewrite (M_bind_ok (gets _) _ r r r eq_refl), Hfin, Hr.
  destruct (next_base_spec (Z.to_nat (blen todo)) done todo ov r Hat) as [(r'&Hn&Hu&Hat')|Hs]; [unfold blen; lia| |].
  - right. mrun Hn. pose proof Hat' as (_&Hv'&Ho'&_&He'&Hfin'&Hov').
    rewrite (M_bind_ok (gets _) _ r' r' r' eq_refl), Ho', data_end, Z.eqb_refl. cbn [negb].
    pose proof (next_put_spec ov) as Hp. rewrite Hov'.
    destruct (raw_entries.next_put ov) as [[kv|] ov'].
    + left. split; [done|]. destruct Hp as [Hp Hl]. eexists kv, ov', _. split; [done|]. split; [done|]. split; [done|].
      unfold iter_at, raw_entries.set_overlay. cbn. destruct Hat' as (?&?&?&?&?&?&?). by split_and!.
    + right. destruct Hp as [Hp _]. split; [done|]. split; [done|]. eexists. split; [done|].
      split; [cbn; done|done].
  - left. destruct Hs as (k&v&o&done'&todo'&r'&Hn&?&?&?&?&?). mrun Hn.
    by exists k, v, o, done', todo', r'.
Qed.

Lemma place_slices kv : (slice_bytes (place kv).1, slice_bytes (place kv).2) = kv.
Proof using Hplace. apply place_bytes. Qed.

(** Draining the iterator yields every live binding once. *)
Lemma drain_spec fuel done todo ov r :
  iter_at done todo ov r → (length todo + length ov < fuel)%nat →
  ∃ r', raw_entries.drain fuel (blen data) r = (Ok (unshadowed todo ++ puts ov), r')
    ∧ re_pending_error r' = None.
Proof using All.
  revert done todo ov r. induction fuel as [|fuel IH]; intros done todo ov r Hat Hf; [lia|].
  cbn [raw_entries.drain].
  destruct (next_spec done todo ov r Hat)
    as [(k&v&o&done'&todo'&r1&Hn&_&_&Hu&Hl&Hat1)|[(Hu&kv&ov'&r1&Hn&Hp&Hl&Hat1)|(Hu&Hp&r1&Hn&He&_)]]; mrun Hn.
  - destruct (IH _ _ _ _ Hat1) as (r2&Hr2&He); [lia|]. cbn [raw_entries.base_slices]. mrun Hr2.
    exists r2. split; [|done]. by rewrite Hu.
  - destruct (IH _ _ _ _ Hat1) as (r2&Hr2&He); [cbn; lia|]. pose proof (place_slices kv) as Hk.
    destruct (place kv) as [ks vs]. cbn [fst snd] in Hk. mrun Hr2. exists r2. split; [|done].
    rewrite Hu, Hp. cbn. by rewrite Hk.
  - exists r1. split; [|done]. by rewrite Hu, Hp.
Qed.

(** *** [Entries]: the pairs of the Base are verified, and intact blocks pass *)

Definition verifier_good (v : SegmentVerifier) : Prop :=
  verifier.verifier_inv bs v ∧ verifier.all_good bs v ∧ v_data_size v = blen data.

Lemma verify_pair_base o k v ver :
  verifier_good ver → 0 ≤ o → o + (8 + blen k + blen v) ≤ blen data →
  ∃ ver', verify_pair rv base_addr (raw_entries.base_slices o k v).1 (raw_entries.base_slices o k v).2 ver
      = (Ok (), ver') ∧ verifier_good ver' ∧ verifier.same_segment ver ver'.
Proof using All.
  intros (Hinv&Hg&Hds) Ho Hend. unfold verify_pair. destruct (negb _); [by exists ver|].
  pose proof (blen_nonneg k). pose proof (blen_nonneg v). pose proof Hinv as (Hd&_).
  unfold pair_range. cbn [raw_entries.base_slices fst snd slice_addr slice_bytes].
  replace (base_addr <=? base_addr + o + 8) with true by lia.
  replace (base_addr + o + 8 <=? base_addr + o + 8 + blen k + blen v) with true by lia.
  replace (base_addr + o + 8 + blen k + blen v <=? base_addr + blen bs) with true by lia. cbn [andb].
  destruct (verifier.verify_range_good bs ver (base_addr + o + 8 - base_addr)
    (base_addr + o + 8 + blen k + blen v - base_addr) Hinv Hg) as (ver'&Hv&Hinv'&Hs); [lia|lia|].
  exists ver'. split; [done|]. split; [|done]. split; [done|]. split; [by eapply verifier.all_good_same|].
  destruct Hs as (->&_). done.
Qed.

Lemma verify_pair_overlay kv ver :
  verify_pair rv base_addr (place kv).1 (place kv).2 ver = (Ok (), ver).
Proof using All. unfold verify_pair. destruct (negb _); [done|]. by rewrite place_outside. Qed.

Lemma entries_next_some r r' ks vs ver ver' :
  raw_entries.next (v_data_size ver) r = (Ok (Some (ks, vs)), r') → re_view r' = rv →
  verify_pair rv base_addr ks vs ver = (Ok (), ver') →
  raw_entries.entries_next (r, ver) = (Ok (Some (Ok (slice_bytes ks, slice_bytes vs))), (r', ver')).
Proof. intros Hn Hv Hp. unfold raw_entries.entries_next. by rewrite Hn, Hv, Hp. Qed.

(** One call of [Entries::next] yields the next live pair or the end. *)
Lemma entries_next_spec done todo ov r ver :
  iter_at done todo ov r → verifier_good ver →
  (∃ kv done' todo' ov' r' ver', raw_entries.entries_next (r, ver) = (Ok (Some (Ok kv)), (r', ver'))
     ∧ unshadowed todo ++ puts ov = kv :: unshadowed todo' ++ puts ov'
     ∧ (length todo' + length ov' < length todo + length ov)%nat ∧ iter_at done' todo' ov' r'
     ∧ verifier_good ver' ∧ verifier.same_segment ver ver')
  ∨ (unshadowed todo ++ puts ov = [] ∧ ∃ r', raw_entries.entries_next (r, ver) = (Ok None, (r', ver))).
Proof using All.
  intros Hat Hg. pose proof Hg as (_&_&Hds).
  destruct (next_spec done todo ov r Hat)
    as [(k&v&o&done'&todo'&r1&Hn&Ho&Hend&Hu&Hl&Hat1)|[(Hu&kv&ov'&r1&Hn&Hp&Hl&Hat1)|(Hu&Hp&r1&Hn&He&_)]];
    rewrite <- Hds in Hn.
  - destruct (verify_pair_base o k v ver Hg Ho Hend) as (ver1&Hv1&Hg1&Hs1). pose proof Hat1 as (_&Hv&_).
    left. exists (k, v), done', todo', ov, r1, ver1.
    split; [exact (entries_next_some r r1 _ _ ver ver1 Hn Hv Hv1)|]. rewrite Hu. split; [done|]. split; [lia|]. by split_and!.
  - pose proof Hat1 as (_&Hv&_). pose proof (place_slices kv) as Hk. pose proof (verify_pair_overlay kv ver) as Hvp.
    destruct (place kv) as [ks vs]. cbn [fst snd] in Hk, Hvp.
    left. exists kv, entries, [], ov', r1, ver. rewrite <- Hk at 1.
    split; [exact (entries_next_some r r1 _ _ ver ver Hn Hv Hvp)|]. rewrite Hu, Hp. cbn. split; [done|]. split; [lia|]. by split_and!.
  - right. split; [by rewrite Hu, Hp|]. unfold raw_entries.entries_next. rewrite Hn. unfold raw_entries.take_error.
    rewrite (M_bind_ok (gets _) _ r1 r1 r1 eq_refl). cbn. rewrite He. by eexists.
Qed.

Lemma try_collect_spec fuel done todo ov r ver :
  iter_at done todo ov r → (length todo + length ov < fuel)%nat → verifier_good ver →
  ∃ r' ver', raw_entries.try_collect fuel (r, ver) = (Ok (unshadowed todo ++ puts ov), (r', ver'))
    ∧ verifier_good ver' ∧ verifier.same_segment ver ver'.
Proof using All.
  revert done todo ov r ver. induction fuel as [|fuel IH]; intros done todo ov r ver Hat Hf Hg; [lia|].
  cbn [raw_entries.try_collect].
  destruct (entries_next_spec done todo ov r ver Hat Hg) as [(kv&d&t&o&r1&ver1&Hn&->&Hl&Hat1&Hg1&Hs1)|[-> [r1 Hn]]]; mrun Hn.
  - rewrite M_lift_ok. destruct (IH _ _ _ _ ver1 Hat1) as (r2&ver2&Hr2&Hg2&Hs2); [lia|done|]. mrun Hr2.
    exists r2, ver2. split; [done|]. split; [done|]. by etrans.
  - by exists r1, ver.
Qed.

End Iteration.

(** ** The live bindings *)

(** The Overlay over the Base: its values and tombstones decide. *)
Definition live (entries : list (bytes * bytes)) (M : mutations_map) : gmap bytes bytes :=
  omap id M ∪ filter (λ kv, M !! kv.1 = None) (list_to_map entries).

Lemma live_lookup entries M key :
  NoDup entries.*1 →
  live entries M !! key = match M !! key with Some o => o | None => KeyMap.get entries key end.
Proof.
  intros Hnd. unfold live. rewrite KeyMap.get_list_to_map by done.
  rewrite lookup_union, lookup_omap, map_lookup_filter.
  destruct (M !! key) as [[v|]|] eqn:E; cbn.
  - by destruct (_ ≫= _).
  - destruct (list_to_map entries !! key); cbn; [|done]. case_guard; [|done]. cbn in *. congruence.
  - destruct (list_to_map entries !! key); cbn; [|done]. case_guard; [done|]. cbn in *. congruence.
Qed.

Lemma elem_of_puts ov k v : (k, v) ∈ puts ov ↔ (k, Some v) ∈ ov.
Proof.
  unfold puts. rewrite list_elem_of_omap. split.
  - intros ([k' [v'|]]&Hin&E); cbn in E; simplify_eq. done.
  - intros Hin. by exists (k, Some v).
Qed.

Lemma NoDup_puts ov : NoDup ov.*1 → NoDup (puts ov).
Proof.
  induction ov as [|[k [v|]] ov IH]; intros Hnd; [constructor|..]; apply NoDup_cons in Hnd as [Hn Hnd].
  - change (NoDup ((k, v) :: puts ov)). constructor; [|by apply IH].
    intros Hp%elem_of_puts. apply Hn, list_elem_of_fmap. by eexists.
  - change (NoDup (puts ov)). by apply IH.
Qed.

Lemma length_puts ov : (length (puts ov) ≤ length ov)%nat.
Proof. unfold puts. induction ov as [|[k [v|]] ov IH]; cbn in *; lia. Qed.

Lemma live_list entries M ms :
  NoDup entries.*1 → ms ≡ₚ map_to_list M →
  unshadowed M entries ++ puts ms ≡ₚ map_to_list (live entries M).
Proof.
  intros Hnd Hms. assert (Hndm : NoDup ms.*1) by (rewrite Hms; apply NoDup_fst_map_to_list).
  assert (Hin : ∀ k v, (k, v) ∈ ms ↔ M !! k = Some v)
    by (intros; rewrite Hms; apply elem_of_map_to_list).
  apply NoDup_Permutation.
  - apply NoDup_app. split_and!.
    + apply NoDup_filter. by eapply NoDup_fmap_1.
    + intros [k v] [Hm _]%list_elem_of_filter Hp%elem_of_puts%Hin. cbn in Hm. congruence.
    + by apply NoDup_puts.
  - apply NoDup_map_to_list.
  - intros [k v]. rewrite elem_of_app, elem_of_puts, Hin, elem_of_map_to_list, live_lookup by done.
    unfold unshadowed. rewrite list_elem_of_filter. cbn [fst].
    rewrite KeyMap.get_list_to_map by done. split.
    + intros [[-> Hin']| ->]; [|done]. by apply elem_of_list_to_map_1.
    + destruct (M !! k) as [o|] eqn:E; [intros ->; by right|]. intros Hl. left. split; [done|].
      by apply elem_of_list_to_map_2.
Qed.

(** ** Properties *)

Section Properties.
Context `{Crc32cLaws, Xxh3Laws, Alloc, HashTablesLaws, Placement}.

(** A view of an intact Base under an index answers for the live bindings. *)
Lemma view_get_live b entries overlay lg M mode bs key :
  active_base.holds b entries → BaseBytes.deref (ab_mapping b) = Ok bs → represents lg overlay M →
  ∃ b', active_base.with_verifier
          (view.get (view.MkReadView (view.MkBaseView bs (ab_offset b) (ab_slots b)) overlay mode) key) b
          = (Ok (live entries M !! key), b') ∧ active_base.same_base b b' ∧ active_base.holds b' entries.
Proof.
  intros Hh Hd Hr. pose proof Hh as (bs0&_&[index Hw]&_).
  rewrite live_lookup by (by destruct Hw as (_&_&_&_&_&_&?&_)). unfold active_base.with_verifier, zoom, view.get.
  cbn [view.rv_overlay view.rv_base view.rv_verification view.bv_mapping view.bv_offset view.bv_slots].
  rewrite (overlay_map_facts.get_hashed_spec _ _ _ key Hr), M_lift_ok. destruct (M !! key) as [o|]; [exists b; by destruct b|].
  destruct (active_base.lookup_holds b entries mode key Hh) as (b'&Hl&?&?). exists b'. split; [|done].
  unfold active_base.lookup in Hl. rewrite (M_bind_ok (gets _) _ b b b eq_refl) in Hl.
  unfold active_base.base_view in Hl. rewrite Hd in Hl. cbn [mbind result_bind] in Hl. rewrite M_lift_ok in Hl. exact Hl.
Qed.

(** The iterator of a view on an open Base. *)
Lemma new_iter_at b entries log overlay M mode mapping :
  active_base.holds b entries → BaseBytes.deref (ab_mapping b) = Ok mapping → represents log overlay M →
  let rv := MkReadView (MkBaseView mapping (ab_offset b) (ab_slots b)) overlay mode in
  ∃ index ms r, active_base.segment_with index (ab_offset b) (ab_slots b) entries mapping
    ∧ ms ≡ₚ map_to_list M
    ∧ raw_entries.new rv (ab_verifier b) (ab_len b) = Ok r
    ∧ iter_at rv entries [] entries ms r
    ∧ verifier_good rv index entries (ab_verifier b).
Proof.
  intros (bs&Hd&[index Hseg]&Hl&_&(lay&Hlay&Hds)&Hinv&Hg) Hd' Hrep rv.
  rewrite Hd in Hd'. injection Hd' as <-.
  destruct (overlay_map_facts.iter_spec log overlay M Hrep) as (ms&Hms&Hp). exists index, ms.
  unfold raw_entries.new. cbn [rv rv_overlay rv_base bv_slots]. rewrite Hms. cbn [mbind result_bind].
  eexists. split; [done|]. split; [done|]. split; [done|]. split.
  - unfold iter_at. change (blen (segment.encode_entries [])) with 0. rewrite Z.add_0_r. by split_and!.
  - destruct (active_base.segment_with_layout _ _ _ _ _ Hseg) as (Hlay'&_).
    rewrite Hlay in Hlay'. injection Hlay' as ->. by split_and!.
Qed.

(** The drained iterator, its count and the checked iteration of a view. *)
Lemma iteration_live b entries log overlay M mode mapping :
  active_base.holds b entries → BaseBytes.deref (ab_mapping b) = Ok mapping → represents log overlay M →
  PlacementLaws mapping →
  let rv := MkReadView (MkBaseView mapping (ab_offset b) (ab_slots b)) overlay mode in
  let data_size := v_data_size (ab_verifier b) in
  ∃ r l, raw_entries.new rv (ab_verifier b) (ab_len b) = Ok r
    ∧ l ≡ₚ map_to_list (live entries M)
    ∧ fst (raw_entries.collect data_size r) = Ok l
    ∧ fst (raw_entries.count data_size r) = Ok (Z.of_nat (size (live entries M)))
    ∧ fst (raw_entries.entries_collect (r, ab_verifier b)) = Ok l.
Proof.
  intros Hh Hd Hrep Hpl rv data_size.
  destruct (new_iter_at b entries log overlay M mode mapping Hh Hd Hrep)
    as (index&ms&r&Hseg&Hms&Hr&Hat&Hg). fold rv in Hr, Hat, Hg.
  exists r, (unshadowed M entries ++ puts ms).
  assert (Hnd : NoDup entries.*1) by (by destruct Hseg as (_&_&_&_&_&_&?&_)).
  pose proof (live_list entries M ms Hnd Hms) as Hp.
  assert (Hbud : (length entries + length ms < raw_entries.budget r)%nat).
  { unfold raw_entries.budget. destruct Hat as (_&_&_&->&_&_&->). unfold blen. lia. }
  destruct (drain_spec log rv M index (ab_offset b) entries Hseg Hrep Hpl _ [] entries ms r Hat Hbud)
    as (r'&Hdr&He).
  pose proof Hg as (_&_&Hds).
  assert (Hcol : raw_entries.collect data_size r = (Ok (unshadowed M entries ++ puts ms), r')).
  { unfold raw_entries.collect, data_size. by rewrite Hds. }
  split_and!; [done|done|by rewrite Hcol| |].
  - unfold raw_entries.count. rewrite (M_bind_ok _ _ _ _ _ Hcol). unfold raw_entries.take_error.
    rewrite (M_bind_assoc (gets _)), (M_bind_ok (gets _) _ r' r' r' eq_refl). cbn. rewrite He. cbn [fst].
    f_equal. unfold blen. by rewrite (Permutation_length Hp), length_map_to_list.
  - destruct (try_collect_spec log rv M index (ab_offset b) entries Hseg Hrep Hpl _ [] entries ms r
      (ab_verifier b) Hat Hbud Hg) as (r2&v2&Hc&_). unfold raw_entries.entries_collect. cbn [fst]. by rewrite Hc.
Qed.

(** The upper bound a new iterator announces is not below the number of its items. *)
Lemma size_hint_live b entries log overlay M mode mapping r l lo hi :
  active_base.holds b entries → BaseBytes.deref (ab_mapping b) = Ok mapping → represents log overlay M →
  raw_entries.new (MkReadView (MkBaseView mapping (ab_offset b) (ab_slots b)) overlay mode) (ab_verifier b) (ab_len b) = Ok r →
  l ≡ₚ map_to_list (live entries M) → raw_entries.size_hint r = Ok (lo, hi) →
  lo ≤ blen l ∧ ∃ n, hi = Some n ∧ blen l ≤ n.
Proof.
  intros Hh Hd Hrep Hr Hl Hs.
  destruct (new_iter_at b entries log overlay M mode mapping Hh Hd Hrep) as (index&ms&r'&Hseg&Hms&Hr'&Hat&_).
  rewrite Hr in Hr'. injection Hr' as <-. destruct Hat as (_&_&_&Hrem&_&_&Hov).
  unfold raw_entries.size_hint, add_ovf, checked_add in Hs. rewrite Hrem, Hov in Hs.
  assert (Hnd : NoDup entries.*1) by (by destruct Hseg as (_&_&_&_&_&_&?&_)).
  rewrite <- (live_list entries M ms Hnd Hms) in Hl. apply Permutation_length in Hl. rewrite length_app in Hl.
  pose proof (length_filter (λ kv, M !! kv.1 = None) entries) as Hf. fold (unshadowed M entries) in Hf.
  pose proof (length_puts ms) as Hpl. destruct (_ <? U64); [|done]. cbn in Hs. simplify_eq. unfold blen in *.
  split; [lia|]. eexists. split; [done|]. lia.
Qed.

(** C22: iteration yields the live bindings. Over an intact Base and the Overlay
    of a map of mutations, the raw iterator yields every live binding exactly
    once and ends without an error, its count is their number, and the verifying
    iterator yields the same pairs in both verification modes; what [size_hint]
    announces before the first item holds. *)
Theorem iteration_yields_live b entries log overlay M mode mapping :
  active_base.holds b entries → BaseBytes.deref (ab_mapping b) = Ok mapping → represents log overlay M →
  PlacementLaws mapping →
  let rv := MkReadView (MkBaseView mapping (ab_offset b) (ab_slots b)) overlay mode in
  let data_size := v_data_size (ab_verifier b) in
  ∃ r l, raw_entries.new rv (ab_verifier b) (ab_len b) = Ok r
    ∧ l ≡ₚ map_to_list (live entries M)
    ∧ fst (raw_entries.collect data_size r) = Ok l
    ∧ fst (raw_entries.count data_size r) = Ok (Z.of_nat (size (live entries M)))
    ∧ fst (raw_entries.entries_collect (r, ab_verifier b)) = Ok l
    ∧ ∀ lo hi, raw_entries.size_hint r = Ok (lo, hi) → lo ≤ blen l ∧ ∃ n, hi = Some n ∧ blen l ≤ n.
Proof.
  intros Hh Hd Hrep Hpl rv data_size.
  destruct (iteration_live b entries log overlay M mode mapping Hh Hd Hrep Hpl) as (r&l&Hr&Hl&?&?&?).
  exists r, l. split_and!; [done..|]. intros lo hi Hs. by eapply size_hint_live.
Qed.

End Properties.

(** *** A concrete view *)

Import RefInstances.

#[local] Instance demo_placement : Placement :=
  {| base_addr := 65536; place kv := (MkSlice 1 kv.1, MkSlice 2 kv.2) |}.

Lemma demo_placement_laws mapping : PlacementLaws mapping.
Proof. split; [by intros []|]. intros kv. unfold pair_range. by cbn. Qed.

Lemma demo_base_holds : active_base.holds active_base.demo_base view.demo_entries.
Proof.
  destruct active_base.demo_describes as (Hseg&Hl&_&Hck). exists active_base.demo_bytes.
  assert (Hb : blen active_base.demo_bytes ≤ ISIZE_MAX) by (vm_compute; discriminate).
  refine (conj eq_refl (conj Hseg (conj Hl (conj Hck (conj _ (conj view.demo_inv _)))))).
  - exists view.demo_layout. split; [|reflexivity]. by apply segment.segment_layout_encode.
  - intros blk Hblk. apply verifier.new_block_good; [| |exact Hblk].
    + split; [by exists (segment.base_footer view.demo_data)|]. split; [exact Hb|].
      apply segment.blen_block_table.
    + by apply segment.verify_segment_blocks_encode.
Qed.

Lemma iteration_yields_live_witness :
  ∃ r l, raw_entries.new (MkReadView (MkBaseView active_base.demo_bytes 8192 4)
           (OverlayState.index overlay_demo.state1) OnRead) view.demo_verifier 3 = Ok r
    ∧ fst (raw_entries.collect (v_data_size view.demo_verifier) r) = Ok l
    ∧ l ≡ₚ map_to_list (live view.demo_entries (apply_muts ∅ overlay_demo.batch1)).
Proof.
  destruct (iteration_yields_live active_base.demo_base view.demo_entries overlay_demo.log1
    (OverlayState.index overlay_demo.state1) (apply_muts ∅ overlay_demo.batch1) OnRead active_base.demo_bytes
    demo_base_holds eq_refl (proj1 overlay_demo.state1_holds) (demo_placement_laws _)) as (r&l&Hr&Hp&Hc&_).
  exists r, l. split; [exact Hr|]. split; [exact Hc|exact Hp].
Defined.

End entries_facts.
