(* ===== verification/Database.v ===== *)
(** * The database handle

    [database/mod.rs] and the parts of [database/transaction.rs] and [options.rs]
    that go through the handle: opening and recovering a storage image, reads,
    snapshots, the two commit paths and the poisoning of the handle after a failed
    write. [open_with_options] starts from the file it opened: names, locks and the
    temporary file of a creation are in [Creation], the rest of snapshots in [Snapshot]. *)

From S2P Require Import Prelude Errors Crates Io Superblock Values Log Segment Overlay Recovery View.
From S2P Require Import Base Storage Transaction Entries.

#[local] Abbreviation DATA_START := superblock.DATA_START.

(** [DatabaseOptions] of [options.rs]. *)
Record DatabaseOptions := MkOptions {
  opt_verification : VerificationMode;
  opt_max_database_bytes : Z;
  opt_overlay_memory_limit : Z
}.

Module options.

Definition default : DatabaseOptions := MkOptions OnRead (Z.shiftl 1 40) (64 * 1024 * 1024).
Definition with_verification (o : DatabaseOptions) (m : VerificationMode) : DatabaseOptions :=
  MkOptions m (opt_max_database_bytes o) (opt_overlay_memory_limit o).
Definition with_max_database_bytes (o : DatabaseOptions) (n : Z) : DatabaseOptions :=
  MkOptions (opt_verification o) n (opt_overlay_memory_limit o).
Definition with_overlay_memory_limit (o : DatabaseOptions) (n : Z) : DatabaseOptions :=
  MkOptions (opt_verification o) (opt_max_database_bytes o) n.

End options.

Inductive HandleState := Healthy | WritePoisoned | Unavailable.

#[global] Instance HandleState_eq_dec : EqDecision HandleState.
Proof. solve_decision. Defined.

Record DatabaseStats := MkStats {
  storage_bytes : Z;
  base_bytes : Z;
  base_entries : Z;
  overlay_entries : Z;
  overlay_log_bytes : Z;
  overlay_memory_bytes : Z;
  stale_bytes : Z;
  stats_generation : Z
}.

(** [Database]; [db_snapshots] counts the other owners of [snapshot_guard]. *)
Record Database `{HashTables} := MkDatabase {
  db_storage : Storage;
  db_base : ActiveBase;
  db_overlay : OverlayState;
  db_options : DatabaseOptions;
  db_snapshots : Z;
  db_state : HandleState
}.
Arguments MkDatabase {_} _ _ _ _ _ _.
Arguments db_storage {_} _.
Arguments db_base {_} _.
Arguments db_overlay {_} _.
Arguments db_options {_} _.
Arguments db_snapshots {_} _.
Arguments db_state {_} _.

Module database.
Section Database.
Context `{Crc32c, Xxh3, Alloc, HashTables}.

Definition LOG_WRITE_BUFFER_SIZE : Z := 64 * 1024.
Definition MIN_DATABASE_BYTES : Z := DATA_START + segment.EMPTY_SEGMENT_SIZE.

Definition validate_options (o : DatabaseOptions) : result () :=
  if opt_max_database_bytes o <? MIN_DATABASE_BYTES
  then Err (error.from_io InvalidInput
         ("max_database_bytes must be at least " +:+ fmt_num MIN_DATABASE_BYTES +:+ " bytes"))
  else Ok ().

(** ** Access to the fields *)

Definition set_storage (s : Storage) (db : Database) : Database :=
  MkDatabase s (db_base db) (db_overlay db) (db_options db) (db_snapshots db) (db_state db).
Definition set_base (b : ActiveBase) (db : Database) : Database :=
  MkDatabase (db_storage db) b (db_overlay db) (db_options db) (db_snapshots db) (db_state db).
Definition set_overlay (o : OverlayState) (db : Database) : Database :=
  MkDatabase (db_storage db) (db_base db) o (db_options db) (db_snapshots db) (db_state db).
Definition set_state (h : HandleState) (db : Database) : Database :=
  MkDatabase (db_storage db) (db_base db) (db_overlay db) (db_options db) (db_snapshots db) h.
Definition set_snapshots (n : Z) (db : Database) : Database :=
  MkDatabase (db_storage db) (db_base db) (db_overlay db) (db_options db) n (db_state db).

Definition on_storage {A} (m : M Storage A) : M Database A := zoom db_storage set_storage m.
Definition on_base {A} (m : M ActiveBase A) : M Database A := zoom db_base set_base m.
Definition self : M Database Database := gets (λ db, db).

(** [let _ = m]. *)
Definition ignore {A} (m : M Database A) : M Database () := catch m (λ _, mret ()).

Definition ensure_writable : M Database () :=
  db ← self;
  lift (if bool_decide (db_state db = Healthy) then Ok () else Err Poisoned).

Definition ensure_available : M Database () :=
  db ← self;
  lift (if bool_decide (db_state db = Unavailable) then Err Poisoned else Ok ()).

Definition ensure_capacity (additional : Z) : M Database () :=
  current ← on_storage storage.len;
  db ← self;
  let limit := opt_max_database_bytes (db_options db) in
  required ← lift (ok_or (checked_add current additional) (error.database_full limit (U64 - 1)));
  lift (if limit <? required then Err (error.database_full limit required) else Ok ()).

Definition rollback_or_poison {A} (offset : Z) (e : Error) : M Database A :=
  _ ← modify (set_state WritePoisoned);
  _ ← catch (on_storage (storage.set_len offset)) (λ r,
        if is_ok r then ignore (on_storage storage.sync_data) else mret ());
  _ ← ignore (on_storage (seek (End_ 0)));
  lift (Err e).

(** [if let Err(error) = m { return self.rollback_or_poison(offset, error) }]. *)
Definition or_rollback {A} (offset : Z) (m : M Database A) : M Database A :=
  catch m (λ r, match r with
                | Ok a => mret a
                | Err e => rollback_or_poison offset e
                | Panic => lift Panic
                end).

(** ** Reading *)

Definition read_view (db : Database) : result view.ReadView :=
  bv ← active_base.base_view (db_base db);
  Ok (view.MkReadView bv (OverlayState.index (db_overlay db)) (opt_verification (db_options db))).

(** [read_view().get(key)]. *)
Definition view_get (key : bytes) : M Database (option bytes) :=
  db ← self;
  rv ← lift (read_view db);
  on_base (active_base.with_verifier (view.get rv key)).

Definition get (key : bytes) : M Database (option bytes) :=
  _ ← ensure_available; view_get key.

Definition contains_key (key : bytes) : M Database bool :=
  value ← get key; mret (bool_decide (is_Some value)).

Definition verify : M Database () := _ ← ensure_available; on_base active_base.verify.

(** [ReadTransaction::get]: the view of a handle that was available. *)
Definition begin_read : M Database () := ensure_available.
Definition read_get (key : bytes) : M Database (option bytes) := view_get key.

(** [iter_raw] and [raw_len]. *)
Definition iter_raw (db : Database) : result RawEntries :=
  rv ← read_view db;
  raw_entries.new rv (ab_verifier (db_base db)) (ab_len (db_base db)).

Definition raw_len `{Placement} : M Database Z :=
  db ← self;
  r ← lift (iter_raw db);
  lift (fst (raw_entries.count (v_data_size (ab_verifier (db_base db))) r)).

Definition len `{Placement} : M Database Z := _ ← ensure_available; raw_len.
Definition is_empty `{Placement} : M Database bool := n ← len; mret (n =? 0).

(** [iter] run to its end or its first error. *)
Definition iter `{Placement} : M Database (list (bytes * bytes)) :=
  _ ← ensure_available;
  db ← self;
  r ← lift (iter_raw db);
  let '(items, (_, v)) := raw_entries.entries_collect (r, ab_verifier (db_base db)) in
  _ ← on_base (active_base.with_verifier (modify (λ _, v)));
  lift items.

Definition stats : M Database DatabaseStats :=
  _ ← ensure_available;
  n ← on_storage storage.len;
  db ← self;
  mapping ← lift (BaseBytes.deref (ab_mapping (db_base db)));
  mret (MkStats n (blen mapping) (ab_len (db_base db))
    (OverlayMap.len (OverlayState.index (db_overlay db)))
    (saturating_sub n (ab_log_start (db_base db))) (OverlayState.memory (db_overlay db))
    (saturating_sub (ab_offset (db_base db)) DATA_START) (ab_generation (db_base db))).

Definition sync : M Database () := _ ← ensure_available; on_storage storage.sync_data.

(** ** Committing *)

(** [append_batch]: the record through a buffered writer. *)
Definition append_batch (staged : KeyMap OverlayEntry) (value_checksums : KeyMap Z) : M Storage () :=
  BufWriter.scoped LOG_WRITE_BUFFER_SIZE (
    _ ← log.write_batch_record_with_checksums staged value_checksums;
    _ ← BufWriter.flush_buf;
    mret ()).

(** The loop of [mapped_mutations]. *)
Fixpoint mutations_loop (staged : KeyMap OverlayEntry) (cursor : Z) : result (list MappedMutation) :=
  match staged with
  | [] => Ok []
  | (key, entry) :: staged =>
      next ← ok_or (c ← checked_add cursor 9;
                    c ← checked_add c (blen key);
                    checked_add c (OverlayEntry.value_len entry))
                   (error.other "Overlay operation range overflow");
      rest ← mutations_loop staged next;
      Ok (MkMappedMutation cursor :: rest)
  end.

Definition mapped_mutations (staged : KeyMap OverlayEntry) (batch_offset : Z)
    : result (list MappedMutation) :=
  cursor ← ok_or (checked_add batch_offset (log.LOG_HEADER_SIZE + 4))
                 (error.other "Overlay batch layout overflow");
  _ ← fail_if (negb (try_reserve (blen staged)))
        (error.from_io OutOfMemory "could not reserve Overlay entries");
  mutations_loop staged cursor.

(** The size checks both commit paths start with: [None] for an empty batch. *)
Definition commit_checks (staged : KeyMap OverlayEntry) : M Database (option Z) :=
  _ ← ensure_writable;
  match staged with
  | [] => mret None
  | _ =>
      payload_len ← lift (log.batch_payload_len staged);
      batch_record_len ← lift (ok_or (checked_add log.LOG_HEADER_SIZE payload_len)
                                (error.from_io InvalidInput "batch record size overflow"));
      _ ← ensure_capacity batch_record_len;
      mret (Some batch_record_len)
  end.

Fixpoint set_overlay_entries (staged : KeyMap OverlayEntry) : M Database () :=
  match staged with
  | [] => mret ()
  | (key, entry) :: staged =>
      db ← self;
      overlay ← lift (OverlayState.set (db_overlay db) key entry);
      _ ← modify (set_overlay overlay);
      set_overlay_entries staged
  end.

Definition commit_staged_memory (staged : KeyMap OverlayEntry) : M Database () :=
  checked ← commit_checks staged;
  match checked with
  | None => mret ()
  | Some batch_record_len =>
      _ ← on_storage (storage.extend_memory_log batch_record_len);
      set_overlay_entries staged
  end.

(** The end of a durable commit: make the appended record visible. *)
Definition publish (rollback_offset : Z) (staged : KeyMap OverlayEntry)
    (mutations : list MappedMutation) : M Database () :=
  db ← self;
  overlay_size ← or_rollback rollback_offset (
    len ← on_storage storage.len;
    lift (ok_or (checked_sub len (ab_log_start (db_base db)))
            (error.other "Overlay range precedes the active Base")));
  db ← self;
  needs ← lift (OverlayState.needs_mapping (db_overlay db) overlay_size);
  if (needs : bool) then
    mapping ← or_rollback rollback_offset
                (on_storage (storage.load_immutable (ab_log_start (db_base db)) overlay_size));
    db ← self;
    overlay ← lift (OverlayState.install_mapped (db_overlay db) mapping mutations);
    modify (set_overlay overlay)
  else
    db ← self;
    overlay ← lift (OverlayState.install_tail (db_overlay db) staged mutations);
    modify (set_overlay overlay).

Definition commit_staged_with (staged : KeyMap OverlayEntry) (value_checksums : KeyMap Z)
    (append : KeyMap OverlayEntry → KeyMap Z → M Storage ()) : M Database () :=
  checked ← commit_checks staged;
  match checked with
  | None => mret ()
  | Some _ =>
      rollback_offset ← on_storage (seek (End_ 0));
      db ← self;
      batch_offset ← lift (ok_or (checked_sub rollback_offset (ab_log_start (db_base db)))
                             (error.other "Overlay batch offset overflow"));
      mutations ← lift (mapped_mutations staged batch_offset);
      _ ← or_rollback rollback_offset (on_storage (append staged value_checksums));
      _ ← or_rollback rollback_offset (on_storage storage.sync_data);
      publish rollback_offset staged mutations
  end.

Definition commit_staged (staged : KeyMap OverlayEntry) (value_checksums : KeyMap Z) : M Database () :=
  db ← self;
  if storage.is_memory (db_storage db) then commit_staged_memory staged
  else commit_staged_with staged value_checksums append_batch.

(** ** Write transactions on the handle *)

Definition begin_write : M Database WriteTransaction :=
  _ ← ensure_writable;
  db ← self;
  let limit := opt_overlay_memory_limit (db_options db) in
  let actual := OverlayState.memory (db_overlay db) in
  if limit <? actual then lift (Err (MaintenanceRequired limit actual))
  else mret transaction.new.

(** [WriteTransaction::get]. *)
Definition tx_get (tx : WriteTransaction) (key : bytes) : M Database (option bytes) :=
  staged ← lift (transaction.get_staged tx key);
  match staged with
  | Some value => mret value
  | None => get key
  end.

(** [WriteTransaction::contains_key]. *)
Definition tx_contains_key (tx : WriteTransaction) (key : bytes) : M Database bool :=
  value ← tx_get tx key; mret (bool_decide (is_Some value)).

Definition commit (tx : WriteTransaction) : M Database () :=
  commit_staged (tx_staged tx) (tx_value_checksums tx).

(** ** Opening *)

Definition load_storage_state (options : DatabaseOptions)
    : M Storage (ActiveBase * OverlayState) :=
  storage_len ← storage.len;
  sb ← superblock.read_latest_from storage_len;
  mapping ← storage.load_immutable (base_offset sb) (base_size sb);
  base ← lift (active_base.open mapping sb (opt_verification options));
  initial_overlay_size ← lift (ok_or (checked_sub storage_len (ab_log_start base))
                                 (error.invalid_base "overlay range precedes active Base"));
  s ← gets (λ s : Storage, s);
  scan ← (if initial_overlay_size =? 0 then mret (OverlayScan.empty (ab_log_start base))
          else if storage.is_memory s then
            lift (Err (error.invalid_base "in-memory database cannot contain a persisted Overlay"))
          else
            mapping ← storage.load_immutable (ab_log_start base) initial_overlay_size;
            lift (recovery.scan_overlay mapping (ab_log_start base)));
  let valid_len := OverlayScan.valid_len scan in
  '(base, scan) ← (if valid_len <? storage_len then
      scan ← lift (OverlayScan.release_mapping scan);
      _ ← storage.set_len valid_len;
      _ ← storage.sync_data;
      mapping ← storage.load_immutable (base_offset sb) (base_size sb);
      base ← lift (active_base.open mapping sb (opt_verification options));
      overlay_size ← lift (ok_or (checked_sub valid_len (ab_log_start base))
                             (error.invalid_base "overlay range precedes active Base"));
      mapping ← (if overlay_size =? 0 then mret None
                 else mapping ← storage.load_immutable (ab_log_start base) overlay_size;
                      mret (Some mapping));
      scan ← lift (OverlayScan.replace_mapping scan mapping);
      mret (base, scan)
    else mret (base, scan));
  overlay ← (if storage.is_memory s then lift (OverlayState.new OverlayMap.memory)
             else let '(index, memory) := OverlayScan.into_index scan in
                  mret (OverlayState.with_memory index memory));
  _ ← seek (End_ 0);
  mret (base, overlay).

Definition from_storage (s : Storage) (options : DatabaseOptions) : result Database * Storage :=
  (storage_len ← storage.len;
   _ ← lift (fail_if (opt_max_database_bytes options <? storage_len)
               (error.database_full (opt_max_database_bytes options) storage_len));
   '(base, overlay) ← load_storage_state options;
   s ← gets (λ s : Storage, s);
   mret (MkDatabase s base overlay options 0 Healthy)) s.

(** [open_with_options] on the file that was opened and locked. *)
Definition open_with_options (f : File) (options : DatabaseOptions) : result Database * Storage :=
  match validate_options options with
  | Ok _ =>
      let '(r, s) :=
        (initial_len ← storage.len;
         lift (fail_if (opt_max_database_bytes options <? initial_len)
                 (error.database_full (opt_max_database_bytes options) initial_len))) (SFile f) in
      match r with
      | Ok _ => from_storage s options
      | Err e => (Err e, s)
      | Panic => (Panic, s)
      end
  | Err e => (Err e, SFile f)
  | Panic => (Panic, SFile f)
  end.

(** [initialize_file], on the new file of a creation. *)
Definition initialize_file : M File () :=
  _ ← file.set_len DATA_START;
  base_size ← segment.write_base_at DATA_START 0 [];
  mapping ← segment.map DATA_START base_size;
  checksum ← lift (segment.segment_metadata_checksum mapping);
  log_start ← lift (add_ovf DATA_START base_size);
  _ ← superblock.write (MkSuperblock 1 DATA_START base_size 0 0 log_start checksum);
  file.sync.

Definition initialize_storage : M Storage () :=
  _ ← storage.set_len DATA_START;
  base_size ← segment.write_base_at DATA_START 0 [];
  mapping ← storage.load_immutable DATA_START base_size;
  bs ← lift (BaseBytes.deref mapping);
  checksum ← lift (segment.segment_metadata_checksum bs);
  log_start ← lift (add_ovf DATA_START base_size);
  _ ← superblock.write (MkSuperblock 1 DATA_START base_size 0 0 log_start checksum);
  storage.sync_all.

Definition memory_with_options (options : DatabaseOptions) : result Database :=
  _ ← validate_options options;
  let '(r, s) := initialize_storage storage.memory in
  _ ← r;
  fst (from_storage s options).

Definition memory : result Database := memory_with_options options.default.

(** ** Installing a root *)

Definition finish_superblock_install (installed : result ActiveBase) : M Database () :=
  match installed with
  | Panic => lift Panic
  | Err e => _ ← modify (set_state WritePoisoned); lift (Err e)
  | Ok base =>
      _ ← catch (on_storage (seek (End_ 0))) (λ r, match r with
            | Ok _ => mret ()
            | Err e => _ ← modify (set_state WritePoisoned); lift (Err e)
            | Panic => lift Panic
            end);
      modify (set_base base)
  end.

Definition install_superblock (sb : Superblock) : M Database () :=
  catch (on_storage (storage.load_immutable (base_offset sb) (base_size sb))) (λ r,
    finish_superblock_install (mapping ← r; active_base.install mapping sb)).

End Database.
End database.
