(* ===== verification/Faults.v ===== *)
(** * Appending when system calls fail

    What a buffered append leaves behind on a stream whose writes may be short or
    fail at any point: always the old content followed by a prefix of the bytes
    that were to be written, and all of them when it reports success. *)

From S2P Require Import Prelude Errors Crates Io Superblock Values Log Segment Storage.

Section Appending.
Context {S} `{Stream S} (appended : bytes → S → Prop) (F : Prop).

(** One write at the end: it takes a non-empty prefix, or fails and takes nothing; it
    fails only when [F] holds. *)
Definition writes_prefix : Prop := ∀ s d bs, appended d s → bs ≠ [] →
  ∃ r s', Io.write bs s = (r, s')
    ∧ ((∃ n, r = Ok n ∧ 0 < n ≤ blen bs ∧ appended (d ++ take (Z.to_nat n) bs) s')
       ∨ (∃ e, r = Err e ∧ F ∧ appended d s')).

Hypothesis Hwrite : writes_prefix.

Lemma take_drop_Z (bs : bytes) n :
  0 ≤ n ≤ blen bs → index_range bs n (blen bs) = Ok (drop (Z.to_nat n) bs).
Proof.
  intros Hn. unfold index_range. rewrite get_range_in_bounds by lia. cbn. f_equal.
  apply take_ge. rewrite length_drop. unfold blen. lia.
Qed.

Lemma write_all_loop_any fuel s d bs :
  appended d s → (length bs ≤ fuel)%nat →
  ∃ r s', write_all_loop fuel bs s = (r, s')
    ∧ ((r = Ok () ∧ appended (d ++ bs) s')
       ∨ (∃ e p, r = Err e ∧ F ∧ p `prefix_of` bs ∧ appended (d ++ p) s')).
Proof using All.
  revert s d bs. induction fuel as [|fuel IH]; intros s d bs Hs Hf.
  { destruct bs; [|cbn in Hf; lia]. exists (Ok ()), s. split; [done|]. left. by rewrite app_nil_r. }
  destruct bs as [|b bs]; [exists (Ok ()), s; split; [done|]; left; by rewrite app_nil_r|].
  cbn [write_all_loop]. set (all := b :: bs) in *.
  destruct (Hwrite s d all Hs ltac:(done)) as (r&s1&Hw&[(n&->&Hn&Hs1)|(e&->&HF&Hs1)]).
  - mrun Hw. replace (n =? 0) with false by lia. rewrite take_drop_Z by lia. rewrite M_lift_ok.
    destruct (IH s1 _ (drop (Z.to_nat n) all) Hs1) as (r&s2&Hr&Ho).
    { rewrite length_drop. unfold blen in *. lia. }
    exists r, s2. split; [done|]. destruct Ho as [[-> Ha]|(e&p&->&HF&Hp&Ha)].
    + left. split; [done|]. by rewrite <- app_assoc, take_drop in Ha.
    + right. exists e, (take (Z.to_nat n) all ++ p). split; [done|]. split; [done|]. split; [|by rewrite app_assoc].
      rewrite <- (take_drop (Z.to_nat n) all) at 2. by apply prefix_app.
  - exists (Err e), s1. rewrite (M_bind_err _ _ _ _ _ Hw). split; [done|]. right.
    exists e, []. split; [done|]. split; [done|]. split; [apply prefix_nil|]. by rewrite app_nil_r.
Qed.

(** The buffered writer: what has been handed on, and the buffer behind it. *)
Definition buffered (d : bytes) (w : BufWriter S) : Prop := appended d (buf_inner w).

Lemma flush_loop_any fuel w d :
  buffered d w → (length (buf w) ≤ fuel)%nat →
  ∃ r w' d', BufWriter.flush_loop fuel w = (r, w')
    ∧ buffered d' w' ∧ d' ++ buf w' = d ++ buf w ∧ buf_capacity w' = buf_capacity w
    ∧ (r = Ok () ∧ buf w' = [] ∨ ∃ e, r = Err e ∧ F).
Proof using All.
  revert w d. induction fuel as [|fuel IH]; intros w d Hw Hf; cbn [BufWriter.flush_loop];
    rewrite (M_bind_ok (gets buf) _ w (buf w) w eq_refl).
  { destruct (buf w) eqn:E; [|cbn in Hf; lia]. exists (Ok ()), w, d. rewrite E. by split_and!; auto. }
  destruct (buf w) as [|b bs] eqn:E; [exists (Ok ()), w, d; rewrite E; by split_and!; auto|].
  set (all := b :: bs) in *.
  destruct (Hwrite (buf_inner w) d all Hw ltac:(done)) as (r&s1&Hr&[(n&->&Hn&Hs1)|(e&->&HF&Hs1)]).
  - assert (Hi : BufWriter.inner (Io.write all) w = (Ok n, MkBuf (buf_capacity w) (buf w) s1))
      by (unfold BufWriter.inner, zoom; by rewrite Hr).
    mrun Hi. replace (n =? 0) with false by lia. rewrite take_drop_Z by lia. rewrite M_lift_ok.
    set (w1 := MkBuf (buf_capacity w) (drop (Z.to_nat n) all) s1).
    assert (Hm : modify (BufWriter.set_buf (drop (Z.to_nat n) all)) (MkBuf (buf_capacity w) (buf w) s1)
                 = (Ok (), w1)) by done. mrun Hm.
    destruct (IH w1 (d ++ take (Z.to_nat n) all)) as (r&w2&d2&Hf2&Hb2&Hd2&Hc2&Ho); [done| |].
    { cbn. rewrite length_drop. unfold blen in *. lia. }
    exists r, w2, d2. split_and!; try done. rewrite Hd2. cbn [w1 buf]. by rewrite <- app_assoc, take_drop.
  - assert (Hi : BufWriter.inner (Io.write all) w = (Err e, MkBuf (buf_capacity w) (buf w) s1))
      by (unfold BufWriter.inner, zoom; by rewrite Hr).
    rewrite (M_bind_err _ _ _ _ _ Hi). exists (Err e), (MkBuf (buf_capacity w) (buf w) s1), d.
    cbn [buf buf_capacity]. rewrite E. split_and!; try done. right. by exists e.
Qed.

Lemma flush_buf_any w d :
  buffered d w →
  ∃ r w' d', BufWriter.flush_buf w = (r, w')
    ∧ buffered d' w' ∧ d' ++ buf w' = d ++ buf w ∧ buf_capacity w' = buf_capacity w
    ∧ (r = Ok () ∧ buf w' = [] ∨ ∃ e, r = Err e ∧ F).
Proof using All. intros Hw. by apply flush_loop_any. Qed.

(** The flush that makes room for [bs]. *)
Lemma make_room_any w d (bs : bytes) :
  buffered d w → blen (buf w) ≤ buf_capacity w → buf_capacity w - blen (buf w) ≤ blen bs →
  ∃ r w1 d1, (if buf_capacity w - blen (buf w) <? blen bs then BufWriter.flush_buf else mret ()) w = (r, w1)
    ∧ buffered d1 w1 ∧ d1 ++ buf w1 = d ++ buf w ∧ buf_capacity w1 = buf_capacity w
    ∧ (r = Ok () ∧ (buf_capacity w ≤ blen bs → buf w1 = [])
          ∧ (blen bs < buf_capacity w → blen (buf w1) + blen bs ≤ buf_capacity w)
       ∨ ∃ e, r = Err e ∧ F).
Proof using All.
  intros Hw Hcap Hge. pose proof (blen_nonneg (buf w)). destruct (_ <? blen bs) eqn:E; bool_prop.
  - destruct (flush_buf_any w d Hw) as (r&w1&d1&Hf&Hb1&Hd1&Hc1&Ho). exists r, w1, d1.
    split_and!; try done. destruct Ho as [[-> Hnil]|?]; [left|by right]. rewrite Hnil, blen_nil. split_and!; [done|done|lia].
  - exists (Ok ()), w, d. split_and!; try done. left. split; [done|]. split; [|lia]. intros ?.
    destruct (buf w) as [|x b]; [done|]. rewrite blen_cons in *. pose proof (blen_nonneg b). lia.
Qed.

(** [write_all] adds its bytes behind what was written, or fails with a prefix of them. *)
Lemma buf_write_all_any w d bs :
  buffered d w → blen (buf w) ≤ buf_capacity w →
  ∃ r w' d', write_all bs w = (r, w') ∧ buffered d' w'
    ∧ ((r = Ok () ∧ blen (buf w') ≤ buf_capacity w' ∧ d' ++ buf w' = (d ++ buf w) ++ bs)
       ∨ (∃ e p, r = Err e ∧ F ∧ p `prefix_of` bs ∧ d' ++ buf w' = (d ++ buf w) ++ p)).
Proof using All.
  intros Hw Hcap. unfold write_all, bufwriter_writer, BufWriter.write_all.
  pose proof (blen_nonneg bs). pose proof (blen_nonneg (buf w)).
  rewrite (M_bind_ok (gets (λ w, w)) _ w w w eq_refl). cbv beta zeta.
  destruct (blen bs <? _) eqn:Hfit; bool_prop.
  { eexists (Ok ()), _, d. split; [done|]. split; [done|]. left. cbn. rewrite blen_app. split; [done|].
    split; [lia|]. by rewrite app_assoc. }
  destruct (make_room_any w d bs Hw Hcap Hfit) as (r&w1&d1&Hr&Hb1&Hd1&Hc1&[(->&He1&Hf1)|(e&->&HF)]).
  2:{ exists (Err e), w1, d1. rewrite (M_bind_err _ _ _ _ _ Hr). split; [done|]. split; [done|]. right.
      exists e, []. split; [done|]. split; [done|]. split; [apply prefix_nil|]. by rewrite app_nil_r. }
  rewrite (M_bind_ok _ _ _ _ _ Hr). destruct (_ <=? blen bs) eqn:Ec; bool_prop.
  - specialize (He1 Ec). rewrite He1, app_nil_r in Hd1. subst d1.
    destruct (write_all_loop_any (length bs) (buf_inner w1) (d ++ buf w) bs Hb1 ltac:(done)) as (r&s2&Hw2&Ho).
    assert (Hi : BufWriter.inner (stream_writer bs) w1 = (r, MkBuf (buf_capacity w1) (buf w1) s2))
      by (unfold BufWriter.inner, zoom, stream_writer; by rewrite Hw2).
    rewrite Hi. destruct Ho as [[-> Ha]|(e&p&->&HF&Hp&Ha)].
    + eexists (Ok ()), _, _. split; [done|]. split; [exact Ha|]. left. cbn. rewrite He1, blen_nil, app_nil_r.
      split_and!; [done|lia|done].
    + eexists (Err e), _, _. split; [done|]. split; [exact Ha|]. right. exists e, p. cbn. rewrite He1, app_nil_r.
      by split_and!.
  - rewrite (M_bind_ok (gets (λ w, w)) _ w1 w1 w1 eq_refl). eexists (Ok ()), _, d1. split; [done|]. split; [done|].
    left. cbn. rewrite blen_app. split_and!; [done|rewrite Hc1; apply Hf1; lia|]. by rewrite app_assoc, Hd1.
Qed.

Lemma write_parts_any parts w d :
  buffered d w → blen (buf w) ≤ buf_capacity w →
  ∃ r w' d', write_parts parts w = (r, w') ∧ buffered d' w'
    ∧ ((r = Ok () ∧ d' ++ buf w' = (d ++ buf w) ++ concat parts)
       ∨ (∃ e p, r = Err e ∧ F ∧ p `prefix_of` concat parts ∧ d' ++ buf w' = (d ++ buf w) ++ p)).
Proof using All.
  revert w d. induction parts as [|q parts IH]; intros w d Hw Hcap; cbn [write_parts concat].
  { exists (Ok ()), w, d. split; [done|]. split; [done|]. left. by rewrite app_nil_r. }
  destruct (buf_write_all_any w d q Hw Hcap) as (r&w1&d1&Hr&Hb1&[(->&Hc1&Hd1)|(e&p&->&HF&Hp&Hd1)]).
  - rewrite (M_bind_ok _ _ _ _ _ Hr). destruct (IH w1 d1 Hb1 Hc1) as (r&w2&d2&Hr2&Hb2&Ho).
    exists r, w2, d2. split; [done|]. split; [done|]. destruct Ho as [[-> Hd2]|(e&p&->&HF&Hp&Hd2)].
    + left. split; [done|]. by rewrite Hd2, Hd1, app_assoc.
    + right. exists e, (q ++ p). split; [done|]. split; [done|]. split; [by apply prefix_app|]. by rewrite Hd2, Hd1, app_assoc.
  - rewrite (M_bind_err _ _ _ _ _ Hr). exists (Err e), w1, d1. split; [done|]. split; [done|]. right.
    exists e, p. split_and!; [done|done| |done]. by apply prefix_app_r.
Qed.

(** A buffered append of [parts], flushed and then dropped. *)
Lemma scoped_append_any capacity parts s :
  0 ≤ capacity → appended [] s →
  ∃ r s' p, BufWriter.scoped capacity (_ ← write_parts parts; _ ← BufWriter.flush_buf; mret ()) s = (r, s')
    ∧ p `prefix_of` concat parts ∧ appended p s'
    ∧ (r = Ok () ∧ p = concat parts ∨ ∃ e, r = Err e ∧ F).
Proof using All.
  intros Hc Hs. unfold BufWriter.scoped. set (w0 := BufWriter.with_capacity capacity s).
  (* the drop after a failure *)
  assert (Hdrop : ∀ e w d, F → buffered d w → d ++ buf w `prefix_of` concat parts →
    ∃ r s' p, (@Err () e, buf_inner (BufWriter.flush_buf w).2) = (r, s') ∧ p `prefix_of` concat parts
      ∧ appended p s' ∧ (r = Ok () ∧ p = concat parts ∨ ∃ e, r = Err e ∧ F)).
  { intros e w d HF Hb Hp. destruct (flush_buf_any w d Hb) as (r2&w2&d2&->&Hb2&Hd2&_&_).
    exists (Err e), (buf_inner w2), d2. split; [done|]. split; [|split; [done|right; by exists e]].
    trans (d ++ buf w); [|done]. exists (buf w2). by rewrite Hd2. }
  destruct (write_parts_any parts w0 []) as (r&w1&d1&Hr&Hb1&Ho); [done|cbn; rewrite blen_nil; lia|].
  cbn [w0 BufWriter.with_capacity buf] in Ho. rewrite !app_nil_l in Ho.
  destruct Ho as [[-> Hd1]|(e&p&->&HF&Hp&Hd1)].
  - rewrite (M_bind_ok _ _ _ _ _ Hr).
    destruct (flush_buf_any w1 d1 Hb1) as (r2&w2&d2&Hf2&Hb2&Hd2&_&[[-> Hnil]|(e&->&HF)]).
    + rewrite (M_bind_ok _ _ _ _ _ Hf2). exists (Ok ()), (buf_inner w2), (concat parts).
      rewrite Hnil, app_nil_r, Hd1 in Hd2. subst d2.
      split; [|split; [done|split; [done|by left]]].
      assert (Hfn : BufWriter.flush_buf w2 = (Ok (), w2)).
      { unfold BufWriter.flush_buf. rewrite Hnil. cbn [length BufWriter.flush_loop].
        rewrite (M_bind_ok (gets buf) _ w2 _ w2 eq_refl). by rewrite Hnil. }
      cbn. by rewrite Hfn.
    + rewrite (M_bind_err _ _ _ _ _ Hf2). apply (Hdrop e w2 d2 HF Hb2). by rewrite Hd2, Hd1.
  - rewrite (M_bind_err _ _ _ _ _ Hr). apply (Hdrop e w1 d1 HF Hb1). by rewrite Hd1.
Qed.

End Appending.

(** ** Histories

    A crash between two system calls leaves the content some prefix of the trace
    produces. [history R f0 f]: [f] came from [f0] by the changes its trace records,
    and every content on the way satisfies [R]. *)

Definition replay_op (c : bytes) (op : FileOp) : bytes :=
  match op with
  | OpWrite pos bs => splice c pos bs
  | OpSetLen n => take (Z.to_nat n) c ++ replicate (Z.to_nat (n - blen c)) Byte.x00
  | OpSync => c
  end.
Definition replay : bytes → list FileOp → bytes := foldl replay_op.

Definition history (R : bytes → Prop) (f0 f : File) : Prop :=
  ∃ ops, file_trace f = file_trace f0 ++ ops ∧ replay (file_content f0) ops = file_content f
    ∧ ∀ k, R (replay (file_content f0) (take k ops)).

Lemma history_refl (R : bytes → Prop) f : R (file_content f) → history R f f.
Proof. intros HR. exists []. split; [by rewrite app_nil_r|]. split; [done|]. intros k. by rewrite take_nil. Qed.

Lemma history_mono (R R' : bytes → Prop) f0 f :
  history R f0 f → (∀ c, R c → R' c) → history R' f0 f.
Proof. intros (ops&?&?&Hk) HR. exists ops. split_and!; auto. Qed.

(** A file that was left alone, apart from its position and its script. *)
Lemma history_same R f0 f g :
  history R f0 f → file_content g = file_content f → file_trace g = file_trace f → history R f0 g.
Proof. intros (ops&Ht&Hc&Hk) Hg Htg. exists ops. split_and!; [congruence|congruence|done]. Qed.

Lemma history_snoc (R : bytes → Prop) f0 f g op :
  history R f0 f → file_content g = replay_op (file_content f) op → file_trace g = file_trace f ++ [op] →
  R (file_content g) → history R f0 g.
Proof.
  intros (ops&Ht&Hc&Hk) Hg Htg HR. exists (ops ++ [op]).
  assert (Hr : replay (file_content f0) (ops ++ [op]) = file_content g)
    by (unfold replay in *; rewrite foldl_app, Hc; by cbn).
  split; [by rewrite Htg, Ht, app_assoc|]. split; [done|]. intros k.
  destruct (decide (k ≤ length ops)%nat).
  - rewrite take_app_le by done. apply Hk.
  - rewrite take_ge by (rewrite length_app; cbn; lia). by rewrite Hr.
Qed.

(** ** Files *)

(** One system call under any script: it fails without touching the file, or runs. A
    failure is one the script has. *)
Lemma syscall_any {A} (body : IoFault → M File A) f :
  ∃ g, file_content g = file_content f ∧ file_pos g = file_pos f ∧ file_trace g = file_trace f
    ∧ file_script g `suffix_of` file_script f
    ∧ ((∃ e, file.syscall body f = (Err (error.from e), g) ∧ Fault e ∈ file_script f)
       ∨ (∃ x, file.syscall body f = body x g)).
Proof.
  unfold file.syscall. destruct (file_script f) as [|x rest] eqn:E.
  { exists f. split_and!; try done; [by rewrite E|]. right. by exists Pass. }
  exists (MkFile (file_content f) (file_pos f) rest (file_trace f)). cbn.
  split_and!; try done; [by exists [x]|].
  destruct x; [right; by exists Pass|right; by eexists|left; eexists; split; [done|by left]].
Qed.

(** A failure was scheduled for the file. *)
Definition faulty (f : File) : Prop := ∃ e, Fault e ∈ file_script f.

Lemma faulty_suffix f g : file_script g `suffix_of` file_script f → faulty g → faulty f.
Proof. intros [l E] [e He]. exists e. rewrite E. set_solver. Qed.

(** A file storage with content [c] and the history [history R f0]. *)
Definition stored (R : bytes → Prop) (f0 : File) (c : bytes) (s : Storage) : Prop :=
  ∃ f, s = SFile f ∧ file_content f = c ∧ history R f0 f ∧ file_script f `suffix_of` file_script f0.

(** The last change of the storage was followed by a sync. *)
Definition synced (s : Storage) : Prop := ∃ f, s = SFile f ∧ last (file_trace f) = Some OpSync.

(** Between appends: the storage stands at its end, [d] beyond the content of [f0],
    and has only grown on the way. *)
Definition grows (f0 : File) (d c : bytes) : Prop := ∃ p, p `prefix_of` d ∧ c = file_content f0 ++ p.
Definition grown (f0 : File) (d : bytes) (s : Storage) : Prop :=
  ∃ f, s = SFile f ∧ file_content f = file_content f0 ++ d ∧ file_pos f = blen (file_content f)
    ∧ history (grows f0 d) f0 f ∧ file_script f `suffix_of` file_script f0.

Section Files.
Context `{Alloc}.
Implicit Types (s : Storage) (R : bytes → Prop).

(** What one system call on a stored file leaves, when it only reads. *)
Lemma stored_syscall {A} R f0 c f (body : IoFault → M File A) :
  stored R f0 c (SFile f) →
  ∃ g, stored R f0 c (SFile g) ∧ file_content g = c ∧ file_pos g = file_pos f ∧ file_trace g = file_trace f
    ∧ (synced (SFile f) → synced (SFile g))
    ∧ ((∃ e, file.syscall body f = (Err e, g) ∧ faulty f0) ∨ (∃ x, file.syscall body f = body x g)).
Proof.
  intros (?&[= <-]&Hc&Hh&Hs). destruct (syscall_any body f) as (g&Hgc&Hgp&Hgt&Hgs&Ho). exists g.
  split; [exists g; split_and!; [done|congruence|by eapply history_same|by etrans]|].
  split; [congruence|]. split; [done|]. split; [done|].
  split; [intros (?&[= <-]&?); exists g; by rewrite Hgt|].
  destruct Ho as [(e&Ho&He)|[x Ho]]; [left|right; by exists x].
  eexists. split; [exact Ho|]. eapply faulty_suffix; [exact Hs|by exists e].
Qed.

Lemma storage_writes_prefix f0 : writes_prefix (grown f0) (faulty f0).
Proof.
  intros s d bs (f&->&Hc&Hp&Hh&Hsu) Hne. pose proof (blen_pos bs Hne).
  cbn [Io.write storage.storage_stream]. unfold storage.dispatch. cbn [Io.write file_stream].
  unfold file.write.
  match goal with |- context [file.syscall ?b _] => destruct (syscall_any b f) as (g&Hgc&Hgp&Hgt&Hgs&[(e&->&He)|[x ->]]) end.
  - eexists (Err _), (SFile g). split; [done|]. right. eexists. split; [done|].
    split; [eapply faulty_suffix; [exact Hsu|by exists e]|]. exists g.
    split_and!; [done|congruence|congruence|by eapply history_same|by etrans].
  - cbn zeta. set (n := file.limit x (blen bs)).
    assert (Hn : 0 < n ≤ blen bs) by (unfold n, file.limit; destruct x; lia).
    eexists (Ok n), _. split; [done|]. left. exists n. split; [done|]. split; [done|].
    assert (Hs : splice (file_content g) (file_pos g) (take (Z.to_nat n) bs)
                 = file_content f0 ++ d ++ take (Z.to_nat n) bs)
      by (rewrite Hgp, Hgc, Hp, splice_end, Hc; by rewrite <- app_assoc).
    eexists. split; [done|]. cbn. rewrite Hs. split; [done|].
    split; [rewrite Hgp, Hp, Hc, !blen_app, blen_take; lia|]. split; [|by etrans].
    eapply (history_snoc _ _ g _ (OpWrite (file_pos g) (take (Z.to_nat n) bs))).
    + eapply (history_same _ _ f); [|done|done]. eapply history_mono; [exact Hh|].
      intros c (p&Hpre&->). exists p. split; [by apply prefix_app_r|done].
    + cbn. by rewrite <- Hs.
    + done.
    + cbn. by exists (d ++ take (Z.to_nat n) bs).
Qed.

Lemma len_any R f0 c s :
  stored R f0 c s →
  ∃ r s', storage.len s = (r, s') ∧ stored R f0 c s' ∧ (synced s → synced s')
    ∧ (r = Ok (blen c) ∨ ∃ e, r = Err e ∧ faulty f0).
Proof.
  intros Hst. pose proof Hst as (f&->&Hc&_). unfold storage.len, storage.dispatch, file.len.
  destruct (stored_syscall R f0 c f (λ _, gets (λ f, blen (file_content f))) Hst)
    as (g&Hg&Hgc&_&_&Hsy&[(e&->&HF)|[x ->]]).
  - exists (Err e), (SFile g). split_and!; eauto.
  - exists (Ok (blen c)), (SFile g). split; [by rewrite <- Hgc|]. split_and!; auto.
Qed.

Lemma seek_end_any R f0 c s :
  stored R f0 c s → blen c ≤ ISIZE_MAX →
  ∃ r s', Io.seek (End_ 0) s = (r, s') ∧ stored R f0 c s'
    ∧ (r = Ok (blen c) ∧ (∃ f, s' = SFile f ∧ file_pos f = blen c) ∨ ∃ e, r = Err e ∧ faulty f0).
Proof.
  intros Hst Hl. pose proof Hst as (f&->&Hc&_). pose proof (blen_nonneg c).
  cbn [Io.seek storage.storage_stream]. unfold storage.dispatch. cbn [Io.seek file_stream]. unfold file.seek.
  destruct (stored_syscall R f0 c f (λ _ f, file.seek_to (blen (file_content f) + 0) f) Hst)
    as (g&Hg&Hgc&_&_&_&[(e&->&HF)|[x ->]]).
  - exists (Err e), (SFile g). split_and!; eauto.
  - unfold file.seek_to. rewrite Hgc, Z.add_0_r.
    replace (0 <=? blen c) with true by lia. replace (blen c <=? ISIZE_MAX) with true by lia.
    cbn [andb]. eexists (Ok (blen c)), _. split; [done|]. split; [|left; split; [done|by eexists]].
    destruct Hg as (?&[= <-]&?&Hh&?). eexists. split; [done|]. split_and!; [done|by eapply history_same|done].
Qed.

Lemma sync_any R f0 c s :
  stored R f0 c s → R c →
  ∃ r s', storage.sync_data s = (r, s') ∧ stored R f0 c s'
    ∧ (r = Ok () ∧ synced s' ∨ ∃ e, r = Err e ∧ faulty f0).
Proof.
  intros Hst HR. pose proof Hst as (f&->&Hc&_). unfold storage.sync_data, storage.dispatch, file.sync.
  destruct (stored_syscall R f0 c f (λ _, modify (λ f, file.set_content (file_content f) OpSync f)) Hst)
    as (g&Hg&Hgc&_&_&_&[(e&->&HF)|[x ->]]).
  - exists (Err e), (SFile g). split_and!; eauto.
  - eexists (Ok ()), _. split; [done|]. destruct Hg as (?&[= <-]&_&Hh&?). split.
    + eexists. split; [done|]. split_and!; [done| |done].
      eapply (history_snoc R f0 g _ OpSync); [done|done|done|cbn; by rewrite Hgc].
    + left. split; [done|]. eexists. split; [done|]. cbn. by rewrite last_snoc.
Qed.

Lemma truncate_any R f0 c d s :
  stored R f0 (c ++ d) s → R c →
  ∃ r s', storage.set_len (blen c) s = (r, s')
    ∧ (r = Ok () ∧ stored R f0 c s' ∨ ∃ e, r = Err e ∧ faulty f0 ∧ stored R f0 (c ++ d) s').
Proof.
  intros Hst HR. pose proof Hst as (f&->&Hc&_). unfold storage.set_len, storage.dispatch, file.set_len.
  match goal with |- context [file.syscall ?b _] =>
    destruct (stored_syscall R f0 _ f b Hst) as (g&Hg&Hgc&_&_&_&[(e&->&HF)|[x ->]]) end.
  - exists (Err e), (SFile g). split; [done|]. right. by exists e.
  - assert (Hn : take (Z.to_nat (blen c)) (file_content g)
        ++ replicate (Z.to_nat (blen c - blen (file_content g))) Byte.x00 = c).
    { rewrite Hgc, blen_app. pose proof (blen_nonneg d).
      replace (Z.to_nat (blen c - (blen c + blen d))) with 0%nat by lia. cbn [replicate].
      rewrite app_nil_r. unfold blen. rewrite Nat2Z.id. by rewrite take_app_length. }
    destruct Hg as (?&[= <-]&_&Hh&?). eexists (Ok ()), _. split; [done|]. left. split; [done|]. eexists. split; [done|].
    split; [cbn; exact Hn|]. split; [|done].
    eapply (history_snoc R f0 g _ (OpSetLen (blen c))); [done|done|done|cbn; by rewrite Hn].
Qed.

Lemma map_any R f0 c s offset size bs :
  stored R f0 c s → blen c < U64 → 0 < size → get_range c offset (offset + size) = Some bs →
  ∃ r s', storage.load_immutable offset size s = (r, s') ∧ stored R f0 c s' ∧ (synced s → synced s')
    ∧ (r = Ok (BaseBytes.Mapped bs) ∨ ∃ e, r = Err e ∧ faulty f0).
Proof.
  intros Hst Hl Hs Hg. pose proof (get_range_Some _ _ _ _ Hg) as (?&?&_&_). pose proof Hst as (f&->&Hc&_).
  assert (Hm : ∃ g r, segment.map offset size f = (r, g) ∧ stored R f0 c (SFile g)
    ∧ (synced (SFile f) → synced (SFile g)) ∧ (r = Ok bs ∨ ∃ e, r = Err e ∧ faulty f0)).
  { unfold segment.map. replace (size =? 0) with false by lia. rewrite checked_add_ok by lia.
    cbn [ok_or]. rewrite M_lift_ok.
    destruct (stored_syscall R f0 c f (λ _, gets (λ f, blen (file_content f))) Hst)
      as (g&Hgst&Hgc&_&_&Hsy&[(e&He&HF)|[x Hx]]).
    { exists g, (Err e). rewrite (M_bind_err file.len _ _ _ _ He). split_and!; eauto. }
    rewrite (M_bind_ok file.len _ f (blen (file_content g)) g Hx). rewrite Hgc.
    replace (_ <? _) with false by lia.
    match goal with |- context [file.syscall ?b _] =>
      destruct (stored_syscall R f0 c g b Hgst) as (h&Hhst&Hhc&_&_&Hsy2&[(e&->&HF)|[y ->]]) end.
    - exists h, (Err e). split_and!; eauto.
    - exists h, (Ok bs). rewrite Hhc, Hg. split; [done|]. split_and!; eauto. }
  destruct Hm as (g&r&Hm&Hgst&Hsy&Hr).
  unfold storage.load_immutable, storage.dispatch, mbind, M_bind. rewrite Hm.
  destruct Hr as [->|(e&->&HF)]; eexists _, _; (split; [done|]); split_and!; eauto.
Qed.

Lemma grown_stored f0 d d' s :
  grown f0 d s → d `prefix_of` d' → stored (grows f0 d') f0 (file_content f0 ++ d) s.
Proof.
  intros (f&->&Hc&_&Hh&Hsu) Hd. exists f. split_and!; [done|done| |done]. eapply history_mono; [exact Hh|].
  intros c (p&Hp&->). exists p. split; [by etrans|done].
Qed.

End Files.
