(* ===== verification/Commit.v ===== *)
(** * Durable commits and recovery

    What a commit of a file database does when any system call may fail, and what
    reopening the file afterwards finds: a commit that reports success is on disk and
    visible, a commit that fails leaves the handle as it was or closed for writing, and
    whatever content a crash leaves behind, reopening recovers the batches committed
    before and the interrupted one entirely or not at all. *)

From S2P Require Import Prelude Errors Crates Io Superblock Values Log Segment Overlay Recovery View.
From S2P Require Import Base Storage Transaction Entries Database Faults.
Import overlay_map_facts.

Module commit_facts.
Section Batch.
Context `{Crc32cLaws, Xxh3, Alloc, HashTablesLaws}.
Implicit Types (staged : KeyMap OverlayEntry) (muts : list mutation) (batches : list (list mutation)).

(** ** Where the operations of a batch are in the log *)

Lemma mutations_loop_located staged muts pre post :
  staged_denotes staged muts → Forall op_fits muts →
  blen (pre ++ log.encode_ops muts ++ post) < U64 →
  ∃ ms, database.mutations_loop staged (blen pre) = Ok ms
    ∧ located (pre ++ log.encode_ops muts ++ post) ms muts ∧ length ms = length staged.
Proof.
  intros Hd. revert pre. induction Hd as [|[k e] [k' o] staged muts [Hk Ho] Hd IH]; intros pre Hf Hl.
  { exists []. by split_and!; [|constructor|]. }
  cbn in Hk, Ho. subst k'. inversion Hf as [|?? Hf1 Hf2]; subst.
  rewrite log.encode_ops_cons in Hl |- *. rewrite <- (app_assoc (log.encode_op _)) in Hl |- *.
  pose proof Hl as Hl0. rewrite !blen_app, log.blen_encode_op in Hl0. cbn [fst snd] in Hl0.
  pose proof (blen_nonneg k). pose proof (blen_nonneg (OverlayEntry.contents o)).
  pose proof (blen_nonneg (log.encode_ops muts)). pose proof (blen_nonneg post). pose proof (blen_nonneg pre).
  cbn [database.mutations_loop]. rewrite (OverlayEntry.denotes_value_len _ _ Ho).
  rewrite checked_add_ok by lia. cbn [mbind option_bind]. rewrite checked_add_ok by lia.
  cbn [mbind option_bind]. rewrite checked_add_ok by lia. rstep.
  assert (Hb : blen pre + 9 + blen k + blen (OverlayEntry.contents o) = blen (pre ++ log.encode_op (k, o)))
    by (rewrite blen_app, log.blen_encode_op; cbn [fst snd]; lia).
  rewrite Hb. rewrite (app_assoc pre) in Hl.
  destruct (IH (pre ++ log.encode_op (k, o)) Hf2 Hl) as (ms&->&Hlo&Hms). rstep.
  exists (MkMappedMutation (blen pre) :: ms). split; [done|]. split; [|cbn; by rewrite Hms].
  constructor; [|by rewrite (app_assoc pre)]. unfold record_view. rewrite <- app_assoc in Hl.
  by apply checked_slices_encode.
Qed.

(** The positions [mapped_mutations] computes before the record is appended are the
    positions of the operations in the log with the record. *)
Lemma mapped_mutations_located staged muts lg :
  staged_denotes staged muts → Forall op_fits muts → blen (lg ++ log.encode_record muts) < U64 →
  (∃ ms, database.mapped_mutations staged (blen lg) = Ok ms
     ∧ located (lg ++ log.encode_record muts) ms muts ∧ length ms = length staged)
  ∨ ∃ e n, database.mapped_mutations staged (blen lg) = Err e ∧ try_reserve n = false.
Proof.
  intros Hd Hf Hl. unfold database.mapped_mutations, log.LOG_HEADER_SIZE.
  pose proof Hl as Hl0. rewrite blen_app, log.blen_encode_record, log.blen_encode_payload in Hl0.
  unfold log.LOG_HEADER_SIZE in Hl0. pose proof (blen_nonneg (log.encode_ops muts)).
  rewrite checked_add_ok by lia. rstep. destruct (negb _) eqn:Er; rstep.
  { right. eexists _, _. split; [done|]. by apply negb_true_iff in Er. }
  left.
  set (pre := lg ++ log.record_header Marker.Batch 0 (blen (log.encode_payload muts))
    (log.record_checksum Marker.Batch 0 (blen (log.encode_payload muts)) (log.encode_payload muts))
    ++ u32_le (blen muts)).
  assert (Hpre : lg ++ log.encode_record muts = pre ++ log.encode_ops muts ++ []).
  { unfold pre, log.encode_record, log.encode_payload. by rewrite app_nil_r, <- !app_assoc. }
  assert (Hb : blen lg + (17 + 4) = blen pre).
  { unfold pre. rewrite !blen_app, log.blen_record_header. unfold log.LOG_HEADER_SIZE. len. }
  rewrite Hb, Hpre. apply mutations_loop_located; [done..|]. by rewrite <- Hpre.
Qed.

(** ** Charges are covered by the log *)

Lemma added_by_encode_ops muts : added_by charge_inline muts ≤ blen (log.encode_ops muts).
Proof.
  induction muts as [|[k o] muts IH]; [done|]. rewrite log.encode_ops_cons, blen_app, log.blen_encode_op.
  change (added_by charge_inline ((k, o) :: muts)) with (charge_inline (k, o) + added_by charge_inline muts).
  pose proof (charge_inline_owned (k, o)) as Hc. unfold charge_owned in Hc. cbn [fst snd] in *. lia.
Qed.

Lemma added_by_app c l1 l2 : added_by c (l1 ++ l2) = added_by c l1 + added_by c l2.
Proof. unfold added_by. induction l1 as [|x l1 IH]; cbn; [lia|]. rewrite IH. lia. Qed.

Lemma encode_log_app b1 b2 : recovery.encode_log (b1 ++ b2) = recovery.encode_log b1 ++ recovery.encode_log b2.
Proof. unfold recovery.encode_log. by rewrite fmap_app, concat_app. Qed.

Lemma encode_log_snoc batches muts :
  recovery.encode_log (batches ++ [muts]) = recovery.encode_log batches ++ log.encode_record muts.
Proof. rewrite encode_log_app. unfold recovery.encode_log. cbn. by rewrite app_nil_r. Qed.

Lemma added_by_encode_log batches :
  added_by charge_inline (concat batches) ≤ blen (recovery.encode_log batches).
Proof.
  induction batches as [|muts batches IH]; [done|]. cbn [concat]. rewrite added_by_app.
  change (recovery.encode_log (muts :: batches)) with (log.encode_record muts ++ recovery.encode_log batches).
  rewrite blen_app, log.blen_encode_record, log.blen_encode_payload. unfold log.LOG_HEADER_SIZE.
  pose proof (added_by_encode_ops muts). lia.
Qed.

Lemma charge_fits batches muts :
  blen (recovery.encode_log (batches ++ [muts])) < U64 →
  total charge_inline (apply_muts ∅ (concat batches)) + added_by charge_inline muts < U64.
Proof.
  intros Hl. pose proof (total_apply_muts_le charge_inline charge_inline_nonneg ∅ (concat batches)) as Ht.
  rewrite total_empty in Ht. pose proof (added_by_encode_log (batches ++ [muts])) as Hb.
  rewrite concat_app in Hb. cbn [concat] in Hb. rewrite app_nil_r, added_by_app in Hb. lia.
Qed.

(** ** Installing the batch *)

(** A batch that needs no new mapping is small enough for the tail. *)
Lemma tail_entries lg staged muts ms :
  staged_denotes staged muts → Forall (λ e, tx_facts.value_shape false e.2) staged →
  located lg ms muts → blen (log.encode_ops muts) < OVERLAY_MAPPING_THRESHOLD →
  Forall2 (tail_entry lg) (zip staged ms) muts.
Proof.
  intros Hd. revert ms. induction Hd as [|[k e] [k' o] staged muts [Hk Ho] Hd IH]; intros ms Hsh Hlo Hl.
  { inversion Hlo; subst. constructor. }
  cbn in Hk, Ho. subst k'. inversion Hsh as [|?? Hs1 Hs2]; subst.
  inversion Hlo as [|mu ? ms' ? Hm Hlo']; subst. rewrite log.encode_ops_cons, blen_app, log.blen_encode_op in Hl.
  cbn [fst snd] in Hl, Hs1. pose proof (blen_nonneg k). pose proof (blen_nonneg (log.encode_ops muts)).
  pose proof (blen_nonneg (OverlayEntry.contents o)).
  cbn [zip zip_with]. constructor; [|apply IH; [done..|lia]].
  unfold tail_entry, tail_view. cbn [fst snd tail_key tail_value tail_mapped].
  assert (Hov : owned_view (k, e) = Some (k, o)).
  { destruct e as [v|], o as [w|]; cbn in Ho; try done. destruct v as [v|? st en]; cbn in Ho.
    - by injection Ho as ->.
    - destruct Hs1 as [_ Hs1]. pose proof (ValueBytes.denotes_len _ _ Ho) as Hlen. cbn in Hlen, Hl.
      unfold MAPPED_VALUE_THRESHOLD, OVERLAY_MAPPING_THRESHOLD in *. lia. }
  rewrite Hov, decide_True; [done|]. split; [done|]. unfold charge_inline, charge_owned. cbn [fst snd].
  destruct o as [w|]; cbn in *; [|done]. unfold MAPPED_VALUE_THRESHOLD, OVERLAY_MAPPING_THRESHOLD in *.
  by replace (blen w <? _) with true by lia.
Qed.

End Batch.

(** ** The image of a database and a handle on it *)

Section Handle.
Context `{Crc32cLaws, Xxh3Laws, Alloc, HashTablesLaws}.
Implicit Types (db : Database) (f : File) (sb : Superblock) (entries : list (bytes * bytes))
  (staged : KeyMap OverlayEntry) (muts : list mutation) (batches : list (list mutation)).

(** The two root pages choose [sb], however far the file grows. *)
Definition roots_to (c : bytes) sb : Prop :=
  ∃ p0 p1, get_range c 0 superblock.SUPERBLOCK_SIZE = Some p0
    ∧ get_range c superblock.SUPERBLOCK_SIZE superblock.DATA_START = Some p1
    ∧ superblock.foreign_of p0 = None ∧ superblock.foreign_of p1 = None
    ∧ ∀ len, log_start sb ≤ len →
        superblock.newer (superblock.root_of len p0) (superblock.root_of len p1) = Some sb.

(** An image with the root [sb], the Base of [entries], the log of [batches] and then
    the bytes [rest]. *)
Definition image_holds (c : bytes) sb entries batches (rest : bytes) : Prop :=
  roots_to c sb
  ∧ (∃ bs, get_range c (base_offset sb) (base_offset sb + base_size sb) = Some bs
       ∧ active_base.describes sb entries bs)
  ∧ superblock.DATA_START ≤ base_offset sb ∧ base_offset sb + base_size sb ≤ log_start sb
  ∧ log_start sb ≤ blen c ∧ drop (Z.to_nat (log_start sb)) c = recovery.encode_log batches ++ rest
  ∧ Forall recovery.batch_ok batches ∧ blen c ≤ ISIZE_MAX.

(** An open handle on such a file. *)
Definition handle_on db f sb entries batches : Prop :=
  db_storage db = SFile f ∧ image_holds (file_content f) sb entries batches []
  ∧ active_base.holds (db_base db) entries ∧ ab_log_start (db_base db) = log_start sb
  ∧ ab_offset (db_base db) = base_offset sb ∧ ab_generation (db_base db) = generation sb
  ∧ state_holds (recovery.encode_log batches) (db_overlay db) (apply_muts ∅ (concat batches))
  ∧ ∀ table, OverlayState.index (db_overlay db) ≠ OverlayMap.Memory table.

(** What a database with this Base and these batches contains. *)
Definition contents entries batches : gmap bytes bytes :=
  entries_facts.live entries (apply_muts ∅ (concat batches)).

(** Appending keeps everything before the log. *)
Lemma roots_to_app c d sb : roots_to c sb → roots_to (c ++ d) sb.
Proof.
  intros (p0&p1&Hg0&Hg1&?&?&?). exists p0, p1. split_and!; try done.
  all: eapply get_range_prefix; [by apply prefix_app_r|done].
Qed.

Lemma image_holds_app c sb entries batches rest d batches' rest' :
  image_holds c sb entries batches rest →
  recovery.encode_log batches ++ rest ++ d = recovery.encode_log batches' ++ rest' →
  Forall recovery.batch_ok batches' → blen (c ++ d) ≤ ISIZE_MAX →
  image_holds (c ++ d) sb entries batches' rest'.
Proof.
  intros (Hr&(bs&Hbs&Hd)&?&?&?&Hlog&_&_) E Hok Hl. split; [by apply roots_to_app|]. split.
  { exists bs. split; [|done]. eapply get_range_prefix; [by apply prefix_app_r|done]. }
  pose proof (blen_nonneg d). split_and!; [done|done|rewrite blen_app; lia| |done|done].
  rewrite drop_app_le by (unfold blen in *; lia). by rewrite Hlog, <- app_assoc.
Qed.

Lemma image_log_blen c sb entries batches rest :
  image_holds c sb entries batches rest → 0 ≤ log_start sb ∧
  blen (recovery.encode_log batches ++ rest) = blen c - log_start sb.
Proof.
  intros (_&(bs&Hbs&_&_&Hsz&_)&Ho&Hend&Hls&Hlog&_). rewrite <- Hlog, blen_drop.
  unfold superblock.DATA_START, superblock.SUPERBLOCK_SIZE in Ho. pose proof (blen_nonneg bs). lia.
Qed.

(** ** The steps of a commit *)

Lemma database_eta db : database.set_storage (db_storage db) db = db.
Proof. by destruct db. Qed.

Lemma on_storage_run {A} (m : M Storage A) db r s :
  m (db_storage db) = (r, s) → database.on_storage m db = (r, database.set_storage s db).
Proof. intros E. unfold database.on_storage, zoom. by rewrite E. Qed.

(** A failed commit: the handle is closed for writing, and of the record [rec] at most
    a prefix stays behind. *)
Definition poisoned f0 (rec : bytes) db db' : Prop :=
  ∃ s' p, db' = database.set_state WritePoisoned (database.set_storage s' db)
    ∧ p `prefix_of` rec ∧ stored (grows f0 rec) f0 (file_content f0 ++ p) s'.

Lemma ignore_run {A} (m : M Database A) db r db' :
  m db = (r, db') → r ≠ Panic → database.ignore m db = (Ok (), db').
Proof. intros E Hr. unfold database.ignore, catch. rewrite E. by destruct r. Qed.

(** Rolling back cuts the file back to [c], or leaves it as it is when that fails. *)
Lemma rollback_stored {A} R f0 c d db e :
  stored R f0 (c ++ d) (db_storage db) → R c → blen (c ++ d) ≤ ISIZE_MAX →
  ∃ s' d', database.rollback_or_poison (A := A) (blen c) e db
      = (Err e, database.set_state WritePoisoned (database.set_storage s' db))
    ∧ (d' = d ∨ d' = []) ∧ stored R f0 (c ++ d') s'.
Proof.
  intros Hst HR Hl. unfold database.rollback_or_poison.
  rewrite (M_bind_ok (modify (database.set_state WritePoisoned)) _ db ()
    (database.set_state WritePoisoned db) eq_refl).
  set (db1 := database.set_state WritePoisoned db).
  (* truncation, then the sync of a successful truncation *)
  assert (Htr : ∃ s2 d2, catch (database.on_storage (storage.set_len (blen c)))
      (λ r, if is_ok r then database.ignore (database.on_storage storage.sync_data) else mret ()) db1
      = (Ok (), database.set_storage s2 db1) ∧ (d2 = d ∨ d2 = []) ∧ stored R f0 (c ++ d2) s2).
  { destruct (truncate_any _ f0 _ _ _ Hst HR) as (r&s1&Hr&[[-> Hs1]|(e1&->&_&Hs1)]);
      unfold catch; rewrite (on_storage_run _ db1 _ _ Hr); cbn [is_ok].
    - destruct (sync_any _ f0 _ _ Hs1 HR) as (r2&s2&Hr2&Hs2&Ho). exists s2, [].
      split; [|split; [by right|by rewrite app_nil_r]].
      apply (ignore_run _ _ r2); [by apply (on_storage_run _ (database.set_storage s1 db1))|].
      by destruct Ho as [[-> _]|(?&->&_)].
    - exists s1, d. split_and!; auto. }
  destruct Htr as (s2&d2&Htr&Hdd&Hs2). rewrite (M_bind_ok _ _ _ _ _ Htr).
  assert (Hl2 : blen (c ++ d2) ≤ ISIZE_MAX).
  { destruct Hdd as [->| ->]; [done|]. rewrite app_nil_r. rewrite blen_app in Hl. pose proof (blen_nonneg d). lia. }
  destruct (seek_end_any _ f0 _ _ Hs2 Hl2) as (r3&s3&Hr3&Hs3&Ho).
  rewrite (M_bind_ok (database.ignore (database.on_storage (Io.seek (End_ 0)))) _ _ () (database.set_storage s3 db1)).
  - exists s3, d2. by split_and!.
  - apply (ignore_run _ _ r3); [by apply (on_storage_run _ (database.set_storage s2 db1))|].
    by destruct Ho as [[-> _]|(?&->&_)].
Qed.

Lemma rollback_any {A} f0 rec p db e :
  p `prefix_of` rec → stored (grows f0 rec) f0 (file_content f0 ++ p) (db_storage db) →
  blen (file_content f0 ++ p) ≤ ISIZE_MAX →
  ∃ db', database.rollback_or_poison (A := A) (blen (file_content f0)) e db = (Err e, db')
    ∧ poisoned f0 rec db db'.
Proof.
  intros Hp Hst Hl. assert (HR : grows f0 rec (file_content f0)).
  { exists []. split; [apply prefix_nil|]. by rewrite app_nil_r. }
  destruct (rollback_stored (A := A) _ _ _ _ db e Hst HR Hl) as (s'&p'&Hr&Hp'&Hs'). eexists. split; [exact Hr|].
  exists s', p'. split; [done|]. split; [|done]. destruct Hp' as [->| ->]; [done|apply prefix_nil].
Qed.

(** A guarded step: when [m] fails the commit is rolled back. *)
Lemma or_rollback_ok {A} offset (m : M Database A) db a db' :
  m db = (Ok a, db') → database.or_rollback offset m db = (Ok a, db').
Proof. intros E. unfold database.or_rollback, catch. by rewrite E. Qed.

Lemma or_rollback_err {A} offset (m : M Database A) db e db' :
  m db = (Err e, db') → database.or_rollback offset m db = database.rollback_or_poison offset e db'.
Proof. intros E. unfold database.or_rollback, catch. by rewrite E. Qed.

Lemma append_batch_any staged muts vc n f0 s :
  staged_denotes staged muts → log.checksums_match staged (Some vc) → log.batch_payload_len staged = Ok n →
  grown f0 [] s →
  ∃ r s' p, database.append_batch staged vc s = (r, s') ∧ p `prefix_of` log.encode_record muts
    ∧ grown f0 p s' ∧ (r = Ok () ∧ p = log.encode_record muts ∨ ∃ e, r = Err e ∧ faulty f0).
Proof.
  intros Hd Hm Hn Hs.
  destruct (scoped_append_any (grown f0) (faulty f0) (storage_writes_prefix f0) database.LOG_WRITE_BUFFER_SIZE
    (log.record_parts muts) s) as (r&s'&p&Hr&Hp&Hg&Ho); [done|done|].
  rewrite log.concat_record_parts in Hp, Ho. exists r, s', p. split; [|by split_and!].
  rewrite <- Hr. unfold database.append_batch, BufWriter.scoped, log.write_batch_record_with_checksums.
  unfold mbind, M_bind. rewrite (log.write_batch_record_parts staged muts _ n _ Hd); [done| |done].
  intros values k v ck Hv. destruct vc; [done|]. by apply Hm.
Qed.

(** Why a commit can be refused: the handle is closed for writing, the batch exceeds
    the format, the file would exceed its limit, memory is exhausted, or a system call
    fails. *)
Definition refusal f0 (c : bytes) db muts (e : Error) : Prop :=
  (db_state db ≠ Healthy ∧ e = Poisoned)
  ∨ ¬ (blen muts ≤ log.MAX_BATCH_OPERATIONS ∧ blen (log.encode_payload muts) ≤ log.MAX_LOG_PAYLOAD_SIZE)
  ∨ (let limit := opt_max_database_bytes (db_options db) in
     let required := blen c + blen (log.encode_record muts) in
     limit < required ∧ e = error.database_full limit required)
  ∨ (∃ n, try_reserve n = false) ∨ faulty f0.

(** The checks before anything is written. *)
Lemma commit_checks_any R f0 c db staged muts :
  stored R f0 c (db_storage db) → blen c ≤ ISIZE_MAX → staged_denotes staged muts → Forall recovery.op_ok muts →
  ∃ r s', database.commit_checks staged db = (r, database.set_storage s' db) ∧ stored R f0 c s'
    ∧ ((r = Ok None ∧ muts = [] ∧ s' = db_storage db)
       ∨ (∃ n m, r = Ok (Some n) ∧ db_state db = Healthy ∧ log.batch_payload_len staged = Ok m
            ∧ recovery.batch_ok muts ∧ muts ≠ []
            ∧ blen c + blen (log.encode_record muts) ≤ opt_max_database_bytes (db_options db))
       ∨ ∃ e, r = Err e ∧ refusal f0 c db muts e).
Proof.
  intros Hst Hl Hd Hok. unfold database.commit_checks, database.ensure_writable.
  rewrite M_bind_assoc. rewrite (M_bind_ok database.self _ db db db eq_refl).
  assert (Hsame : db = database.set_storage (db_storage db) db) by (by destruct db).
  destruct (bool_decide _) eqn:Eh.
  2:{ exists (Err Poisoned), (db_storage db). split; [by rewrite <- Hsame|]. split; [done|]. right; right.
      exists Poisoned. split; [done|]. left. by apply bool_decide_eq_false in Eh. }
  apply bool_decide_eq_true in Eh. rewrite M_lift_ok.
  destruct staged as [|x staged'] eqn:Es.
  { inversion Hd; subst. exists (Ok None), (db_storage db). split; [by rewrite <- Hsame|]. split; [done|]. by left. }
  rewrite <- Es in *. assert (Hne : staged ≠ []) by (by rewrite Es). clear x staged' Es.
  destruct (log.batch_payload_len staged) as [n|e|] eqn:En; cycle 1.
  { exists (Err e), (db_storage db). split; [by rewrite <- Hsame|]. split; [done|]. right; right. exists e.
    split; [done|]. right; left. intros [Hcnt Hmax].
    by rewrite (proj2 (log.batch_payload_len_Ok staged muts _ Hd) (conj eq_refl (conj Hcnt Hmax))) in En. }
  { by destruct (log.batch_payload_len_no_panic staged muts Hd). }
  rewrite M_lift_ok. pose proof En as Hn. rewrite (log.batch_payload_len_Ok staged muts n Hd) in Hn. destruct Hn as (->&Hcnt&Hmax).
  unfold log.LOG_HEADER_SIZE. rewrite checked_add_ok by (unfold log.MAX_LOG_PAYLOAD_SIZE in Hmax; lia).
  cbn [ok_or]. rewrite M_lift_ok. unfold database.ensure_capacity.
  destruct (len_any R f0 c (db_storage db) Hst) as (r&s1&Hr&Hs1&_&Ho).
  rewrite M_bind_assoc. destruct Ho as [->|(e&->&HF)].
  2:{ exists (Err e), s1. rewrite (M_bind_err _ _ _ _ _ (on_storage_run _ db _ _ Hr)). split; [done|]. split; [done|].
      right; right. exists e. split; [done|]. by do 4 right. }
  rewrite (M_bind_ok _ _ _ _ _ (on_storage_run _ db _ _ Hr)). rewrite M_bind_assoc.
  set (db1 := database.set_storage s1 db). rewrite (M_bind_ok database.self _ db1 db1 db1 eq_refl).
  change (opt_max_database_bytes (db_options db1)) with (opt_max_database_bytes (db_options db)).
  rewrite checked_add_ok by (unfold log.MAX_LOG_PAYLOAD_SIZE in Hmax; lia). cbn [ok_or].
  rewrite M_bind_assoc, M_lift_ok. destruct (_ <? blen c + _) eqn:Ecap; bool_prop.
  - eexists (Err _), s1. split; [done|]. split; [done|]. right; right. eexists. split; [done|].
    right; right; left. rewrite log.blen_encode_record. by split.
  - eexists (Ok (Some _)), s1. split; [done|]. split; [done|]. right; left. eexists _, _.
    split; [done|]. split; [done|]. split; [reflexivity|]. split; [done|].
    split; [intros ->; by inversion Hd|].
    rewrite log.blen_encode_record. unfold log.LOG_HEADER_SIZE. lia.
Qed.

Lemma mapped_bytes_len_ok lg ov M :
  represents lg (OverlayState.index ov) M →
  ∃ n, OverlayMap.mapped_bytes_len (OverlayState.index ov) = Ok n ∧ 0 ≤ n ≤ blen lg.
Proof.
  pose proof (blen_nonneg lg). unfold represents, OverlayMap.mapped_bytes_len.
  destruct (OverlayState.index ov) as [|[b|] table tail]; intros Hr; [by exists 0| |by exists 0].
  destruct Hr as (mapping&Mt&Ml&Hm&Hp&_). cbn in Hm. rewrite Hm. exists (blen mapping). split; [done|].
  destruct Hp as [k ->]. rewrite blen_app. pose proof (blen_nonneg mapping). pose proof (blen_nonneg k). lia.
Qed.

(** Publishing happens under these facts: the batch is in the log of the file. *)
Section Publish.
Context (f0 : File) (db : Database) (sb : Superblock) (entries : list (bytes * bytes))
  (batches : list (list mutation)) (staged : KeyMap OverlayEntry) (muts : list mutation) (ms : list MappedMutation).
#[local] Abbreviation rec := (log.encode_record muts).
#[local] Abbreviation c := (file_content f0).
#[local] Abbreviation lg := (recovery.encode_log (batches ++ [muts])).
Context (Hh : handle_on db f0 sb entries batches) (Hd : staged_denotes staged muts) (Hnd : NoDup muts.*1)
  (Hsh : Forall (λ e, tx_facts.value_shape false e.2) staged) (Hloc : located lg ms muts)
  (Hl : blen (c ++ rec) ≤ ISIZE_MAX).

Lemma publish_log : blen lg = blen (c ++ rec) - log_start sb ∧ blen lg < U64 ∧ 0 ≤ log_start sb
  ∧ get_range (c ++ rec) (log_start sb) (log_start sb + blen lg) = Some lg.
Proof using Hh Hl.
  destruct Hh as (_&Himg&_). destruct (image_log_blen _ _ _ _ _ Himg) as [Hls0 Hlb]. rewrite app_nil_r in Hlb.
  destruct Himg as (_&_&_&_&Hlc&Hdr&_). pose proof (blen_nonneg rec).
  pose proof (blen_nonneg (recovery.encode_log batches)).
  assert (Hb : blen lg = blen (c ++ rec) - log_start sb) by (rewrite encode_log_snoc, !blen_app; lia).
  split; [done|]. rewrite blen_app in *. split; [lia|]. split; [done|].
  rewrite get_range_in_bounds by (rewrite ?blen_app; lia). f_equal.
  rewrite drop_app_le by (unfold blen in *; lia). rewrite Hdr, app_nil_r, <- encode_log_snoc.
  apply take_ge. rewrite Z.add_simpl_l. unfold blen. lia.
Qed.

Lemma publish_overlay :
  state_holds lg (db_overlay db) (apply_muts ∅ (concat batches))
  ∧ apply_muts ∅ (concat (batches ++ [muts])) = apply_muts (apply_muts ∅ (concat batches)) muts
  ∧ total charge_inline (apply_muts ∅ (concat batches)) + added_by charge_inline muts < U64.
Proof using Hh Hl.
  destruct publish_log as (_&Hf&_). split_and!.
  - destruct Hh as (_&_&_&_&_&_&(Hr&?&?)&_). split_and!; [|done|done].
    eapply represents_prefix; [|exact Hr]. rewrite encode_log_snoc. by apply prefix_app_r.
  - rewrite concat_app. cbn [concat]. by rewrite app_nil_r, apply_muts_app.
  - by apply charge_fits.
Qed.

(** The batch is small enough for the tail unless a mapping is due. *)
Lemma publish_tail n :
  OverlayMap.mapped_bytes_len (OverlayState.index (db_overlay db)) = Ok n →
  (OVERLAY_MAPPING_THRESHOLD <=? saturating_sub (blen lg) n) = false →
  blen (log.encode_ops muts) < OVERLAY_MAPPING_THRESHOLD.
Proof using Hh Hl.
  intros Hn Hs. destruct Hh as (_&_&_&_&_&_&(Hr&_)&_).
  destruct (mapped_bytes_len_ok _ _ _ Hr) as (n'&Hn'&Hb). rewrite Hn in Hn'. injection Hn' as <-.
  destruct publish_log as (_&Hf&_). rewrite encode_log_snoc, blen_app in Hs, Hf.
  rewrite log.blen_encode_record, log.blen_encode_payload in Hs, Hf. unfold saturating_sub in Hs. bool_prop.
  unfold log.LOG_HEADER_SIZE in *. lia.
Qed.

Definition published (s' : Storage) (ov : OverlayState) (db' : Database) : Prop :=
  db' = database.set_overlay ov (database.set_storage s' db)
  ∧ stored (grows f0 rec) f0 (c ++ rec) s' ∧ synced s'
  ∧ state_holds lg ov (apply_muts ∅ (concat (batches ++ [muts])))
  ∧ ∀ table, OverlayState.index ov ≠ OverlayMap.Memory table.

Lemma rollback_publish {A} offset s e :
  offset = blen c → stored (grows f0 rec) f0 (c ++ rec) s →
  ∃ db', database.rollback_or_poison (A := A) offset e (database.set_storage s db) = (Err e, db')
    ∧ poisoned f0 rec db db'.
Proof using Hl.
  intros -> Hs. destruct (rollback_any (A := A) f0 rec rec (database.set_storage s db) e) as (db'&?&Hp);
    [done|done|done|]. by exists db'.
Qed.

Lemma publish_any s :
  stored (grows f0 rec) f0 (c ++ rec) s → synced s →
  ∃ r db', database.publish (blen c) staged ms (database.set_storage s db) = (r, db')
    ∧ ((∃ s' ov, r = Ok () ∧ published s' ov db') ∨ (∃ e, r = Err e ∧ faulty f0 ∧ poisoned f0 rec db db')).
Proof using All.
  intros Hst Hsy. destruct publish_log as (Hlen&Hf&Hls0&Hrange). destruct publish_overlay as (Hov&Hcat&Hch).
  pose proof Hh as (_&_&_&Hls&_&_&(Hr&_)&Hnm). destruct (mapped_bytes_len_ok _ _ _ Hr) as (n&Hn&Hb).
  unfold database.publish. set (db1 := database.set_storage s db).
  rewrite (M_bind_ok database.self _ db1 db1 db1 eq_refl).
  destruct (len_any _ _ _ _ Hst) as (r&s2&Hr2&Hst2&Hsy2&Ho).
  pose proof (on_storage_run storage.len db1 _ _ Hr2) as Hrun. specialize (Hsy2 Hsy).
  change (database.set_storage s2 db1) with (database.set_storage s2 db) in Hrun.
  change (ab_log_start (db_base db1)) with (ab_log_start (db_base db)). rewrite Hls.
  destruct Ho as [->|(e&->&HF)]; cycle 1.
  { destruct (rollback_publish (A := Z) (blen c) s2 e eq_refl Hst2) as (db'&Hrb&Hp).
    rewrite (M_bind_err _ _ _ e db'); [exists (Err e), db'; eauto 8|].
    rewrite (or_rollback_err _ _ _ e (database.set_storage s2 db)); [done|by apply M_bind_err]. }
  rewrite (M_bind_ok _ _ _ (blen lg) (database.set_storage s2 db)); cycle 1.
  { apply or_rollback_ok. rewrite (M_bind_ok _ _ _ _ _ Hrun). unfold checked_sub.
    replace (_ <=? _) with true by (pose proof (blen_nonneg lg); lia). cbn. by rewrite Hlen. }
  set (db2 := database.set_storage s2 db). rewrite (M_bind_ok database.self _ db2 db2 db2 eq_refl).
  change (db_overlay db2) with (db_overlay db). unfold OverlayState.needs_mapping. rewrite Hn.
  cbn [mbind result_bind]. rewrite M_lift_ok.
  destruct (_ <=? saturating_sub _ _) eqn:Eneed.
  - assert (0 < blen lg) by (unfold saturating_sub, OVERLAY_MAPPING_THRESHOLD in Eneed; bool_prop; lia).
    change (ab_log_start (db_base db2)) with (ab_log_start (db_base db)). rewrite Hls.
    destruct (map_any _ _ _ _ (log_start sb) (blen lg) lg Hst2) as (r3&s3&Hr3&Hst3&Hsy3&Ho); [lia..|done|].
    specialize (Hsy3 Hsy2). pose proof (on_storage_run _ db2 _ _ Hr3) as Hrun3.
    change (database.set_storage s3 db2) with (database.set_storage s3 db) in Hrun3.
    destruct Ho as [->|(e&->&HF)]; cycle 1.
    { destruct (rollback_publish (A := BaseBytes) (blen c) s3 e eq_refl Hst3) as (db'&Hrb&Hp).
      rewrite (M_bind_err _ _ _ e db'); [exists (Err e), db'; eauto 8|].
      by rewrite (or_rollback_err _ _ _ _ _ Hrun3). }
    rewrite (M_bind_ok _ _ _ _ _ (or_rollback_ok _ _ _ _ _ Hrun3)). set (db3 := database.set_storage s3 db).
    rewrite (M_bind_ok database.self _ db3 db3 db3 eq_refl). change (db_overlay db3) with (db_overlay db).
    destruct (install_mapped_holds lg (db_overlay db) _ (BaseBytes.Mapped lg) ms muts Hov Hnm) as (ov&->&Hh3&Hnm3);
      [done..|]. rewrite M_lift_ok. eexists (Ok ()), _. split; [done|]. left. exists s3, ov. split; [done|].
    rewrite <- Hcat in Hh3. by split_and!.
  - rewrite (M_bind_ok database.self _ db2 db2 db2 eq_refl). change (db_overlay db2) with (db_overlay db).
    destruct (install_tail_holds lg (db_overlay db) _ staged ms muts Hov Hnm) as (ov&->&Hh3&Hnm3);
      [by apply tail_entries, (publish_tail n)|done..|].
    rewrite M_lift_ok. eexists (Ok ()), _. split; [done|]. left. exists s2, ov. split; [done|].
    rewrite <- Hcat in Hh3. by split_and!.
Qed.

End Publish.

(** An early failure: nothing was written. *)
Definition untouched f0 db db' : Prop :=
  ∃ s', db' = database.set_storage s' db ∧ stored (grows f0 []) f0 (file_content f0) s'.

Lemma stored_start f : stored (grows f []) f (file_content f) (SFile f).
Proof.
  exists f. split_and!; [done|done| |done]. apply history_refl. exists []. by rewrite app_nil_r.
Qed.

Lemma grown_start f0 f :
  stored (grows f0 []) f0 (file_content f0) (SFile f) → file_pos f = blen (file_content f0) → grown f0 [] (SFile f).
Proof.
  intros (g&[= <-]&Hc&Hh&Hsu) Hp. exists f. rewrite app_nil_r. split_and!; [done|done|congruence|done|done].
Qed.

(** The batch is appended and synced, or rolled back. *)
Lemma append_synced {B} f0 f db staged muts vc n (k : M Database B) :
  blen (file_content f0 ++ log.encode_record muts) ≤ ISIZE_MAX →
  staged_denotes staged muts → log.checksums_match staged (Some vc) → log.batch_payload_len staged = Ok n →
  grown f0 [] (SFile f) →
  ∃ r db', (_ ← database.or_rollback (blen (file_content f0)) (database.on_storage (database.append_batch staged vc));
            _ ← database.or_rollback (blen (file_content f0)) (database.on_storage storage.sync_data); k)
      (database.set_storage (SFile f) db) = (r, db')
    ∧ ((∃ s', stored (grows f0 (log.encode_record muts)) f0 (file_content f0 ++ log.encode_record muts) s'
          ∧ synced s' ∧ k (database.set_storage s' db) = (r, db'))
       ∨ ∃ e, r = Err e ∧ faulty f0 ∧ poisoned f0 (log.encode_record muts) db db').
Proof.
  intros Hl Hd Hm Hn Hg.
  destruct (append_batch_any staged muts vc n f0 _ Hd Hm Hn Hg) as (r1&s1&p&Hr1&Hp&Hg1&Ho).
  pose proof (on_storage_run _ (database.set_storage (SFile f) db) _ _ Hr1) as Hrun.
  change (database.set_storage s1 _) with (database.set_storage s1 db) in Hrun.
  assert (Hlp : blen (file_content f0 ++ p) ≤ ISIZE_MAX).
  { rewrite blen_app in *. destruct Hp as [q Hq]. rewrite Hq, blen_app in Hl. pose proof (blen_nonneg q). lia. }
  pose proof (grown_stored _ _ _ _ Hg1 Hp) as Hst1.
  destruct Ho as [[-> ->]|(e&->&HF)]; cycle 1.
  { destruct (rollback_any (A := ()) f0 _ p (database.set_storage s1 db) e Hp Hst1 Hlp) as (db'&Hrb&Hpo).
    exists (Err e), db'. split; [|by eauto]. apply M_bind_err. by rewrite (or_rollback_err _ _ _ _ _ Hrun). }
  rewrite (M_bind_ok _ _ _ _ _ (or_rollback_ok _ _ _ _ _ Hrun)).
  destruct (sync_any _ f0 _ _ Hst1) as (r2&s2&Hr2&Hst2&Ho); [by eexists|].
  pose proof (on_storage_run _ (database.set_storage s1 db) _ _ Hr2) as Hrun2.
  change (database.set_storage s2 _) with (database.set_storage s2 db) in Hrun2.
  destruct Ho as [[-> Hsy]|(e&->&HF)]; cycle 1.
  { destruct (rollback_any (A := ()) f0 _ _ (database.set_storage s2 db) e Hp Hst2 Hlp) as (db'&Hrb&Hpo).
    exists (Err e), db'. split; [|by eauto]. apply M_bind_err. by rewrite (or_rollback_err _ _ _ _ _ Hrun2). }
  rewrite (M_bind_ok _ _ _ _ _ (or_rollback_ok _ _ _ _ _ Hrun2)).
  destruct (k (database.set_storage s2 db)) as [r db'] eqn:Ek. exists r, db'. split; [done|]. left. by exists s2.
Qed.

Lemma commit_any db f0 sb entries batches tx muts :
  handle_on db f0 sb entries batches → tx_facts.tx_ok false tx muts →
  opt_max_database_bytes (db_options db) ≤ ISIZE_MAX →
  ∃ r db', database.commit tx db = (r, db')
    ∧ ((r = Ok () ∧ muts = [] ∧ db' = db)
       ∨ (r = Ok () ∧ db_state db = Healthy ∧ recovery.batch_ok muts ∧ muts ≠ []
          ∧ blen (file_content f0 ++ log.encode_record muts) ≤ ISIZE_MAX
          ∧ ∃ s' ov, published f0 db batches muts s' ov db')
       ∨ (∃ e, r = Err e ∧ refusal f0 (file_content f0) db muts e ∧ (untouched f0 db db'
            ∨ recovery.batch_ok muts ∧ muts ≠ [] ∧ blen (file_content f0 ++ log.encode_record muts) ≤ ISIZE_MAX
              ∧ poisoned f0 (log.encode_record muts) db db'))).
Proof.
  intros Hh (Hd&Hnd&Hops&Hck&Hsh) Hmax. unfold database.commit, database.commit_staged.
  rewrite (M_bind_ok database.self _ db db db eq_refl). pose proof Hh as (Hsf&Himg&_&Hls&_).
  destruct (image_log_blen _ _ _ _ _ Himg) as [Hls0 Hlb]. rewrite app_nil_r in Hlb.
  pose proof Himg as (_&_&_&_&Hlc&_&_&Hlen). rewrite Hsf. cbn [storage.is_memory].
  set (staged := tx_staged tx) in *. set (vc := tx_value_checksums tx) in *.
  unfold database.commit_staged_with.
  destruct (commit_checks_any (grows f0 []) f0 (file_content f0) db staged muts) as (r&s1&Hr&Hst1&Ho);
    [rewrite Hsf; apply stored_start|done..|].
  destruct Ho as [(->&->&->)|[(n&m&->&Hhl&Hm&Hbok&Hne&Hcap)|(e&->&Hre)]].
  { rewrite (M_bind_ok _ _ _ _ _ Hr). exists (Ok ()), db. split; [by destruct db|]. left. by split_and!. }
  2:{ rewrite (M_bind_err _ _ _ _ _ Hr). eexists (Err e), _. split; [done|]. right; right. exists e.
      split; [done|]. split; [done|]. left. by exists s1. }
  rewrite (M_bind_ok _ _ _ _ _ Hr). rewrite <- blen_app in Hcap.
  assert (Hl : blen (file_content f0 ++ log.encode_record muts) ≤ ISIZE_MAX) by lia.
  destruct (seek_end_any _ f0 _ _ Hst1 Hlen) as (r2&s2&Hr2&Hst2&Ho).
  pose proof (on_storage_run _ (database.set_storage s1 db) _ _ Hr2) as Hrun2.
  change (database.set_storage s2 _) with (database.set_storage s2 db) in Hrun2.
  destruct Ho as [(->&f2&->&Hpos)|(e&->&HF)]; cycle 1.
  { rewrite (M_bind_err _ _ _ _ _ Hrun2). eexists (Err e), _. split; [done|]. right; right. exists e.
    split; [done|]. split; [by do 4 right|]. left. by exists s2. }
  rewrite (M_bind_ok _ _ _ _ _ Hrun2). set (db2 := database.set_storage (SFile f2) db).
  rewrite (M_bind_ok database.self _ db2 db2 db2 eq_refl).
  change (ab_log_start (db_base db2)) with (ab_log_start (db_base db)). rewrite Hls. unfold checked_sub.
  replace (log_start sb <=? _) with true by lia. cbn [ok_or]. rewrite M_lift_ok. rewrite <- Hlb.
  pose proof (blen_nonneg (log.encode_record muts)).
  assert (Hfit : blen (recovery.encode_log batches ++ log.encode_record muts) < U64) by (rewrite blen_app in *; lia).
  destruct (mapped_mutations_located staged muts (recovery.encode_log batches) Hd) as [(ms&->&Hloc&_)|(e&nr&->&Hnr)];
    [eapply Forall_impl; [exact Hops|apply recovery.op_ok_fits]|done| |]; cycle 1.
  { eexists (Err e), _. split; [done|]. right; right. exists e. split; [done|].
    split; [do 3 right; left; by exists nr|]. left. by exists (SFile f2). }
  rewrite M_lift_ok. rewrite <- encode_log_snoc in Hloc.
  destruct (append_synced f0 f2 db staged muts vc m (database.publish (blen (file_content f0)) staged ms))
    as (r3&db3&Hr3&Ho); [done..|by apply grown_start|].
  exists r3, db3. split; [done|]. assert (Href : ∀ e, faulty f0 → refusal f0 (file_content f0) db muts e) by (intros; by do 4 right).
  destruct Ho as [(s3&Hst3&Hsy3&Hk)|(e&->&HF&Hp)]; [|right; right; exists e; by auto 9].
  destruct (publish_any f0 db sb entries batches staged muts ms Hh Hd Hnd Hsh Hloc Hl s3 Hst3 Hsy3)
    as (r4&db4&Hr4&Ho). rewrite Hr4 in Hk. injection Hk as -> ->.
  destruct Ho as [(s'&ov&->&Hp)|(e&->&HF&Hp)]; [right; left; by eauto 10|right; right; exists e; by auto 9].
Qed.

End Handle.
End commit_facts.
