(* ===== verification/Written.v ===== *)
(** * Writing a Base and publishing its root

    What the writers of the Base and of the root pages leave in an image: the Base a
    root describes, and root pages that choose it. Creation and compaction build on it. *)

From S2P Require Import Prelude Errors Crates Io Superblock Values Log Segment Overlay Recovery View.
From S2P Require Import Base Storage Transaction Entries Database Faults Commit.
Import overlay_map_facts commit_facts.

Section Written.
Context `{Crc32cLaws, Xxh3Laws, Alloc} {S} `{LawfulStream S}.
Implicit Types (entries : list (bytes * bytes)) (sb : Superblock).

(** The root that describes what [write_base_with_metadata_at] reports. *)
Definition root_for (gen start log : Z) (w : segment.WrittenBase) : Superblock :=
  MkSuperblock gen start (segment.wb_size w) (segment.wb_slots w) (segment.wb_len w) log
    (segment.wb_metadata_checksum w).

(** What is known of a Base [bs] of [entries] written at [start]. *)
Definition written_as (start size : Z) (entries : list (bytes * bytes)) (w : segment.WrittenBase)
    (bs : bytes) : Prop :=
  segment.wb_size w = size ∧ blen bs = size
  ∧ segment.base_slot_count (blen entries) = Ok (segment.wb_slots w) ∧ segment.wb_len w = blen entries
  ∧ 0 ≤ segment.wb_slots w < U64 ∧ 0 ≤ segment.wb_len w < U64 ∧ 0 ≤ segment.wb_metadata_checksum w < U32
  ∧ ∀ gen log, active_base.describes (root_for gen start log w) entries bs.

(** The measured size is the size of the segment, whatever its index is. *)
Lemma measured entries size :
  segment.measure_base_iter entries = Ok (blen entries, size) →
  ∃ slots, segment.base_slot_count (blen entries) = Ok slots ∧ ∀ index, blen index = slots →
    size = blen (segment.segment_bytes (segment.base_data slots index entries)).
Proof.
  intros Hm. destruct (segment.measure_base_iter_spec entries [] _ _ Hm) as (slots&Hsc&_). exists slots. split; [done|].
  intros index Hi. destruct (segment.measure_base_iter_spec entries index _ _ Hm) as (slots'&Hsc'&_&E).
  rewrite Hsc in Hsc'. injection Hsc' as <-. by apply E.
Qed.

Lemma measured_lower entries size :
  segment.measure_base_iter entries = Ok (blen entries, size) → BASE_HEADER ≤ size.
Proof.
  intros Hm. destruct (measured entries size Hm) as (slots&Hsc&Hs).
  destruct (segment.slot_count_bounds entries slots Hsc) as (?&_).
  set (index := replicate (Z.to_nat slots) (0, 0)). assert (Hi : blen index = slots) by (unfold index; rewrite blen_replicate; lia).
  rewrite (Hs index Hi). unfold segment.segment_bytes. rewrite blen_app, segment.blen_base_data, Hi.
  pose proof (blen_nonneg (segment.encode_entries entries)).
  pose proof (blen_nonneg (segment.base_metadata (segment.base_data slots index entries))). unfold segment.SLOT_SIZE. lia.
Qed.

Lemma measured_nonneg entries size :
  segment.measure_base_iter entries = Ok (blen entries, size) → 0 ≤ size.
Proof. intros Hm. pose proof (measured_lower _ _ Hm). unfold BASE_HEADER in *. lia. Qed.

Lemma written_segment start slots index entries size :
  segment.base_slot_count (blen entries) = Ok slots →
  segment.index_ok slots index (segment.placed_from (start + BASE_HEADER + slots * segment.SLOT_SIZE) entries) →
  size = blen (segment.segment_bytes (segment.base_data slots index entries)) →
  0 ≤ start → start + size ≤ ISIZE_MAX → Forall segment.entry_ok entries → NoDup entries.*1 →
  let data := segment.base_data slots index entries in
  written_as start size entries
    (segment.MkWrittenBase (blen (segment.segment_bytes data)) slots (blen entries)
       (crc32c (segment.base_metadata data))) (segment.segment_bytes data).
Proof.
  intros Hsc Hiok Hsize Hst Hb Hes Hnd data. fold data in Hsize. pose proof Hiok as (Hil&_).
  destruct (segment.slot_count_bounds entries slots Hsc) as (Hs0&_&Hsp&Hle).
  assert (Hslots : slots < U64 ∧ (slots = 0 ∧ entries = [] ∨ segment.pow2 slots)).
  { destruct (segment.base_slot_count_spec _ _ (blen_nonneg entries) Hsc) as [[E ->]|(?&?&?&?)]; [|split; [lia|]].
    - split; [lia|]. left. split; [done|]. by apply blen_0, Z.eq_le_incl.
    - right. apply Hsp. lia. }
  unfold written_as. cbn [segment.wb_size segment.wb_slots segment.wb_len segment.wb_metadata_checksum].
  split; [done|]. split; [done|].
  split; [exact Hsc|]. split; [done|]. split; [lia|].
  pose proof (blen_nonneg entries). split; [lia|]. split; [apply crc32c_range|].
  intros gen log. split; [|split_and!; [done|done|]].
  - exists index. unfold root_for. cbn [base_offset base_slots segment.wb_slots]. split; [done|].
    split; [apply Hslots|]. split; [apply Hslots|]. split; [done|]. split; [by rewrite <- Hsize|by split_and!].
  - unfold root_for. cbn [base_checksum segment.wb_metadata_checksum].
    rewrite segment.segment_metadata_checksum_encode; [done|].
    assert (blen data ≤ size); [|lia]. rewrite Hsize. unfold segment.segment_bytes. rewrite blen_app.
    pose proof (blen_nonneg (segment.base_metadata data)). lia.
Qed.

(** Writing a Base on a lawful stream; only an allocation can fail. *)
Lemma write_base_written (s : S) start entries size :
  stream_ok s → stream_base s ≤ start → Forall segment.entry_ok entries → NoDup entries.*1 →
  segment.measure_base_iter entries = Ok (blen entries, size) → start + size ≤ ISIZE_MAX →
  ∃ r s', segment.write_base_with_metadata_at start (blen entries) entries s = (r, s')
    ∧ ((∃ w bs, r = Ok w ∧ stream_upd s s' (splice (stream_data s) (start - stream_base s) bs) (start + size)
          ∧ written_as start size entries w bs)
       ∨ ∃ e n, r = Err e ∧ try_reserve n = false).
Proof.
  intros Hok Hb0 Hes Hnd Hm Hb. pose proof (stream_base_nonneg s Hok).
  destruct (measured entries size Hm) as (slots&Hsc&Hsize).
  destruct (segment.write_base_run s start slots entries) as (r&s'&index&Hiok&Hw&Ho); auto.
  { intros index Hi. rewrite <- (Hsize index Hi). lia. }
  exists r, s'. split; [exact Hw|]. destruct Ho as [(->&Hok'&Hb'&Hd'&Hp')|?]; [left|by right].
  pose proof Hiok as (Hil&_). specialize (Hsize index Hil).
  eexists _, _. split; [reflexivity|]. split; [split_and!; [done|done|done|by rewrite Hsize]|].
  apply written_segment; try done; lia.
Qed.

Lemma write_base_describes (s : S) start entries size :
  stream_ok s → stream_base s ≤ start → Forall segment.entry_ok entries → NoDup entries.*1 →
  (∀ n, try_reserve n = true) →
  segment.measure_base_iter entries = Ok (blen entries, size) → start + size ≤ ISIZE_MAX →
  ∃ s' w bs, segment.write_base_with_metadata_at start (blen entries) entries s = (Ok w, s')
    ∧ stream_upd s s' (splice (stream_data s) (start - stream_base s) bs) (start + size)
    ∧ written_as start size entries w bs.
Proof.
  intros Hok Hb0 Hes Hnd Ha Hm Hb.
  destruct (write_base_written s start entries size Hok Hb0 Hes Hnd Hm Hb) as (r&s'&Hr&[(w&bs&->&Hu&Hw)|(e&n&_&Hn)]).
  - by exists s', w, bs.
  - by rewrite Ha in Hn.
Qed.

End Written.

(** ** Root pages *)

Section Roots.
Context `{Crc32cLaws}.
Implicit Types (sb : Superblock) (p q c : bytes).

(** A root whose ranges are in order. *)
Definition root_fits sb : Prop :=
  superblock.in_range sb ∧ superblock.DATA_START ≤ base_offset sb ∧ BASE_HEADER ≤ base_size sb
  ∧ base_offset sb + base_size sb ≤ log_start sb.

Lemma root_fits_bounds sb len : root_fits sb → log_start sb ≤ len → superblock.out_of_bounds sb len = false.
Proof.
  intros ((_&_&_&_&_&?&_)&?&?&?) Hl. unfold superblock.out_of_bounds.
  replace (base_offset sb <? _) with false by lia. replace (base_size sb <? _) with false by lia. cbn [orb].
  rewrite checked_add_ok by lia. replace (len <? base_offset sb + base_size sb) with false by lia.
  replace (log_start sb <? _) with false by lia. by replace (len <? log_start sb) with false by lia.
Qed.

(** A page that does not stand in the way of [sb]: no other version, and only older
    roots. *)
Definition older_page sb p : Prop :=
  superblock.foreign_of p = None
  ∧ ∀ len x, superblock.root_of len p = Some x → generation x < generation sb ∨ x = sb.

Lemma encode_page_older sb sb' : root_fits sb' → generation sb' < generation sb ∨ sb' = sb →
  older_page sb (superblock.encode_page sb').
Proof.
  intros Hf Hg. split.
  - unfold superblock.foreign_of. by rewrite superblock.read_envelope_encode.
  - intros len x. unfold superblock.root_of. rewrite superblock.read_envelope_encode, superblock.decode_encode by apply Hf.
    destruct (_ && _); [|done]. by intros [= <-].
Qed.

Lemma zero_page_older sb n : older_page sb (replicate n Byte.x00).
Proof.
  assert (He : superblock.read_envelope (replicate n Byte.x00) = Ok None
    ∨ superblock.read_envelope (replicate n Byte.x00) = Panic).
  { unfold superblock.read_envelope, index_range. destruct (decide (8 ≤ Z.of_nat n)).
    - left. rewrite get_range_in_bounds by (rewrite ?blen_replicate; lia). cbn [unwrap mbind result_bind].
      change (Z.to_nat 0) with 0%nat. rewrite drop_0. change (Z.to_nat (8 - 0)) with 8%nat.
      rewrite take_replicate, Nat.min_l by lia. done.
    - right. destruct (get_range _ 0 8) eqn:E; [|done]. apply get_range_Some in E as (_&E&_).
      rewrite blen_replicate in E. lia. }
  split; unfold superblock.foreign_of, superblock.root_of; [|intros len x]; by destruct He as [->| ->].
Qed.

Lemma roots_to_pages c p0 p1 sb :
  get_range c 0 superblock.SUPERBLOCK_SIZE = Some p0 →
  get_range c superblock.SUPERBLOCK_SIZE superblock.DATA_START = Some p1 →
  root_fits sb → older_page sb p0 → older_page sb p1 →
  p0 = superblock.encode_page sb ∨ p1 = superblock.encode_page sb → roots_to c sb.
Proof.
  intros Hg0 Hg1 Hf [Hf0 Ho0] [Hf1 Ho1] He. exists p0, p1. split_and!; try done. intros len Hl.
  destruct (superblock.root_of_encode len sb (proj1 Hf) (root_fits_bounds sb len Hf Hl)) as [Hr _].
  apply superblock.newer_Some.
  destruct He as [E|E]; rewrite <- E in Hr.
  - left. split; [done|]. intros y Hy. destruct (Ho1 _ _ Hy) as [?| ->]; lia.
  - destruct (superblock.root_of len p0) as [x|] eqn:E0; [|right; by split].
    destruct (Ho0 _ _ E0) as [Hlt| ->].
    + right. split; [done|]. by intros ? [= <-].
    + left. split; [done|]. rewrite Hr. intros ? [= <-]. lia.
Qed.

(** Both root pages are no obstacle to [sb]. *)
Definition older_roots c sb : Prop :=
  ∃ p0 p1, get_range c 0 superblock.SUPERBLOCK_SIZE = Some p0 ∧ get_range c superblock.SUPERBLOCK_SIZE superblock.DATA_START = Some p1
    ∧ older_page sb p0 ∧ older_page sb p1.

(** Writing the page of a root into either slot publishes it. *)
Lemma put_root c sb slot :
  older_roots c sb → root_fits sb → slot = 0 ∨ slot = 1 →
  let c' := splice c (slot * superblock.SUPERBLOCK_SIZE) (superblock.encode_page sb) in
  roots_to c' sb ∧ older_roots c' sb.
Proof.
  intros (p0&p1&Hg0&Hg1&Ho0&Ho1) Hf Hs c'. pose proof (superblock.blen_encode_page sb) as Hl.
  pose proof (get_range_Some _ _ _ _ Hg1) as (?&?&_&_).
  assert (Hself : older_page sb (superblock.encode_page sb)) by (apply encode_page_older; [done|by right]).
  unfold superblock.DATA_START, superblock.SUPERBLOCK_SIZE in *.
  assert (Hp : ∃ q0 q1, get_range c' 0 4096 = Some q0 ∧ get_range c' 4096 (2 * 4096) = Some q1
    ∧ older_page sb q0 ∧ older_page sb q1
    ∧ (q0 = superblock.encode_page sb ∨ q1 = superblock.encode_page sb)).
  { unfold c'. destruct Hs as [->| ->].
    - exists (superblock.encode_page sb), p1. split; [|split; [|split_and!; auto]].
      + rewrite get_range_splice_in by lia. apply get_range_all. lia.
      + rewrite get_range_splice_above by lia. done.
    - exists p0, (superblock.encode_page sb). split; [|split; [|split_and!; auto]].
      + rewrite get_range_splice_below by lia. done.
      + rewrite get_range_splice_in by lia. apply get_range_all. lia. }
  destruct Hp as (q0&q1&Hq0&Hq1&Hqo0&Hqo1&Hqe). split.
  - by eapply (roots_to_pages _ q0 q1).
  - by exists q0, q1.
Qed.

End Roots.

(** What a page written over a root slot leaves alone. *)
Section Slot.
Context `{Crc32cLaws} {S} `{LawfulStream S}.
Implicit Types (s : S) (sb : Superblock).

Lemma splice_slot (c page : bytes) slot :
  slot = 0 ∨ slot = 1 → blen page = superblock.SUPERBLOCK_SIZE → superblock.DATA_START ≤ blen c →
  blen (splice c (slot * superblock.SUPERBLOCK_SIZE) page) = blen c
  ∧ (∀ a b, superblock.DATA_START ≤ a → get_range (splice c (slot * superblock.SUPERBLOCK_SIZE) page) a b = get_range c a b)
  ∧ (∀ a, superblock.DATA_START ≤ a →
       drop (Z.to_nat a) (splice c (slot * superblock.SUPERBLOCK_SIZE) page) = drop (Z.to_nat a) c).
Proof.
  unfold superblock.DATA_START, superblock.SUPERBLOCK_SIZE. intros Hsl Hp Hc.
  assert (Hb : blen (splice c (slot * 4096) page) = blen c) by (rewrite blen_splice by lia; lia).
  split; [done|]. split.
  - intros a b Ha. destruct (decide (b ≤ blen c)); [apply get_range_splice_above; lia|].
    destruct (get_range (splice _ _ _) a b) eqn:E1; [apply get_range_Some in E1; lia|].
    destruct (get_range c a b) eqn:E2; [apply get_range_Some in E2; lia|done].
  - intros a Ha. rewrite splice_eq by lia. replace (Z.to_nat (slot * 4096 - blen c)) with 0%nat by lia. cbn [replicate].
    rewrite app_nil_l. rewrite app_assoc, drop_app_ge.
    + rewrite drop_drop. f_equal. rewrite length_app, length_take. unfold blen in *. lia.
    + rewrite length_app, length_take. unfold blen in *. lia.
Qed.

Lemma write_root s sb p0 p1 :
  superblock.rooted s p0 p1 →
  ∃ s', superblock.write sb s = (Ok (), s')
    ∧ superblock.rooted s' (if Z.land (generation sb) 1 =? 0 then superblock.encode_page sb else p0)
                           (if Z.land (generation sb) 1 =? 0 then p1 else superblock.encode_page sb)
    ∧ stream_data s' = splice (stream_data s) (Z.land (generation sb) 1 * superblock.SUPERBLOCK_SIZE)
                         (superblock.encode_page sb).
Proof. intros Hr. apply superblock.write_at_slot; [done|]. apply superblock.land_1_cases. Qed.

Lemma write_other_root s sb p0 p1 :
  superblock.rooted s p0 p1 → generation sb + 1 < U64 →
  ∃ s', superblock.write_redundant sb s = (Ok (), s')
    ∧ superblock.rooted s' (if Z.land (generation sb) 1 =? 0 then p0 else superblock.encode_page sb)
                           (if Z.land (generation sb) 1 =? 0 then superblock.encode_page sb else p1)
    ∧ stream_data s' = splice (stream_data s) (Z.land (generation sb + 1) 1 * superblock.SUPERBLOCK_SIZE)
                         (superblock.encode_page sb).
Proof.
  intros Hr Hg. unfold superblock.write_redundant. rewrite add_ovf_ok by done. rewrite M_lift_ok.
  destruct (superblock.write_at_slot s sb (Z.land (generation sb + 1) 1) p0 p1 Hr (superblock.land_1_cases _))
    as (s'&Hw&Hr'&Hd). exists s'. split; [exact Hw|]. split; [|done]. rewrite superblock.land_1_succ in Hr'.
  by destruct (superblock.land_1_cases (generation sb)) as [E|E]; rewrite E in Hr' |- *.
Qed.

End Slot.
