(* ===== verification/Reopen.v ===== *)
(** * Creating and reopening a database file

    Opening a file whose log may end in a torn record recovers every complete batch,
    cuts the rest off and leaves a usable handle; a newly created file opens as an
    empty database. With the commit lemmas this gives atomicity across a crash at any
    system call of a commit. *)

From S2P Require Import Prelude Errors Crates Io Superblock Values Log Segment Overlay Recovery View.
From S2P Require Import Base Storage Transaction Entries Database Faults Commit Written.
Import overlay_map_facts commit_facts.

(** ** A file storage without pending failures is a lawful stream *)

Definition storage_file (s : Storage) : File :=
  match s with SFile f => f | SMemory _ => MkFile [] 0 [] [] end.

#[export] Instance storage_view : StreamView Storage := {|
  stream_ok s := ∃ f, s = SFile f ∧ stream_ok f;
  stream_base _ := 0;
  stream_data s := file_content (storage_file s);
  stream_pos s := file_pos (storage_file s)
|}.

#[export] Instance storage_lawful `{Alloc} : LawfulStream Storage.
Proof.
  split.
  - intros s (f&->&Hf). exact (stream_base_nonneg f Hf).
  - intros s p (f&->&Hf) Hp. destruct (seek_start f p Hf Hp) as (f'&Hr&?&_&?&?).
    exists (SFile f'). cbn [seek storage.storage_stream]. unfold storage.dispatch. rewrite Hr.
    split; [done|]. unfold stream_upd. cbn. split_and!; eauto.
  - intros s bs (f&->&Hf) Hne Hp. destruct (write_all_at_once f bs Hf Hne Hp) as (f'&Hr&?&_&?&?).
    exists (SFile f'). cbn [write storage.storage_stream]. unfold storage.dispatch. rewrite Hr.
    split; [done|]. unfold stream_upd. cbn. split_and!; eauto.
  - intros s n (f&->&Hf) Hn Hp. destruct (read_available f n Hf Hn Hp) as (f'&got&Hr&?&?&_&?&?).
    exists (SFile f'), got. cbn [read storage.storage_stream]. unfold storage.dispatch. rewrite Hr.
    split; [done|]. split; [done|]. unfold stream_upd. cbn. split_and!; eauto.
Qed.

(** [f] as it is, with another position. *)
Definition moved (f g : File) : Prop :=
  file_content g = file_content f ∧ file_trace g = file_trace f ∧ file_script g = file_script f ∧ 0 ≤ file_pos g.

Lemma moved_trans f g h : moved f g → moved g h → moved f h.
Proof. intros (?&?&?&?) (?&?&?&?). unfold moved. split_and!; congruence || done. Qed.

(** ** The system calls of a file without pending failures *)

Section Clean.
Context `{Crc32cLaws, Alloc}.
Implicit Types (f : File).

Lemma len_clean f : file_script f = [] → storage.len (SFile f) = (Ok (blen (file_content f)), SFile f).
Proof. intros Hs. unfold storage.len, storage.dispatch, file.len, file.syscall. by rewrite Hs. Qed.

Lemma seek_end_clean f :
  file_script f = [] → blen (file_content f) ≤ ISIZE_MAX →
  ∃ g, Io.seek (End_ 0) (SFile f) = (Ok (blen (file_content f)), SFile g) ∧ moved f g
    ∧ file_pos g = blen (file_content f).
Proof.
  intros Hs Hl. pose proof (blen_nonneg (file_content f)).
  exists (file.set_pos (blen (file_content f)) f). split; [|by split_and!].
  cbn [Io.seek storage.storage_stream]. unfold storage.dispatch. cbn [Io.seek file_stream].
  unfold file.seek, file.syscall. rewrite Hs. unfold file.seek_to. rewrite Z.add_0_r.
  replace (0 <=? _) with true by lia. replace (_ <=? ISIZE_MAX) with true by lia. done.
Qed.

Lemma segment_map_clean f offset size bs :
  file_script f = [] → blen (file_content f) < U64 → 0 < size →
  get_range (file_content f) offset (offset + size) = Some bs → segment.map offset size f = (Ok bs, f).
Proof.
  intros Hs Hl Hsz Hg. pose proof (get_range_Some _ _ _ _ Hg) as (?&?&_&_).
  unfold segment.map. replace (size =? 0) with false by lia.
  rewrite checked_add_ok by lia. unfold file.len, file.syscall, mbind, M_bind, lift. cbn [ok_or].
  rewrite Hs. unfold gets. replace (_ <? _) with false by lia. rewrite Hs, Hg. done.
Qed.

Lemma map_clean f offset size bs :
  file_script f = [] → blen (file_content f) < U64 → 0 < size →
  get_range (file_content f) offset (offset + size) = Some bs →
  storage.load_immutable offset size (SFile f) = (Ok (BaseBytes.Mapped bs), SFile f).
Proof.
  intros Hs Hl Hsz Hg. unfold storage.load_immutable, storage.dispatch, mbind, M_bind.
  by rewrite (segment_map_clean f _ _ _ Hs Hl Hsz Hg).
Qed.

(** Reading pages moves the position only. *)
Lemma read_exact_moves n f :
  file_script f = [] → 0 ≤ file_pos f →
  ∃ r g, read_exact n (SFile f) = (r, SFile g) ∧ moved f g.
Proof.
  intros Hs Hp. unfold read_exact. generalize (Z.to_nat n) as fuel. intros fuel. revert n f Hs Hp.
  induction fuel as [|fuel IH]; intros n f Hs Hp; cbn [read_exact_loop].
  { destruct (n =? 0); eexists _, f; (split; [done|]); by split_and!. }
  destruct (n =? 0); [eexists _, f; (split; [done|]); by split_and!|].
  set (got := take (Z.to_nat n) (drop (Z.to_nat (file_pos f)) (file_content f))).
  set (g := file.set_pos (file_pos f + blen got) f).
  assert (Hr : Io.read n (SFile f) = (Ok got, SFile g)).
  { cbn [Io.read storage.storage_stream]. unfold storage.dispatch. cbn [Io.read file_stream].
    unfold file.read, file.syscall. by rewrite Hs. }
  assert (Hm : moved f g) by (split_and!; try done; cbn; pose proof (blen_nonneg got); lia).
  rewrite (M_bind_ok _ _ _ _ _ Hr). destruct got as [|x got'] eqn:Eg.
  { eexists _, g. split; [done|]. exact Hm. }
  destruct Hm as (?&?&?&?). destruct (IH (n - blen (x :: got')) g) as (r&h&Hr2&Hm2); [congruence|done|].
  unfold mbind, M_bind. rewrite Hr2.
  destruct r; eexists _, h; (split; [done|]); (eapply moved_trans; [|exact Hm2]); by split_and!.
Qed.

Lemma read_page_moves file_len offset acc f :
  file_script f = [] → 0 ≤ offset ≤ ISIZE_MAX →
  ∃ r g, superblock.read_page file_len offset acc (SFile f) = (r, SFile g) ∧ moved f g.
Proof.
  intros Hs Ho. unfold superblock.read_page.
  assert (Hsk : Io.seek (Start offset) (SFile f) = (Ok offset, SFile (file.set_pos offset f))).
  { cbn [Io.seek storage.storage_stream]. unfold storage.dispatch. cbn [Io.seek file_stream].
    unfold file.seek, file.syscall. rewrite Hs. unfold file.seek_to.
    replace (0 <=? _) with true by lia. replace (_ <=? ISIZE_MAX) with true by lia. done. }
  rewrite (M_bind_ok _ _ _ _ _ Hsk).
  destruct (read_exact_moves superblock.SUPERBLOCK_SIZE (file.set_pos offset f)) as (r&g&Hr&Hm); [done|cbn; lia|].
  assert (Hm' : moved f g) by (destruct Hm as (?&?&?&?); by split_and!).
  unfold catch. rewrite Hr. destruct r as [a|e|]; [|destruct (bool_decide _)|]; eexists _, g; by split.
Qed.

Lemma read_latest_clean f sb :
  file_script f = [] → 0 ≤ file_pos f → log_start sb ≤ blen (file_content f) → roots_to (file_content f) sb →
  ∃ g, superblock.read_latest_from (blen (file_content f)) (SFile f) = (Ok sb, SFile g) ∧ moved f g.
Proof.
  intros Hs Hp Hl (p0&p1&Hg0&Hg1&Hf0&Hf1&Hn).
  destruct (superblock.read_latest_pages (SFile f) (blen (file_content f)) p0 p1) as (s'&_&Hr).
  { split_and!; try done. exists f. by split_and!. }
  rewrite Hf0, Hf1, (Hn _ Hl) in Hr. rewrite Hr.
  unfold superblock.read_latest_from in Hr.
  destruct (read_page_moves (blen (file_content f)) 0 (None, None) f Hs) as (r1&g1&Hr1&Hm1); [lia|].
  pose proof Hm1 as (?&?&?&?).
  destruct r1 as [acc|e|]; [|by rewrite (M_bind_err _ _ _ _ _ Hr1) in Hr|
    unfold mbind, M_bind in Hr; by rewrite Hr1 in Hr].
  rewrite (M_bind_ok _ _ _ _ _ Hr1) in Hr.
  destruct (read_page_moves (blen (file_content f)) superblock.SUPERBLOCK_SIZE acc g1) as (r2&g2&Hr2&Hm2);
    [congruence|unfold superblock.SUPERBLOCK_SIZE; lia|].
  destruct r2 as [acc2|e|]; [|by rewrite (M_bind_err _ _ _ _ _ Hr2) in Hr|
    unfold mbind, M_bind in Hr; by rewrite Hr2 in Hr].
  rewrite (M_bind_ok _ _ _ _ _ Hr2) in Hr. destruct acc2 as [lt uv]. unfold lift in Hr.
  injection Hr as _ Hs'. exists g2. split; [by rewrite Hs'|]. by eapply moved_trans.
Qed.

End Clean.

(** ** Recovering the Overlay *)

Section Recover.
Context `{Crc32cLaws, Xxh3Laws, Alloc, HashTablesLaws}.
Implicit Types (f : File) (sb : Superblock) (entries : list (bytes * bytes)) (batches : list (list mutation)).

(** The mapping of the log [lg], as [load_storage_state] takes it again. *)
Definition mapping_of (lg : bytes) : option BaseBytes :=
  match lg with [] => None | _ => Some (BaseBytes.Mapped lg) end.

Lemma replaced_holds lg rest b index memory M :
  recovery.scan_inv (lg ++ rest) b index memory (blen lg) M → blen lg ≤ ISIZE_MAX →
  ∃ index', OverlayMap.replace_mapped_bytes index None ≫= (λ i, OverlayMap.replace_mapped_bytes i (mapping_of lg))
      = Ok index'
    ∧ state_holds lg (OverlayState.with_memory index' memory) M
    ∧ ∀ table, index' ≠ OverlayMap.Memory table.
Proof.
  intros ((Hb&table&->&Ht)&Hm&Hu) Hl. eexists. split; [done|]. split; [|done].
  assert (Htk : take (Z.to_nat (blen lg)) (lg ++ rest) = lg)
    by (unfold blen; rewrite Nat2Z.id; apply take_app_length).
  rewrite Htk in Ht. split_and!; cbn; [|done|lia].
  exists lg, M, ∅. split_and!; auto using rep_new.
  - by destruct lg.
  - apply map_disjoint_empty_r.
  - by rewrite (right_id_L ∅ (∪)).
Qed.

Lemma encode_log_nil batches : recovery.encode_log batches = [] → batches = [].
Proof.
  destruct batches as [|muts batches]; [done|]. intros E. exfalso.
  change (log.encode_record muts ++ recovery.encode_log batches = []) in E.
  apply app_eq_nil in E as [E _]. pose proof (log.blen_encode_record muts) as Hl. rewrite E in Hl.
  pose proof (blen_nonneg (log.encode_payload muts)). unfold log.LOG_HEADER_SIZE in Hl. rewrite blen_nil in Hl. lia.
Qed.

Lemma empty_overlay_holds :
  state_holds [] (OverlayState.with_memory (OverlayMap.mapped None) 0) ∅.
Proof.
  split_and!; cbn; [|by rewrite total_empty|lia]. exists [], ∅, ∅.
  split_and!; auto using rep_new. apply map_disjoint_empty_r.
Qed.

(** The content after recovery, and every content on the way. *)
Definition valid_part (c : bytes) sb batches : bytes :=
  take (Z.to_nat (log_start sb + blen (recovery.encode_log batches))) c.
Definition recovers (c v c' : bytes) : Prop := c' = c ∨ c' = v.

Lemma valid_part_all c sb entries batches :
  image_holds c sb entries batches [] → valid_part c sb batches = c.
Proof.
  intros Hi. destruct (image_log_blen _ _ _ _ _ Hi) as [? Hb]. rewrite app_nil_r in Hb.
  unfold valid_part. apply take_ge. unfold blen in *. lia.
Qed.

(** Cutting the torn end off leaves an image of the same database. *)
Lemma valid_part_holds c sb entries batches rest :
  image_holds c sb entries batches rest → image_holds (valid_part c sb batches) sb entries batches [].
Proof.
  intros Hi. destruct (image_log_blen _ _ _ _ _ Hi) as [Hls Hb]. rewrite blen_app in Hb.
  pose proof (blen_nonneg rest). pose proof (blen_nonneg (recovery.encode_log batches)).
  destruct Hi as ((p0&p1&Hg0&Hg1&Hf0&Hf1&Hn)&(bs&Hbs&Hd)&Ho&He&Hl&Hlog&Hok&Hlen).
  set (n := log_start sb + blen (recovery.encode_log batches)) in *.
  assert (Hv : valid_part c sb batches = take (Z.to_nat n) c) by done. rewrite Hv.
  assert (Htake : ∀ a b x, b ≤ log_start sb → get_range c a b = Some x → get_range (take (Z.to_nat n) c) a b = Some x).
  { intros a b x Hle Hg. apply get_range_take; [done|lia]. }
  pose proof (get_range_Some _ _ _ _ Hbs) as (?&?&_&_).
  unfold superblock.DATA_START, superblock.SUPERBLOCK_SIZE in *.
  assert (blen (take (Z.to_nat n) c) = n) by (rewrite blen_take; unfold n; lia).
  split; [exists p0, p1; split_and!; [apply Htake; [unfold superblock.SUPERBLOCK_SIZE; lia|done]
    |apply Htake; [unfold superblock.DATA_START, superblock.SUPERBLOCK_SIZE; lia|done]|done..]|].
  split; [exists bs; split; [apply Htake; [lia|done]|done]|].
  split_and!; [done|done|unfold n in *; lia| |done|lia].
  rewrite skipn_firstn_comm, Hlog, app_nil_r. replace (Z.to_nat n - Z.to_nat (log_start sb))%nat
    with (length (recovery.encode_log batches)) by (unfold n, blen; lia).
  apply take_app_length.
Qed.

Lemma image_log_range c sb entries batches rest :
  image_holds c sb entries batches rest →
  get_range c (log_start sb) (log_start sb + blen (recovery.encode_log batches ++ rest))
    = Some (recovery.encode_log batches ++ rest).
Proof.
  intros Hi. destruct (image_log_blen _ _ _ _ _ Hi) as [Hls Hb]. destruct Hi as (_&_&_&_&Hl&Hlog&_).
  rewrite get_range_in_bounds by lia. rewrite Hlog, Z.add_simpl_l. f_equal. apply take_ge. unfold blen. lia.
Qed.

(** What the scan of the log gives: the index when nothing is cut off, and the index
    over the new mapping when the torn end was cut off. *)
Definition scanned (scan : OverlayScan) sb batches (rest : bytes) : Prop :=
  let M := apply_muts ∅ (concat batches) in
  let lg := recovery.encode_log batches in
  OverlayScan.valid_len scan = log_start sb + blen lg
  ∧ (rest = [] → state_holds lg (OverlayState.with_memory (OverlayScan.index scan) (OverlayScan.memory scan)) M
       ∧ ∀ table, OverlayScan.index scan ≠ OverlayMap.Memory table)
  ∧ ∃ scan1 scan2, OverlayScan.release_mapping scan = Ok scan1
       ∧ OverlayScan.replace_mapping scan1 (mapping_of lg) = Ok scan2
       ∧ state_holds lg (OverlayState.with_memory (OverlayScan.index scan2) (OverlayScan.memory scan2)) M
       ∧ ∀ table, OverlayScan.index scan2 ≠ OverlayMap.Memory table.

Lemma scan_log f sb batches rest :
  stream_ok f → recovery.log_end rest → recovery.reserve_succeeds → Forall recovery.batch_ok batches →
  get_range (file_content f) (log_start sb) (log_start sb + blen (recovery.encode_log batches ++ rest))
    = Some (recovery.encode_log batches ++ rest) → blen (file_content f) ≤ ISIZE_MAX →
  ∃ scan, (if blen (recovery.encode_log batches ++ rest) =? 0
           then mret (OverlayScan.empty (log_start sb))
           else mapping ← storage.load_immutable (log_start sb) (blen (recovery.encode_log batches ++ rest));
                lift (recovery.scan_overlay mapping (log_start sb))) (SFile f) = (Ok scan, SFile f)
    ∧ scanned scan sb batches rest.
Proof.
  intros [Hs Hp] He Hres Hok Hr Hlen. pose proof (get_range_Some _ _ _ _ Hr) as (Hls&Hb&_&_).
  pose proof (blen_nonneg (recovery.encode_log batches ++ rest)).
  destruct (_ =? 0) eqn:E; bool_prop.
  - apply Z.eq_le_incl, blen_0, app_eq_nil in E as [El ->]. rewrite (encode_log_nil _ El).
    eexists. split; [done|]. split; [cbn; rewrite blen_nil; lia|].
    split; [intros _; split; [exact empty_overlay_holds|done]|].
    eexists _, _. split; [done|]. split; [done|]. split; [exact empty_overlay_holds|done].
  - assert (Hlt : blen (file_content f) < U64) by lia.
    assert (Hpos : 0 < blen (recovery.encode_log batches ++ rest)) by lia.
    pose proof (map_clean f _ _ _ Hs Hlt Hpos Hr) as Hmap. rewrite (M_bind_ok _ _ _ _ _ Hmap).
    destruct (recovery.scan_overlay_complete _ (BaseBytes.Mapped (recovery.encode_log batches ++ rest))
      (log_start sb) batches rest Hres eq_refl eq_refl He) as (index&memory&Hsc&Hinv); [lia..|done|].
    rewrite Hsc. eexists. split; [done|]. split; [done|]. cbn [OverlayScan.index OverlayScan.memory].
    assert (Hlg : blen (recovery.encode_log batches) ≤ ISIZE_MAX)
      by (rewrite blen_app in Hb; pose proof (blen_nonneg rest); lia).
    split.
    + intros ->. rewrite app_nil_r in Hinv. split; [by eapply recovery.scan_inv_holds|].
      by destruct Hinv as ((_&table&->&_)&_).
    + destruct (replaced_holds _ _ _ _ _ _ Hinv Hlg) as (index'&Hre&Hh&Hnm).
      apply bind_Ok in Hre as (i1&Hr1&Hr2).
      exists (OverlayScan.Mk i1 memory (log_start sb + blen (recovery.encode_log batches))),
        (OverlayScan.Mk index' memory (log_start sb + blen (recovery.encode_log batches))).
      unfold OverlayScan.release_mapping, OverlayScan.replace_mapping.
      cbn [OverlayScan.index OverlayScan.memory OverlayScan.valid_len]. rewrite Hr1, Hr2. by split_and!.
Qed.

Lemma scan_step f sb entries batches rest :
  stream_ok f → image_holds (file_content f) sb entries batches rest → recovery.log_end rest →
  recovery.reserve_succeeds →
  ∃ scan, (if blen (recovery.encode_log batches ++ rest) =? 0
           then mret (OverlayScan.empty (log_start sb))
           else mapping ← storage.load_immutable (log_start sb) (blen (recovery.encode_log batches ++ rest));
                lift (recovery.scan_overlay mapping (log_start sb))) (SFile f) = (Ok scan, SFile f)
    ∧ scanned scan sb batches rest.
Proof.
  intros Hokf Hi He Hres. pose proof Hi as (_&_&_&_&_&_&Hok&Hlen).
  apply scan_log; try done. by eapply image_log_range.
Qed.

Lemma describes_size sb entries bs : active_base.describes sb entries bs → base_size sb = blen bs ∧ 0 < base_size sb.
Proof.
  intros ((index&Hbs&_)&_&Hsz&_). split; [done|]. rewrite Hsz, Hbs. unfold segment.segment_bytes, segment.base_data.
  rewrite !blen_app, segment.blen_base_header.
  pose proof (blen_nonneg (segment.encode_slots index)). pose proof (blen_nonneg (segment.encode_entries entries)).
  match goal with |- context [blen (segment.base_metadata ?d)] => pose proof (blen_nonneg (segment.base_metadata d)) end.
  unfold BASE_HEADER. lia.
Qed.

Lemma set_len_clean f c d :
  stream_ok f → file_content f = c ++ d →
  storage.set_len (blen c) (SFile f)
    = (Ok (), SFile (MkFile c (file_pos f) [] (file_trace f ++ [OpSetLen (blen c)]))).
Proof.
  intros [Hs _] Hc. unfold storage.set_len, storage.dispatch, file.set_len, file.syscall. rewrite Hs.
  unfold modify, file.set_content. rewrite Hc, blen_app. pose proof (blen_nonneg d).
  replace (Z.to_nat (blen c - (blen c + blen d))) with 0%nat by lia. cbn [replicate].
  rewrite app_nil_r. unfold blen at 1. by rewrite Nat2Z.id, take_app_length, Hs.
Qed.

Lemma sync_clean f :
  stream_ok f → storage.sync_data (SFile f) = (Ok (), SFile (MkFile (file_content f) (file_pos f) [] (file_trace f ++ [OpSync]))).
Proof.
  intros [Hs _]. unfold storage.sync_data, storage.dispatch, file.sync, file.syscall. rewrite Hs.
  unfold modify, file.set_content. by rewrite Hs.
Qed.

(** The Base of an image is found and opened. *)
Lemma open_base_clean f sb entries batches rest mode :
  stream_ok f → image_holds (file_content f) sb entries batches rest → (∀ n, try_reserve n = true) →
  ∃ mapping b, storage.load_immutable (base_offset sb) (base_size sb) (SFile f) = (Ok mapping, SFile f)
    ∧ active_base.open mapping sb mode = Ok b ∧ active_base.holds b entries
    ∧ ab_offset b = base_offset sb ∧ ab_generation b = generation sb ∧ ab_log_start b = log_start sb.
Proof.
  intros [Hs Hp] Hi Ha. pose proof Hi as (_&(bs&Hbs&Hd)&_&_&_&_&_&Hlen).
  destruct (describes_size _ _ _ Hd) as [_ Hpos].
  destruct (active_base.open_describes (BaseBytes.Mapped bs) bs sb entries mode eq_refl Hd Ha) as (b&Ho&Hh&_&Hb1&Hb2&Hb3).
  exists (BaseBytes.Mapped bs), b. split_and!; try done. apply map_clean; [done|lia|done|done].
Qed.

(** Cutting off the torn end and taking the mappings again. *)
Lemma truncate_step f sb entries batches rest mode scan0 :
  stream_ok f → image_holds (file_content f) sb entries batches rest → (∀ n, try_reserve n = true) →
  scanned scan0 sb batches rest →
  ∃ f' b scan', (scan ← lift (OverlayScan.release_mapping scan0);
      _ ← storage.set_len (OverlayScan.valid_len scan0);
      _ ← storage.sync_data;
      mapping ← storage.load_immutable (base_offset sb) (base_size sb);
      base ← lift (active_base.open mapping sb mode);
      overlay_size ← lift (ok_or (checked_sub (OverlayScan.valid_len scan0) (ab_log_start base))
                             (error.invalid_base "overlay range precedes active Base"));
      mapping ← (if overlay_size =? 0 then mret None
                 else mapping ← storage.load_immutable (ab_log_start base) overlay_size;
                      mret (Some mapping));
      scan ← lift (OverlayScan.replace_mapping scan mapping);
      mret (base, scan)) (SFile f) = (Ok (b, scan'), SFile f')
    ∧ stream_ok f' ∧ file_content f' = valid_part (file_content f) sb batches
    ∧ history (recovers (file_content f) (valid_part (file_content f) sb batches)) f f'
    ∧ active_base.holds b entries ∧ ab_offset b = base_offset sb ∧ ab_generation b = generation sb
    ∧ ab_log_start b = log_start sb
    ∧ state_holds (recovery.encode_log batches)
        (OverlayState.with_memory (OverlayScan.index scan') (OverlayScan.memory scan')) (apply_muts ∅ (concat batches))
    ∧ ∀ table, OverlayScan.index scan' ≠ OverlayMap.Memory table.
Proof.
  intros Hok Hi Ha (Hvl&_&scan1&scan2&Hrel&Hrep&Hst&Hnm).
  rewrite Hrel, M_lift_ok, Hvl. set (v := valid_part (file_content f) sb batches).
  pose proof (valid_part_holds _ _ _ _ _ Hi) as Hiv. fold v in Hiv.
  assert (Hv : log_start sb + blen (recovery.encode_log batches) = blen v).
  { destruct (image_log_blen _ _ _ _ _ Hiv) as [_ Hb]. rewrite app_nil_r in Hb. lia. }
  rewrite Hv. set (d := drop (length v) (file_content f)).
  assert (Hvd : file_content f = v ++ d).
  { unfold d, v, valid_part. set (n := Z.to_nat _). rewrite <- (take_drop n (file_content f)) at 1. f_equal.
    destruct (decide (n ≤ length (file_content f))%nat).
    - by rewrite length_take, Nat.min_l by lia.
    - rewrite !drop_ge; [done|rewrite length_take; lia|lia]. }
  rewrite (M_bind_ok _ _ _ _ _ (set_len_clean f v d Hok Hvd)).
  set (f1 := MkFile v (file_pos f) [] (file_trace f ++ [OpSetLen (blen v)])).
  assert (Hok1 : stream_ok f1) by (destruct Hok; by split).
  rewrite (M_bind_ok _ _ _ _ _ (sync_clean f1 Hok1)).
  set (f2 := MkFile (file_content f1) (file_pos f1) [] (file_trace f1 ++ [OpSync])).
  assert (Hok2 : stream_ok f2) by (destruct Hok; by split).
  destruct (open_base_clean f2 sb entries batches [] mode Hok2 Hiv Ha) as (mapping&b&Hm&Ho&Hh&Hb1&Hb2&Hb3).
  rewrite (M_bind_ok _ _ _ _ _ Hm), Ho, M_lift_ok, Hb3. rewrite (checked_sub_ok (blen v) (log_start sb)) by (pose proof (blen_nonneg (recovery.encode_log batches)); lia).
  pose proof (blen_nonneg (recovery.encode_log batches)). cbn [ok_or]. rewrite M_lift_ok. replace (blen v - log_start sb) with (blen (recovery.encode_log batches)) by lia.
  assert (Hmo : (if blen (recovery.encode_log batches) =? 0 then mret None
       else mapping ← storage.load_immutable (log_start sb) (blen (recovery.encode_log batches));
            mret (Some mapping)) (SFile f2) = (Ok (mapping_of (recovery.encode_log batches)), SFile f2)).
  { pose proof (image_log_range _ _ _ _ _ Hiv) as Hr. rewrite app_nil_r in Hr. pose proof Hiv as (_&_&_&_&_&_&_&Hlen).
    destruct (_ =? 0) eqn:E; bool_prop.
    - apply Z.eq_le_incl, blen_0 in E. by rewrite E.
    - assert (Hlt : blen (file_content f2) < U64) by (cbn [f2 f1 file_content]; lia).
      assert (Hpos : 0 < blen (recovery.encode_log batches)) by lia.
      rewrite (M_bind_ok _ _ _ _ _ (map_clean f2 _ _ _ (proj1 Hok2) Hlt Hpos Hr)).
      by destruct (recovery.encode_log batches). }
  rewrite (M_bind_ok _ _ _ _ _ Hmo), Hrep, M_lift_ok. exists f2, b, scan2. split; [done|].
  split; [done|]. split; [done|]. split; [|by split_and!].
  eapply (history_snoc _ f f1 f2 OpSync); [|done|done|by right].
  eapply (history_snoc _ f f f1 (OpSetLen (blen v))); [apply history_refl; by left| |done|by right].
  cbn [f1 file_content replay_op]. rewrite Hvd, blen_app. pose proof (blen_nonneg d).
  replace (Z.to_nat (blen v - (blen v + blen d))) with 0%nat by lia. cbn [replicate].
  rewrite app_nil_r. unfold blen. by rewrite Nat2Z.id, take_app_length.
Qed.

Lemma valid_part_torn c sb entries batches rest :
  image_holds c sb entries batches rest →
  (log_start sb + blen (recovery.encode_log batches) <? blen c) = negb (bool_decide (rest = [])).
Proof.
  intros Hi. destruct (image_log_blen _ _ _ _ _ Hi) as [_ Hb]. rewrite blen_app in Hb.
  destruct rest as [|x rest]; [rewrite blen_nil in Hb; cbn; apply Z.ltb_ge; lia|].
  rewrite bool_decide_false by done. cbn [negb]. rewrite blen_cons in Hb. pose proof (blen_nonneg rest). apply Z.ltb_lt. lia.
Qed.

(** [load_storage_state] on a file without pending failures. *)
Lemma load_clean f sb entries batches rest options :
  stream_ok f → image_holds (file_content f) sb entries batches rest → recovery.log_end rest →
  recovery.reserve_succeeds → (∀ n, try_reserve n = true) →
  ∃ f' b ov, database.load_storage_state options (SFile f) = (Ok (b, ov), SFile f')
    ∧ stream_ok f' ∧ file_content f' = valid_part (file_content f) sb batches
    ∧ history (recovers (file_content f) (valid_part (file_content f) sb batches)) f f'
    ∧ active_base.holds b entries ∧ ab_offset b = base_offset sb ∧ ab_generation b = generation sb
    ∧ ab_log_start b = log_start sb
    ∧ state_holds (recovery.encode_log batches) ov (apply_muts ∅ (concat batches))
    ∧ ∀ table, OverlayState.index ov ≠ OverlayMap.Memory table.
Proof.
  intros [Hs Hp] Hi He Hres Ha. pose proof Hi as (Hroots&_&_&_&Hl&_&_&Hlen).
  destruct (image_log_blen _ _ _ _ _ Hi) as [Hls Hb].
  unfold database.load_storage_state. rewrite (M_bind_ok _ _ _ _ _ (len_clean f Hs)).
  destruct (read_latest_clean f sb Hs Hp Hl Hroots) as (g&Hrl&Hgc&Hgt&Hgs&Hgp).
  rewrite (M_bind_ok _ _ _ _ _ Hrl).
  assert (Hokg : stream_ok g) by (split; congruence || done). rewrite <- Hgc in Hi.
  destruct (open_base_clean g sb entries batches rest (opt_verification options) Hokg Hi Ha)
    as (mapping&b&Hm&Ho&Hh&Hb1&Hb2&Hb3).
  rewrite (M_bind_ok _ _ _ _ _ Hm), Ho, M_lift_ok, Hb3.
  rewrite (checked_sub_ok (blen (file_content f)) (log_start sb)) by lia. cbn [ok_or]. rewrite M_lift_ok, <- Hb.
  rewrite (M_bind_ok (gets (λ s : Storage, s)) _ (SFile g) (SFile g) (SFile g) eq_refl). cbn [storage.is_memory].
  destruct (scan_step g sb entries batches rest Hokg Hi He Hres) as (scan&Hsc&Hsd).
  rewrite (M_bind_ok _ _ _ _ _ Hsc). cbv beta zeta. pose proof Hsd as (Hvl&Hfull&_).
  pose proof (valid_part_torn _ _ _ _ _ Hi) as Htorn. rewrite <- Hvl in Htorn. rewrite <- Hgc, Htorn.
  (* what remains once the scan is settled *)
  assert (Hfin : ∀ (b' : ActiveBase) (scan' : OverlayScan) h, stream_ok h → blen (file_content h) ≤ ISIZE_MAX →
    ∃ h', (overlay ← (let '(index, memory) := OverlayScan.into_index scan' in
                   mret (OverlayState.with_memory index memory));
       _ ← Io.seek (End_ 0); mret (b', overlay)) (SFile h)
      = (Ok (b', OverlayState.with_memory (OverlayScan.index scan') (OverlayScan.memory scan')), SFile h')
      ∧ moved h h').
  { intros b' scan' h [Hhs Hhp] Hhl. destruct (seek_end_clean h Hhs Hhl) as (h'&Hsk&Hmv&_). exists h'.
    split; [|done]. unfold OverlayScan.into_index. cbn [mbind M_bind]. unfold mret, M_ret, mbind, M_bind.
    by rewrite Hsk. }
  destruct (decide (rest = [])) as [->|Hne].
  - rewrite bool_decide_true by done. cbn [negb]. destruct (Hfull eq_refl) as [Hst Hnm].
    rewrite (valid_part_all _ _ _ _ Hi). destruct (Hfin b scan g Hokg) as (h&Hrun&Hhc&Hht&Hhs&Hhp); [by rewrite Hgc|].
    unfold mbind at 1, M_bind at 1, mret at 1, M_ret at 1.
    exists h, b. eexists. split; [exact Hrun|]. split; [split; congruence || done|]. split; [congruence|].
    split; [|by split_and!]. eapply (history_same _ f f); [apply history_refl; by left|congruence|congruence].
  - rewrite bool_decide_false by done. cbn [negb].
    destruct (truncate_step g sb entries batches rest (opt_verification options) scan Hokg Hi Ha Hsd)
      as (f2&b2&scan2&Hrun&Hok2&Hc2&Hh2&Hho2&Ho2&Hg2&Hl2&Hst2&Hnm2).
    rewrite (M_bind_ok _ _ _ _ _ Hrun).
    destruct (Hfin b2 scan2 f2 Hok2) as (h&Hrun2&Hhc&Hht&Hhs&Hhp).
    { rewrite Hc2. by destruct (valid_part_holds _ _ _ _ _ Hi) as (_&_&_&_&_&_&_&?). }
    exists h, b2. eexists. split; [exact Hrun2|]. destruct Hok2. split; [split; congruence || done|].
    split; [congruence|]. split; [|by split_and!].
    eapply (history_same _ f f2); [|done|done].
    destruct Hh2 as (ops&Ht&Hr&Hk). exists ops. rewrite <- Hgc, <- Hgt. by split_and!.
Qed.

(** [open_with_options] recovers the database. *)
Lemma open_clean f sb entries batches rest options :
  stream_ok f → image_holds (file_content f) sb entries batches rest → recovery.log_end rest →
  recovery.reserve_succeeds → (∀ n, try_reserve n = true) →
  database.MIN_DATABASE_BYTES ≤ opt_max_database_bytes options →
  blen (file_content f) ≤ opt_max_database_bytes options →
  ∃ db f', database.open_with_options f options = (Ok db, SFile f')
    ∧ handle_on db f' sb entries batches ∧ stream_ok f' ∧ db_state db = Healthy ∧ db_options db = options
    ∧ db_snapshots db = 0
    ∧ file_content f' = valid_part (file_content f) sb batches
    ∧ history (recovers (file_content f) (valid_part (file_content f) sb batches)) f f'.
Proof.
  intros Hok Hi He Hres Ha Hmin Hmax. pose proof Hok as [Hs Hp].
  destruct (load_clean f sb entries batches rest options Hok Hi He Hres Ha)
    as (f'&b&ov&Hrun&Hok'&Hc&Hh&Hho&Hb1&Hb2&Hb3&Hst&Hnm).
  exists (MkDatabase (SFile f') b ov options 0 Healthy), f'.
  split.
  - unfold database.open_with_options, database.validate_options.
    replace (_ <? database.MIN_DATABASE_BYTES) with false by lia.
    rewrite (M_bind_ok _ _ _ _ _ (len_clean f Hs)). replace (_ <? blen (file_content f)) with false by lia.
    cbn [lift fail_if]. unfold database.from_storage.
    rewrite (M_bind_ok _ _ _ _ _ (len_clean f Hs)). replace (_ <? blen (file_content f)) with false by lia.
    cbn [fail_if]. rewrite M_lift_ok. rewrite (M_bind_ok _ _ _ _ _ Hrun). done.
  - split; [|by split_and!]. split; [done|]. split; [|by split_and!].
    rewrite Hc. by eapply valid_part_holds.
Qed.

End Recover.

(** ** Creating a database file *)

Section Create.
Context `{Crc32cLaws, Xxh3Laws, Alloc, HashTablesLaws}.

(** The bytes of an empty database. *)
Definition empty_database (c : bytes) : Prop :=
  ∃ sb, image_holds c sb [] [] [] ∧ generation sb = 1 ∧ blen c = database.MIN_DATABASE_BYTES.

(** The root pages of a file that was only extended. *)
Lemma new_pages (bs : bytes) :
  let zero := replicate (Z.to_nat superblock.SUPERBLOCK_SIZE) Byte.x00 in
  get_range (replicate 8192 Byte.x00 ++ bs) 0 superblock.SUPERBLOCK_SIZE = Some zero
  ∧ get_range (replicate 8192 Byte.x00 ++ bs) superblock.SUPERBLOCK_SIZE superblock.DATA_START = Some zero.
Proof.
  intros zero. assert (Hbz : blen zero = superblock.SUPERBLOCK_SIZE) by apply blen_replicate.
  replace (replicate 8192 Byte.x00 ++ bs) with (zero ++ zero ++ bs) by (unfold zero; rewrite app_assoc, <- replicate_add; reflexivity).
  split; [by apply get_range_head|]. apply get_range_mid; rewrite Hbz; done.
Qed.

(** Its bytes once the empty Base and the root are written. *)
Lemma initialized_image w bs :
  written_as superblock.DATA_START segment.EMPTY_SEGMENT_SIZE [] w bs →
  let sb := root_for 1 superblock.DATA_START (superblock.DATA_START + segment.EMPTY_SEGMENT_SIZE) w in
  let c := splice (replicate 8192 Byte.x00 ++ bs) superblock.SUPERBLOCK_SIZE (superblock.encode_page sb) in
  image_holds c sb [] [] [] ∧ generation sb = 1 ∧ blen c = database.MIN_DATABASE_BYTES.
Proof.
  intros (Hsz&Hbl&Hsc&Hlen&?&?&Hck&Hdesc) sb. pose proof (new_pages bs) as [Hg0 Hg1].
  remember (replicate 8192 Byte.x00) as zeros eqn:Hzd.
  assert (Hz : blen zeros = superblock.DATA_START) by (rewrite Hzd; apply blen_replicate). set (c := zeros ++ bs) in *.
  assert (Hlc : blen c = database.MIN_DATABASE_BYTES) by (unfold c; rewrite blen_app, Hz, Hbl; reflexivity).
  assert (Hold : older_roots c sb).
  { eexists _, _. split; [exact Hg0|]. split; [exact Hg1|]. split; apply zero_page_older. }
  assert (Hfit : root_fits sb).
  { unfold sb, root_fits, superblock.in_range, root_for. cbn. rewrite Hsz. unfold superblock.DATA_START, superblock.SUPERBLOCK_SIZE,
      segment.EMPTY_SEGMENT_SIZE, segment.CHECKSUM_FOOTER_SIZE, BASE_HEADER. split_and!; lia. }
  destruct (put_root c sb 1 Hold Hfit (or_intror eq_refl)) as [Hroots _].
  destruct (splice_slot c (superblock.encode_page sb) 1) as (Hbl3&Hrg3&Hdr3);
    [by right|apply superblock.blen_encode_page|rewrite Hlc; done|].
  rewrite Z.mul_1_l in *. cbv zeta. split; [|split; [done|by rewrite Hbl3]].
  assert (Eo : base_offset sb = superblock.DATA_START) by reflexivity.
  assert (Es : base_size sb = segment.EMPTY_SEGMENT_SIZE) by exact Hsz.
  assert (El : log_start sb = database.MIN_DATABASE_BYTES) by reflexivity.
  assert (Hsum : superblock.DATA_START + segment.EMPTY_SEGMENT_SIZE = database.MIN_DATABASE_BYTES) by reflexivity.
  unfold image_holds. rewrite Eo, Es, El, Hbl3, Hlc, Hsum. split; [exact Hroots|]. split.
  { exists bs. split; [|exact (Hdesc 1 _)]. rewrite Hrg3 by reflexivity.
    unfold c. rewrite <- (app_nil_r bs) at 1. apply get_range_mid; [by rewrite Hz|rewrite Hbl, Hz; lia]. }
  split; [reflexivity|]. split; [reflexivity|]. split; [reflexivity|]. split; [|split; [constructor|discriminate]].
  rewrite Hdr3 by discriminate. apply drop_ge. unfold blen in Hlc. rewrite <- Hlc. lia.
Qed.

Lemma initialize_clean f :
  stream_ok f → file_content f = [] → (∀ n, try_reserve n = true) →
  ∃ f' sb, database.initialize_file f = (Ok (), f') ∧ stream_ok f' ∧ generation sb = 1
    ∧ image_holds (file_content f') sb [] [] [] ∧ blen (file_content f') = database.MIN_DATABASE_BYTES
    ∧ last (file_trace f') = Some OpSync.
Proof.
  intros [Hs Hp] Hc Ha. unfold database.initialize_file.
  set (f1 := MkFile (replicate 8192 Byte.x00) (file_pos f) [] (file_trace f ++ [OpSetLen superblock.DATA_START])).
  assert (Hsl : file.set_len superblock.DATA_START f = (Ok (), f1)).
  { unfold file.set_len, file.syscall. rewrite Hs. unfold modify, file.set_content. by rewrite Hc, Hs. }
  rewrite (M_bind_ok _ _ _ _ _ Hsl). assert (Hok1 : stream_ok f1) by (by split).
  destruct (write_base_describes f1 superblock.DATA_START [] segment.EMPTY_SEGMENT_SIZE)
    as (f2&w&bs&Hwr&(Hok2&_&Hd2&_)&Hw);
    [done|done|constructor|constructor|done|vm_compute; reflexivity|done|].
  rewrite Z.sub_0_r in Hd2. pose proof Hw as (Hsz&Hbl&_&_&_&_&_&Hdesc).
  change (blen (@nil (bytes * bytes))) with 0 in Hwr.
  assert (Hwb : segment.write_base_at superblock.DATA_START 0 [] f1 = (Ok segment.EMPTY_SEGMENT_SIZE, f2)).
  { unfold segment.write_base_at. rewrite (M_bind_ok _ _ _ _ _ Hwr). unfold mret, M_ret. by rewrite Hsz. }
  rewrite (M_bind_ok _ _ _ _ _ Hwb).
  assert (Hz : superblock.DATA_START = blen (stream_data f1)) by (cbn [stream_data file_view f1 file_content]; by rewrite blen_replicate).
  rewrite Hz, splice_end in Hd2. cbn [stream_data file_view f1 file_content] in Hd2, Hz.
  pose proof Hok2 as [Hs2 _].
  assert (Hrange : get_range (file_content f2) superblock.DATA_START (superblock.DATA_START + segment.EMPTY_SEGMENT_SIZE) = Some bs).
  { rewrite Hd2, Hz. rewrite <- (app_nil_r bs) at 1. apply get_range_mid; lia. }
  assert (Hmap : segment.map superblock.DATA_START segment.EMPTY_SEGMENT_SIZE f2 = (Ok bs, f2)).
  { apply segment_map_clean; [done|rewrite Hd2, blen_app, <- Hz, Hbl; done|done|done]. }
  rewrite (M_bind_ok _ _ _ _ _ Hmap).
  set (sb := root_for 1 superblock.DATA_START (superblock.DATA_START + segment.EMPTY_SEGMENT_SIZE) w).
  assert (Hsb : sb = MkSuperblock 1 superblock.DATA_START segment.EMPTY_SEGMENT_SIZE 0 0
     (superblock.DATA_START + segment.EMPTY_SEGMENT_SIZE) (segment.wb_metadata_checksum w)).
  { unfold sb, root_for. destruct Hw as (?&_&Hsc&Hlen&_). rewrite Hsz, Hlen. by injection Hsc as <-. }
  destruct (Hdesc 1 (superblock.DATA_START + segment.EMPTY_SEGMENT_SIZE)) as (_&_&_&Hmc). fold sb in Hmc.
  rewrite Hmc, M_lift_ok. rewrite add_ovf_ok by done. rewrite M_lift_ok.
  change (base_checksum sb) with (segment.wb_metadata_checksum w). rewrite <- Hsb.
  set (zero := replicate (Z.to_nat superblock.SUPERBLOCK_SIZE) Byte.x00).
  assert (Hroot2 : superblock.rooted f2 zero zero).
  { destruct (new_pages bs) as [??]. split_and!; [done|done| |]; cbn [stream_data file_view]; by rewrite Hd2. }
  destruct (write_root f2 sb zero zero Hroot2) as (f3&Hw3&([Hs3 Hp3]&_)&Hd3).
  rewrite (M_bind_ok _ _ _ _ _ Hw3). change (Z.land (generation sb) 1) with 1 in Hd3. cbn [stream_data file_view] in Hd3.
  rewrite Z.mul_1_l, Hd2 in Hd3. destruct (initialized_image w bs Hw) as (Hi&Hg&Hl). fold sb in Hi, Hg, Hl. rewrite <- Hd3 in Hi, Hl.
  exists (MkFile (file_content f3) (file_pos f3) [] (file_trace f3 ++ [OpSync])), sb.
  split; [unfold file.sync, file.syscall; rewrite Hs3; unfold modify, file.set_content; by rewrite Hs3|].
  split; [by split|]. split; [done|]. cbn [file_content file_trace]. split; [exact Hi|split; [exact Hl|by rewrite last_snoc]].
Qed.

End Create.
