(* ===== verification/Handle.v ===== *)
(** * A database handle as a durable map

    The specification of the database is a finite map that committed batches update.
    The theorems show that a handle answers as that map, that a commit either applies
    its batch to it or leaves it alone whatever system call fails, and that after a
    crash at any system call reopening finds the map before or after the batch. *)

From S2P Require Import Prelude Errors Crates Io Superblock Values Log Segment Overlay Recovery View.
From S2P Require Import Base Storage Transaction Entries Database Faults Commit Written Reopen.
Import overlay_map_facts commit_facts.

Module handle.

(** ** The specification: a map under batches *)

Definition apply_mutation (m : gmap bytes bytes) (kv : mutation) : gmap bytes bytes :=
  match kv.2 with Some v => <[kv.1:=v]> m | None => delete kv.1 m end.
Definition apply_batch : gmap bytes bytes → list mutation → gmap bytes bytes := foldl apply_mutation.

Lemma live_apply entries M muts :
  NoDup entries.*1 →
  entries_facts.live entries (apply_muts M muts) = apply_batch (entries_facts.live entries M) muts.
Proof.
  intros Hnd. revert M. induction muts as [|[k o] muts IH]; intros M; [done|].
  rewrite apply_muts_cons, IH. cbn [apply_batch foldl]. f_equal. apply map_eq. intros key.
  rewrite entries_facts.live_lookup by done. unfold apply_mutation. cbn [fst snd].
  destruct (decide (key = k)) as [->|Hne].
  - rewrite lookup_insert_eq. destruct o; [by rewrite lookup_insert_eq|by rewrite lookup_delete_eq].
  - rewrite lookup_insert_ne by done.
    destruct o; [rewrite lookup_insert_ne by done|rewrite lookup_delete_ne by done]; by rewrite entries_facts.live_lookup.
Qed.

Lemma contents_snoc entries batches muts :
  NoDup entries.*1 → contents entries (batches ++ [muts]) = apply_batch (contents entries batches) muts.
Proof.
  intros Hnd. unfold contents. rewrite concat_app. cbn [concat]. rewrite app_nil_r, apply_muts_app.
  by apply live_apply.
Qed.

(** A batch of distinct keys decides its keys and leaves the others alone. *)
Lemma apply_batch_lookup m muts key :
  NoDup muts.*1 →
  apply_batch m muts !! key = match KeyMap.get muts key with Some o => o | None => m !! key end.
Proof.
  revert m. induction muts as [|[k o] muts IH]; intros m; [done|]. intros [Hk Hnd]%NoDup_cons.
  cbn [apply_batch foldl] in *. rewrite IH by done. cbn [KeyMap.get].
  assert (Hg : k = key → KeyMap.get muts key = None).
  { intros ->. rewrite KeyMap.get_list_to_map by done. by apply not_elem_of_list_to_map_1. }
  destruct (decide (k = key)) as [->|Hne].
  - rewrite Hg by done. unfold apply_mutation. cbn [fst snd].
    destruct o; [by rewrite lookup_insert_eq|by rewrite lookup_delete_eq].
  - destruct (KeyMap.get muts key); [done|]. unfold apply_mutation. cbn [fst snd].
    destruct o; [by rewrite lookup_insert_ne|by rewrite lookup_delete_ne].
Qed.

(** ** Reading *)

Section Reading.
Context `{Crc32cLaws, Xxh3Laws, Alloc, HashTablesLaws}.
Implicit Types (db : Database) (f : File) (sb : Superblock) (entries : list (bytes * bytes))
  (batches : list (list mutation)).

Lemma holds_NoDup b entries : active_base.holds b entries → NoDup entries.*1.
Proof. by intros (bs&_&(index&_&_&_&_&_&_&?&_)&_). Qed.

(** Reading a Base only records what has been verified. *)
Lemma handle_on_base db f sb entries batches b' :
  handle_on db f sb entries batches → active_base.same_base (db_base db) b' → active_base.holds b' entries →
  handle_on (database.set_base b' db) f sb entries batches.
Proof.
  intros (?&?&_&Hl&Ho&Hg&?&?) (_&E2&_&_&_&E6&E7) Hh. split_and!; try done; cbn; congruence.
Qed.

(** What the reads of a handle rely on, open for writing or not: a Base that holds
    [entries] under an Overlay that makes it the map [m]. *)
Definition view_on db entries (m : gmap bytes bytes) : Prop :=
  active_base.holds (db_base db) entries
  ∧ ∃ lg M, state_holds lg (db_overlay db) M ∧ entries_facts.live entries M = m.

Lemma handle_view db f sb entries batches :
  handle_on db f sb entries batches → view_on db entries (contents entries batches).
Proof. intros (_&_&Hb&_&_&_&Ho&_). split; [done|]. by eexists _, _. Qed.

(** A read: it returns [r] and at most records verified blocks. *)
Definition reads {A} db entries (x : M Database A) (r : result A) : Prop :=
  ∃ b', x db = (r, database.set_base b' db) ∧ active_base.same_base (db_base db) b' ∧ active_base.holds b' entries.

Lemma reads_handle {A} db f sb entries batches (x : M Database A) r :
  handle_on db f sb entries batches → reads db entries x r →
  ∃ b', x db = (r, database.set_base b' db) ∧ handle_on (database.set_base b' db) f sb entries batches.
Proof. intros Hh (b'&Hx&Hs&Hb). exists b'. split; [done|]. by eapply handle_on_base. Qed.

Lemma reads_ret {A} db entries (x : M Database A) r :
  active_base.holds (db_base db) entries → x db = (r, db) → reads db entries x r.
Proof. intros Hb Hx. exists (db_base db). split; [by destruct db|done]. Qed.

Lemma reads_bind {A B} db entries (x : M Database A) (k : A → M Database B) a r :
  reads db entries x (Ok a) →
  (∀ b', active_base.same_base (db_base db) b' → active_base.holds b' entries →
     reads (database.set_base b' db) entries (k a) r) →
  reads db entries (x ≫= k) r.
Proof.
  intros (b1&Hx&Hs1&Hh1) Hk. destruct (Hk b1 Hs1 Hh1) as (b2&Hr&Hs2&Hh2). exists b2. split; [|split; [by etrans|done]].
  by rewrite (M_bind_ok _ _ _ _ _ Hx).
Qed.

Lemma available_run {A} db (k : () → M Database A) :
  db_state db ≠ Unavailable → (database.ensure_available ≫= k) db = k () db.
Proof.
  intros Hav. unfold database.ensure_available. rewrite M_bind_assoc, (M_bind_ok database.self _ db db db eq_refl).
  by rewrite bool_decide_false, M_lift_ok.
Qed.

Lemma view_get_view db entries m key :
  view_on db entries m → reads db entries (database.view_get key) (Ok (m !! key)).
Proof.
  intros (Hb&lg&M&(Hr&_)&<-). pose proof Hb as (bs&Hd&_). unfold reads, database.view_get, database.read_view, active_base.base_view.
  rewrite (M_bind_ok database.self _ db db db eq_refl), Hd. cbn [mbind result_bind]. rewrite M_lift_ok.
  destruct (entries_facts.view_get_live (db_base db) entries _ lg M (opt_verification (db_options db)) bs key Hb Hd Hr)
    as (b'&Hl&Hs&Hb'). exists b'. split; [|done]. unfold database.on_base, zoom at 1. by rewrite Hl.
Qed.

Lemma get_view db entries m key :
  view_on db entries m → db_state db ≠ Unavailable → reads db entries (database.get key) (Ok (m !! key)).
Proof.
  intros Hv Hav. destruct (view_get_view db entries m key Hv) as (b'&Hx&?). exists b'. split; [|done].
  unfold database.get. by rewrite available_run.
Qed.

Lemma verify_view db entries m :
  view_on db entries m → db_state db ≠ Unavailable → (∀ n, try_reserve n = true) →
  reads db entries database.verify (Ok ()).
Proof.
  intros (Hb&_) Hav Ha. destruct (active_base.verify_holds _ _ Hb Ha) as (b'&Hv&Hs&Hb'&_).
  exists b'. split; [|done]. unfold database.verify. rewrite available_run by done.
  unfold database.on_base, zoom. by rewrite Hv.
Qed.

(** The raw entries of a handle: the live bindings, each once. *)
Lemma raw_entries_view `{Placement} db entries m mapping :
  view_on db entries m → BaseBytes.deref (ab_mapping (db_base db)) = Ok mapping → PlacementLaws mapping →
  ∃ r l, database.iter_raw db = Ok r ∧ l ≡ₚ map_to_list m
    ∧ fst (raw_entries.collect (v_data_size (ab_verifier (db_base db))) r) = Ok l
    ∧ fst (raw_entries.count (v_data_size (ab_verifier (db_base db))) r) = Ok (Z.of_nat (size m)).
Proof.
  intros (Hb&lg&M&(Hr&_)&<-) Hd Hpl.
  destruct (entries_facts.iteration_live (db_base db) entries _ _ _ (opt_verification (db_options db)) mapping Hb Hd Hr Hpl)
    as (r&l&Hn&Hl&Hc&Hct&_).
  exists r, l. split_and!; try done. unfold database.iter_raw, database.read_view, active_base.base_view.
  rewrite Hd. exact Hn.
Qed.

Lemma len_view `{Placement} db entries m mapping :
  view_on db entries m → db_state db ≠ Unavailable →
  BaseBytes.deref (ab_mapping (db_base db)) = Ok mapping → PlacementLaws mapping →
  database.len db = (Ok (Z.of_nat (size m)), db).
Proof.
  intros Hv Hav Hd Hpl. destruct (raw_entries_view db entries m mapping Hv Hd Hpl) as (r&l&Hr&_&_&Hc).
  unfold database.len. rewrite available_run by done. unfold database.raw_len.
  rewrite (M_bind_ok database.self _ db db db eq_refl). by rewrite Hr, M_lift_ok, Hc.
Qed.

Lemma is_empty_view `{Placement} db entries m mapping :
  view_on db entries m → db_state db ≠ Unavailable →
  BaseBytes.deref (ab_mapping (db_base db)) = Ok mapping → PlacementLaws mapping →
  database.is_empty db = (Ok (bool_decide (m = ∅)), db).
Proof.
  intros Hv Hav Hd Hpl. unfold database.is_empty. rewrite (M_bind_ok _ _ _ _ _ (len_view db entries m mapping Hv Hav Hd Hpl)).
  cbn. do 2 f_equal. destruct (decide (m = ∅)) as [->|Hne]; [by rewrite map_size_empty|].
  rewrite bool_decide_false by done. destruct (size m) eqn:E; [by apply map_size_empty_inv in E|done].
Qed.

Lemma get_handle db f sb entries batches key :
  handle_on db f sb entries batches → db_state db ≠ Unavailable →
  ∃ b', database.get key db = (Ok (contents entries batches !! key), database.set_base b' db)
    ∧ handle_on (database.set_base b' db) f sb entries batches.
Proof. intros Hh Hav. eapply reads_handle; [done|]. apply get_view; [by eapply handle_view|done]. Qed.

(** [WriteTransaction::get] sees the staged batch over the database. *)
Lemma tx_get_handle db f sb entries batches tx muts key :
  handle_on db f sb entries batches → db_state db ≠ Unavailable → tx_facts.tx_ok false tx muts →
  ∃ b', database.tx_get tx key db = (Ok (apply_batch (contents entries batches) muts !! key), database.set_base b' db)
    ∧ handle_on (database.set_base b' db) f sb entries batches.
Proof.
  intros Hh Hav Htx. pose proof Htx as (_&Hnd&_). unfold database.tx_get.
  rewrite (tx_facts.get_staged_spec _ _ _ key Htx), M_lift_ok. rewrite apply_batch_lookup by done.
  destruct (KeyMap.get muts key) as [o|]; [|by eapply get_handle].
  exists (db_base db). split; [by destruct db|]. pose proof Hh as (_&_&Hb&_). by eapply handle_on_base.
Qed.

End Reading.

(** ** Committing *)

Section Committing.
Context `{Crc32cLaws, Xxh3Laws, Alloc, HashTablesLaws}.
Implicit Types (db : Database) (f : File) (sb : Superblock) (entries : list (bytes * bytes))
  (muts : list mutation) (batches : list (list mutation)).

(** The batches after [muts] was committed; an empty batch writes nothing. *)
Definition committed batches muts : list (list mutation) :=
  match muts with [] => batches | _ => batches ++ [muts] end.

Lemma contents_committed entries batches muts :
  NoDup entries.*1 → contents entries (committed batches muts) = apply_batch (contents entries batches) muts.
Proof. intros Hnd. destruct muts; [done|]. by apply contents_snoc. Qed.

Lemma published_handle db f sb entries batches muts s' ov db' :
  handle_on db f sb entries batches → recovery.batch_ok muts →
  blen (file_content f ++ log.encode_record muts) ≤ ISIZE_MAX → published f db batches muts s' ov db' →
  ∃ f', handle_on db' f' sb entries (batches ++ [muts]) ∧ db_storage db' = SFile f'
    ∧ file_content f' = file_content f ++ log.encode_record muts
    ∧ history (grows f (log.encode_record muts)) f f' ∧ last (file_trace f') = Some OpSync.
Proof.
  intros (Hs&Himg&Hb&Hl&Ho&Hg&_&_) Hok Hlen (->&(f'&->&Hc&Hh&_)&(?&[= <-]&Hsy)&Hov&Hnm).
  exists f'. split; [|by split_and!]. split; [done|]. split; [|by split_and!].
  rewrite Hc. eapply image_holds_app; [exact Himg| | |done].
  - by rewrite app_nil_l, app_nil_r, encode_log_snoc.
  - destruct Himg as (_&_&_&_&_&_&Hbs&_). by apply Forall_app_2; [|constructor].
Qed.

(** A prefix of the record is the end of a log that lost the batch, or is the batch. *)
Lemma torn_image c sb entries batches muts p :
  image_holds c sb entries batches [] → recovery.batch_ok muts →
  p `prefix_of` log.encode_record muts → blen (c ++ log.encode_record muts) ≤ ISIZE_MAX →
  ∃ batches' rest, image_holds (c ++ p) sb entries batches' rest ∧ recovery.log_end rest
    ∧ (batches' = batches ∨ batches' = batches ++ [muts])
    ∧ (p = log.encode_record muts → batches' = batches ++ [muts]).
Proof.
  intros Hi Hok Hp Hl. pose proof Hi as (_&_&_&_&_&_&Hbs&_).
  assert (Hlp : blen (c ++ p) ≤ ISIZE_MAX).
  { destruct Hp as [q Hq]. rewrite Hq, app_assoc, (blen_app (c ++ p)) in Hl. pose proof (blen_nonneg q). lia. }
  destruct (decide (p = log.encode_record muts)) as [->|Hne].
  - exists (batches ++ [muts]), []. split; [|split; [by left|split; [by right|done]]].
    eapply image_holds_app; [exact Hi|by rewrite app_nil_l, app_nil_r, encode_log_snoc|by apply Forall_app_2; [|constructor]|done].
  - exists batches, p. split; [by eapply image_holds_app|]. split; [|split; [by left|done]].
    right; right. exists muts, (length p). destruct Hp as [q Hq]. split; [done|]. split; [by rewrite Hq, take_app_length|].
    rewrite Hq. destruct q as [|x q]; [by rewrite app_nil_r in Hq|]. unfold blen. rewrite length_app. cbn. lia.
Qed.

(** A commit without failing system calls, within the limits. *)
Lemma commit_through db f sb entries batches tx muts :
  handle_on db f sb entries batches → tx_facts.tx_ok false tx muts →
  opt_max_database_bytes (db_options db) ≤ ISIZE_MAX → db_state db = Healthy →
  blen muts ≤ log.MAX_BATCH_OPERATIONS → blen (log.encode_payload muts) ≤ log.MAX_LOG_PAYLOAD_SIZE →
  blen (file_content f) + blen (log.encode_record muts) ≤ opt_max_database_bytes (db_options db) →
  (∀ n, try_reserve n = true) → (∀ e, Fault e ∉ file_script f) →
  ∃ db' f', database.commit tx db = (Ok (), db') ∧ handle_on db' f' sb entries (committed batches muts)
    ∧ db_state db' = Healthy.
Proof.
  intros Hh Htx Hmax Hhl Hcnt Hpay Hcap Ha Hnf.
  destruct (commit_any db f sb entries batches tx muts Hh Htx Hmax) as (r&db'&Hr&Ho).
  destruct Ho as [(->&->&->)|[(->&_&Hok&Hne&Hl&s'&ov&Hp)|(e&->&Href&_)]].
  - by exists db, f.
  - destruct (published_handle db f sb entries batches muts s' ov db' Hh Hok Hl Hp) as (f'&Hh'&_).
    exists db', f'. split; [done|]. split; [by destruct muts|]. by destruct Hp as (->&_).
  - exfalso. destruct Href as [[? _]|[?|[[? _]|[[n Hn]|[x Hx]]]]]; [done|by auto|lia|by rewrite Ha in Hn|by eapply Hnf].
Qed.

End Committing.

(** ** Properties *)

Section Properties.
Context `{Crc32cLaws, Xxh3Laws, Alloc, HashTablesLaws}.
Implicit Types (db : Database) (f : File) (sb : Superblock) (entries : list (bytes * bytes))
  (muts : list mutation) (batches : list (list mutation)).

(** C12: a handle answers as the map it stands for. Whatever is split between the Base
    and the Overlay, [get] and [contains_key] return the binding of the key, [len] the
    number of bindings, and a complete verification succeeds; reads change nothing but
    the record of verified blocks. *)
Theorem handle_refines_map `{Placement} db f sb entries batches mapping :
  handle_on db f sb entries batches → db_state db ≠ Unavailable → (∀ n, try_reserve n = true) →
  BaseBytes.deref (ab_mapping (db_base db)) = Ok mapping → PlacementLaws mapping →
  let m := contents entries batches in
  (∀ key, ∃ b', database.get key db = (Ok (m !! key), database.set_base b' db)
     ∧ handle_on (database.set_base b' db) f sb entries batches)
  ∧ (∀ key, fst (database.contains_key key db) = Ok (bool_decide (is_Some (m !! key))))
  ∧ database.len db = (Ok (Z.of_nat (size m)), db)
  ∧ fst (database.is_empty db) = Ok (bool_decide (m = ∅))
  ∧ fst (database.verify db) = Ok ().
Proof.
  intros Hh Hav Ha Hd Hpl m. split_and!.
  - intros key. by eapply get_handle.
  - intros key. destruct (get_handle db f sb entries batches key Hh Hav) as (b'&Hg&_).
    unfold database.contains_key. by rewrite (M_bind_ok _ _ _ _ _ Hg).
  - eapply len_view; [by eapply handle_view|done..].
  - erewrite is_empty_view; [done|by eapply handle_view|done..].
  - by destruct (verify_view db entries m (handle_view _ _ _ _ _ Hh) Hav Ha) as (b'&->&_).
Qed.

(** C9: the outcome of a commit, whichever system calls fail or come up short. On
    success the database is the one with the batch applied, on disk and in the handle,
    and the record was synced after it was written. On failure the handle keeps reading
    the old state; either nothing was written and the handle is as it was, or it is
    closed for writing and at most a prefix of the record was left behind. There is no
    panic. *)
Theorem commit_outcome db f sb entries batches tx muts :
  handle_on db f sb entries batches → tx_facts.tx_ok false tx muts →
  opt_max_database_bytes (db_options db) ≤ ISIZE_MAX →
  ∃ r db' f', database.commit tx db = (r, db') ∧ db_storage db' = SFile f'
    ∧ match r with
      | Ok _ => handle_on db' f' sb entries (committed batches muts) ∧ db_state db' = db_state db
          ∧ (muts ≠ [] → last (file_trace f') = Some OpSync)
      | Err _ => db_base db' = db_base db ∧ db_overlay db' = db_overlay db
          ∧ (db_state db' = db_state db ∧ handle_on db' f' sb entries batches
             ∨ db_state db' = WritePoisoned ∧ ∃ p, p `prefix_of` log.encode_record muts
                 ∧ file_content f' = file_content f ++ p)
      | Panic => False
      end.
Proof.
  intros Hh Htx Hmax. destruct (commit_any db f sb entries batches tx muts Hh Htx Hmax) as (r&db'&Hr&Ho).
  destruct Ho as [(->&->&->)|[(->&_&Hok&Hne&Hl&s'&ov&Hp)|(e&->&_&[(s'&->&f'&->&Hc&_)|(_&_&_&s'&p&->&Hp&f'&->&Hc&_)])]].
  - exists (Ok ()), db, f. by pose proof Hh as (?&_).
  - destruct (published_handle db f sb entries batches muts s' ov db' Hh Hok Hl Hp) as (f'&Hh'&Hs'&_&_&Hsy).
    exists (Ok ()), db', f'. split_and!; try done; [|by destruct Hp as (->&_)]. by destruct muts.
  - exists (Err e), (database.set_storage (SFile f') db), f'. do 4 (split; [done|]). left. split; [done|].
    destruct Hh as (_&Hi&Hrest). split; [done|]. split; [by rewrite Hc|exact Hrest].
  - eexists (Err e), _, f'. do 4 (split; [done|]). right. split; [done|]. by exists p.
Qed.

(** C6: commits are atomic across crashes. Take the content of the file after any
    number of the changes a commit makes, failed system calls and the rollback included,
    and open it: the result is a healthy database with the batches committed before, or
    with the interrupted batch as well, never with a part of it; and once the commit has
    reported success it is there. *)
Theorem commit_crash_atomic db f sb entries batches tx muts options :
  handle_on db f sb entries batches → tx_facts.tx_ok false tx muts →
  opt_max_database_bytes (db_options db) ≤ ISIZE_MAX →
  recovery.reserve_succeeds → (∀ n, try_reserve n = true) →
  ISIZE_MAX ≤ opt_max_database_bytes options →
  ∃ r db' f' ops, database.commit tx db = (r, db') ∧ db_storage db' = SFile f'
    ∧ file_trace f' = file_trace f ++ ops
    ∧ ∀ k g, stream_ok g → file_content g = replay (file_content f) (take k ops) →
        ∃ db2 g' batches', database.open_with_options g options = (Ok db2, SFile g')
          ∧ handle_on db2 g' sb entries batches' ∧ db_state db2 = Healthy
          ∧ (batches' = batches ∨ batches' = committed batches muts)
          ∧ (r = Ok () → (length ops ≤ k)%nat → batches' = committed batches muts).
Proof.
  intros Hh Htx Hmax Hres Ha Hopt. destruct (commit_any db f sb entries batches tx muts Hh Htx Hmax) as (r&db'&Hr&Ho).
  assert (Hmin : database.MIN_DATABASE_BYTES ≤ opt_max_database_bytes options) by (etrans; [|exact Hopt]; done).
  pose proof Hh as (Hsf&Hi&_).
  (* reopening an image of the database *)
  assert (Hre : ∀ g batches' rest, stream_ok g → image_holds (file_content g) sb entries batches' rest →
    recovery.log_end rest → ∃ db2 g', database.open_with_options g options = (Ok db2, SFile g')
      ∧ handle_on db2 g' sb entries batches' ∧ db_state db2 = Healthy).
  { intros g batches' rest Hg Hig He. destruct (open_clean g sb entries batches' rest options) as (db2&g'&?&?&_&?&_); try done.
    - by destruct Hig as (_&_&_&_&_&_&_&?); lia.
    - by exists db2, g'. }
  (* the file grew by prefixes of the record *)
  assert (Hgr : ∀ f' (fin : Prop), recovery.batch_ok muts → muts ≠ [] →
    blen (file_content f ++ log.encode_record muts) ≤ ISIZE_MAX → history (grows f (log.encode_record muts)) f f' →
    (fin → file_content f' = file_content f ++ log.encode_record muts) →
    ∃ ops, file_trace f' = file_trace f ++ ops ∧ ∀ k g, stream_ok g → file_content g = replay (file_content f) (take k ops) →
      ∃ db2 g' batches', database.open_with_options g options = (Ok db2, SFile g')
        ∧ handle_on db2 g' sb entries batches' ∧ db_state db2 = Healthy
        ∧ (batches' = batches ∨ batches' = committed batches muts)
        ∧ (fin → (length ops ≤ k)%nat → batches' = committed batches muts)).
  { intros f' fin Hok Hne Hl (ops&Ht&Hc&Hk) Hfin. exists ops. split; [done|]. intros k g Hg Hgc.
    destruct (Hk k) as (p&Hp&Hcp). destruct (torn_image _ sb entries batches muts p Hi Hok Hp Hl) as (batches'&rest&Hit&He&Hbs&Hall).
    rewrite <- Hcp, <- Hgc in Hit. destruct (Hre g batches' rest Hg Hit He) as (db2&g'&?&?&?).
    assert (Hcm : committed batches muts = batches ++ [muts]) by (by destruct muts). rewrite Hcm.
    exists db2, g', batches'. split_and!; try done. intros Hf Hlen. apply Hall.
    rewrite take_ge in Hcp by done. rewrite Hc, (Hfin Hf) in Hcp. by apply app_inv_head in Hcp. }
  destruct Ho as [(->&->&->)|[(->&_&Hok&Hne&Hl&s'&ov&Hp)|(e&->&_&Ho)]].
  - exists (Ok ()), db, f, []. split_and!; try done; [by rewrite app_nil_r|]. intros k g Hg Hgc. rewrite take_nil in Hgc.
    cbn in Hgc. rewrite <- Hgc in Hi. destruct (Hre g batches [] Hg Hi) as (db2&g'&?&?&?); [by left|].
    exists db2, g', batches. split_and!; auto.
  - destruct (published_handle db f sb entries batches muts s' ov db' Hh Hok Hl Hp) as (f'&_&Hs'&Hc&Hhist&_).
    destruct (Hgr f' True Hok Hne Hl Hhist (λ _, Hc)) as (ops&Ht&Hk). exists (Ok ()), db', f', ops. split_and!; try done.
    intros k g Hg Hgc. destruct (Hk k g Hg Hgc) as (db2&g'&b'&?&?&?&?&?). exists db2, g', b'. split_and!; auto.
  - destruct Ho as [(s'&->&f'&->&Hc&(ops&Ht&_&Hk)&_)|(Hok&Hne&Hl&s'&p&->&Hp&f'&->&Hc&Hhist&_)].
    + exists (Err e), (database.set_storage (SFile f') db), f', ops. split_and!; try done. intros k g Hg Hgc.
      destruct (Hk k) as (p&Hp&Hcp). apply prefix_nil_inv in Hp as ->. rewrite app_nil_r in Hcp.
      rewrite <- Hcp, <- Hgc in Hi. destruct (Hre g batches [] Hg Hi) as (db2&g'&?&?&?); [by left|].
      exists db2, g', batches. split_and!; auto; done.
    + destruct (Hgr f' False Hok Hne Hl Hhist ltac:(done)) as (ops&Ht&Hk).
      eexists (Err e), _, f', ops. split_and!; try done. intros k g Hg Hgc.
      destruct (Hk k g Hg Hgc) as (db2&g'&b'&?&?&?&?&?). exists db2, g', b'. split_and!; auto; done.
Qed.

(** C14: a commit goes through when nothing stands in its way. A healthy handle, a batch
    within the limits of the format and of the file, memory to be had and no failing
    system call (short writes are allowed): the commit succeeds. *)
Theorem commit_progress db f sb entries batches tx muts :
  handle_on db f sb entries batches → tx_facts.tx_ok false tx muts →
  opt_max_database_bytes (db_options db) ≤ ISIZE_MAX → db_state db = Healthy →
  blen muts ≤ log.MAX_BATCH_OPERATIONS → blen (log.encode_payload muts) ≤ log.MAX_LOG_PAYLOAD_SIZE →
  blen (file_content f) + blen (log.encode_record muts) ≤ opt_max_database_bytes (db_options db) →
  (∀ n, try_reserve n = true) → (∀ e, Fault e ∉ file_script f) →
  ∃ db' f', database.commit tx db = (Ok (), db') ∧ handle_on db' f' sb entries (committed batches muts)
    ∧ db_state db' = Healthy.
Proof. apply commit_through. Qed.

(** C11: opening recovers the database. Of a file that holds a root, its Base, a log of
    complete batches and then a torn record, fewer bytes than a header or the marker of
    a compaction, [open_with_options] gives a healthy handle on exactly the complete
    batches and cuts the rest off; a crash at any point of the recovery leaves a file
    that still holds the same database. *)
Theorem reopen_recovers f sb entries batches rest options :
  stream_ok f → image_holds (file_content f) sb entries batches rest → recovery.log_end rest →
  recovery.reserve_succeeds → (∀ n, try_reserve n = true) →
  database.MIN_DATABASE_BYTES ≤ opt_max_database_bytes options →
  blen (file_content f) ≤ opt_max_database_bytes options →
  ∃ db f' ops, database.open_with_options f options = (Ok db, SFile f')
    ∧ handle_on db f' sb entries batches ∧ db_state db = Healthy ∧ db_options db = options
    ∧ file_trace f' = file_trace f ++ ops
    ∧ ∀ k, ∃ rest', image_holds (replay (file_content f) (take k ops)) sb entries batches rest'
        ∧ recovery.log_end rest'.
Proof.
  intros Hok Hi He Hres Ha Hmin Hmax.
  destruct (open_clean f sb entries batches rest options Hok Hi He Hres Ha Hmin Hmax)
    as (db&f'&Ho&Hh&_&Hst&Hopt&_&Hc&(ops&Ht&_&Hk)).
  exists db, f', ops. do 5 (split; [done|]). intros k. destruct (Hk k) as [->| ->]; [by exists rest|].
  exists []. split; [by eapply valid_part_holds|by left].
Qed.

(** A new file is an empty database. Initializing an empty file writes an image
    that opens as a healthy database without entries; everything it wrote was synced. *)
Theorem created_opens_empty f options :
  stream_ok f → file_content f = [] → recovery.reserve_succeeds → (∀ n, try_reserve n = true) →
  database.MIN_DATABASE_BYTES ≤ opt_max_database_bytes options →
  ∃ f1 db f2 sb, database.initialize_file f = (Ok (), f1) ∧ last (file_trace f1) = Some OpSync
    ∧ database.open_with_options f1 options = (Ok db, SFile f2)
    ∧ handle_on db f2 sb [] [] ∧ db_state db = Healthy ∧ contents [] [] = ∅.
Proof.
  intros Hok Hc Hres Ha Hmin.
  destruct (initialize_clean f Hok Hc Ha) as (f1&sb&Hin&Hok1&_&Hi&Hl&Hsy).
  destruct (open_clean f1 sb [] [] [] options Hok1 Hi) as (db&f2&Ho&Hh&_&Hst&_); [by left|done|done|done|by rewrite Hl|].
  exists f1, db, f2, sb. by split_and!.
Qed.

(** What a computation on the answer makes of it depends on the answer only. *)
Lemma answer_ret {S A B} (x y : M S A) (g : A → B) s t :
  fst (x s) = fst (y t) → fst ((a ← x; mret (g a)) s) = fst ((a ← y; mret (g a)) t).
Proof. unfold mbind, M_bind. destruct (x s) as [[]], (y t) as [[]]; cbn; intros E; simplify_eq; done. Qed.

Lemma tx_get_preview db f sb entries batches tx muts key db' :
  handle_on db f sb entries batches → db_state db = Healthy → tx_facts.tx_ok false tx muts →
  opt_max_database_bytes (db_options db) ≤ ISIZE_MAX → database.commit tx db = (Ok (), db') →
  fst (database.tx_get tx key db) = fst (database.get key db').
Proof.
  intros Hh Hst Htx Hmax Hc.
  assert (Hnd : NoDup entries.*1) by (pose proof Hh as (_&_&Hb&_); by eapply holds_NoDup).
  destruct (tx_get_handle db f sb entries batches tx muts key Hh) as (b&->&_); [by rewrite Hst|done|].
  destruct (commit_any db f sb entries batches tx muts Hh Htx Hmax) as (r&db1&Hr&Ho).
  rewrite Hc in Hr. injection Hr as <- <-. rewrite <- (contents_committed entries batches muts Hnd).
  destruct Ho as [(_&->&->)|[(_&_&Hok&Hne&Hl&s'&ov&Hp)|(e&[=]&_)]].
  - by destruct (get_handle db f sb entries batches key Hh) as (b'&->&_); [by rewrite Hst|].
  - destruct (published_handle db f sb entries batches muts s' ov db' Hh Hok Hl Hp) as (f'&Hh'&_).
    assert (Hcm : committed batches muts = batches ++ [muts]) by (by destruct muts). rewrite Hcm.
    destruct (get_handle db' f' sb entries _ key Hh') as (b'&->&_); [|done].
    destruct Hp as (->&_). cbn. by rewrite Hst.
Qed.

(** C21: a write transaction reads its own writes. [WriteTransaction::get] returns what
    [get] will return once the transaction is committed: the staged value or deletion of
    the key, and the database's value for the keys it has not touched; and so for
    [contains_key]. *)
Theorem tx_get_previews_commit db f sb entries batches tx muts key db' :
  handle_on db f sb entries batches → db_state db = Healthy → tx_facts.tx_ok false tx muts →
  opt_max_database_bytes (db_options db) ≤ ISIZE_MAX → database.commit tx db = (Ok (), db') →
  fst (database.tx_get tx key db) = fst (database.get key db')
  ∧ fst (database.tx_contains_key tx key db) = fst (database.contains_key key db').
Proof.
  intros Hh Hst Htx Hmax Hc. pose proof (tx_get_preview db f sb entries batches tx muts key db' Hh Hst Htx Hmax Hc) as Hg.
  split; [exact Hg|]. by apply answer_ret.
Qed.

End Properties.

(** *** A concrete database *)

Import RefInstances.

#[local] Instance demo_maps : MmapAnon := {| map_anon _ := Ok (); make_read_only _ := Ok () |}.
#[local] Instance demo_place : Placement :=
  {| base_addr := 65536; place kv := (view.MkSlice 1 kv.1, view.MkSlice 2 kv.2) |}.

(** A file initialized by the program, opened with the default options. *)
Definition demo_new : File := MkFile [] 0 [] [].
Definition demo_options : DatabaseOptions := options.with_max_database_bytes options.default ISIZE_MAX.
Definition demo_empty : Database :=
  MkDatabase (SFile demo_new) active_base.demo_base overlay_demo.empty_state demo_options 0 Unavailable.
Definition demo_db : Database :=
  match (database.open_with_options (database.initialize_file demo_new).2 demo_options).1 with
  | Ok db => db
  | _ => demo_empty
  end.

(** [put a 7; put_reserved b 3 ...; delete a]. *)
Definition demo_tx : WriteTransaction := tx_run.steps false tx_facts.demo_ops.
Definition demo_muts : list mutation := tx_spec.steps tx_facts.demo_ops.

Lemma demo_tx_ok : tx_facts.tx_ok false demo_tx demo_muts.
Proof.
  apply tx_facts.steps_refine; [apply tx_facts.tx_ok_new|done|by intros|].
  repeat constructor. cbn. lia.
Qed.

Lemma demo_image : ∃ f sb, stream_ok f ∧ image_holds (file_content f) sb [] [] []
  ∧ blen (file_content f) = database.MIN_DATABASE_BYTES ∧ (database.initialize_file demo_new).2 = f ∧ generation sb = 1.
Proof.
  destruct (initialize_clean demo_new) as (f&sb&Hin&Hok&Hg&Hi&Hl&_); [done..|].
  exists f, sb. do 3 (split; [assumption|]). split; [rewrite Hin; reflexivity|exact Hg].
Qed.

Lemma demo_handle : ∃ f sb, handle_on demo_db f sb [] [] ∧ stream_ok f ∧ db_state demo_db = Healthy
  ∧ db_options demo_db = demo_options ∧ blen (file_content f) = database.MIN_DATABASE_BYTES ∧ generation sb = 1.
Proof.
  destruct demo_image as (f&sb&Hok&Hi&Hl&Hin&Hgen). unfold demo_db. rewrite Hin.
  destruct (open_clean f sb [] [] [] demo_options Hok Hi) as (db&f'&Ho&Hh&Hok'&Hst&Hop&_&Hc&_);
    [by left|exact recovery.ref_reserve_succeeds|done|done|by rewrite Hl|].
  exists f', sb. rewrite Ho. cbn [fst]. do 4 (split; [assumption|]). split; [|exact Hgen]. rewrite Hc.
  by rewrite (valid_part_all _ _ [] []).
Qed.

Lemma commit_demo f sb :
  handle_on demo_db f sb [] [] → stream_ok f → db_state demo_db = Healthy → db_options demo_db = demo_options →
  blen (file_content f) = database.MIN_DATABASE_BYTES → ∃ db', database.commit demo_tx demo_db = (Ok (), db').
Proof.
  intros Hh [Hs _] Hst Hop Hl.
  destruct (commit_through demo_db f sb [] [] demo_tx demo_muts Hh demo_tx_ok) as (db'&f'&Hc&_).
  - rewrite Hop. apply Z.le_refl.
  - exact Hst.
  - vm_compute. discriminate.
  - vm_compute. discriminate.
  - rewrite Hop, Hl. vm_compute. discriminate.
  - reflexivity.
  - rewrite Hs. intros e He. by apply not_elem_of_nil in He.
  - exists db'. exact Hc.
Qed.

(** The database after the transaction, opened again. *)
Lemma demo_committed : ∃ db f sb, handle_on db f sb [] [demo_muts] ∧ stream_ok f ∧ db_state db = Healthy
  ∧ db_options db = demo_options ∧ db_snapshots db = 0 ∧ generation sb = 1
  ∧ blen (file_content f) = database.MIN_DATABASE_BYTES + blen (log.encode_record demo_muts).
Proof.
  destruct demo_image as (f&sb&Hok&Hi&Hl&_&Hg). set (rec := log.encode_record demo_muts).
  assert (Hb : recovery.batch_ok demo_muts).
  { destruct demo_tx_ok as (_&_&Hops&_). split; [vm_compute; discriminate|]. split; [vm_compute; discriminate|]. exact Hops. }
  assert (Hrl : blen (file_content f ++ rec) ≤ ISIZE_MAX) by (rewrite blen_app, Hl; vm_compute; discriminate).
  set (g := MkFile (file_content f ++ rec) 0 [] []).
  destruct (torn_image (file_content f) sb [] [] demo_muts rec Hi Hb ltac:(reflexivity) Hrl) as (bs&rest&Hi2&He&_&Hbs).
  specialize (Hbs eq_refl). subst bs.
  destruct (open_clean g sb [] [demo_muts] rest demo_options) as (db&f'&Ho&Hh&Hok'&Hst&Hop&Hsn&_).
  - split; [reflexivity|apply Z.le_refl].
  - exact Hi2.
  - exact He.
  - exact recovery.ref_reserve_succeeds.
  - reflexivity.
  - vm_compute. discriminate.
  - exact Hrl.
  - exists db, f', sb. do 6 (split; [assumption|]). pose proof Hh as (_&Hi3&_).
    destruct (image_log_blen _ _ _ _ _ Hi3) as [_ Hx]. rewrite app_nil_r in Hx.
    destruct (image_log_blen _ _ _ _ _ Hi) as [_ Hy]. change (blen (recovery.encode_log [] ++ [])) with 0 in Hy.
    change (recovery.encode_log [demo_muts]) with (rec ++ []) in Hx. rewrite app_nil_r in Hx. lia.
Qed.

(** The empty database has no binding for [a]. *)
Lemma handle_refines_map_witness :
  ∃ b', database.get [Byte.x61] demo_db = (Ok None, database.set_base b' demo_db)
    ∧ database.len demo_db = (Ok 0, demo_db) ∧ fst (database.verify demo_db) = Ok ().
Proof.
  destruct demo_handle as (f&sb&Hh&_&Hst&_). pose proof Hh as (_&_&(bs&Hd&_)&_).
  destruct (handle_refines_map demo_db f sb [] [] bs Hh) as (Hg&_&Hl&_&Hv);
    [by rewrite Hst|reflexivity|exact Hd|apply entries_facts.demo_placement_laws|].
  destruct (Hg [Byte.x61]) as (b'&Hget&_). exists b'. split; [exact Hget|]. split; [exact Hl|exact Hv].
Defined.

Lemma commit_outcome_witness :
  ∃ r db' f', database.commit demo_tx demo_db = (r, db') ∧ db_storage db' = SFile f' ∧ r ≠ Panic.
Proof.
  destruct demo_handle as (f&sb&Hh&_&_&Hop&_).
  destruct (commit_outcome demo_db f sb [] [] demo_tx demo_muts Hh demo_tx_ok) as (r&db'&f'&Hr&Hs&Ho).
  - rewrite Hop. apply Z.le_refl.
  - exists r, db', f'. split; [exact Hr|]. split; [exact Hs|]. intros ->. exact Ho.
Defined.

Lemma commit_crash_atomic_witness :
  ∃ f sb db' f' ops, database.commit demo_tx demo_db = (Ok (), db') ∧ db_storage db' = SFile f'
    ∧ ∀ k, ∃ db2 g' batches',
        database.open_with_options (MkFile (replay (file_content f) (take k ops)) 0 [] []) demo_options
          = (Ok db2, SFile g')
        ∧ handle_on db2 g' sb [] batches' ∧ (batches' = [] ∨ batches' = [demo_muts]).
Proof.
  destruct demo_handle as (f&sb&Hh&Hok&Hst&Hop&Hl&_).
  destruct (commit_crash_atomic demo_db f sb [] [] demo_tx demo_muts demo_options Hh demo_tx_ok)
    as (r&db'&f'&ops&Hr&Hs&_&Hk).
  - rewrite Hop. apply Z.le_refl.
  - exact recovery.ref_reserve_succeeds.
  - reflexivity.
  - apply Z.le_refl.
  - destruct (commit_demo f sb Hh Hok Hst Hop Hl) as (db1&Hc). rewrite Hc in Hr. injection Hr as <- <-.
    exists f, sb, db1, f', ops. split; [exact Hc|]. split; [exact Hs|]. intros k.
    destruct (Hk k (MkFile (replay (file_content f) (take k ops)) 0 [] [])) as (db2&g'&b'&Ho&Hh2&_&Hb&_).
    + split; [reflexivity|apply Z.le_refl].
    + reflexivity.
    + exists db2, g', b'. split; [exact Ho|]. split; [exact Hh2|exact Hb].
Defined.

Lemma commit_progress_witness :
  ∃ db' f' sb, database.commit demo_tx demo_db = (Ok (), db') ∧ handle_on db' f' sb [] [demo_muts].
Proof.
  destruct demo_handle as (f&sb&Hh&Hok&Hst&Hop&Hl&_).
  destruct (commit_progress demo_db f sb [] [] demo_tx demo_muts Hh demo_tx_ok) as (db'&f'&Hc&Hh'&_).
  - rewrite Hop. apply Z.le_refl.
  - exact Hst.
  - vm_compute. discriminate.
  - vm_compute. discriminate.
  - rewrite Hop, Hl. vm_compute. discriminate.
  - reflexivity.
  - destruct Hok as [-> _]. intros e He. by apply not_elem_of_nil in He.
  - exists db', f', sb. split; [exact Hc|exact Hh'].
Defined.

Lemma reopen_recovers_witness :
  ∃ db f', database.open_with_options (database.initialize_file demo_new).2 demo_options = (Ok db, SFile f')
    ∧ db_state db = Healthy.
Proof.
  destruct demo_image as (f&sb&Hok&Hi&Hl&Hin&_).
  destruct (reopen_recovers f sb [] [] [] demo_options Hok Hi) as (db&f'&ops&Ho&_&Hst&_).
  - left. reflexivity.
  - exact recovery.ref_reserve_succeeds.
  - reflexivity.
  - vm_compute. discriminate.
  - rewrite Hl. vm_compute. discriminate.
  - exists db, f'. rewrite Hin. split; [exact Ho|exact Hst].
Defined.

Lemma created_opens_empty_witness :
  ∃ f1 db f2, database.initialize_file demo_new = (Ok (), f1)
    ∧ database.open_with_options f1 options.default = (Ok db, SFile f2) ∧ db_state db = Healthy.
Proof.
  destruct (created_opens_empty demo_new options.default) as (f1&db&f2&sb&Hi&_&Ho&_&Hst&_).
  - split; [reflexivity|apply Z.le_refl].
  - reflexivity.
  - exact recovery.ref_reserve_succeeds.
  - reflexivity.
  - vm_compute. discriminate.
  - exists f1, db, f2. split; [exact Hi|]. split; [exact Ho|exact Hst].
Defined.

Lemma tx_get_previews_commit_witness :
  ∃ db', database.commit demo_tx demo_db = (Ok (), db')
    ∧ fst (database.tx_get demo_tx [Byte.x62] demo_db) = fst (database.get [Byte.x62] db').
Proof.
  destruct demo_handle as (f&sb&Hh&Hok&Hst&Hop&Hl&_).
  destruct (commit_demo f sb Hh Hok Hst Hop Hl) as (db'&Hc). exists db'. split; [exact Hc|].
  apply (tx_get_previews_commit demo_db f sb [] [] demo_tx demo_muts [Byte.x62] db' Hh Hst demo_tx_ok); [|exact Hc].
  rewrite Hop. apply Z.le_refl.
Defined.

End handle.
