(* ===== verification/Integrity.v ===== *)
(** * Corruption

    What the checksums of the format give: a byte that changes behind the root pages is
    detected, or is never read. A changed byte of the log makes the scan fail; a changed
    byte of the Base makes a full verification fail, and a lookup that verifies what it
    reads either returns what it would have returned or an error, never anything else. *)

From S2P Require Import Prelude Errors Crates Io Superblock Values Log Segment Overlay Recovery View.
From S2P Require Import Base Storage Transaction Entries Database Faults Commit Written Reopen Handle.
Import overlay_map_facts commit_facts.

Module integrity.

(** ** One changed byte *)

Definition one_byte (bs bs' : bytes) : Prop :=
  ∃ a x y b, x ≠ y ∧ bs = a ++ x :: b ∧ bs' = a ++ y :: b.

Lemma one_byte_blen bs bs' : one_byte bs bs' → blen bs' = blen bs.
Proof. intros (a&x&y&b&_&->&->). by len_norm. Qed.

Lemma one_byte_ne bs bs' : one_byte bs bs' → bs' ≠ bs.
Proof. intros (a&x&y&b&Hne&->&->) E. apply app_inv_head in E. by simplify_eq. Qed.

(** The change is in one of two parts. *)
Lemma one_byte_app p q bs :
  one_byte (p ++ q) bs →
  (∃ p', bs = p' ++ q ∧ one_byte p p') ∨ (∃ q', bs = p ++ q' ∧ one_byte q q').
Proof.
  intros (a&x&y&b&Hne&Hbs&->). apply app_eq_inv in Hbs as [(k&->&Hk)|(k&->&->)].
  - destruct k as [|z k]; cbn in Hk.
    + right. rewrite app_nil_r. exists (y :: b). split; [done|]. exists [], x, y, b. by subst.
    + injection Hk as -> ->. left. exists (a ++ y :: k). rewrite <- app_assoc. split; [done|]. by exists a, z, y, k.
  - right. exists (k ++ y :: b). rewrite <- app_assoc. split; [done|]. by exists k, x, y, b.
Qed.

Section Detects.
Context `{Crc32cLaws, !Crc32cDetects}.

Lemma append_one_byte c bs bs' :
  0 ≤ c < U32 → one_byte bs bs' → crc32c_append c bs' ≠ crc32c_append c bs.
Proof. intros Hc (a&x&y&b&Hne&->&->). apply not_eq_sym. by apply crc32c_detects. Qed.

Lemma crc_one_byte bs bs' : one_byte bs bs' → crc32c bs' ≠ crc32c bs.
Proof. rewrite !crc32c_is_append. by apply append_one_byte. Qed.

End Detects.

Lemma le_one_byte bs bs' : one_byte bs bs' → from_le_bytes bs' ≠ from_le_bytes bs.
Proof.
  intros Hb E. apply (one_byte_ne _ _ Hb). rewrite <- (to_from_le_bytes bs), <- (to_from_le_bytes bs'), E.
  apply one_byte_blen in Hb. unfold blen in Hb. f_equal. lia.
Qed.

(** ** The log *)

Section Logs.
Context `{Crc32cLaws, !Crc32cDetects, Xxh3, HashTablesLaws}.

(** A header that does not match its checksum. *)
Lemma scan_record_bad_header bs mo index memory p0 fields cs rest :
  bs = p0 ++ (fields ++ cs) ++ rest → blen bs ≤ ISIZE_MAX → mo + blen bs < U64 → 0 ≤ mo →
  blen fields = log.LOG_HEADER_CHECKSUM_OFFSET → blen cs = 4 → crc32c fields ≠ from_le_bytes cs →
  ∃ m, recovery.scan_record bs mo index memory (blen p0) = Err (error.corrupted_log (mo + blen p0) m).
Proof.
  intros Hbs Hl Hmo Hmo0 Hf Hc Hne. pose proof (blen_nonneg p0). pose proof (blen_nonneg rest).
  assert (blen bs = blen p0 + 17 + blen rest) by (rewrite Hbs; len_norm; rewrite Hf, Hc; unfold log.LOG_HEADER_CHECKSUM_OFFSET; lia).
  unfold recovery.scan_record, log.LOG_HEADER_CHECKSUM_OFFSET, log.LOG_HEADER_SIZE in *.
  rewrite (checked_add_ok (blen p0)) by lia. rstep.
  assert (get_range bs (blen p0) (blen p0 + 17) = Some (fields ++ cs)) as ->
    by (rewrite Hbs; apply get_range_mid; [done|len_norm; lia]).
  rewrite (checked_add_ok mo) by lia. rstep. unfold index_range.
  assert (get_range (fields ++ cs) 13 17 = Some cs) as ->
    by (rewrite <- (app_nil_r cs) at 1; apply get_range_mid; lia).
  rewrite get_range_head by lia. rstep. apply Z.eqb_neq in Hne. rewrite Hne. cbn [negb fail_if]. rstep. by eexists.
Qed.

(** A record with a changed byte. *)
Lemma scan_record_changed bs mo index memory p0 muts r q :
  one_byte (log.encode_record muts) r → bs = p0 ++ r ++ q → recovery.batch_ok muts →
  blen bs ≤ ISIZE_MAX → 0 ≤ mo → mo + blen bs < U64 →
  ∃ m, recovery.scan_record bs mo index memory (blen p0) = Err (error.corrupted_log (mo + blen p0) m).
Proof.
  intros Hr Hbs (_&Hp&_) Hl Hmo0 Hmo. unfold log.encode_record in Hr. set (payload := log.encode_payload muts) in *.
  pose proof (blen_nonneg payload). unfold log.MAX_LOG_PAYLOAD_SIZE in Hp.
  apply one_byte_app in Hr as [(h&->&Hh)|(payload'&->&Hpl)]; rewrite <- app_assoc in Hbs.
  - unfold log.record_header in Hh. set (fields := [Marker.as_u8 _] ++ _) in Hh.
    assert (Hf : blen fields = 13) by (unfold fields; len).
    assert (Hcs : from_le_bytes (u32_le (crc32c fields)) = crc32c fields)
      by (apply from_to_le_bytes_small, crc32c_range).
    apply one_byte_app in Hh as [(fields'&->&Hff)|(cs&->&Hcc)].
    + eapply scan_record_bad_header; [exact Hbs|done..|by rewrite (one_byte_blen _ _ Hff)|len|].
      rewrite Hcs. by apply crc_one_byte.
    + eapply scan_record_bad_header; [exact Hbs|done..|by rewrite (one_byte_blen _ _ Hcc); len|].
      rewrite <- Hcs. apply not_eq_sym. by apply le_one_byte.
  - pose proof (one_byte_blen _ _ Hpl) as Hbl.
    rewrite (recovery.scan_record_header bs mo index memory p0 _ _ _ _ _ Hbs)
      by (done || lia || apply log.record_checksum_range).
    rewrite Z.add_0_l, get_range_head by done. unfold recovery.scan_body.
    rewrite bool_decide_false by done. rewrite bool_decide_true by done. cbn [andb negb orb Z.eqb].
    rewrite Z.add_0_l. unfold log.MAX_LOG_PAYLOAD_SIZE at 1. replace (_ <? _) with false by lia. rstep.
    replace (crc32c_append _ payload' =? _) with false.
    2:{ symmetry. apply Z.eqb_neq. unfold log.record_checksum. apply append_one_byte; [|done].
        apply log.checksum_parts_range. }
    rstep. replace (mo + (blen p0 + log.LOG_HEADER_SIZE - log.LOG_HEADER_SIZE)) with (mo + blen p0) by lia. by eexists.
Qed.

(** Where in a log the change is. *)
Lemma one_byte_log batches lg :
  one_byte (recovery.encode_log batches) lg →
  ∃ before muts after r, batches = before ++ muts :: after ∧ one_byte (log.encode_record muts) r
    ∧ lg = recovery.encode_log before ++ r ++ recovery.encode_log after.
Proof.
  revert lg. induction batches as [|muts batches IH]; intros lg Hb.
  { destruct Hb as (a&x&y&b&_&E&_). by destruct a. }
  change (recovery.encode_log (muts :: batches)) with (log.encode_record muts ++ recovery.encode_log batches) in Hb.
  apply one_byte_app in Hb as [(r&->&Hr)|(lg'&->&Hb)]; [by exists [], muts, batches, r|].
  destruct (IH _ Hb) as (before&muts'&after&r&->&Hr&->). exists (muts :: before), muts', after, r.
  split; [done|]. split; [done|]. change (recovery.encode_log (muts :: before)) with (log.encode_record muts ++ recovery.encode_log before).
  by rewrite !app_assoc.
Qed.

Lemma scan_changed b mo batches lg rest :
  recovery.reserve_succeeds → one_byte (recovery.encode_log batches) lg → BaseBytes.deref b = Ok (lg ++ rest) →
  blen (lg ++ rest) ≤ ISIZE_MAX → 0 ≤ mo → mo + blen (lg ++ rest) < U64 → Forall recovery.batch_ok batches →
  ∃ offset m, recovery.scan_overlay b mo = Err (error.corrupted_log offset m) ∧ mo ≤ offset < mo + blen lg.
Proof.
  intros Hres Hlg Hb Hl Hmo0 Hmo Hok. apply one_byte_log in Hlg as (before&muts&after&r&->&Hr&Hlg).
  apply Forall_app in Hok as [Hok1 [Hok _]%Forall_cons].
  set (bs := lg ++ rest) in *. assert (Hbs : bs = [] ++ recovery.encode_log before ++ r ++ recovery.encode_log after ++ rest)
    by (unfold bs; by rewrite Hlg, <- !app_assoc).
  unfold recovery.scan_overlay. rewrite Hb. rstep.
  destruct (recovery.scan_loop_through (length bs) bs b mo (OverlayMap.mapped (Some b)) 0 [] before _ ∅ Hres Hbs)
    as (fuel&index&memory&Hs&Hf&_); try done; [unfold blen; cbn; lia|by apply recovery.scan_start|].
  change (blen (@nil byte)) with 0 in Hs. rewrite Z.add_0_l in Hs. rewrite Hs. cbn [app] in Hbs.
  assert (0 < blen r).
  { rewrite (one_byte_blen _ _ Hr), log.blen_encode_record. pose proof (blen_nonneg (log.encode_payload muts)). unfold log.LOG_HEADER_SIZE. lia. }
  pose proof (blen_nonneg (recovery.encode_log after)). pose proof (blen_nonneg rest). pose proof (blen_nonneg (recovery.encode_log before)).
  rewrite !blen_app in Hf. destruct fuel as [|fuel]; [lia|]. cbn [recovery.scan_loop].
  assert (Hlen : blen bs = blen (recovery.encode_log before) + (blen r + (blen (recovery.encode_log after) + blen rest)))
    by (rewrite Hbs; by len_norm). replace (blen bs <=? _) with false by lia.
  destruct (scan_record_changed bs mo index memory _ muts r _ Hr Hbs Hok Hl Hmo0 Hmo) as [m ->]. rstep.
  eexists _, m. split; [done|]. rewrite Hlg, !blen_app. lia.
Qed.

End Logs.

(** ** The Base *)

(** A range of a changed list. *)
Lemma get_range_split {A} (l s : list A) a b :
  get_range l a b = Some s → ∃ p q, l = p ++ s ++ q ∧ a = blen p ∧ b = blen p + blen s.
Proof.
  intros (Ha&Hb&Hl&->)%get_range_Some. exists (take (Z.to_nat a) l), (drop (Z.to_nat b) l).
  assert (Hp : blen (take (Z.to_nat a) l) = a) by (rewrite blen_take; unfold blen in *; lia).
  assert (Hs : blen (take (Z.to_nat (b - a)) (drop (Z.to_nat a) l)) = b - a)
    by (rewrite blen_take, blen_drop; unfold blen in *; lia).
  split; [|lia]. rewrite <- (take_drop (Z.to_nat a) l) at 1. f_equal.
  rewrite <- (take_drop (Z.to_nat (b - a)) (drop _ l)) at 1. f_equal. rewrite drop_drop. f_equal. lia.
Qed.

Lemma one_byte_range l l' a b s :
  one_byte l l' → get_range l a b = Some s → ∃ s', get_range l' a b = Some s' ∧ (s' = s ∨ one_byte s s').
Proof.
  intros Hl (p&q&->&->&->)%get_range_split. apply one_byte_app in Hl as [(p'&->&Hp)|(r&->&Hr)].
  { exists s. rewrite <- (one_byte_blen _ _ Hp). split; [by apply get_range_mid|by left]. }
  apply one_byte_app in Hr as [(s'&->&Hs)|(q'&->&Hq)].
  - exists s'. rewrite <- (one_byte_blen _ _ Hs). split; [by apply get_range_mid|by right].
  - exists s. split; [by apply get_range_mid|by left].
Qed.

Lemma get_range_ext {A} (l k : list A) a b :
  blen l = blen k → (∀ i, a ≤ i < b → l !! Z.to_nat i = k !! Z.to_nat i) → get_range l a b = get_range k a b.
Proof.
  intros Hlen He. destruct (get_range l a b) as [s|] eqn:Hs.
  - pose proof (get_range_Some _ _ _ _ Hs) as (?&?&?&->). rewrite get_range_in_bounds by lia. f_equal.
    apply list_eq. intros i. destruct (decide (i < Z.to_nat (b - a))%nat).
    + rewrite !lookup_take_lt, !lookup_drop by done. replace (Z.to_nat a + i)%nat with (Z.to_nat (a + Z.of_nat i)) by lia.
      apply He. lia.
    + by rewrite !lookup_take_ge by lia.
  - symmetry. unfold get_range in *. rewrite <- Hlen. by destruct (_ && _ && _).
Qed.

Lemma get_range_lookup {A} (l s : list A) a b i :
  get_range l a b = Some s → a ≤ i < b → l !! Z.to_nat i = s !! Z.to_nat (i - a).
Proof.
  intros (?&?&?&->)%get_range_Some Hi. rewrite lookup_take_lt, lookup_drop by lia. f_equal. lia.
Qed.

Section Lookups.
Context `{Crc32cLaws, Xxh3Laws}.
Implicit Types (m : bytes) (v : SegmentVerifier) (entries : list (bytes * bytes)).
Abbreviation BS := segment.CHECKSUM_BLOCK_SIZE.

(** A mapping [m'] of the length of [m] whose blocks are those of [m] wherever the
    checksums of [v] accept them. *)
Definition tampered m m' v : Prop :=
  blen m' = blen m ∧ ∀ b, 0 ≤ b < verifier.nblocks v → verifier.block_good m' v b →
    get_range m' (b * BS) (Z.min (b * BS + BS) (v_data_size v))
    = get_range m (b * BS) (Z.min (b * BS + BS) (v_data_size v)).

Lemma tampered_same m m' v v' : verifier.same_segment v v' → tampered m m' v → tampered m m' v'.
Proof.
  intros Hs [Hl Ht]. split; [done|]. intros b Hb Hg. pose proof Hs as (Ed&Ec&_). rewrite Ed. apply Ht.
  - unfold verifier.nblocks in *. by rewrite <- Ec.
  - by apply (verifier.block_good_same m' v v' b Hs).
Qed.

(** Accepted blocks show the bytes of [m]. *)
Lemma checked_equal m m' v a b :
  verifier.verifier_inv m' v → tampered m m' v → 0 ≤ a → b ≤ v_data_size v →
  (∀ blk, 0 ≤ blk < verifier.nblocks v → a < b → verifier.touches a b blk → verifier.block_good m' v blk) →
  ∀ i, a ≤ i < b → m' !! Z.to_nat i = m !! Z.to_nat i.
Proof.
  intros (Hd&_&Hn&_) [Hl Ht] Ha Hb Hg i Hi. set (blk := i / BS).
  pose proof (div_ceil_mul (v_data_size v) BS ltac:(done)) as Hc.
  assert (Hblk : 0 ≤ blk < verifier.nblocks v ∧ blk * BS ≤ i < blk * BS + BS).
  { rewrite Hn. unfold blk, segment.CHECKSUM_BLOCK_SIZE in *. dmlia. }
  assert (Hgood : verifier.block_good m' v blk).
  { apply Hg; [lia|lia|]. unfold verifier.touches, segment.CHECKSUM_BLOCK_SIZE in *. lia. }
  pose proof (Ht blk ltac:(lia) Hgood) as He. destruct Hgood as (s&Hs&_). rewrite Hs in He. symmetry in He.
  by rewrite (get_range_lookup _ _ _ _ i Hs), (get_range_lookup _ _ _ _ i He) by lia.
Qed.

(** A check that succeeds. *)
Lemma verify_tampered m m' v a b :
  verifier.verifier_inv m' v → tampered m m' v → 0 ≤ a →
  ∃ r v', verifier.verify_range m' a b v = (r, v') ∧ verifier.verifier_inv m' v' ∧ verifier.same_segment v v'
    ∧ (r = Ok () ∧ (∀ i, a ≤ i < b → i < v_data_size v → m' !! Z.to_nat i = m !! Z.to_nat i) ∨ ∃ e, r = Err e).
Proof.
  intros Hinv Ht Ha. destruct (verifier.verify_range_spec m' v a b Hinv Ha) as (r&v'&Hr&Hinv'&Hs&Ho).
  exists r, v'. split; [done|]. split; [done|]. split; [done|]. destruct r as [[]|e|]; [left|right; by exists e|done].
  split; [done|]. intros i Hi Hid. destruct Ho as [_ Hg].
  apply (checked_equal m m' v a (Z.min b (v_data_size v)) Hinv Ht Ha); [lia| |lia].
  intros blk Hblk Hlt Htc. apply Hg; [done|lia|]. destruct Htc. split; lia.
Qed.

(** The outcomes of a lookup that must not lie. *)
Definition truthful {A} (r : result A) (a : A) : Prop := r = Ok a ∨ ∃ e, r = Err e.

Lemma fields_ext m m' o :
  blen m' = blen m → (∀ i, o ≤ i < o + segment.SLOT_SIZE → m' !! Z.to_nat i = m !! Z.to_nat i) →
  view.u32_at m' o = view.u32_at m o ∧ view.u64_at m' (o + 4) = view.u64_at m (o + 4).
Proof.
  intros Hl He. unfold segment.SLOT_SIZE in He. unfold view.u32_at, view.u64_at, format.u32_at, format.u64_at, add_ovf, index_range.
  split; (destruct (checked_add _ _) as [e|] eqn:E; [|done]); apply checked_add_Some in E as [-> _]; cbn [unwrap]; rstep;
    (rewrite (get_range_ext m' m); [done|done|intros; apply He; lia]).
Qed.

(** The record a slot points to, when its header may have been tampered with: where it
    starts is known, where it ends is not. *)
Lemma slot_record_shape m start ds o header :
  start ≤ o → o - start + 8 < U64 → get_range m (o - start) (o - start + 8) = Some header → o - start + 8 ≤ ds → ds ≤ ISIZE_MAX →
  ∃ vs ve, view.slot_record m start ds o = Ok (Some (o - start, o - start + 8, vs, ve)) ∧ o - start + 8 ≤ vs ≤ ve.
Proof.
  intros Ho Hlt Hh Hd Hds. unfold view.slot_record. rewrite checked_sub_ok by lia. rewrite checked_add_ok by lia. rewrite Hh.
  replace (ds <? _) with false by lia. pose proof (get_range_Some _ _ _ _ Hh) as (?&_&Hl&_).
  unfold view.u32_at.
  destruct (format.u32_at_in_bounds header 0) as (kl&->&?); [lia..|]. rstep.
  destruct (format.u32_at_in_bounds header 4) as (vl&->&?); [lia..|]. rstep.
  rewrite checked_add_ok by lia. rewrite checked_add_ok by lia. eexists _, _. split; [done|lia].
Qed.

Lemma slot_record_ext m m' start ds o :
  get_range m' (o - start) (o - start + 8) = get_range m (o - start) (o - start + 8) →
  view.slot_record m' start ds o = view.slot_record m start ds o.
Proof.
  intros He. unfold view.slot_record. destruct (checked_sub o start) as [off|] eqn:E1; [|done].
  apply checked_sub_Some in E1 as [-> _]. destruct (checked_add _ 8) as [he|] eqn:E2; [|done].
  apply checked_add_Some in E2 as [-> _]. by rewrite He.
Qed.

Lemma probe_loop_tampered count m m' start slots index entries w key p v :
  view.base_mapped m start slots index entries w → v_data_size v = v_data_size w →
  verifier.verifier_inv m' v → tampered m m' v → 0 ≤ p → p + Z.of_nat count = slots →
  view.passed slots index (segment.placed_from (start + BASE_HEADER + slots * segment.SLOT_SIZE) entries) key p →
  ∃ r v', view.probe_loop count m' true start slots key (xxh3_64 key) p v = (r, v')
    ∧ truthful r (KeyMap.get entries key) ∧ verifier.verifier_inv m' v' ∧ verifier.same_segment v v'.
Proof.
  intros Hm. pose proof Hm as (Hp&Hs64&Hst&Hb&_&Hnd&(Hil&Hent&_)&_&_&(Hwd&_)&_). pose proof (segment.pow2_pos _ Hp).
  revert p v. induction count as [|count IH]; intros p v Hd Hinv Ht Hp0 Hc Hpass.
  { exists (Ok None), v. split; [done|]. split; [left|done].
    rewrite (view.passed_absent _ _ _ _ _ _ _ _ Hm Hpass); [done|]. left. lia. }
  pose proof (xxh3_64_range key). cbn [view.probe_loop]. rewrite (view.probe_slot slots _ _ Hp) by lia.
  set (i := segment.slot_at slots (xxh3_64 key) p). set (so := BASE_HEADER + Z.of_nat i * segment.SLOT_SIZE).
  assert (is_Some (index !! i)) as [[f o] Hi].
  { apply lookup_lt_is_Some_2. pose proof (segment.slot_at_bound slots (xxh3_64 key) p). unfold blen in Hil. unfold i. lia. }
  destruct (view.slot_fields _ _ _ _ _ _ _ _ _ Hm Hi) as (Hf&Ho&Hso). fold so in Hf, Ho, Hso.
  assert (Hso0 : 0 ≤ so) by (unfold so, BASE_HEADER, segment.SLOT_SIZE; lia).
  (* what follows from a state of the same segment *)
  assert (Hrest : ∀ v2, verifier.verifier_inv m' v2 → verifier.same_segment v v2 →
    (f = segment.fingerprint key → (key, o) ∉ segment.placed_from (start + BASE_HEADER + slots * segment.SLOT_SIZE) entries) →
    ∃ r v', view.probe_loop count m' true start slots key (xxh3_64 key) (p + 1) v2 = (r, v')
      ∧ truthful r (KeyMap.get entries key) ∧ verifier.verifier_inv m' v' ∧ verifier.same_segment v v').
  { intros v2 Hinv2 Hs2 Hn. pose proof Hs2 as (E1&_).
    destruct (IH (p + 1) v2) as (r&v'&Hr&Htr&Hinv'&Hs'); [congruence|done|by eapply tampered_same|lia|lia| |].
    - eapply view.passed_step; [done|done|exact Hi|done].
    - exists r, v'. split_and!; try done. by etrans. }
  destruct (verify_tampered m m' v so (so + segment.SLOT_SIZE) Hinv Ht Hso0) as (r1&v1&Hr1&Hinv1&Hs1&[[-> He1]|[e ->]]).
  2:{ exists (Err e), v1. rewrite (M_bind_err _ _ _ _ _ Hr1). split; [done|]. split; [right; by exists e|done]. }
  mrun Hr1. destruct (fields_ext m m' so) as [-> ->]; [apply Ht|intros; apply He1; lia|].
  rewrite Hf, M_lift_ok, Ho, M_lift_ok. destruct (o =? 0) eqn:Eo; bool_prop.
  { subst o. exists (Ok None), v1. split; [done|]. split; [left|done].
    rewrite (view.passed_absent _ _ _ _ _ _ _ _ Hm Hpass); [done|]. right. split; [lia|]. by exists f. }
  fold (segment.fingerprint key). destruct (f =? segment.fingerprint key) eqn:Ef; bool_prop; [|by apply Hrest].
  destruct (Hent _ _ _ Hi) as [[= -> ->]|(k'&Hin&_&_)]; [done|].
  pose proof Hs1 as (Ed1&_). pose proof (tampered_same _ _ _ _ Hs1 Ht) as Ht1.
  rewrite (M_bind_ok (gets v_data_size) _ v1 _ v1 eq_refl), Ed1, Hd.
  destruct (view.slot_record_placed _ _ _ _ _ _ _ _ Hm Hin) as (val&off&Hkv&Hsr&Hoff&Hend&Hgk&Hgv).
  destruct (view.record_bytes _ _ _ _ _ _ _ _ Hm Hin) as (val'&off'&_&Eo'&Hoff'&Hend'&Hhead&_).
  assert (off' = o - start) as -> by lia. pose proof Ht as [Hl _]. pose proof (blen_nonneg k'). pose proof (blen_nonneg val). pose proof (blen_nonneg val').
  assert (∃ header, get_range m' (o - start) (o - start + 8) = Some header) as [header Hhead'].
  { rewrite get_range_in_bounds by lia. by eexists. }
  destruct (slot_record_shape m start (v_data_size w) o _ ltac:(lia) ltac:(lia) Hhead ltac:(lia) ltac:(lia)) as (vs0&ve0&Hsr0&_).
  rewrite Hsr0 in Hsr. assert (off = o - start) as -> by congruence.
  assert (vs0 = o - start + 8 + blen k') as -> by congruence.
  assert (ve0 = o - start + 8 + blen k' + blen val) as -> by congruence. clear Hsr.
  destruct (slot_record_shape m' start (v_data_size w) o _ ltac:(lia) ltac:(lia) Hhead' ltac:(lia) ltac:(lia)) as (vs&ve&Hsr&Hve).
  rewrite Hsr, M_lift_ok.
  destruct (verify_tampered m m' v1 (o - start) ve Hinv1 Ht1 ltac:(lia)) as (r2&v2&Hr2&Hinv2&Hs2&[[-> He2]|[e ->]]).
  2:{ exists (Err e), v2. rewrite (M_bind_err _ _ _ _ _ Hr2). split; [done|]. split; [right; by exists e|]. split; [done|by etrans]. }
  mrun Hr2. rewrite Ed1, Hd in He2.
  (* the header was checked, so the record is the one that was written *)
  assert (Hsame : get_range m' (o - start) (o - start + 8) = get_range m (o - start) (o - start + 8))
    by (apply get_range_ext; [done|]; intros; apply He2; lia).
  rewrite (slot_record_ext m m' _ _ _ Hsame), Hsr0 in Hsr.
  assert (vs = o - start + 8 + blen k') as -> by congruence.
  assert (ve = o - start + 8 + blen k' + blen val) as -> by congruence.
  rewrite (get_range_ext m' m (o - start + 8)), Hgk by (done || intros; apply He2; lia).
  rewrite (get_range_ext m' m (o - start + 8 + blen k')), Hgv by (done || intros; apply He2; lia).
  replace (_ <=? v_data_size w) with true by lia. cbn [andb]. assert (Hs02 : verifier.same_segment v v2) by (by etrans).
  case_bool_decide as Ek.
  - injection Ek as ->. exists (Ok (Some val)), v2. split; [done|]. split; [left|done].
    rewrite KeyMap.get_list_to_map by done. by rewrite (elem_of_list_to_map_1 entries key val Hnd Hkv).
  - apply Hrest; [done|done|]. intros _ Hin'. apply Ek. f_equal.
    eapply (view.placed_inj _ _ _ _ (segment.placed_from_NoDup _ entries) Hin Hin').
Qed.

Lemma lookup_tampered m m' start slots index entries w key v :
  view.base_mapped m start slots index entries w → v_data_size v = v_data_size w →
  verifier.verifier_inv m' v → tampered m m' v →
  ∃ r v', view.lookup_segment m' OnRead start slots key (xxh3_64 key) v = (r, v')
    ∧ truthful r (KeyMap.get entries key) ∧ verifier.verifier_inv m' v' ∧ verifier.same_segment v v'.
Proof.
  intros Hm Hd Hinv Ht. pose proof Hm as (Hp&?&?&?&?&?&?&[q Hpre]&Hds&_). pose proof (segment.pow2_pos _ Hp).
  destruct (v_fully_verified v) eqn:Hf.
  - assert (Hm' : view.base_mapped m' start slots index entries v).
    { pose proof Hinv as (Hdl&_&_&_&Hbits&Hall&_). destruct Ht as [Hl Ht].
      assert (Hg : verifier.all_good m' v) by (intros b Hb; apply Hbits; auto). split_and!; try done; [lia| |congruence].
      assert (Hr : get_range m' 0 (v_data_size v) = Some (segment.base_data slots index entries)).
      { rewrite <- (get_range_head (segment.base_data slots index entries) q (v_data_size v)) by congruence. rewrite <- Hpre.
        apply get_range_ext; [done|]. intros i Hi.
        apply (checked_equal m m' v 0 (v_data_size v) Hinv (conj Hl Ht)); [lia|lia| |lia]. intros blk Hblk _ _. by apply Hg. }
      apply get_range_split in Hr as (p&q'&->&Hp0&_). symmetry in Hp0. apply Z.eq_le_incl, blen_0 in Hp0 as ->. by eexists. }
    destruct (view.lookup_segment_spec m' OnRead start slots index entries key v Hm') as (v'&Hr&Hmv').
    destruct (view.lookup_segment_safe m' OnRead start slots key (xxh3_64 key) v Hinv) as (r2&v2&Hr2&Hinv2&Hs2&_); [by right| |].
    { rewrite Hd, Hds, segment.blen_base_data. destruct Hm as (_&_&_&_&_&_&(Hil&_)&_). rewrite Hil.
      pose proof (blen_nonneg (segment.encode_entries entries)). lia. }
    exists r2, v2. split; [done|]. split; [|done]. left. congruence.
  - unfold view.lookup_segment. replace (slots =? 0) with false by lia.
    rewrite (M_bind_ok (gets v_fully_verified) _ v _ v eq_refl), Hf. cbn [negb].
    rewrite bool_decide_true by done. cbn [andb].
    apply (probe_loop_tampered _ m m' start slots index entries w); try done; [lia|]. intros d ?. lia.
Qed.

End Lookups.

(** *** Opening *)

Section Opening.
Abbreviation BS := segment.CHECKSUM_BLOCK_SIZE.
Context `{Crc32cLaws, !Crc32cDetects, Xxh3Laws, Alloc}.
Implicit Types (m bs : bytes) (b : ActiveBase) (entries : list (bytes * bytes)).

(** What an opened Base was checked for. *)
Lemma open_inv mapping bs sb mode b :
  BaseBytes.deref mapping = Ok bs → active_base.open mapping sb mode = Ok b →
  ∃ layout, segment.segment_layout bs = Ok layout ∧ segment.segment_metadata_checksum bs = Ok (base_checksum sb)
    ∧ b = active_base.new mapping (verifier.new (base_offset sb) layout (bool_decide (mode = Full))) sb (base_slots sb) (base_len sb)
    ∧ (mode = Full → segment.verify_segment_blocks layout (base_offset sb) = Ok ()).
Proof.
  intros Hd Ho. unfold active_base.open in Ho. rewrite Hd in Ho. cbn [mbind result_bind] in Ho.
  apply bind_Ok in Ho as (layout&Hlay&Ho). apply bind_Ok in Ho as (ck&Hck&Ho).
  apply bind_Ok in Ho as ([]&Hf&Ho). apply bind_Ok in Ho as ([]&Hv&Ho). apply bind_Ok in Ho as ([slots len]&_&Ho).
  apply bind_Ok in Ho as ([]&Hf2&Ho). apply bind_Ok in Ho as ([]&_&Ho). injection Ho as <-.
  apply fail_if_Ok in Hf, Hf2. bool_prop. exists layout. split_and!; [done|by rewrite Hck; f_equal|by subst|].
  intros ->. by rewrite bool_decide_true in Hv.
Qed.

(** The sizes of a segment follow from its length. *)
Lemma layout_size bs bs' layout layout' :
  segment.segment_layout bs = Ok layout → segment.segment_layout bs' = Ok layout' →
  blen bs ≤ ISIZE_MAX → blen bs' = blen bs →
  blen (segment.layout_data layout') = blen (segment.layout_data layout).
Proof.
  intros Hl Hl' Hb Hb'. pose proof (segment.segment_layout_safe bs Hb) as Hs. rewrite Hl in Hs.
  pose proof (segment.segment_layout_safe bs' ltac:(lia)) as Hs'. rewrite Hl' in Hs'.
  destruct Hs as (f&Hbs&Hf&Hc), Hs' as (f'&Hbs'&Hf'&Hc'). apply (f_equal blen) in Hbs, Hbs'.
  rewrite !blen_app in Hbs, Hbs'. unfold segment.CHECKSUM_BLOCK_SIZE in *.
  pose proof (div_ceil_mul (blen (segment.layout_data layout)) (64 * 1024) ltac:(done)).
  pose proof (div_ceil_mul (blen (segment.layout_data layout')) (64 * 1024) ltac:(done)). nia.
Qed.

(** An open Base of [entries] whose data has been tampered with behind its checksums. *)
Definition doubtful entries b : Prop :=
  ∃ m m' index, BaseBytes.deref (ab_mapping b) = Ok m'
    ∧ active_base.segment_with index (ab_offset b) (ab_slots b) entries m
    ∧ v_data_size (ab_verifier b) = blen (segment.base_data (ab_slots b) index entries)
    ∧ verifier.verifier_inv m' (ab_verifier b) ∧ tampered m m' (ab_verifier b)
    ∧ ∃ i, 0 ≤ i < v_data_size (ab_verifier b) ∧ m' !! Z.to_nat i ≠ m !! Z.to_nat i.

Lemma doubtful_verifier entries b v :
  doubtful entries b → verifier.verifier_inv (default [] (match BaseBytes.deref (ab_mapping b) with Ok m => Some m | _ => None end)) v →
  verifier.same_segment (ab_verifier b) v →
  doubtful entries (MkBase (ab_mapping b) v (ab_offset b) (ab_checksum b) (ab_slots b) (ab_len b) (ab_generation b) (ab_log_start b)).
Proof.
  intros (m&m'&index&Hd&Hseg&Hds&_&Ht&Hi) Hinv Hs. rewrite Hd in Hinv. cbn in Hinv. exists m, m', index.
  pose proof Hs as (E&_). cbn [ab_mapping ab_offset ab_slots ab_verifier]. rewrite !E.
  split_and!; try done. by eapply tampered_same.
Qed.

(** Lookups that verify what they read tell the truth or fail. *)
Lemma lookup_doubtful entries b key :
  doubtful entries b →
  ∃ r b', active_base.lookup OnRead key b = (r, b') ∧ truthful r (KeyMap.get entries key)
    ∧ doubtful entries b' ∧ active_base.same_base b b'.
Proof.
  intros Hdb. pose proof Hdb as (m&m'&index&Hd&Hseg&Hds&Hinv&Ht&_).
  unfold active_base.lookup. rewrite (M_bind_ok (gets _) _ b b b eq_refl). unfold active_base.base_view. rewrite Hd.
  rstep. rewrite M_lift_ok. cbn [view.bv_mapping view.bv_offset view.bv_slots].
  assert (∃ r v, view.lookup_segment m' OnRead (ab_offset b) (ab_slots b) key (xxh3_64 key) (ab_verifier b) = (r, v)
    ∧ truthful r (KeyMap.get entries key) ∧ verifier.verifier_inv m' v ∧ verifier.same_segment (ab_verifier b) v)
    as (r&v&Hr&Htr&Hv&Hs).
  { pose proof Hseg as (->&Hsl&Hs64&Ho&Hb&Hok&Hnd&Hidx). destruct Hsl as [[E ->]|Hp].
    - unfold view.lookup_segment. rewrite E. cbn [Z.eqb]. exists (Ok None), (ab_verifier b). split; [done|]. split; [by left|done].
    - eapply lookup_tampered; [by apply (view.base_mapped_new _ _ index entries true)|exact Hds|done|done]. }
  unfold active_base.with_verifier, zoom. rewrite Hr. eexists r, _. split; [done|]. split; [done|].
  split; [|done]. apply doubtful_verifier; [done|by rewrite Hd|done].
Qed.

(** A full verification fails. *)
Lemma verify_doubtful entries b : doubtful entries b → ∃ e b', active_base.verify b = (Err e, b') ∧ active_base.same_base b b'.
Proof.
  intros (m&m'&index&Hd&Hseg&Hds&Hinv&Ht&i&Hi&Hne). pose proof Hinv as (Hdl&Hm'&_).
  unfold active_base.verify. rewrite (M_bind_ok (gets _) _ b b b eq_refl), Hd, M_lift_ok.
  pose proof (segment.segment_layout_safe m' Hm') as Hsafe.
  destruct (segment.segment_layout m') as [layout|e|] eqn:Hlay; [|by eexists _, b|done]. rewrite M_lift_ok.
  pose proof (active_base.layout_of_safe m' layout Hlay Hm') as Hlo.
  pose proof (active_base.segment_metadata_checksum_safe m' layout Hlay Hlo) as Hnp.
  destruct (segment.segment_metadata_checksum m') as [ck|e|]; [|by eexists _, b|done]. rewrite M_lift_ok.
  destruct (ck =? ab_checksum b); cbn [negb fail_if]; [|by eexists _, b]. rewrite M_lift_ok.
  set (n := blen (segment.layout_data layout)).
  destruct (verify_tampered m m' (ab_verifier b) 0 n Hinv Ht ltac:(lia)) as (r&v&Hr&_&_&[[-> He]|[e ->]]).
  - exfalso. apply Hne. apply He; [|lia]. split; [lia|]. destruct Hseg as (Hm&_&_&_&Hb&_&_&_).
    assert (Hl : blen m = blen m') by (symmetry; apply Ht).
    assert (Hlay0 : segment.segment_layout m = Ok (segment.MkLayout (segment.base_data (ab_slots b) index entries)
       (segment.block_table (segment.base_data (ab_slots b) index entries))))
      by (rewrite Hm; apply segment.segment_layout_encode; rewrite <- Hm; lia).
    unfold n. rewrite (layout_size m m' _ layout Hlay0 Hlay ltac:(lia) ltac:(lia)). cbn [segment.layout_data]. lia.
  - assert (Hw : active_base.with_verifier (verifier.verify_range m' 0 n) b
      = (Err e, MkBase (ab_mapping b) v (ab_offset b) (ab_checksum b) (ab_slots b) (ab_len b) (ab_generation b) (ab_log_start b)))
      by (unfold active_base.with_verifier, zoom; by rewrite Hr).
    rewrite (M_bind_err _ _ _ _ _ Hw). by eexists _, _.
Qed.

(** A changed byte of the checksum table or the footer is noticed at once; one of the data
    leaves a Base in which the block with the change has the wrong checksum. *)
Lemma changed_layout bs bs' data layout :
  bs = segment.segment_bytes data → blen bs ≤ ISIZE_MAX → one_byte bs bs' → segment.segment_layout bs' = Ok layout →
  segment.segment_metadata_checksum bs' = segment.segment_metadata_checksum bs →
  ∃ data', one_byte data data' ∧ bs' = data' ++ segment.base_metadata data
    ∧ layout = segment.MkLayout data' (segment.block_table data).
Proof.
  intros Hbs Hb Hone Hlay Hck. pose proof (one_byte_blen _ _ Hone) as Hlen.
  assert (Hlay0 : segment.segment_layout bs = Ok (segment.MkLayout data (segment.block_table data)))
    by (rewrite Hbs; apply segment.segment_layout_encode; by rewrite <- Hbs).
  pose proof (layout_size bs bs' _ layout Hlay0 Hlay Hb Hlen) as Hsz. cbn [segment.layout_data] in Hsz.
  pose proof (segment.segment_layout_safe bs' ltac:(lia)) as Hs. rewrite Hlay in Hs. destruct Hs as (footer&Hbs'&Hf&Hc).
  rewrite Hbs in Hone. unfold segment.segment_bytes in Hone. apply one_byte_app in Hone as [(data'&E&Hd)|(meta&E&Hmt)].
  - exists data'. rewrite E in Hbs'. unfold segment.base_metadata in Hbs'.
    apply app_inj_1 in Hbs' as [Ed Hbs']; [|apply one_byte_blen in Hd; unfold blen in *; lia].
    apply app_inj_1 in Hbs' as [Et _].
    2:{ pose proof (segment.blen_block_table data) as Ht. rewrite Hsz in Hc. unfold blen in *. lia. }
    split_and!; [done|done|]. destruct layout; cbn in *; by subst.
  - exfalso. apply (crc_one_byte _ _ Hmt). rewrite Hbs in Hck. rewrite segment.segment_metadata_checksum_encode in Hck by (by rewrite <- Hbs).
    unfold segment.segment_metadata_checksum in Hck. rewrite Hlay in Hck. cbn [mbind result_bind] in Hck. rewrite Hsz, E in Hck.
    unfold index_range in Hck. rewrite blen_app, get_range_skip, Z.sub_diag, get_range_all in Hck by lia.
    cbn [unwrap mbind result_bind] in Hck. by injection Hck.
Qed.

Lemma open_changed mapping bs bs' sb entries mode :
  active_base.describes sb entries bs → one_byte bs bs' → BaseBytes.deref mapping = Ok bs' →
  (∃ e, active_base.open mapping sb mode = Err e)
  ∨ mode = OnRead ∧ ∃ b, active_base.open mapping sb mode = Ok b ∧ doubtful entries b ∧ ab_log_start b = log_start sb.
Proof.
  intros ([index Hseg]&Hlen&_&Hck) Hone Hd. pose proof (one_byte_blen _ _ Hone) as Hbl.
  pose proof Hseg as (Hbs&_&_&Ho&Hb&_). set (data := segment.base_data _ _ _) in Hbs.
  destruct (active_base.segment_with_layout _ _ _ _ _ Hseg) as (Hlay0&_&Hvs0&_&_&_&Hlo0). fold data in Hlay0, Hvs0, Hlo0.
  pose proof (active_base.open_safe mapping bs' sb mode Hd Ho ltac:(lia)) as Hsafe.
  destruct (active_base.open mapping sb mode) as [b|e|] eqn:Hop; [right|left; by exists e|done].
  destruct (open_inv mapping bs' sb mode b Hd Hop) as (layout&Hlay&Hck'&->&Hfull).
  destruct (changed_layout bs bs' data layout Hbs ltac:(lia) Hone Hlay ltac:(congruence)) as (data'&Hdd&Hbs'&->).
  destruct Hsafe as [(m'&Hd'&Hinv&_&_&_) _]. cbn [ab_mapping active_base.new ab_verifier] in Hd', Hinv.
  rewrite Hd in Hd'. injection Hd' as <-. pose proof (one_byte_blen _ _ Hdd) as Hdl.
  set (v := verifier.new _ _ _) in Hinv |- *. set (v0 := verifier.new (base_offset sb) (segment.MkLayout data (segment.block_table data)) true).
  assert (Hblocks : ∀ k, 0 ≤ k < verifier.nblocks v → verifier.block_good bs' v k → verifier.block_good bs v0 k →
    get_range bs' (k * BS) (Z.min (k * BS + BS) (v_data_size v)) = get_range bs (k * BS) (Z.min (k * BS + BS) (v_data_size v))).
  { intros k Hk (c'&Hg'&Hc') (c&Hg&Hc). assert (Ed : v_data_size v = v_data_size v0) by exact Hdl. rewrite Ed in Hg' |- *.
    destruct (one_byte_range _ _ _ _ _ Hone Hg) as (c1&Hg1&Hcc). rewrite Hg' in Hg1. injection Hg1 as <-.
    destruct Hcc as [->|Hcc]; [congruence|]. exfalso. apply (crc_one_byte _ _ Hcc). 
    assert (Ec : v_checksums v = v_checksums v0) by reflexivity. rewrite Ec in Hc'. congruence. }
  assert (Hgood0 : ∀ k, 0 ≤ k < verifier.nblocks v → verifier.block_good bs v0 k)
    by (intros k Hk; apply verifier.new_block_good; [done|apply Hvs0|exact Hk]).
  assert (Ht : tampered bs bs' v) by (split; [done|]; auto).
  assert (Hdiff : ∃ i, 0 ≤ i < v_data_size v ∧ bs' !! Z.to_nat i ≠ bs !! Z.to_nat i).
  { destruct Hdd as (p&x&y&q&Hne&Ep&Ep'). exists (blen p). split.
    - change (v_data_size v) with (blen data'). rewrite Ep', blen_app, blen_cons. pose proof (blen_nonneg p). pose proof (blen_nonneg q). lia.
    - rewrite Hbs', Hbs. unfold segment.segment_bytes. rewrite Ep', Ep, <- !app_assoc. unfold blen. rewrite Nat2Z.id.
      cbn [app]. rewrite !list_lookup_middle by done. congruence. }
  destruct mode.
  - exfalso. destruct Hdiff as (i&Hi&Hne). apply Hne.
    apply (checked_equal bs bs' v 0 (v_data_size v) Hinv Ht); [lia|lia| |lia].
    intros k Hk _ _. apply verifier.new_block_good; [by apply active_base.layout_of_safe; [|lia]|by apply Hfull|done].
  - split; [done|]. eexists. split; [done|]. split; [|done]. exists bs, bs', index.
    split; [done|]. split; [done|]. split; [exact Hdl|]. by split_and!.
Qed.

End Opening.

(** ** Files *)

Section Files.
Context `{Crc32cLaws, !Crc32cDetects, Xxh3Laws, Alloc, HashTablesLaws}.
Implicit Types (db : Database) (f : File) (sb : Superblock) (entries : list (bytes * bytes))
  (batches : list (list mutation)) (c lg bs : bytes).

(** What one changed byte behind the root pages leaves of the parts of an image. *)
Lemma changed_image c c' sb entries batches :
  image_holds c sb entries batches [] → one_byte c c' →
  take (Z.to_nat superblock.DATA_START) c' = take (Z.to_nat superblock.DATA_START) c →
  ∃ bs bs' lg', roots_to c' sb ∧ blen c' = blen c ∧ active_base.describes sb entries bs
    ∧ get_range c' (base_offset sb) (base_offset sb + base_size sb) = Some bs' ∧ (bs' = bs ∨ one_byte bs bs')
    ∧ get_range c' (log_start sb) (blen c') = Some lg'
    ∧ (lg' = recovery.encode_log batches ∨ one_byte (recovery.encode_log batches) lg').
Proof.
  intros Hi Hone Htk. pose proof (one_byte_blen _ _ Hone) as Hl. pose proof (image_log_range _ _ _ _ _ Hi) as Hlog.
  destruct (image_log_blen _ _ _ _ _ Hi) as [_ Hb]. rewrite app_nil_r in Hlog, Hb. rewrite Hb in Hlog.
  replace (log_start sb + (blen c - log_start sb)) with (blen c') in Hlog by lia.
  destruct Hi as ((p0&p1&Hg0&Hg1&Hroot)&(bs&Hbs&Hd)&_).
  destruct (one_byte_range _ _ _ _ _ Hone Hbs) as (bs'&Hbs'&Hb').
  destruct (one_byte_range _ _ _ _ _ Hone Hlog) as (lg'&Hlg'&Hl').
  exists bs, bs', lg'. split; [|by split_and!]. exists p0, p1.
  assert (Hpage : ∀ a b p, b ≤ superblock.DATA_START → get_range c a b = Some p → get_range c' a b = Some p).
  { intros a b p Hle Hg. pose proof (get_range_Some _ _ _ _ Hg) as (?&?&_). rewrite <- Hg. apply get_range_ext; [done|].
    intros i Hij. rewrite <- (lookup_take_lt c' (Z.to_nat superblock.DATA_START)), Htk, lookup_take_lt by lia. done. }
  split; [by apply Hpage|]. split; [by apply Hpage|done].
Qed.

(** [load_storage_state] up to the Base. *)
Lemma load_to_base f sb bs :
  stream_ok f → roots_to (file_content f) sb → log_start sb ≤ blen (file_content f) →
  blen (file_content f) ≤ ISIZE_MAX → 0 < base_size sb →
  get_range (file_content f) (base_offset sb) (base_offset sb + base_size sb) = Some bs →
  ∃ g, moved f g ∧ ∀ (A : Type) (k : Z → Superblock → BaseBytes → M Storage A),
    (storage_len ← storage.len; sb ← superblock.read_latest_from storage_len;
     mapping ← storage.load_immutable (base_offset sb) (base_size sb); k storage_len sb mapping) (SFile f)
    = k (blen (file_content f)) sb (BaseBytes.Mapped bs) (SFile g).
Proof.
  intros [Hs Hp] Hr Hls Hlen Hsz Hg. destruct (read_latest_clean f sb Hs Hp Hls Hr) as (g&Hrl&Hm).
  exists g. split; [done|]. intros A k. destruct Hm as (Hgc&_&Hgs&_).
  rewrite (M_bind_ok _ _ _ _ _ (len_clean f Hs)), (M_bind_ok _ _ _ _ _ Hrl).
  assert (Hmap : storage.load_immutable (base_offset sb) (base_size sb) (SFile g) = (Ok (BaseBytes.Mapped bs), SFile g))
    by (apply map_clean; [congruence|rewrite Hgc; lia|done|by rewrite Hgc]).
  by rewrite (M_bind_ok _ _ _ _ _ Hmap).
Qed.

(** The Base in the file opens. *)
Definition opened_base f sb options b : Prop :=
  ∃ bs, get_range (file_content f) (base_offset sb) (base_offset sb + base_size sb) = Some bs
    ∧ active_base.open (BaseBytes.Mapped bs) sb (opt_verification options) = Ok b.

(** [load_storage_state] on the changed file: it fails and leaves the bytes alone, or the
    log is intact and the Base is the Base that was written or a doubtful one. *)
Lemma load_changed f sb entries batches c options :
  stream_ok f → image_holds c sb entries batches [] → one_byte c (file_content f) →
  take (Z.to_nat superblock.DATA_START) (file_content f) = take (Z.to_nat superblock.DATA_START) c →
  recovery.reserve_succeeds → (∀ n, try_reserve n = true) →
  ∃ r f', database.load_storage_state options (SFile f) = (r, SFile f') ∧ moved f f'
    ∧ match r with
      | Ok (b, ov) =>
          drop (Z.to_nat (log_start sb)) (file_content f) = recovery.encode_log batches
          ∧ state_holds (recovery.encode_log batches) ov (apply_muts ∅ (concat batches))
          ∧ (∀ table, OverlayState.index ov ≠ OverlayMap.Memory table) ∧ ab_log_start b = log_start sb
          ∧ (image_holds (file_content f) sb entries batches [] ∧ active_base.holds b entries
               ∧ ab_offset b = base_offset sb ∧ ab_generation b = generation sb
             ∨ opt_verification options = OnRead ∧ doubtful entries b)
      | Err _ => True
      | Panic => False
      end
    ∧ (∀ b, opened_base f sb options b → drop (Z.to_nat (log_start sb)) (file_content f) = recovery.encode_log batches →
         ∃ ov, r = Ok (b, ov))
    ∧ (∀ b ov, r = Ok (b, ov) → opened_base f sb options b).
Proof.
  intros Hok Hi Hone Htk Hres Ha.
  destruct (changed_image c _ sb entries batches Hi Hone Htk) as (bs&bs'&lg'&Hroot&Hl&Hd&Hbs'&Hb'&Hlg'&Hl').
  pose proof Hi as (_&_&Hbo&Hbe&Hls&_&Hbok&Hlen). destruct (image_log_blen _ _ _ _ _ Hi) as [Hls0 Hlb]. rewrite app_nil_r in Hlb.
  destruct (describes_size _ _ _ Hd) as [_ Hpos].
  destruct (load_to_base f sb bs' Hok Hroot) as (g&Hm&Hload); [lia|lia|done|done|].
  unfold database.load_storage_state. rewrite Hload. clear Hload. pose proof Hm as (Hgc&_&Hgs&Hgp).
  assert (Hokg : stream_ok g) by (destruct Hok; split; congruence || done).
  assert (Hopen : (∃ e, active_base.open (BaseBytes.Mapped bs') sb (opt_verification options) = Err e)
    ∨ ∃ b, active_base.open (BaseBytes.Mapped bs') sb (opt_verification options) = Ok b ∧ ab_log_start b = log_start sb
        ∧ (bs' = bs ∧ active_base.holds b entries ∧ ab_offset b = base_offset sb ∧ ab_generation b = generation sb
           ∨ opt_verification options = OnRead ∧ doubtful entries b)).
  { destruct Hb' as [->|Hb'].
    - destruct (active_base.open_describes (BaseBytes.Mapped bs) bs sb entries (opt_verification options) eq_refl Hd Ha)
        as (b&Ho&Hh&_&Hb1&Hb2&Hb3). right. exists b. split_and!; try done. by left.
    - destruct (open_changed (BaseBytes.Mapped bs') bs bs' sb entries (opt_verification options) Hd Hb' eq_refl)
        as [?|(Hmode&b&Ho&Hdb&Hbl)]; [by left|]. right. exists b. split_and!; try done. by right. }
  destruct Hopen as [[e Hop]|(b&Hop&Hbl&Hb)]; rewrite Hop.
  { exists (Err e), g. split; [done|]. split; [done|]. split; [done|]. split; [|done]. intros b (bs0&Hg0&Ho0) _. congruence. }
  rewrite M_lift_ok, Hbl.
  rewrite (checked_sub_ok (blen (file_content f)) (log_start sb)) by lia. cbn [ok_or]. rewrite M_lift_ok.
  rewrite (M_bind_ok (gets (λ s : Storage, s)) _ (SFile g) (SFile g) (SFile g) eq_refl). cbn [storage.is_memory].
  assert (Hlgl : blen lg' = blen (file_content f) - log_start sb) by (apply get_range_Some in Hlg'; lia).
  assert (Hlog : get_range (file_content g) (log_start sb) (log_start sb + blen lg') = Some lg')
    by (rewrite Hgc, <- Hlg'; f_equal; lia).
  destruct Hl' as [->|Hl'].
  - destruct (scan_log g sb batches [] Hokg) as (scan&Hsc&Hvl&Hfull&_);
      [by left|done|done|by rewrite app_nil_r|rewrite Hgc; lia|].
    rewrite app_nil_r, Hlgl in Hsc. rewrite (M_bind_ok _ _ _ _ _ Hsc). cbv beta zeta. rewrite Hvl.
    replace (_ <? blen (file_content f)) with false by lia. destruct (Hfull eq_refl) as [Hst Hnm].
    destruct (seek_end_clean g (proj1 Hokg)) as (h&Hsk&Hmh&_); [rewrite Hgc; lia|].
    exists (Ok (b, OverlayState.with_memory (OverlayScan.index scan) (OverlayScan.memory scan))), h.
    split; [|split; [by eapply moved_trans|]].
    + unfold OverlayScan.into_index, mbind, M_bind, mret, M_ret. by rewrite Hsk.
    + assert (Hdr : drop (Z.to_nat (log_start sb)) (file_content f) = recovery.encode_log batches).
      { apply get_range_Some in Hlg' as (_&_&_&->). symmetry. apply take_ge. rewrite length_drop. unfold blen. lia. }
      assert (Hob : opened_base f sb options b) by (by exists bs').
      split; [|split; [intros b0 (bs0&Hg0&Ho0) _; eexists; do 2 f_equal; congruence|intros b0 ov0 E; by injection E as <- _]].
      split_and!; try done. destruct Hb as [(->&Hb)|Hb]; [left; split; [|done]|by right].
      split; [done|]. split; [by exists bs|]. rewrite app_nil_r. split_and!; done || lia.
  - assert (Hlp : 0 < blen lg').
    { destruct Hl' as (a&x&y&b'&_&_&->). rewrite blen_app, blen_cons. pose proof (blen_nonneg a). pose proof (blen_nonneg b'). lia. }
    rewrite <- Hlgl. replace (blen lg' =? 0) with false by lia.
    assert (Hmap : storage.load_immutable (log_start sb) (blen lg') (SFile g) = (Ok (BaseBytes.Mapped lg'), SFile g))
      by (apply map_clean; [apply Hokg|rewrite Hgc; lia|done|done]).
    destruct (scan_changed (BaseBytes.Mapped lg') (log_start sb) batches lg' [] Hres Hl') as (o&msg&Hsc&_);
      [by rewrite app_nil_r|rewrite ?app_nil_r; lia..|done|].
    exists (Err (error.corrupted_log o msg)), g. split; [unfold mbind, M_bind; rewrite Hmap; unfold lift; by rewrite Hsc|].
    split; [done|]. split; [done|]. split; [|done]. intros b0 _ E. exfalso. apply (one_byte_ne _ _ Hl'). rewrite <- E.
    apply get_range_Some in Hlg' as (_&_&_&->). apply take_ge. rewrite length_drop. unfold blen. lia.
Qed.

(** Reading a handle with a doubtful Base. *)
Definition doubtful_handle db entries M : Prop :=
  doubtful entries (db_base db) ∧ opt_verification (db_options db) = OnRead ∧ db_state db ≠ Unavailable
  ∧ ∃ lg, state_holds lg (db_overlay db) M.

Lemma get_doubtful db entries M key :
  doubtful_handle db entries M → NoDup entries.*1 →
  ∃ r db', database.get key db = (r, db') ∧ truthful r (entries_facts.live entries M !! key)
    ∧ doubtful_handle db' entries M.
Proof.
  intros (Hdb&Hmode&Hav&lg&Hst) Hnd. pose proof Hst as (Hrep&_). pose proof Hdb as (m&m'&index&Hd&_).
  unfold database.get. rewrite handle.available_run by done. unfold database.view_get, database.read_view, active_base.base_view.
  rewrite (M_bind_ok database.self _ db db db eq_refl), Hd. cbn [mbind result_bind]. rewrite M_lift_ok, Hmode.
  rewrite entries_facts.live_lookup by done.
  assert (Hb : ∃ r b', active_base.with_verifier (view.get (view.MkReadView (view.MkBaseView m' (ab_offset (db_base db))
      (ab_slots (db_base db))) (OverlayState.index (db_overlay db)) OnRead) key) (db_base db) = (r, b')
    ∧ truthful r (match M !! key with Some o => o | None => KeyMap.get entries key end) ∧ doubtful entries b').
  { unfold active_base.with_verifier, zoom, view.get.
    cbn [view.rv_overlay view.rv_base view.rv_verification view.bv_mapping view.bv_offset view.bv_slots].
    rewrite (overlay_map_facts.get_hashed_spec _ _ _ key Hrep), M_lift_ok. destruct (M !! key) as [o|].
    { exists (Ok o), (db_base db). split; [by destruct (db_base db)|]. split; [by left|done]. }
    destruct (lookup_doubtful entries (db_base db) key Hdb) as (r&b'&Hl&Htr&Hdb'&_). exists r, b'. split; [|done].
    unfold active_base.lookup in Hl. rewrite (M_bind_ok (gets _) _ (db_base db) _ _ eq_refl) in Hl.
    unfold active_base.base_view in Hl. rewrite Hd in Hl. cbn [mbind result_bind] in Hl. rewrite M_lift_ok in Hl. exact Hl. }
  destruct Hb as (r&b'&Hl&Htr&Hdb'). exists r, (database.set_base b' db).
  split; [unfold database.on_base, zoom at 1; by rewrite Hl|]. split; [done|]. split_and!; try done. by exists lg.
Qed.

Lemma verify_doubtful_handle db entries M :
  doubtful_handle db entries M → ∃ e, fst (database.verify db) = Err e.
Proof.
  intros (Hdb&_&Hav&_). destruct (verify_doubtful entries _ Hdb) as (e&b'&Hv&_). exists e.
  unfold database.verify. rewrite handle.available_run by done. unfold database.on_base, zoom. by rewrite Hv.
Qed.

(** The answers to a sequence of lookups. *)
Fixpoint answers (keys : list bytes) db : list (result (option bytes)) * Database :=
  match keys with
  | [] => ([], db)
  | key :: keys =>
      let '(r, db) := database.get key db in
      let '(rs, db) := answers keys db in (r :: rs, db)
  end.

Lemma answers_doubtful keys db entries M :
  doubtful_handle db entries M → NoDup entries.*1 →
  ∃ rs db', answers keys db = (rs, db') ∧ doubtful_handle db' entries M
    ∧ Forall2 (λ key r, truthful r (entries_facts.live entries M !! key)) keys rs.
Proof.
  intros Hdb Hnd. revert db Hdb. induction keys as [|key keys IH]; intros db Hdb; [by exists [], db|].
  destruct (get_doubtful db entries M key Hdb Hnd) as (r&db1&Hr&Htr&Hdb1). destruct (IH db1 Hdb1) as (rs&db2&Ha&Hdb2&Hrs).
  exists (r :: rs), db2. cbn [answers]. rewrite Hr, Ha. split_and!; try done. by constructor.
Qed.

(** Opening within the limits is loading. *)
Lemma open_loads f options r s :
  stream_ok f → database.MIN_DATABASE_BYTES ≤ opt_max_database_bytes options →
  blen (file_content f) ≤ opt_max_database_bytes options → database.load_storage_state options (SFile f) = (r, s) →
  database.open_with_options f options
  = ('(b, ov) ← r; Ok (MkDatabase s b ov options 0 Healthy), s).
Proof.
  intros [Hs _] Hmin Hmax Hl. unfold database.open_with_options, database.validate_options.
  replace (_ <? database.MIN_DATABASE_BYTES) with false by lia. cbn [fail_if].
  rewrite (M_bind_ok _ _ _ _ _ (len_clean f Hs)). unfold database.from_storage.
  replace (_ <? blen (file_content f)) with false by lia. cbn [lift fail_if].
  rewrite (M_bind_ok _ _ _ _ _ (len_clean f Hs)). replace (_ <? blen (file_content f)) with false by lia.
  cbn [fail_if]. rewrite M_lift_ok. unfold mbind, M_bind. rewrite Hl. by destruct r as [[b ov]|e|].
Qed.

(** Opening the changed file. *)
Lemma open_corrupt f sb entries batches c options :
  stream_ok f → image_holds c sb entries batches [] → one_byte c (file_content f) →
  take (Z.to_nat superblock.DATA_START) (file_content f) = take (Z.to_nat superblock.DATA_START) c →
  recovery.reserve_succeeds → (∀ n, try_reserve n = true) →
  ∃ r f', database.open_with_options f options = (r, SFile f') ∧ file_content f' = file_content f
    ∧ file_trace f' = file_trace f
    ∧ match r with
      | Ok db =>
          drop (Z.to_nat (log_start sb)) (file_content f) = recovery.encode_log batches
          ∧ (handle_on db f' sb entries batches
             ∨ opt_verification options = OnRead
               ∧ ∀ keys, ∃ rs db', answers keys db = (rs, db')
                   ∧ Forall2 (λ key r, truthful r (contents entries batches !! key)) keys rs
                   ∧ ∃ e, fst (database.verify db') = Err e)
      | Err _ => True
      | Panic => False
      end.
Proof.
  intros Hok Hi Hone Htk Hres Ha. pose proof Hok as [Hs _].
  destruct (opt_max_database_bytes options <? database.MIN_DATABASE_BYTES) eqn:Emin.
  { eexists (Err _), f. split; [|done]. unfold database.open_with_options, database.validate_options. by rewrite Emin. }
  destruct (opt_max_database_bytes options <? blen (file_content f)) eqn:Emax.
  { eexists (Err _), f. split; [|done]. unfold database.open_with_options, database.validate_options. rewrite Emin. cbn [fail_if].
    rewrite (M_bind_ok _ _ _ _ _ (len_clean f Hs)), Emax. done. }
  destruct (load_changed f sb entries batches c options Hok Hi Hone Htk Hres Ha) as (r&f'&Hr&(Hc&Ht&_)&Ho&_).
  rewrite (open_loads f options _ _ Hok ltac:(lia) ltac:(lia) Hr).
  destruct r as [[b ov]|e|]; [|by exists (Err e), f'|done].
  eexists (Ok _), f'. split; [done|]. split; [done|]. split; [done|].
  destruct Ho as (Hdr&Hst&Hnm&Hbl&Hb). split; [done|]. destruct Hb as [(Hi'&Hh&Hbo&Hbg)|[Hm Hdb]]; [left|right].
  - split; [done|]. split; [by rewrite Hc|]. by split_and!.
  - split; [done|]. intros keys. destruct Hi as (_&(bs&_&(index&_&_&_&_&_&_&Hnd&_)&_)&_).
    destruct (answers_doubtful keys (MkDatabase (SFile f') b ov options 0 Healthy) entries
      (apply_muts ∅ (concat batches))) as (rs&db'&Hans&Hdb'&Hrs); [|done|].
    { split_and!; try done. by eexists. }
    exists rs, db'. split; [done|]. split; [done|]. by eapply verify_doubtful_handle.
Qed.

(** C5: corruption is never read as data. Let one byte of a database file behind its root
    pages have changed. Opening it fails, or the log is intact and the handle either has
    an intact Base too or, when verification is left to the reads, answers every lookup,
    in any sequence, with the right value or an error, and its [verify] fails. Opening
    never writes to the file in either case. *)
Theorem corruption_never_read f sb entries batches c options :
  stream_ok f → image_holds c sb entries batches [] → one_byte c (file_content f) →
  take (Z.to_nat superblock.DATA_START) (file_content f) = take (Z.to_nat superblock.DATA_START) c →
  recovery.reserve_succeeds → (∀ n, try_reserve n = true) →
  ∃ r f', database.open_with_options f options = (r, SFile f') ∧ file_content f' = file_content f
    ∧ file_trace f' = file_trace f
    ∧ match r with
      | Ok db =>
          drop (Z.to_nat (log_start sb)) (file_content f) = recovery.encode_log batches
          ∧ (handle_on db f' sb entries batches
             ∨ opt_verification options = OnRead
               ∧ ∀ keys, ∃ rs db', answers keys db = (rs, db')
                   ∧ Forall2 (λ key r, truthful r (contents entries batches !! key)) keys rs
                   ∧ ∃ e, fst (database.verify db') = Err e)
      | Err _ => True
      | Panic => False
      end.
Proof. apply open_corrupt. Qed.

End Files.

(** *** Concrete corruption *)

Import RefInstances.

(** A byte other than [x]. *)
Definition other_byte (x : byte) : byte := if bool_decide (x = Byte.x00) then Byte.x01 else Byte.x00.

(** A database of one batch whose last byte, in the log, has changed: it does not open. *)
Lemma corruption_never_read_witness :
  ∃ f e f', database.open_with_options f handle.demo_options = (Err e, SFile f') ∧ file_content f' = file_content f.
Proof.
  destruct handle.demo_committed as (db&f&sb&Hh&Hok&_&_&_&_&Hl). pose proof Hh as (_&Hi&_).
  destruct (image_log_blen _ _ _ _ _ Hi) as [Hls Hlb]. pose proof Hi as (_&_&_&_&Hlsb&Hlog&_).
  destruct (exists_last (l := file_content f)) as (a&x&Hc).
  { intros E. rewrite E in Hl. revert Hl. vm_compute. discriminate. }
  set (c' := a ++ [other_byte x]). assert (Hxy : x ≠ other_byte x) by (unfold other_byte; case_bool_decide; congruence).
  assert (Hone : one_byte (file_content f) c') by (by exists a, x, (other_byte x), []).
  assert (Ha : (Z.to_nat superblock.DATA_START ≤ length a)%nat).
  { rewrite Hc, blen_app, blen_cons, blen_nil in Hl. unfold blen at 1 in Hl. revert Hl. vm_compute (database.MIN_DATABASE_BYTES + _).
    unfold superblock.DATA_START, superblock.SUPERBLOCK_SIZE. lia. }
  destruct (corruption_never_read (MkFile c' 0 [] []) sb [] [handle.demo_muts] (file_content f) handle.demo_options)
    as (r&f'&Hr&Hc'&_&Ho).
  - split; [reflexivity|apply Z.le_refl].
  - exact Hi.
  - exact Hone.
  - cbn [file_content]. unfold c'. rewrite Hc, !take_app_le by exact Ha. reflexivity.
  - exact recovery.ref_reserve_succeeds.
  - reflexivity.
  - destruct r as [db'|e|]; [exfalso|exists (MkFile c' 0 [] []), e, f'; split; [exact Hr|exact Hc']|destruct Ho].
    destruct Ho as [Hdr _]. cbn [file_content] in Hdr. rewrite app_nil_r in Hlog, Hlb. rewrite <- Hlog in Hdr. unfold c' in Hdr. rewrite Hc in Hdr.
    assert (Hle : (Z.to_nat (log_start sb) ≤ length a)%nat).
    { rewrite Hc, blen_app, blen_cons, blen_nil in Hlb. unfold blen at 2 in Hlb.
      assert (1 ≤ blen (recovery.encode_log [handle.demo_muts])) by (vm_compute; discriminate). lia. }
    rewrite !drop_app_le in Hdr by exact Hle. apply app_inv_head in Hdr. congruence.
Defined.

End integrity.
