(* ===== verification/Iteration.v ===== *)
(** * Iterating over a Base that has changed

    [Entries] of [database/transaction.rs] with verification left to the reads, on a file
    with one changed byte: which pairs it may yield, and which of them nobody stored. *)

From S2P Require Import Prelude Errors Crates Io Superblock Values Log Segment Overlay Recovery View Base Storage Transaction.
From S2P Require Import Entries Database Faults Commit Written Reopen Handle Integrity.
Import overlay_map_facts commit_facts integrity.

Module iteration.

(** The offset of the first record in a Base. *)
Definition records_at (slots : Z) : Z := BASE_HEADER + slots * segment.SLOT_SIZE.

(** What a consumer is given by [n] calls of [Entries::next]. *)
Fixpoint items `{Crc32c, Xxh3, HashTables, Placement} (n : nat) (s : RawEntries * SegmentVerifier)
    : list (result (option (result (bytes * bytes)))) :=
  match n with
  | O => []
  | S n => let '(item, s) := raw_entries.entries_next s in item :: items n s
  end.

(** An item that does not panic and whose pair, if it is one, is a value of the Overlay [M]
    or a run of bytes of the records of [entries]. *)
Definition written (entries : list (bytes * bytes)) (M : mutations_map) (item : result (option (result (bytes * bytes)))) : Prop :=
  match item with
  | Ok (Some (Ok (k, v))) => M !! k = Some (Some v) ∨ ∃ p q, segment.encode_entries entries = p ++ (k ++ v) ++ q
  | Ok (Some (Err _)) | Ok None => True
  | _ => False
  end.

(** ** What is yielded *)

Section Walk.
Context `{Crc32cLaws, Xxh3Laws, HashTablesLaws, Placement}.
Context (rv : view.ReadView) (m lg : bytes) (M : mutations_map).
Context (index : list (Z * Z)) (offset : Z) (entries : list (bytes * bytes)).
Abbreviation m' := (view.bv_mapping (view.rv_base rv)).
Abbreviation slots := (view.bv_slots (view.rv_base rv)).
Abbreviation data := (segment.base_data slots index entries).
Hypothesis Hseg : active_base.segment_with index offset slots entries m.
Hypothesis Hrep : represents lg (view.rv_overlay rv) M.
Hypothesis Hmode : view.rv_verification rv = OnRead.
Hypothesis Hplace : PlacementLaws m'.
Hypothesis Hlen : blen m' ≤ ISIZE_MAX.

(** The iterator among the records, reading them with the checks. *)
Definition walking (r : RawEntries) : Prop :=
  re_view r = rv ∧ re_base_trusted r = false ∧ records_at slots ≤ re_base_offset r
  ∧ ∀ k o, (k, o) ∈ re_overlay r → M !! k = Some o.

Definition doubted (v : SegmentVerifier) : Prop :=
  verifier.verifier_inv m' v ∧ tampered m m' v ∧ v_data_size v = blen data.

Lemma slots_nonneg : 0 ≤ slots.
Proof using Hseg. destruct Hseg as (_&_&_&_&_&_&_&(Hil&_)). rewrite <- Hil. apply blen_nonneg. Qed.

(** A pair of slices of the mapping, behind the start of the records. *)
Definition in_records (ds : Z) (kv : view.Slice * view.Slice) : Prop :=
  ∃ o k v, kv = raw_entries.base_slices o k v ∧ records_at slots ≤ o ∧ o + 8 + blen k + blen v ≤ ds
    ∧ get_range m' (o + 8) (o + 8 + blen k) = Some k
    ∧ get_range m' (o + 8 + blen k) (o + 8 + blen k + blen v) = Some v.

Lemma next_base_walks fuel ds r :
  walking r → (Z.to_nat (re_base_remaining r) ≤ fuel)%nat →
  ∃ a r', raw_entries.next_base fuel ds r = (Ok a, r') ∧ walking r'
    ∧ match a with Some (Some kv) => in_records ds kv | _ => True end.
Proof using All.
  pose proof slots_nonneg as Hs0. assert (Hr0 : 0 ≤ records_at slots) by (unfold records_at, BASE_HEADER, segment.SLOT_SIZE; lia).
  revert r. induction fuel as [|fuel IH]; intros r Hw Hf; cbn [raw_entries.next_base];
    rewrite (M_bind_ok (gets _) _ r r r eq_refl); destruct (_ <=? 0) eqn:E; bool_prop; [by exists None, r|lia|by exists None, r|].
  pose proof Hw as (Hv&Ht&Ho&Hov). cbv zeta. unfold raw_entries.record. rewrite Ht, Hv.
  pose proof (segment.record_at_safe m' (re_base_offset r) ds ltac:(lia) Hlen) as Hrec.
  destruct (segment.record_at m' _ _) as [[[k v] e]|e|]; [|by eexists (Some None), _|done].
  destruct Hrec as (Hk&Hval&->&Hds). pose proof (blen_nonneg k). pose proof (blen_nonneg v).
  set (e := re_base_offset r + 8 + blen k + blen v) in *.
  rewrite (M_bind_ok (modify (raw_entries.set_base e (re_base_remaining r - 1))) _ r () _ eq_refl).
  assert (Hw1 : walking (raw_entries.set_base e (re_base_remaining r - 1) r))
    by (split_and!; try done; unfold e; cbn [raw_entries.set_base re_base_offset]; lia).
  unfold OverlayMap.contains_key, OverlayMap.get. rewrite (get_hashed_spec lg _ M k Hrep). rstep. rewrite M_lift_ok.
  destruct (bool_decide _).
  - apply IH; [done|]. cbn. lia.
  - eexists (Some (Some _)), _. split; [done|]. split; [done|]. by exists (re_base_offset r), k, v.
Qed.

Lemma next_walks ds r :
  walking r →
  ∃ a r', raw_entries.next ds r = (Ok a, r') ∧ walking r'
    ∧ match a with Some kv => in_records ds kv ∨ (∃ k v, kv = place (k, v) ∧ M !! k = Some (Some v)) | None => True end.
Proof using All.
  intros Hw. unfold raw_entries.next. rewrite (M_bind_ok (gets _) _ r r r eq_refl).
  destruct (re_finished r); [by exists None, r|].
  destruct (next_base_walks (Z.to_nat (re_base_remaining r)) ds r Hw ltac:(lia)) as (a&r1&Hn&Hw1&Ha).
  rewrite (M_bind_ok _ _ _ _ _ Hn). destruct a as [[kv|]|]; [exists (Some kv), r1; split_and!; auto|by exists None, r1|].
  rewrite (M_bind_ok (gets _) _ r1 r1 r1 eq_refl). destruct (negb _); [by eexists None, _|].
  pose proof Hw1 as (Hv&Ht&Ho&Hov).
  assert (Hput : ∀ l, (∀ k o, (k, o) ∈ l → M !! k = Some o) →
    (∀ k o, (k, o) ∈ (raw_entries.next_put l).2 → M !! k = Some o)
    ∧ ∀ k v, (raw_entries.next_put l).1 = Some (k, v) → M !! k = Some (Some v)).
  { induction l as [|[k [v|]] l IH]; cbn [raw_entries.next_put fst snd]; intros Hl; [done| |].
    - split; [intros ???; apply Hl; by right|]. intros k' v' E. injection E as -> ->. apply Hl. by left.
    - apply IH. intros ???. apply Hl. by right. }
  specialize (Hput _ Hov). destruct (raw_entries.next_put (re_overlay r1)) as [[[k v]|] rest]; destruct Hput as [Hrest Hkv].
  - eexists (Some _), _. split; [done|]. split; [by split_and!|]. right. exists k, v. split; [done|]. by apply Hkv.
  - eexists None, _. split; [done|]. split; [by split_and!|done].
Qed.

(** Bytes behind the start of the records are bytes of the records. *)
Lemma range_of_records a b s :
  get_range m a b = Some s → records_at slots ≤ a → b ≤ blen data → ∃ p q, segment.encode_entries entries = p ++ s ++ q.
Proof using Hseg.
  intros Hg Ha Hb. destruct Hseg as (->&_&_&_&_&_&_&(Hil&_)). unfold segment.segment_bytes in Hg. pose proof (get_range_Some _ _ _ _ Hg) as (?&?&_).
  rewrite get_range_app_l in Hg by done. unfold segment.base_data in Hg. rewrite app_assoc, get_range_skip in Hg.
  - apply get_range_split in Hg as (p&q&->&_). by exists p, q.
  - rewrite blen_app, segment.blen_base_header, segment.blen_encode_slots. unfold records_at, segment.SLOT_SIZE in *. lia.
Qed.

(** A pair of the mapping that is verified shows bytes that were written. *)
Lemma verify_pair_written kv v :
  in_records (v_data_size v) kv → doubted v →
  ∃ res v', view.verify_pair rv base_addr kv.1 kv.2 v = (res, v') ∧ doubted v' ∧ res ≠ Panic
    ∧ (res = Ok () → ∃ p q, segment.encode_entries entries = p ++ (view.slice_bytes kv.1 ++ view.slice_bytes kv.2) ++ q).
Proof using All.
  intros (o&k&val&->&Ho&Hend&Hk&Hv) (Hinv&Ht&Hds). pose proof slots_nonneg as Hs0. pose proof Hinv as (Hdl&_).
  assert (Hr0 : 0 ≤ records_at slots) by (unfold records_at, BASE_HEADER, segment.SLOT_SIZE; lia).
  pose proof (blen_nonneg k). pose proof (blen_nonneg val). unfold view.verify_pair. rewrite Hmode, bool_decide_true by done. cbn [negb].
  unfold view.pair_range. cbn [raw_entries.base_slices fst snd view.slice_addr view.slice_bytes].
  replace (base_addr <=? base_addr + o + 8) with true by lia.
  replace (base_addr + o + 8 <=? base_addr + o + 8 + blen k + blen val) with true by lia.
  replace (base_addr + o + 8 + blen k + blen val <=? base_addr + blen m') with true by lia. cbn [andb].
  replace (base_addr + o + 8 - base_addr) with (o + 8) by lia.
  replace (base_addr + o + 8 + blen k + blen val - base_addr) with (o + 8 + blen k + blen val) by lia.
  destruct (verify_tampered m m' v (o + 8) (o + 8 + blen k + blen val) Hinv Ht ltac:(lia)) as (res&v'&Hr&Hinv'&Hs&Hok).
  exists res, v'. split; [done|]. split; [|split].
  - split; [done|]. split; [by eapply tampered_same|]. by destruct Hs as (->&_).
  - by destruct Hok as [[-> _]|[e ->]].
  - intros ->. destruct Hok as [[_ He]|[e E]]; [|done].
    apply (range_of_records (o + 8) (o + 8 + blen k + blen val)); [|lia|lia].
    rewrite (get_range_ext m m'); [|symmetry; apply Ht|intros i Hi; symmetry; apply He; lia].
    apply get_range_split in Hk as (p&q&Em&Ep&_). rewrite Em in Hv.
    rewrite app_assoc, get_range_skip in Hv by (rewrite blen_app; lia). rewrite blen_app in Hv.
    replace (o + 8 + blen k - (blen p + blen k)) with 0 in Hv by lia.
    replace (o + 8 + blen k + blen val - (blen p + blen k)) with (blen val) in Hv by lia.
    apply get_range_split in Hv as (p2&q2&->&Ep2&_). assert (p2 = []) as -> by (apply blen_0; lia). cbn [app] in Em.
    rewrite Em, (app_assoc k). apply get_range_mid; [lia|rewrite blen_app; lia].
Qed.

(** One call, and any number of them. *)
Lemma entries_next_written r v :
  walking r → doubted v →
  ∃ item r' v', raw_entries.entries_next (r, v) = (item, (r', v')) ∧ written entries M item ∧ walking r' ∧ doubted v'.
Proof using All.
  intros Hw Hd. unfold raw_entries.entries_next. destruct (next_walks (v_data_size v) r Hw) as (a&r1&->&Hw1&Ha).
  destruct a as [kv|].
  - pose proof Hw1 as (Hrv&_). destruct Ha as [Hin|(k&val&->&HM)].
    + destruct (verify_pair_written kv v Hin Hd) as (res&v'&Hp&Hd'&Hnp&Hok). destruct kv as [ks vs]. cbn [fst snd] in *.
      rewrite Hrv, Hp. destruct res as [[]|e|]; [|by eexists _, r1, v'|done].
      eexists _, r1, v'. split; [done|]. split; [right; by apply Hok|done].
    + pose proof (place_bytes (k, val)) as Hb. pose proof (place_outside (k, val)) as Hout.
      destruct (place (k, val)) as [ks vs]. cbn [fst snd] in *. injection Hb as Hbk Hbv.
      unfold view.verify_pair. rewrite Hrv, Hmode, bool_decide_true by done. cbn [negb]. rewrite Hout.
      eexists _, r1, v. split; [done|]. split; [left; by rewrite Hbk, Hbv|done].
  - unfold raw_entries.take_error. rewrite (M_bind_ok (gets _) _ r1 r1 r1 eq_refl).
    rewrite (M_bind_ok (modify _) _ _ _ _ eq_refl). unfold mret, M_ret.
    destruct (re_pending_error r1) as [e|]; by eexists _, _, v.
Qed.

Lemma items_written n r v : walking r → doubted v → Forall (written entries M) (items n (r, v)).
Proof using All.
  revert r v. induction n as [|n IH]; intros r v Hw Hd; [constructor|]. cbn [items].
  destruct (entries_next_written r v Hw Hd) as (item&r'&v'&->&Hi&Hw'&Hd'). constructor; [done|by apply IH].
Qed.

End Walk.

(** ** Opening and iterating *)

Section Files.
Context `{Crc32cLaws, !Crc32cDetects, Xxh3Laws, Alloc, HashTablesLaws, Placement}.
Implicit Types (db : Database) (f : File) (sb : Superblock) (b : ActiveBase) (entries : list (bytes * bytes))
  (batches : list (list mutation)) (c bs : bytes).
Hypothesis Hplace : ∀ mapping, PlacementLaws mapping.

(** An open Base of [entries], intact or tampered with behind its checksums. *)
Definition suspect entries b : Prop :=
  ∃ m m' index, BaseBytes.deref (ab_mapping b) = Ok m'
    ∧ active_base.segment_with index (ab_offset b) (ab_slots b) entries m
    ∧ v_data_size (ab_verifier b) = blen (segment.base_data (ab_slots b) index entries)
    ∧ verifier.verifier_inv m' (ab_verifier b) ∧ tampered m m' (ab_verifier b).

Lemma doubtful_suspect entries b : doubtful entries b → suspect entries b.
Proof. intros (m&m'&index&?&?&?&?&?&_). by exists m, m', index. Qed.

Lemma holds_suspect entries b : active_base.holds b entries → suspect entries b.
Proof.
  intros (bs&Hd&[index Hseg]&_&_&(layout&Hl&Hds)&Hinv&_). exists bs, bs, index. split_and!; try done.
  destruct (active_base.segment_with_layout _ _ _ _ _ Hseg) as (Hl0&_). rewrite Hl in Hl0. by injection Hl0 as ->.
Qed.

Lemma iter_suspect db entries lg M :
  suspect entries (db_base db) → v_semantically_verified (ab_verifier (db_base db)) = false →
  opt_verification (db_options db) = OnRead → state_holds lg (db_overlay db) M →
  ∃ raw, database.iter_raw db = Ok raw ∧ ∀ n, Forall (written entries M) (items n (raw, ab_verifier (db_base db))).
Proof using All.
  intros (m&m'&index&Hd&Hseg&Hds&Hinv&Ht) Hsem Hmode [Hrep _].
  unfold database.iter_raw, database.read_view, active_base.base_view, raw_entries.new. rewrite Hd. rstep.
  cbn [view.rv_overlay view.rv_base view.bv_slots]. destruct (iter_spec lg _ M Hrep) as (ms&->&Hp). rstep.
  eexists. split; [done|]. intros n.
  apply (items_written (view.MkReadView (view.MkBaseView m' (ab_offset (db_base db)) (ab_slots (db_base db)))
    (OverlayState.index (db_overlay db)) (opt_verification (db_options db))) m lg M index (ab_offset (db_base db)) entries);
    cbn [view.rv_base view.rv_overlay view.rv_verification view.bv_mapping view.bv_slots]; try done; [apply Hinv|].
  split_and!; try done. intros k o Hin. cbn [re_overlay] in Hin. rewrite Hp in Hin. by apply elem_of_map_to_list in Hin.
Qed.

(** A Base opened for the reads to verify. *)
Lemma opened_unverified f sb options b :
  opened_base f sb options b → opt_verification options = OnRead → v_semantically_verified (ab_verifier b) = false.
Proof.
  intros (bs&_&Ho) Hm. rewrite Hm in Ho. by destruct (open_inv (BaseBytes.Mapped bs) bs sb OnRead b eq_refl Ho) as (layout&_&_&->&_).
Qed.

(** ** A record whose length is lost *)

Lemma u32_le_small n : 0 ≤ n < 256 → u32_le n = u8_of_Z n :: [Byte.x00; Byte.x00; Byte.x00].
Proof. intros Hn. change (u8_of_Z n :: to_le_bytes 3 (n / U8) = u8_of_Z n :: [Byte.x00; Byte.x00; Byte.x00]).
  by rewrite Z.div_small. Qed.

Lemma index_range_ext (d d' : bytes) a e :
  blen d' = blen d → (∀ i, a ≤ i < e → d' !! Z.to_nat i = d !! Z.to_nat i) → index_range d' a e = index_range d a e.
Proof. intros Hl He. unfold index_range. by rewrite (get_range_ext d' d). Qed.

(** The header of a Base is all that opening reads of its data. *)
Lemma read_base_header_ext d d' :
  blen d' = blen d → (∀ i, 0 ≤ i < BASE_HEADER → d' !! Z.to_nat i = d !! Z.to_nat i) →
  segment.read_base_header d' = segment.read_base_header d.
Proof.
  intros Hl He. unfold segment.read_base_header. rewrite Hl. unfold BASE_HEADER in *.
  rewrite (index_range_ext d d' 0 4) by (done || intros; apply He; lia).
  assert (Hu : format.u32_at d' 4 = format.u32_at d 4)
    by (unfold format.u32_at; rewrite add_ovf_ok by lia; rstep; by rewrite (index_range_ext d d') by (done || intros; apply He; lia)).
  assert (Hu8 : format.u64_at d' 8 = format.u64_at d 8)
    by (unfold format.u64_at; rewrite add_ovf_ok by lia; rstep; by rewrite (index_range_ext d d') by (done || intros; apply He; lia)).
  assert (Hu16 : format.u64_at d' 16 = format.u64_at d 16)
    by (unfold format.u64_at; rewrite add_ovf_ok by lia; rstep; by rewrite (index_range_ext d d') by (done || intros; apply He; lia)).
  by rewrite Hu, Hu8, Hu16.
Qed.

(** Opening a Base whose records have changed. *)
Lemma open_other_data sb entries index data data' :
  let bs := segment.segment_bytes data in
  active_base.segment_with index (base_offset sb) (base_slots sb) entries bs → data = segment.base_data (base_slots sb) index entries →
  base_len sb = blen entries → segment.segment_metadata_checksum bs = Ok (base_checksum sb) →
  blen data' = blen data → (∀ i, 0 ≤ i < BASE_HEADER → data' !! Z.to_nat i = data !! Z.to_nat i) →
  let mapping := BaseBytes.Mapped (data' ++ segment.base_metadata data) in
  active_base.open mapping sb OnRead = Ok (active_base.new mapping
    (verifier.new (base_offset sb) (segment.MkLayout data' (segment.block_table data)) false) sb (base_slots sb) (base_len sb)).
Proof.
  intros bs Hseg Hdata Hlen Hck Hdl He mapping. pose proof Hseg as (_&_&_&Ho&Hb&_).
  destruct (active_base.segment_with_layout _ _ _ _ _ Hseg) as (_&Hmc&_&Hh&_). rewrite <- Hdata in Hh, Hmc.
  unfold active_base.open, mapping. cbn [BaseBytes.deref]. rstep.
  rewrite segment.segment_layout_behind by (done || fold bs; lia). rstep.
  rewrite segment.segment_metadata_checksum_behind by (done || fold bs; lia). rstep. rewrite Hck in Hmc. injection Hmc as ->.
  rewrite Z.eqb_refl, bool_decide_false by done. rstep. cbn [segment.layout_data].
  rewrite (read_base_header_ext data data' Hdl He), Hh. rstep. rewrite Hlen, !Z.eqb_refl. done.
Qed.

(** A record header of zeros is the record of the empty pair, and there is nothing to verify. *)
Lemma record_lost (m : bytes) o ds :
  0 ≤ o → o + 8 ≤ ds → blen m ≤ ISIZE_MAX → get_range m o (o + 8) = Some (replicate 8 Byte.x00) →
  segment.record_at m o ds = Ok ([], [], o + 8).
Proof.
  intros Ho Hds Hm Hg. pose proof (get_range_Some _ _ _ _ Hg) as (_&?&_). unfold segment.record_at.
  rewrite (checked_add_ok o 8) by lia. cbn [opt_filter]. replace (o + 8 <=? ds) with true by lia. rstep. rewrite Hg. rstep.
  change (format.u32_at (replicate 8 Byte.x00) 0) with (Ok 0). rstep.
  change (format.u32_at (replicate 8 Byte.x00) 4) with (Ok 0). rstep. rewrite (checked_add_ok (o + 8) 0) by lia. rstep.
  rewrite (checked_add_ok (o + 8 + 0) 0) by lia. cbn [opt_filter]. replace (o + 8 + 0 + 0 <=? ds) with true by lia. rstep.
  rewrite !get_range_in_bounds by lia. replace (o + 8 + 0 - (o + 8)) with 0 by lia.
  replace (o + 8 + 0 + 0 - (o + 8 + 0)) with 0 by lia. cbn [Z.to_nat]. rewrite !take_0. rstep. do 2 f_equal. lia.
Qed.

Lemma first_item_lost db m lg M :
  let b := db_base db in
  BaseBytes.deref (ab_mapping b) = Ok m → blen m ≤ ISIZE_MAX → 0 ≤ ab_slots b → 0 < ab_len b →
  get_range m (records_at (ab_slots b)) (records_at (ab_slots b) + 8) = Some (replicate 8 Byte.x00) →
  records_at (ab_slots b) + 8 ≤ v_data_size (ab_verifier b) ≤ blen m → v_semantically_verified (ab_verifier b) = false →
  state_holds lg (db_overlay db) M → M !! [] = None →
  ∃ raw, database.iter_raw db = Ok raw ∧ items 1 (raw, ab_verifier b) = [Ok (Some (Ok ([], [])))].
Proof using All.
  intros b Hd Hm Hs Hn Hg Hds Hsem [Hrep _] HM. unfold database.iter_raw, database.read_view, active_base.base_view, raw_entries.new.
  fold b. rewrite Hd. rstep. cbn [view.rv_overlay view.rv_base view.bv_slots].
  destruct (iter_spec lg _ M Hrep) as (ms&->&_). rstep. eexists. split; [done|].
  assert (Ho : 0 ≤ records_at (ab_slots b)) by (unfold records_at, BASE_HEADER, segment.SLOT_SIZE; lia).
  cbn [items]. unfold raw_entries.entries_next, raw_entries.next. rewrite (M_bind_ok (gets _) _ _ _ _ eq_refl).
  cbn [re_finished re_base_remaining]. replace (Z.to_nat (ab_len b)) with (S (Z.to_nat (ab_len b - 1))) by lia.
  cbn [raw_entries.next_base]. rewrite !M_bind_assoc, (M_bind_ok (gets _) _ _ _ _ eq_refl). cbn [re_base_remaining].
  replace (ab_len b <=? 0) with false by lia. cbv zeta. unfold raw_entries.record.
  cbn [re_base_trusted re_base_offset re_view view.rv_base view.bv_mapping]. rewrite Hsem. fold (records_at (ab_slots b)).
  rewrite (record_lost m _ _ Ho) by (done || lia). rewrite M_bind_assoc, (M_bind_ok (modify _) _ _ _ _ eq_refl).
  unfold OverlayMap.contains_key, OverlayMap.get. cbn [view.rv_overlay]. rewrite (get_hashed_spec lg _ M [] Hrep), HM. rstep.
  rewrite M_bind_assoc, M_lift_ok. rewrite bool_decide_false by (by intros []). unfold mbind, M_bind, mret, M_ret.
  cbn [raw_entries.base_slices raw_entries.set_base re_view view.slice_bytes]. unfold view.verify_pair.
  assert (Hv : ∀ mode, (if negb (bool_decide (mode = OnRead)) then mret () else
     match view.pair_range (view.MkSlice base_addr m) (view.MkSlice (base_addr + records_at (ab_slots b) + 8) [])
       (view.MkSlice (base_addr + records_at (ab_slots b) + 8 + blen (@nil byte)) []) with
     | Some (start, end_) => verifier.verify_range m start end_ | None => mret () end) (ab_verifier b) = (Ok (), ab_verifier b)).
  { intros mode. destruct (negb _); [done|]. unfold view.pair_range. cbn [view.slice_addr view.slice_bytes]. rewrite !blen_nil.
    destruct (_ && _ && _); [|done]. unfold verifier.verify_range. rewrite (M_bind_ok (gets _) _ _ _ _ eq_refl).
    destruct (v_fully_verified _); [done|]. replace (_ + 0 + 0) with (base_addr + records_at (ab_slots b) + 8) by lia.
    rewrite Z.ltb_irrefl, Z.eqb_refl. replace (_ <? _) with false by lia. done. }
  cbn [view.rv_verification view.rv_base view.bv_mapping]. by rewrite Hv.
Qed.

(** The parts of an image around the length of the first key. *)
Lemma first_length c sb k rest batches :
  let i := Z.to_nat (base_offset sb + records_at (base_slots sb)) in
  let c' := <[i := Byte.x00]> c in
  image_holds c sb ((k, []) :: rest) batches [] → 0 < blen k < 256 →
  ∃ b m, active_base.open (BaseBytes.Mapped m) sb OnRead = Ok b ∧ ab_mapping b = BaseBytes.Mapped m
    ∧ get_range c' (base_offset sb) (base_offset sb + base_size sb) = Some m ∧ blen m ≤ ISIZE_MAX
    ∧ ab_slots b = base_slots sb ∧ 0 ≤ base_slots sb ∧ 0 < ab_len b
    ∧ get_range m (records_at (base_slots sb)) (records_at (base_slots sb) + 8) = Some (replicate 8 Byte.x00)
    ∧ records_at (base_slots sb) + 8 ≤ v_data_size (ab_verifier b) ≤ blen m
    ∧ drop (Z.to_nat (log_start sb)) c' = drop (Z.to_nat (log_start sb)) c.
Proof using All.
  intros i c' (_&(bs&Hbs&(index&Hseg)&Hlen&Hsz&Hck)&Hbo&Hbe&_) Hk. pose proof Hseg as (Ebs&_&_&Ho0&Hb&_&_&(Hil&_)).
  assert (Hs0 : 0 ≤ base_slots sb) by (rewrite <- Hil; apply blen_nonneg).
  assert (Hr0 : 0 ≤ records_at (base_slots sb)) by (unfold records_at, BASE_HEADER, segment.SLOT_SIZE; lia).
  set (data := segment.base_data _ _ _) in Ebs. subst bs.
  set (hs := segment.base_header (base_slots sb) (blen ((k, @nil byte) :: rest)) ++ segment.encode_slots index).
  assert (Hhs : blen hs = records_at (base_slots sb)).
  { unfold hs. rewrite blen_app, segment.blen_base_header, segment.blen_encode_slots. unfold records_at, segment.SLOT_SIZE. lia. }
  set (tl := replicate 7 Byte.x00 ++ k ++ segment.encode_entries rest).
  assert (Edata : data = hs ++ u8_of_Z (blen k) :: tl).
  { unfold data, segment.base_data, hs, tl. rewrite segment.encode_entries_cons. unfold segment.encode_entry. cbn [fst snd].
    rewrite u32_le_small by lia. rewrite <- !app_assoc. cbn [app]. done. }
  set (data' := hs ++ Byte.x00 :: tl). set (meta := segment.base_metadata data).
  assert (Hdl : blen data' = blen data) by (unfold data'; rewrite Edata, !blen_app, !blen_cons; done).
  assert (Hbl : blen (data' ++ meta) = blen (segment.segment_bytes data))
    by (unfold segment.segment_bytes; rewrite !blen_app; fold meta; lia).
  apply get_range_split in Hbs as (c1&c2&Ec&E1&_).
  assert (Ec' : c' = c1 ++ (data' ++ meta) ++ c2).
  { unfold c', i. rewrite Ec. unfold segment.segment_bytes. fold meta. rewrite Edata. unfold data'.
    rewrite E1, <- Hhs, <- blen_app. rewrite <- !app_assoc. cbn [app]. rewrite !(app_assoc c1). unfold blen. rewrite Nat2Z.id.
    rewrite insert_app_r_alt, Nat.sub_diag by lia. done. }
  assert (Htl : 7 ≤ blen tl) by (unfold tl; rewrite blen_app; change (blen (replicate 7 Byte.x00)) with 7; pose proof (blen_nonneg (k ++ segment.encode_entries rest)); lia).
  assert (Hdb : records_at (base_slots sb) + 8 ≤ blen data) by (rewrite Edata, blen_app, blen_cons; lia).
  pose proof (blen_nonneg meta). pose proof (blen_nonneg rest). pose proof (blen_nonneg data) as Hd0.
  eexists _, (data' ++ meta). split; [eapply (open_other_data sb _ index data data'); try done|].
  { intros j Hj. rewrite Edata. unfold data'. rewrite !lookup_app_l; [done|..]; unfold records_at, blen, segment.SLOT_SIZE in *; lia. }
  cbn [active_base.new ab_mapping ab_slots ab_len ab_verifier verifier.new v_data_size segment.layout_data].
  split; [done|]. split; [rewrite Ec'; apply get_range_mid; lia|]. split; [lia|]. split; [done|]. split; [done|].
  split; [rewrite Hlen, blen_cons; lia|]. split; [|split; [rewrite blen_app in *; lia|]].
  - rewrite get_range_app_l by lia. unfold data'. rewrite get_range_skip by lia. rewrite <- Hhs, Z.sub_diag.
    replace (blen hs + 8 - blen hs) with 8 by lia.
    change (Byte.x00 :: tl) with (replicate 8 Byte.x00 ++ k ++ segment.encode_entries rest). by apply get_range_head.
  - unfold c'. apply drop_insert_lt. unfold i. rewrite Hsz, <- Hbl, blen_app in Hbe. lia.
Qed.

(** C40: iteration verifies the bytes it yields, not the lengths that cut them out. Let one
    byte of a database file behind its root pages have changed, and let the reads verify.
    Whatever the change, no call of [Entries::next] on the opened database panics, and a
    pair it yields without an error is a value of the log or a run of bytes of the records
    as they were written: no changed byte is yielded. It need not be a pair that was stored,
    as the record headers are not verified: when the first record has a key of less than 256
    bytes and no value, and the length of the key is overwritten by zero, then the file
    opens, and the first pair is the empty key with an empty value, which nobody stored. *)
Theorem iteration_verifies_bytes f sb entries batches c options :
  stream_ok f → image_holds c sb entries batches [] → one_byte c (file_content f) →
  take (Z.to_nat superblock.DATA_START) (file_content f) = take (Z.to_nat superblock.DATA_START) c →
  recovery.reserve_succeeds → (∀ n, try_reserve n = true) → opt_verification options = OnRead →
  database.MIN_DATABASE_BYTES ≤ opt_max_database_bytes options → blen c ≤ opt_max_database_bytes options →
  (∀ db s, database.open_with_options f options = (Ok db, s) →
     ∃ raw, database.iter_raw db = Ok raw
       ∧ ∀ n, Forall (written entries (apply_muts ∅ (concat batches))) (items n (raw, ab_verifier (db_base db))))
  ∧ ∀ k rest, entries = (k, []) :: rest → 0 < blen k < 256 →
      file_content f = <[Z.to_nat (base_offset sb + records_at (base_slots sb)) := Byte.x00]> c →
      [] ∉ entries.*1 → apply_muts ∅ (concat batches) !! [] = None →
      contents entries batches !! [] = None
      ∧ ∃ db s raw, database.open_with_options f options = (Ok db, s) ∧ database.iter_raw db = Ok raw
          ∧ items 1 (raw, ab_verifier (db_base db)) = [Ok (Some (Ok ([], [])))].
Proof using All.
  intros Hok Hi Hone Htk Hres Ha Hmode Hmin Hmax. pose proof (one_byte_blen _ _ Hone) as Hbl.
  destruct (load_changed f sb entries batches c options Hok Hi Hone Htk Hres Ha) as (r&f'&Hr&_&Ho&Hopens&Hopened).
  rewrite (open_loads f options _ _ Hok Hmin ltac:(lia) Hr). split.
  - intros db s E. destruct r as [[b ov]|e|]; [|done..]. cbn in E. injection E as <- _.
    destruct Ho as (_&Hst&_&_&Hb). apply (iter_suspect _ entries (recovery.encode_log batches)); cbn [db_base db_options db_overlay]; [|by eapply opened_unverified; [apply (Hopened _ _ eq_refl)|]|done|done].
    destruct Hb as [(_&Hh&_)|[_ Hdb]]; [by apply holds_suspect|by apply doubtful_suspect].
  - intros k rest -> Hk Hf Hne HM. split.
    { unfold contents. pose proof Hi as (_&(bs&_&(index&_&_&_&_&_&_&Hnd&_)&_)&_). rewrite entries_facts.live_lookup, HM by done.
      by rewrite KeyMap.get_list_to_map, not_elem_of_list_to_map_1 by done. }
    destruct (first_length c sb k rest batches Hi Hk) as (b&m&Hop&Hmap&Hg&Hm&Hsl&Hs0&Hn&Hz&Hds&Hdrop). rewrite <- Hf in Hg, Hdrop.
    assert (Hob : opened_base f sb options b) by (exists m; by rewrite Hmode).
    destruct (Hopens b Hob) as [ov ->].
    { rewrite Hdrop. destruct Hi as (_&_&_&_&_&->&_). by rewrite app_nil_r. }
    destruct Ho as (_&Hst&_). cbn [mbind result_bind].
    destruct (first_item_lost (MkDatabase (SFile f') b ov options 0 Healthy) m (recovery.encode_log batches) (apply_muts ∅ (concat batches)))
      as (raw&Hraw&Hit); cbn [db_base]; rewrite ?Hmap, ?Hsl; try done; [by eapply opened_unverified|].
    by exists (MkDatabase (SFile f') b ov options 0 Healthy), (SFile f'), raw.
Qed.

End Files.

(** *** A concrete file *)

Import RefInstances.

#[local] Instance demo_place : Placement :=
  {| base_addr := 65536; place kv := (view.MkSlice 1 kv.1, view.MkSlice 2 kv.2) |}.

Lemma demo_place_laws mapping : PlacementLaws mapping.
Proof. split; [by intros []|]. intros kv. unfold view.pair_range. by cbn. Qed.

(** The Base of the single entry [("a", "")] behind its root pages. *)
Definition lone_entries : list (bytes * bytes) := [([Byte.x61], [])].
Definition lone_index : list (Z * Z) := [(0, 0); (1, 8240)].
Definition lone_data : bytes := segment.base_data 2 lone_index lone_entries.
Definition lone_bytes : bytes := segment.segment_bytes lone_data.
Definition lone_root : Superblock :=
  MkSuperblock 1 8192 (blen lone_bytes) 2 1 (8192 + blen lone_bytes) (crc32c (segment.base_metadata lone_data)).
Definition lone_pages : bytes := replicate (Z.to_nat superblock.SUPERBLOCK_SIZE) Byte.x00 ++ superblock.encode_page lone_root.

Lemma lone_describes : active_base.describes lone_root lone_entries lone_bytes.
Proof.
  assert (Hb : 8192 + blen lone_bytes ≤ ISIZE_MAX) by (vm_compute; discriminate).
  assert (Hp : segment.pow2 2) by (by exists 1).
  split; [|split; [done|split; [done|]]].
  - exists lone_index. cbn [base_offset base_slots lone_root].
    refine (conj eq_refl (conj (or_intror Hp) (conj _ (conj _ (conj Hb (conj _ (conj _ _))))))); [done|done| | |].
    + repeat constructor; vm_compute; discriminate.
    + apply NoDup_singleton.
    + apply segment.fold_index_ok; [exact Hp|done|vm_compute; discriminate|vm_compute; reflexivity].
  - apply segment.segment_metadata_checksum_encode. fold lone_bytes. lia.
Qed.

Lemma lone_blen : blen lone_bytes = 85.
Proof. vm_compute. reflexivity. Qed.

Lemma lone_pages_blen : blen lone_pages = 8192.
Proof. unfold lone_pages. rewrite blen_app, blen_replicate, superblock.blen_encode_page. reflexivity. Qed.

Lemma lone_fits : root_fits lone_root.
Proof.
  unfold root_fits, superblock.in_range. cbn [lone_root generation base_offset base_size base_slots base_len log_start base_checksum].
  rewrite lone_blen. pose proof (crc32c_range (segment.base_metadata lone_data)).
  change superblock.DATA_START with 8192. change BASE_HEADER with 24. split_and!; lia.
Qed.

Lemma lone_image : image_holds (lone_pages ++ lone_bytes) lone_root lone_entries [] [].
Proof.
  pose proof lone_blen as Hb. pose proof lone_pages_blen as Hp. pose proof lone_fits as Hf. unfold image_holds.
  cbn [lone_root base_offset base_size log_start]. rewrite blen_app, Hp. change superblock.DATA_START with 8192.
  split; [|split; [exists lone_bytes; split; [|exact lone_describes]|split_and!; try lia]].
  - set (blank := replicate (Z.to_nat superblock.SUPERBLOCK_SIZE) Byte.x00).
    assert (Hbl : blen blank = superblock.SUPERBLOCK_SIZE) by (unfold blank; by rewrite blen_replicate).
    apply (roots_to_pages _ blank (superblock.encode_page lone_root)).
    + unfold lone_pages. fold blank. rewrite <- app_assoc. apply get_range_head. by rewrite Hbl.
    + unfold lone_pages. fold blank. rewrite <- app_assoc.
      apply get_range_mid; [by rewrite Hbl|by rewrite Hbl, superblock.blen_encode_page].
    + exact Hf.
    + apply zero_page_older.
    + apply encode_page_older; [exact Hf|by right].
    + by right.
  - rewrite <- (app_nil_r lone_bytes) at 1. apply get_range_mid; lia.
  - apply drop_ge. rewrite length_app. unfold blen in *. lia.
  - constructor.
Qed.

(** The length of the key is lost. *)
Lemma iteration_verifies_bytes_witness :
  ∃ f db s raw, database.open_with_options f handle.demo_options = (Ok db, s) ∧ database.iter_raw db = Ok raw
    ∧ items 1 (raw, ab_verifier (db_base db)) = [Ok (Some (Ok ([], [])))].
Proof.
  set (c := lone_pages ++ lone_bytes). set (f := MkFile (<[Z.to_nat 8240 := Byte.x00]> c) 0 [] []).
  pose proof lone_blen as Hb. pose proof lone_pages_blen as Hp.
  assert (Hx : c !! Z.to_nat 8240 = Some Byte.x01).
  { unfold c. rewrite lookup_app_r by (unfold blen in Hp; lia).
    replace (Z.to_nat 8240 - length lone_pages)%nat with 48%nat by (unfold blen in Hp; lia). vm_compute. reflexivity. }
  destruct (iteration_verifies_bytes demo_place_laws f lone_root lone_entries [] c handle.demo_options) as [_ Hlost].
  - split; [reflexivity|apply Z.le_refl].
  - exact lone_image.
  - exists (take (Z.to_nat 8240) c), Byte.x01, Byte.x00, (drop (S (Z.to_nat 8240)) c). split; [discriminate|]. split.
    + symmetry. apply take_drop_middle. exact Hx.
    + cbn [f file_content]. apply insert_take_drop. apply lookup_lt_Some in Hx. exact Hx.
  - cbn [f file_content]. apply take_insert_ge. apply Z2Nat.inj_le; discriminate.
  - exact recovery.ref_reserve_succeeds.
  - reflexivity.
  - reflexivity.
  - vm_compute. discriminate.
  - unfold c. rewrite blen_app, Hp, Hb. vm_compute. discriminate.
  - destruct (Hlost [Byte.x61] []) as [_ (db&s&raw&Ho&Hr&Hit)].
    + reflexivity.
    + split; vm_compute; reflexivity.
    + reflexivity.
    + intros Hin. apply list_elem_of_singleton in Hin. discriminate.
    + reflexivity.
    + exists f, db, s, raw. split; [exact Ho|]. split; [exact Hr|exact Hit].
Defined.

End iteration.
