(* ===== verification/Maintenance.v ===== *)
(** * Compaction

    [database/maintenance.rs]: rebuilding the live entries as a new Base. A file is
    compacted in two moves, so that one of the two root pages is recoverable at every
    point: the Base is first written behind the end of the file and published, then
    copied to the start of the data area and published again, and the file is cut.
    A volatile database builds the new Base in a buffer of its own and swaps it in.

    The iterators of the source are run to their end before the writer starts; the
    writer only touches bytes outside of the mappings they read from. *)

From S2P Require Import Prelude Errors Crates Io Superblock Values Log Segment Overlay Recovery View.
From S2P Require Import Base Storage Transaction Entries Database.

#[local] Abbreviation DATA_START := superblock.DATA_START.

(** ** [OffsetBuffer]

    A growing buffer whose first byte has the address [ofb_origin]; [std]'s
    [Cursor<Vec<u8>>] is the pair of its bytes and its position. *)

Record OffsetBuffer := MkOffsetBuffer {
  ofb_origin : Z;
  ofb_bytes : bytes;
  ofb_position : Z
}.

Module OffsetBuffer.
Section OffsetBuffer.
Context `{Alloc}.

Definition new (origin expected_size : Z) : result OffsetBuffer :=
  _ ← fail_if (negb (try_reserve expected_size))
        (error.from_io OutOfMemory "could not reserve Base bytes");
  Ok (MkOffsetBuffer origin [] 0).

Definition into_inner (b : OffsetBuffer) : bytes := ofb_bytes b.

Definition set_position (p : Z) (b : OffsetBuffer) : OffsetBuffer :=
  MkOffsetBuffer (ofb_origin b) (ofb_bytes b) p.

Definition absolute (relative : Z) : M OffsetBuffer Z :=
  b ← gets (λ b : OffsetBuffer, b);
  lift (ok_or (checked_add (ofb_origin b) relative)
          (error.from_io InvalidInput "Base position overflow")).

(** [Cursor::seek]. *)
Definition cursor_seek (p : SeekFrom) : M OffsetBuffer Z :=
  b ← gets (λ b : OffsetBuffer, b);
  match p with
  | Start p => _ ← modify (set_position p); mret p
  | End_ o | Current o =>
      let start := match p with End_ _ => blen (ofb_bytes b) | _ => ofb_position b end in
      _ ← lift (fail_if (negb ((0 <=? start + o) && (start + o <? U64)))
                  (error.from_io InvalidInput "invalid seek to a negative or overflowing position"));
      _ ← modify (set_position (start + o));
      mret (start + o)
  end.

Definition seek (p : SeekFrom) : M OffsetBuffer Z :=
  match p with
  | Start position =>
      b ← gets (λ b : OffsetBuffer, b);
      relative ← lift (ok_or (checked_sub position (ofb_origin b))
                         (error.from_io InvalidInput "Base seek precedes its origin"));
      relative ← cursor_seek (Start relative);
      absolute relative
  | p => relative ← cursor_seek p; absolute relative
  end.

(** [Cursor::write]: a gap before the position is filled with zeros. *)
Definition write (bs : bytes) : M OffsetBuffer Z :=
  _ ← modify (λ b, MkOffsetBuffer (ofb_origin b) (splice (ofb_bytes b) (ofb_position b) bs)
                     (ofb_position b + blen bs));
  mret (blen bs).

(** [Cursor::read]. *)
Definition read (n : Z) : M OffsetBuffer bytes :=
  b ← gets (λ b : OffsetBuffer, b);
  let got := take (Z.to_nat n) (drop (Z.to_nat (ofb_position b)) (ofb_bytes b)) in
  _ ← modify (set_position (ofb_position b + blen got));
  mret got.

#[global] Instance offset_buffer_stream : Stream OffsetBuffer := {|
  Io.seek := seek; Io.write := write; Io.read := read
|}.

End OffsetBuffer.
End OffsetBuffer.

(** The buffer is a lawful stream that starts at its origin. *)
#[export] Instance offset_buffer_view : StreamView OffsetBuffer := {|
  stream_ok b := 0 ≤ ofb_origin b ∧ 0 ≤ ofb_position b;
  stream_base := ofb_origin;
  stream_data := ofb_bytes;
  stream_pos b := ofb_origin b + ofb_position b
|}.

#[export] Instance offset_buffer_lawful : LawfulStream OffsetBuffer.
Proof.
  split; unfold stream_upd; cbn; intros [origin bs pos]; cbn.
  - lia.
  - intros p [??] ?. exists (MkOffsetBuffer origin bs (p - origin)). split; [|cbn; split_and!; done || lia].
    unfold OffsetBuffer.seek. rewrite (M_bind_ok (gets _) _ _ _ _ eq_refl). cbn [ofb_origin].
    rewrite checked_sub_ok by lia. cbn [ok_or]. rewrite M_lift_ok.
    unfold OffsetBuffer.cursor_seek, OffsetBuffer.absolute, mbind, M_bind, gets, modify, mret, M_ret, lift.
    cbn [OffsetBuffer.set_position ofb_origin ofb_bytes]. rewrite checked_add_ok by lia. cbn [ok_or]. do 2 f_equal. lia.
  - intros d [??] ??. eexists. split; [reflexivity|]. cbn. pose proof (blen_nonneg d).
    replace (origin + pos - origin) with pos by lia. split_and!; [lia|lia|done|done|lia].
  - intros n [??] ? Hn. replace (origin + pos - origin) with pos in * by lia.
    set (got := take (Z.to_nat n) (drop (Z.to_nat pos) bs)).
    exists (MkOffsetBuffer origin bs (pos + blen got)), got. split; [reflexivity|]. rewrite get_range_in_bounds by lia.
    replace (pos + n - pos) with n by lia. split; [done|]. cbn. unfold got. split_and!; [lia|len|done|done|len].
Qed.

Module maintenance.
Section Maintenance.
Context `{Crc32c, Xxh3, Alloc, HashTables, Placement}.

Definition raw_entries (b : ActiveBase) (overlay : OverlayState) (verification : VerificationMode)
    : result RawEntries :=
  bv ← active_base.base_view b;
  Entries.raw_entries.new (view.MkReadView bv (OverlayState.index overlay) verification)
    (ab_verifier b) (ab_len b).

(** The items an iterator over [b] hands to its consumer. *)
Definition items (b : ActiveBase) (r : result RawEntries) : result (list (bytes * bytes)) :=
  r ← r; fst (Entries.raw_entries.collect (v_data_size (ab_verifier b)) r).

Definition build_memory_base (offset expected_size len : Z) (entries : list (bytes * bytes))
    : result bytes :=
  buffer ← OffsetBuffer.new offset expected_size;
  let '(size, buffer) := segment.write_base_at offset len entries buffer in
  size ← size;
  let bs := OffsetBuffer.into_inner buffer in
  _ ← fail_if (negb (blen bs =? size)) (error.other "in-memory Base size does not match its buffer");
  Ok bs.

Definition detached_base (generation : Z) : result ActiveBase :=
  bs ← build_memory_base DATA_START segment.EMPTY_SEGMENT_SIZE 0 [];
  let mapping := BaseBytes.Memory bs 0 (blen bs) in
  mapped ← BaseBytes.deref mapping;
  checksum ← segment.segment_metadata_checksum mapped;
  log_start ← add_ovf DATA_START segment.EMPTY_SEGMENT_SIZE;
  active_base.install mapping
    (MkSuperblock generation DATA_START segment.EMPTY_SEGMENT_SIZE 0 0 log_start checksum).

(** [if let Err(error) = m { self.state = WritePoisoned; return Err(error) }]. *)
Definition or_poison {A} (m : M Database A) : M Database A :=
  catch m (λ r, match r with
                | Ok a => mret a
                | Err e => _ ← modify (database.set_state WritePoisoned); lift (Err e)
                | Panic => lift Panic
                end).

Definition clear_overlay : M Database () :=
  modify (λ db, database.set_overlay (OverlayState.clear (db_overlay db)) db).

(** The offsets [compact_file] works with. *)
Record CompactPlan := MkPlan {
  rollback_offset : Z;
  destination_end : Z;
  source_offset : Z;
  source_end : Z
}.

Definition compact_plan (expected_base_size : Z) : M Database CompactPlan :=
  rollback_offset ← database.on_storage (seek (End_ 0));
  destination_end ← lift (ok_or (checked_add DATA_START expected_base_size)
                            (error.from_io InvalidInput "compact size overflow"));
  marker_end ← lift (ok_or (checked_add rollback_offset log.LOG_HEADER_SIZE)
                       (error.from_io InvalidInput "compact marker overflow"));
  gap_end ← lift (ok_or (checked_add destination_end log.LOG_HEADER_SIZE)
                    (error.from_io InvalidInput "compact gap overflow"));
  let source_offset := Z.max marker_end gap_end in
  source_end ← lift (ok_or (checked_add source_offset expected_base_size)
                       (error.from_io InvalidInput "compact size overflow"));
  additional ← lift (unwrap (checked_sub source_end rollback_offset));
  _ ← database.ensure_capacity additional;
  mret (MkPlan rollback_offset destination_end source_offset source_end).

(** The staging Base behind the end of the file; failures roll the file back. *)
Definition write_staging (plan : CompactPlan) (live_len expected_base_size : Z)
    : M Database segment.WrittenBase :=
  let rollback := rollback_offset plan in
  _ ← database.or_rollback rollback (database.on_storage log.write_compact_marker);
  _ ← database.or_rollback rollback (database.on_storage (seek (Start (source_offset plan))));
  db ← database.self;
  written ← database.or_rollback rollback (
    entries ← lift (items (db_base db)
                 (raw_entries (db_base db) (db_overlay db) (opt_verification (db_options db))));
    database.on_storage (segment.write_base_with_metadata_at (source_offset plan) live_len entries));
  _ ← (if negb (segment.wb_size written =? expected_base_size)
       then database.rollback_or_poison rollback (error.other "base size changed while compacting")
       else mret ());
  _ ← database.or_rollback rollback (database.on_storage storage.sync_data);
  mret written.

(** Publishing the staging Base and switching the handle to it. *)
Definition publish_staging (plan : CompactPlan) (written : segment.WrittenBase) : M Database Superblock :=
  db ← database.self;
  generation ← lift (add_ovf (ab_generation (db_base db)) 1);
  let source_superblock :=
    MkSuperblock generation (source_offset plan) (segment.wb_size written) (segment.wb_slots written)
      (segment.wb_len written) (source_end plan) (segment.wb_metadata_checksum written) in
  _ ← or_poison (database.on_storage (superblock.write source_superblock));
  _ ← or_poison (database.on_storage storage.sync_all);
  _ ← database.install_superblock source_superblock;
  _ ← clear_overlay;
  mret source_superblock.

(** The copy at the start of the data area, with a marker behind it. *)
Definition relocate (plan : CompactPlan) (live_len expected_base_size : Z) : M Database segment.WrittenBase :=
  db ← database.self;
  entries ← lift (items (db_base db)
               (raw_entries (db_base db) (db_overlay db) (opt_verification (db_options db))));
  written ← database.on_storage (segment.write_base_with_metadata_at DATA_START live_len entries);
  _ ← lift (fail_if (negb (segment.wb_size written =? expected_base_size))
              (error.other "base size changed while relocating compaction output"));
  _ ← database.on_storage (seek (Start (destination_end plan)));
  _ ← database.on_storage log.write_compact_marker;
  _ ← database.on_storage storage.sync_data;
  mret written.

(** Publishing the copy in both root slots. *)
Definition publish_relocated (sb : Superblock) : M Database () :=
  _ ← or_poison (database.on_storage (superblock.write sb));
  _ ← or_poison (database.on_storage storage.sync_all);
  _ ← or_poison (database.on_storage (superblock.write_redundant sb));
  or_poison (database.on_storage storage.sync_all).

(** Cutting the file behind the copy; the handle has no mapping of it meanwhile. *)
Definition truncate_to (plan : CompactPlan) (detached : ActiveBase) (sb : Superblock) : M Database () :=
  _ ← modify (database.set_state Unavailable);
  _ ← modify (database.set_base detached);
  _ ← database.on_storage (storage.set_len (destination_end plan));
  _ ← database.on_storage storage.sync_all;
  _ ← catch (database.install_superblock sb) (λ r, match r with
        | Ok _ => mret ()
        | Err e => _ ← modify (database.set_state Unavailable); lift (Err e)
        | Panic => lift Panic
        end);
  modify (database.set_state Healthy).

(** The second move: copy the staging Base to the start, publish the copy and cut the
    file. The stand-in Base is built before anything is published. *)
Definition move_to_front (plan : CompactPlan) (live_len expected_base_size : Z)
    (source_superblock : Superblock) : M Database () :=
  destination_generation ← lift (add_ovf (generation source_superblock) 1);
  detached ← lift (detached_base destination_generation);
  destination_written ← relocate plan live_len expected_base_size;
  let destination_superblock :=
    MkSuperblock destination_generation DATA_START (segment.wb_size destination_written)
      (segment.wb_slots destination_written) (segment.wb_len destination_written) (destination_end plan)
      (segment.wb_metadata_checksum destination_written) in
  _ ← publish_relocated destination_superblock;
  truncate_to plan detached destination_superblock.

Definition compact_file (live_len expected_base_size : Z) : M Database () :=
  plan ← compact_plan expected_base_size;
  written ← write_staging plan live_len expected_base_size;
  source_superblock ← publish_staging plan written;
  move_to_front plan live_len expected_base_size source_superblock.

Definition install_memory_base (base_offset : Z) (bs : bytes) (live_len : Z) : M Database () :=
  let mapping := BaseBytes.Memory bs 0 (blen bs) in
  mapped ← lift (BaseBytes.deref mapping);
  layout ← lift (segment.segment_layout mapped);
  '(base_slots, base_len) ← lift (segment.read_base_header (segment.layout_data layout));
  _ ← lift (fail_if (negb (base_len =? live_len)) (error.other "in-memory Base entry count changed"));
  base_checksum ← lift (segment.segment_metadata_checksum mapped);
  log_start ← lift (ok_or (checked_add base_offset (blen bs))
                      (error.from_io InvalidInput "Base range overflow"));
  db ← database.self;
  generation ← lift (add_ovf (ab_generation (db_base db)) 1);
  let sb := MkSuperblock generation base_offset (blen bs) base_slots base_len log_start base_checksum in
  installed ← lift (active_base.install mapping sb);
  _ ← or_poison (_ ← database.on_storage (superblock.write sb); database.on_storage storage.sync_all);
  _ ← or_poison (database.on_storage (storage.replace_memory_base base_offset bs));
  _ ← database.finish_superblock_install (Ok installed);
  clear_overlay.

Definition compact_memory (live_len expected_base_size : Z) : M Database () :=
  required ← lift (ok_or (checked_add DATA_START expected_base_size)
                     (error.from_io InvalidInput "compact size overflow"));
  db ← database.self;
  let limit := opt_max_database_bytes (db_options db) in
  _ ← lift (fail_if (limit <? required) (error.database_full limit required));
  bs ← lift (entries ← items (db_base db) (database.iter_raw db);
             build_memory_base DATA_START expected_base_size live_len entries);
  _ ← lift (fail_if (negb (blen bs =? expected_base_size)) (error.other "base size changed while compacting"));
  install_memory_base DATA_START bs live_len.

Definition compact : M Database () :=
  _ ← database.ensure_writable;
  db ← database.self;
  _ ← lift (fail_if (negb (db_snapshots db =? 0))
              (error.from_io WouldBlock "compact requires all snapshots to be dropped"));
  _ ← database.verify;
  db ← database.self;
  nothing ← (if (ab_offset (db_base db) =? DATA_START)
                && OverlayMap.is_empty (OverlayState.index (db_overlay db))
             then n ← database.on_storage storage.len; mret (n =? ab_log_start (db_base db))
             else mret false);
  if (nothing : bool) then mret () else
  '(live_len, expected_base_size) ← lift (entries ← items (db_base db) (database.iter_raw db);
                                          segment.measure_base_iter entries);
  if storage.is_memory (db_storage db) then compact_memory live_len expected_base_size
  else compact_file live_len expected_base_size.

End Maintenance.
End maintenance.
