(* ===== verification/Overwrite.v ===== *)
(** * Writing a Base when system calls fail

    What the writers that compaction uses leave behind on a file whose reads and
    writes may be short or fail at any point: nothing outside of the range they were
    given changes, on no step of the way, and when they report success the range holds
    what they were to write. *)

From S2P Require Import Prelude Errors Crates Io Superblock Values Log Segment Overlay Recovery View.
From S2P Require Import Base Storage Transaction Entries Database Faults Commit Written.

(** ** Contents that agree outside of a range *)

Definition outside (lo hi : Z) (c c' : bytes) : Prop :=
  blen c ≤ blen c' ∧ blen c' ≤ Z.max (blen c) hi
  ∧ ∀ a b, b ≤ lo ∨ hi ≤ a → b ≤ blen c → get_range c' a b = get_range c a b.

Lemma outside_refl lo hi c : outside lo hi c c.
Proof. unfold outside. split_and!; [lia|lia|done]. Qed.

Lemma outside_trans lo hi c c1 c2 : outside lo hi c c1 → outside lo hi c1 c2 → outside lo hi c c2.
Proof.
  intros (?&?&H1) (?&?&H2). split_and!; [lia|lia|]. intros a b Hab Hb.
  rewrite H2 by (done || lia). by apply H1.
Qed.

(** [d] written at [p]; nothing is written when [d] is empty. *)
Definition over (c : bytes) (p : Z) (d : bytes) : bytes :=
  match d with [] => c | _ => splice c p d end.

Lemma over_ne c p d : d ≠ [] → over c p d = splice c p d.
Proof. by destruct d. Qed.

Lemma over_app c p d x : 0 ≤ p → x ≠ [] → over c p (d ++ x) = splice (over c p d) (p + blen d) x.
Proof.
  intros Hp Hx. rewrite over_ne by (by destruct d).
  destruct d as [|b d]; [cbn; by rewrite Z.add_0_r|]. cbn [over]. by rewrite splice_splice_next.
Qed.

Lemma over_end c d : over c (blen c) d = c ++ d.
Proof. destruct d as [|b d]; [by rewrite app_nil_r|]. apply splice_end. Qed.

Lemma outside_over lo hi c p d : 0 ≤ lo → lo ≤ p → p + blen d ≤ hi → outside lo hi c (over c p d).
Proof.
  intros ???. destruct d as [|b d]; [apply outside_refl|]. rewrite over_ne by done. set (x := b :: d) in *.
  pose proof (blen_nonneg x). unfold outside. rewrite blen_splice by lia. split_and!; [lia|lia|].
  intros a e [?|?] ?; [apply get_range_splice_below|apply get_range_splice_above]; lia.
Qed.

Lemma outside_over_prefix lo hi c p d q :
  0 ≤ lo → lo ≤ p → p + blen d ≤ hi → q `prefix_of` d → outside lo hi c (over c p q).
Proof.
  intros ??? [r ->]. rewrite blen_app in *. pose proof (blen_nonneg r). apply outside_over; lia.
Qed.

(** ** Histories in sequence *)

Lemma history_trans R f0 f1 f2 : history R f0 f1 → history R f1 f2 → history R f0 f2.
Proof.
  intros (o1&Ht1&Hc1&Hk1) (o2&Ht2&Hc2&Hk2). exists (o1 ++ o2).
  split; [by rewrite Ht2, Ht1, app_assoc|]. unfold replay in *.
  split; [by rewrite foldl_app, Hc1|]. intros k. rewrite take_app, foldl_app.
  destruct (decide (k ≤ length o1)%nat).
  - replace (k - length o1)%nat with 0%nat by lia. rewrite take_0. apply Hk1.
  - rewrite (take_ge o1) by lia. rewrite Hc1. apply Hk2.
Qed.

(** A file storage with content [c] at position [p]. *)
Definition stored_at (R : bytes → Prop) (f0 : File) (c : bytes) (p : Z) (s : Storage) : Prop :=
  ∃ f, s = SFile f ∧ file_content f = c ∧ file_pos f = p ∧ history R f0 f ∧ file_script f `suffix_of` file_script f0.

Section Steps.
Context `{Alloc}.
Implicit Types (R : bytes → Prop) (c d : bytes) (s : Storage).

Lemma stored_at_stored R f0 c p s : stored_at R f0 c p s → stored R f0 c s.
Proof. intros (f&->&?&_&?&?). by exists f. Qed.

(** Bytes [d] written at [p] over the content of [f1]. *)
Definition spread (f1 : File) (p : Z) (d : bytes) (s : Storage) : Prop :=
  stored_at (λ c, ∃ q, q `prefix_of` d ∧ c = over (file_content f1) p q) f1
    (over (file_content f1) p d) (p + blen d) s.

Lemma storage_writes_at f1 p : 0 ≤ p → writes_prefix (spread f1 p) (faulty f1).
Proof.
  intros Hp0 s d bs (f&->&Hc&Hp&Hh&Hsu) Hne. pose proof (blen_pos bs Hne).
  cbn [Io.write storage.storage_stream]. unfold storage.dispatch. cbn [Io.write file_stream].
  unfold file.write.
  match goal with |- context [file.syscall ?b _] => destruct (syscall_any b f) as (g&Hgc&Hgp&Hgt&Hgs&[(e&->&He)|[x ->]]) end.
  - eexists (Err _), (SFile g). split; [done|]. right. eexists. split; [done|].
    split; [eapply faulty_suffix; [exact Hsu|by exists e]|]. exists g.
    split_and!; [done|congruence|congruence|by eapply history_same|by etrans].
  - cbn zeta. set (n := file.limit x (blen bs)).
    assert (Hn : 0 < n ≤ blen bs) by (unfold n, file.limit; destruct x; lia).
    set (now := take (Z.to_nat n) bs).
    assert (Hnb : blen now = n) by (unfold now; rewrite blen_take; lia).
    assert (Hnn : now ≠ []) by (intros E; rewrite E, blen_nil in Hnb; lia).
    eexists (Ok n), _. split; [done|]. left. exists n. split; [done|]. split; [done|]. fold now.
    assert (Hs : splice (file_content g) (file_pos g) now = over (file_content f1) p (d ++ now))
      by (rewrite Hgp, Hgc, Hp, Hc, over_app; done).
    eexists. split; [done|]. cbn. rewrite Hs. split; [done|].
    split; [rewrite Hgp, Hp, blen_app, Hnb; lia|]. split; [|by etrans].
    eapply (history_snoc _ _ g _ (OpWrite (file_pos g) now)).
    + eapply (history_same _ _ f); [|done|done]. eapply history_mono; [exact Hh|].
      intros c' (q&Hpre&->). exists q. split; [by apply prefix_app_r|done].
    + cbn. by rewrite <- Hs.
    + done.
    + cbn. by exists (d ++ now).
Qed.

Lemma spread_init R f0 c p s :
  stored_at R f0 c p s → ∃ f1, s = SFile f1 ∧ file_content f1 = c ∧ spread f1 p [] s ∧ history R f0 f1
    ∧ file_script f1 `suffix_of` file_script f0.
Proof.
  intros (f&->&Hc&Hp&Hh&Hs). exists f. split_and!; try done. exists f. rewrite blen_nil, Z.add_0_r.
  split_and!; try done. apply history_refl. by exists [].
Qed.

(** What was spread over the stored content. *)
Lemma spread_stored R f0 f1 p d d' s :
  history R f0 f1 → file_script f1 `suffix_of` file_script f0 → spread f1 p d s → d `prefix_of` d' →
  (∀ q, q `prefix_of` d' → R (over (file_content f1) p q)) →
  stored_at R f0 (over (file_content f1) p d) (p + blen d) s.
Proof.
  intros Hh Hs (f&->&Hc&Hp&Hh1&Hs1) Hd HR. exists f. split_and!; [done|done|done| |by etrans].
  eapply history_trans; [exact Hh|]. eapply history_mono; [exact Hh1|]. intros c' (q&Hq&->). apply HR. by etrans.
Qed.

(** A buffered append at [p]. *)
Lemma scoped_write_any R f0 c p s capacity parts :
  stored_at R f0 c p s → 0 ≤ p → 0 ≤ capacity →
  (∀ q, q `prefix_of` concat parts → R (over c p q)) →
  ∃ r s' d, BufWriter.scoped capacity (_ ← write_parts parts; _ ← BufWriter.flush_buf; mret ()) s = (r, s')
    ∧ d `prefix_of` concat parts ∧ stored_at R f0 (over c p d) (p + blen d) s'
    ∧ (r = Ok () ∧ d = concat parts ∨ ∃ e, r = Err e ∧ faulty f0).
Proof.
  intros Hst Hp Hcap HR. destruct (spread_init _ _ _ _ _ Hst) as (f1&->&<-&Hsp&Hh&Hsu).
  destruct (scoped_append_any _ _ (storage_writes_at f1 p Hp) capacity parts (SFile f1) Hcap Hsp) as (r&s'&d&Hr&Hd&Ha&Ho).
  exists r, s', d. split; [done|]. split; [done|]. split; [by eapply spread_stored|].
  destruct Ho as [?|(e&->&HF)]; [by left|right]. exists e. split; [done|]. by eapply faulty_suffix.
Qed.

Lemma write_all_any R f0 c p s bs :
  stored_at R f0 c p s → 0 ≤ p → (∀ q, q `prefix_of` bs → R (over c p q)) →
  ∃ r s' d, write_all bs s = (r, s') ∧ d `prefix_of` bs ∧ stored_at R f0 (over c p d) (p + blen d) s'
    ∧ (r = Ok () ∧ d = bs ∨ ∃ e, r = Err e ∧ faulty f0).
Proof.
  intros Hst Hp HR. destruct (spread_init _ _ _ _ _ Hst) as (f1&->&<-&Hsp&Hh&Hsu).
  destruct (write_all_loop_any _ _ (storage_writes_at f1 p Hp) (length bs) (SFile f1) [] bs Hsp) as (r&s'&Hr&Ho); [lia|].
  rewrite app_nil_l in Ho. exists r, s'. destruct Ho as [[-> Ha]|(e&d&->&HF&Hd&Ha)].
  - exists bs. split; [done|]. split; [done|]. split; [by eapply spread_stored|by left].
  - rewrite app_nil_l in Ha. exists d. split; [done|]. split; [done|]. split; [by eapply spread_stored|]. right.
    exists e. split; [done|]. by eapply faulty_suffix.
Qed.

Lemma seek_start_any R f0 c s p :
  stored R f0 c s → 0 ≤ p ≤ ISIZE_MAX →
  ∃ r s', Io.seek (Start p) s = (r, s') ∧ stored R f0 c s'
    ∧ (r = Ok p ∧ stored_at R f0 c p s' ∨ ∃ e, r = Err e ∧ faulty f0).
Proof.
  intros Hst Hp. pose proof Hst as (f&->&Hc&_).
  cbn [Io.seek storage.storage_stream]. unfold storage.dispatch. cbn [Io.seek file_stream]. unfold file.seek.
  destruct (stored_syscall R f0 c f (λ _ f, file.seek_to p f) Hst) as (g&Hg&Hgc&_&_&_&[(e&->&HF)|[x ->]]).
  - exists (Err e), (SFile g). split_and!; eauto.
  - unfold file.seek_to. replace (0 <=? p) with true by lia. replace (p <=? ISIZE_MAX) with true by lia.
    cbn [andb]. destruct Hg as (?&[= <-]&?&Hh&?).
    assert (Hat : stored_at R f0 c p (SFile (file.set_pos p g)))
      by (eexists; split; [done|]; split_and!; [done|done|by eapply history_same|done]).
    eexists (Ok p), _. split; [done|]. split; [by eapply stored_at_stored|]. left. by split.
Qed.

(** Reading what is there. *)
Lemma read_any R f0 c p s n :
  stored_at R f0 c p s → 0 < n → 0 ≤ p → p + n ≤ blen c →
  ∃ r s', Io.read n s = (r, s')
    ∧ ((∃ k, r = Ok (take (Z.to_nat k) (drop (Z.to_nat p) c)) ∧ 0 < k ≤ n ∧ stored_at R f0 c (p + k) s')
       ∨ ∃ e, r = Err e ∧ faulty f0 ∧ stored R f0 c s').
Proof.
  intros Hst Hn Hp Hl. pose proof (stored_at_stored _ _ _ _ _ Hst) as Hst'. destruct Hst as (f&->&Hc&Hpos&_).
  cbn [Io.read storage.storage_stream]. unfold storage.dispatch. cbn [Io.read file_stream]. unfold file.read.
  match goal with |- context [file.syscall ?b _] =>
    destruct (stored_syscall R f0 c f b Hst') as (g&Hg&Hgc&Hgp&_&_&[(e&->&HF)|[x ->]]) end.
  - exists (Err e), (SFile g). split; [done|]. right. by exists e.
  - set (k := file.limit x n). assert (Hk : 0 < k ≤ n) by (unfold k, file.limit; destruct x; lia).
    eexists _, _. split; [done|]. left. exists k. rewrite Hgc, Hgp, Hpos. split; [done|]. split; [done|].
    destruct Hg as (?&[= <-]&_&Hh&?). eexists. split; [done|]. split; [done|]. cbn [file_pos file.set_pos].
    split; [rewrite blen_take, blen_drop; lia|]. by split; [eapply history_same|].
Qed.

Lemma read_exact_any R f0 c p s n :
  stored_at R f0 c p s → 0 ≤ n → 0 ≤ p → p + n ≤ blen c →
  ∃ r s', read_exact n s = (r, s')
    ∧ (r = Ok (take (Z.to_nat n) (drop (Z.to_nat p) c)) ∧ stored_at R f0 c (p + n) s'
       ∨ ∃ e, r = Err e ∧ faulty f0 ∧ stored R f0 c s').
Proof.
  intros Hst Hn Hp Hl. unfold read_exact.
  assert (Hf : (Z.to_nat n ≤ Z.to_nat n)%nat) by lia. revert Hf. generalize (Z.to_nat n) at 2 3 as fuel.
  intros fuel. revert n p s Hst Hn Hp Hl. induction fuel as [|fuel IH]; intros n p s Hst Hn Hp Hl Hf.
  { assert (n = 0) as -> by lia. exists (Ok []), s. split; [done|]. left. rewrite take_0, Z.add_0_r. by split. }
  cbn [read_exact_loop]. destruct (n =? 0) eqn:E; bool_prop.
  { subst n. exists (Ok []), s. split; [done|]. left. rewrite take_0, Z.add_0_r. by split. }
  destruct (read_any R f0 c p s n Hst ltac:(lia) Hp Hl) as (r&s1&Hr&[(k&->&Hk&Hs1)|(e&->&HF&Hs1)]).
  2:{ exists (Err e), s1. rewrite (M_bind_err _ _ _ _ _ Hr). split; [done|]. right. by exists e. }
  mrun Hr. set (got := take (Z.to_nat k) (drop (Z.to_nat p) c)).
  assert (Hg : blen got = k) by (unfold got; rewrite blen_take, blen_drop; lia).
  destruct (IH (n - k) (p + k) s1 Hs1) as (r&s2&Hr2&Ho); [lia..|]. destruct got as [|x got'] eqn:Eg; [rewrite blen_nil in Hg; lia|].
  rewrite <- Eg in *. rewrite Hg. destruct Ho as [[-> Hs2]|(e&->&HF&Hs2)].
  - mrun Hr2. eexists (Ok _), s2. split; [done|]. left. split; [|by replace (p + n) with (p + k + (n - k)) by lia].
    f_equal. unfold got. replace (Z.to_nat n) with (Z.to_nat k + Z.to_nat (n - k))%nat by lia.
    rewrite <- take_take_drop, drop_drop. do 3 f_equal. lia.
  - exists (Err e), s2. rewrite (M_bind_err _ _ _ _ _ Hr2). split; [done|]. right. by exists e.
Qed.

End Steps.

(** ** The writer of a Base *)

Section WriteBase.
Context `{Crc32cLaws, Xxh3Laws, Alloc}.
Implicit Types (R : bytes → Prop) (c d : bytes) (s : Storage) (entries : list (bytes * bytes)).

(** A system call or an allocation was going to fail. *)
Definition troubled (f : File) : Prop := faulty f ∨ ∃ n, try_reserve n = false.

Lemma block_checksums_any R f0 c fuel p s data :
  stored_at R f0 c p s → blen data ≤ Z.of_nat fuel * segment.CHECKSUM_BLOCK_SIZE →
  get_range c p (p + blen data) = Some data →
  ∃ r s', segment.block_checksums fuel (blen data) s = (r, s') ∧ stored R f0 c s'
    ∧ (r = Ok (crc32c <$> chunks segment.BLOCK data) ∨ ∃ e, r = Err e ∧ faulty f0).
Proof.
  pose proof segment.BLOCK_Z as Hn. pose proof segment.BLOCK_pos. unfold segment.CHECKSUM_BLOCK_SIZE in *.
  set (n := segment.BLOCK) in *.
  revert p s data. induction fuel as [|fuel IH]; intros p s data Hst Hf Hg.
  - assert (data = []) as -> by (apply blen_0; lia).
    exists (Ok []), s. split; [done|]. split; [by eapply stored_at_stored|by left].
  - destruct (decide (data = [])) as [->|Hne].
    { exists (Ok []), s. split; [done|]. split; [by eapply stored_at_stored|by left]. }
    pose proof (blen_pos data Hne). pose proof (get_range_Some _ _ _ _ Hg) as (?&?&_&Hdata).
    cbn [segment.block_checksums]. replace (blen data <=? 0) with false by lia.
    unfold segment.CHECKSUM_BLOCK_SIZE. set (len := Z.min (blen data) (64 * 1024)).
    destruct (read_exact_any R f0 c p s len Hst) as (r&s1&Hr&Ho); [lia..|].
    destruct Ho as [[-> Hs1]|(e&->&HF&Hs1)].
    2:{ exists (Err e), s1. rewrite (M_bind_err _ _ _ _ _ Hr). split; [reflexivity|]. split; [assumption|]. right. exists e. exact (conj eq_refl HF). }
    mrun Hr. replace (p + blen data - p) with (blen data) in Hdata by lia.
    assert (Hblk : take (Z.to_nat len) (drop (Z.to_nat p) c) = take n data).
    { trans (take n (take (Z.to_nat (blen data)) (drop (Z.to_nat p) c))); [|by rewrite <- Hdata].
      rewrite take_take. f_equal. lia. }
    rewrite Hblk. destruct (IH (p + len) s1 (drop n data) Hs1) as (r&s2&Hr2&Hs2&Ho).
    + rewrite blen_drop. lia.
    + rewrite blen_drop. assert (Hrest : get_range data len (blen data) = Some (drop n data)).
      { rewrite get_range_in_bounds by lia. f_equal. rewrite take_ge by (rewrite length_drop; unfold blen; lia).
        unfold len. destruct (decide (blen data ≤ 64 * 1024)).
        - rewrite !drop_ge; [done|unfold blen in *; lia..].
        - f_equal. lia. }
      rewrite <- Hrest. rewrite (get_range_get_range _ _ _ _ len (blen data) Hg) by lia. f_equal; lia.
    + replace (blen data - len) with (blen (drop n data)) by (rewrite blen_drop; lia).
      destruct Ho as [->|(e&->&HF)].
      * mrun Hr2. eexists (Ok _), s2. split; [reflexivity|]. split; [assumption|]. left.
        by rewrite (chunks_cons n data).
      * exists (Err e), s2. rewrite (M_bind_err _ _ _ _ _ Hr2). split; [reflexivity|]. split; [assumption|]. right. exists e. exact (conj eq_refl HF).
Qed.

Lemma append_block_checksums_any R f0 c s start data :
  stored R f0 c s → 0 ≤ start → start + blen (segment.segment_bytes data) ≤ ISIZE_MAX →
  get_range c start (start + blen data) = Some data →
  (∀ q, q `prefix_of` segment.base_metadata data → R (over c (start + blen data) q)) →
  ∃ r s' d, segment.append_block_checksums start (blen data) s = (r, s')
    ∧ d `prefix_of` segment.base_metadata data ∧ stored R f0 (over c (start + blen data) d) s'
    ∧ (r = Ok (segment.MkWrittenSegment (blen (segment.segment_bytes data)) (crc32c (segment.base_metadata data)))
         ∧ d = segment.base_metadata data
       ∨ ∃ e, r = Err e ∧ troubled f0).
Proof.
  intros Hst Hs0 Hb Hg HR. pose proof (blen_nonneg data). pose proof (blen_nonneg (segment.base_metadata data)).
  assert (Hsz : blen (segment.segment_bytes data) = blen data + blen (segment.base_metadata data))
    by (unfold segment.segment_bytes; by rewrite blen_app).
  (* an error before anything was written *)
  assert (Hstop : ∀ e s1, stored R f0 c s1 → troubled f0 → ∃ r s' d, (@Err segment.WrittenSegment e, s1) = (r, s')
    ∧ d `prefix_of` segment.base_metadata data ∧ stored R f0 (over c (start + blen data) d) s'
    ∧ (r = Ok (segment.MkWrittenSegment (blen (segment.segment_bytes data)) (crc32c (segment.base_metadata data)))
         ∧ d = segment.base_metadata data
       ∨ ∃ e, r = Err e ∧ troubled f0)).
  { intros e s1 Hs1 HF. exists (Err e), s1, []. split; [done|]. split; [apply prefix_nil|]. split; [exact Hs1|]. right. exists e. exact (conj eq_refl HF). }
  unfold segment.append_block_checksums.
  destruct (seek_start_any R f0 c s start Hst) as (r&s1&Hr1&Hs1&[[-> Hat1]|(e&->&HF)]); [lia| |].
  2:{ rewrite (M_bind_err _ _ _ _ _ Hr1). apply Hstop; [done|by left]. }
  mrun Hr1.
  destruct (block_checksums_any R f0 c (Z.to_nat (div_ceil (blen data) segment.CHECKSUM_BLOCK_SIZE)) start s1 data Hat1)
    as (r&s2&Hr2&Hs2&Ho); [|done|].
  { pose proof (div_ceil_mul (blen data) segment.CHECKSUM_BLOCK_SIZE ltac:(done)).
    unfold segment.CHECKSUM_BLOCK_SIZE in *. lia. }
  destruct Ho as [->|(e&->&HF)].
  2:{ rewrite (M_bind_err _ _ _ _ _ Hr2). apply Hstop; [done|by left]. }
  mrun Hr2. destruct (try_reserve (blen (segment.base_metadata data))) eqn:Ha.
  2:{ destruct (segment.checksum_metadata_starved data ltac:(lia) Ha) as [e He]. rewrite He. apply Hstop; [done|]. right. by eexists. }
  rewrite segment.checksum_metadata_ok by (done || lia). rewrite M_lift_ok.
  rewrite add_ovf_ok by lia. rewrite M_lift_ok.
  destruct (seek_start_any R f0 c s2 (start + blen data) Hs2) as (r&s3&Hr3&Hs3&[[-> Hat3]|(e&->&HF)]); [lia| |].
  2:{ rewrite (M_bind_err _ _ _ _ _ Hr3). apply Hstop; [done|by left]. }
  mrun Hr3.
  destruct (write_all_any R f0 c _ s3 (segment.base_metadata data) Hat3 ltac:(lia) HR) as (r&s4&d&Hr4&Hd&Hs4&Ho).
  apply stored_at_stored in Hs4. destruct Ho as [[-> ->]|(e&->&HF)].
  - mrun Hr4. rewrite checked_add_ok by lia. cbn [ok_or]. rewrite M_lift_ok, <- Hsz.
    eexists (Ok _), s4, _. split; [done|]. split; [done|]. split; [done|]. by left.
  - exists (Err e), s4, d. rewrite (M_bind_err _ _ _ _ _ Hr4). split; [done|]. split; [done|]. split; [done|].
    right. exists e. exact (conj eq_refl (or_introl HF)).
Qed.

(** A buffered run of writes that also returns a value. *)
Lemma scoped_ret {S A} `{Stream S} capacity parts (m : M (BufWriter S) A) (a : A) (s : S) :
  (∀ w, m w = (write_parts parts ≫= λ _, mret a) w) →
  BufWriter.scoped capacity (r ← m; _ ← BufWriter.flush_buf; mret r) s
  = let '(r, s') := BufWriter.scoped capacity (_ ← write_parts parts; _ ← BufWriter.flush_buf; mret ()) s in
    ((λ _, a) <$> r, s').
Proof.
  intros Hm. unfold BufWriter.scoped, mbind, M_bind. rewrite Hm. unfold mbind, M_bind, mret, M_ret.
  destruct (write_parts parts _) as [[[]|e|] w]; [|done..].
  by destruct (BufWriter.flush_buf w) as [[[]|e|] w'].
Qed.

Lemma scoped_flush {S} `{Stream S} capacity parts (m : M (BufWriter S) ()) (s : S) :
  (∀ w, m w = write_parts parts w) →
  BufWriter.scoped capacity (m ≫= λ _, BufWriter.flush_buf) s
  = BufWriter.scoped capacity (_ ← write_parts parts; _ ← BufWriter.flush_buf; mret ()) s.
Proof.
  intros Hm. unfold BufWriter.scoped, mbind, M_bind. rewrite Hm.
  destruct (write_parts parts _) as [[[]|e|] w]; [|done..]. unfold mret, M_ret.
  by destruct (BufWriter.flush_buf w) as [[[]|e|] w'].
Qed.

Lemma base_front_ne slots len index : segment.base_header slots len ++ segment.encode_slots index ≠ [].
Proof. unfold segment.base_header. destruct segment.HASH_SECTION_ID eqn:E; discriminate E || discriminate. Qed.

Lemma base_metadata_ne data : segment.base_metadata data ≠ [].
Proof.
  intros E. pose proof (segment.blen_base_footer data) as Hf. unfold segment.base_metadata in E.
  apply app_eq_nil in E as [_ E]. rewrite E in Hf. discriminate Hf.
Qed.

(** The three parts of a Base one over the other. *)
Lemma over_base c start slots index entries :
  0 ≤ start → blen index = slots →
  let data := segment.base_data slots index entries in
  over (over (over c (start + BASE_HEADER + slots * segment.SLOT_SIZE) (segment.encode_entries entries)) start
          (segment.base_header slots (blen entries) ++ segment.encode_slots index))
    (start + blen data) (segment.base_metadata data)
  = splice c start (segment.segment_bytes data).
Proof.
  intros Hs Hi data. set (pre := segment.base_header slots (blen entries) ++ segment.encode_slots index).
  assert (Hpre : blen pre = BASE_HEADER + slots * segment.SLOT_SIZE)
    by (unfold pre; rewrite blen_app, segment.blen_base_header, segment.blen_encode_slots; lia).
  rewrite (over_ne _ _ pre), (over_ne _ _ (segment.base_metadata data)) by (apply base_front_ne || apply base_metadata_ne).
  assert (Hd : data = pre ++ segment.encode_entries entries)
    by (unfold data, segment.base_data, pre; by rewrite app_assoc).
  assert (Hin : splice (over c (start + BASE_HEADER + slots * segment.SLOT_SIZE) (segment.encode_entries entries)) start pre
    = splice c start data).
  { rewrite Hd. destruct (segment.encode_entries entries) as [|x l] eqn:E; [by rewrite app_nil_r|].
    rewrite over_ne by discriminate.
    replace (start + BASE_HEADER + slots * segment.SLOT_SIZE) with (start + blen pre) by lia.
    by rewrite splice_splice_before. }
  rewrite Hin. unfold segment.segment_bytes. by rewrite splice_splice_next.
Qed.

(** The data part of the written Base can be read back. *)
Lemma over_data c start slots index entries :
  0 ≤ start → blen index = slots →
  let data := segment.base_data slots index entries in
  get_range (over (over c (start + BASE_HEADER + slots * segment.SLOT_SIZE) (segment.encode_entries entries)) start
       (segment.base_header slots (blen entries) ++ segment.encode_slots index)) start (start + blen data) = Some data.
Proof.
  intros Hs Hi data. rewrite <- (get_range_splice_below _ (start + blen data) (segment.base_metadata data));
    [|pose proof (blen_nonneg data); lia|lia|].
  - rewrite <- (over_ne _ _ (segment.base_metadata data)) by apply base_metadata_ne.
    unfold data. rewrite over_base by done. fold data. pose proof (blen_nonneg (segment.base_metadata data)).
    rewrite get_range_splice_in by (unfold segment.segment_bytes; rewrite ?blen_app; lia).
    rewrite Z.sub_diag, Z.add_simpl_l. by apply get_range_head.
  - rewrite over_ne by apply base_front_ne. pose proof (blen_nonneg data).
    rewrite blen_splice by done. unfold data. rewrite segment.blen_base_data, Hi.
    rewrite blen_app, segment.blen_base_header, segment.blen_encode_slots, Hi.
    destruct (segment.encode_entries entries) as [|x l] eqn:E; [cbn [over]; rewrite blen_nil; lia|].
    rewrite over_ne, blen_splice by (discriminate || (unfold segment.SLOT_SIZE, BASE_HEADER; pose proof (blen_nonneg index); lia)). lia.
Qed.

Section Range.
Context (R : bytes → Prop) (f0 : File) (lo hi : Z).
Hypothesis (Hlo : 0 ≤ lo) (Hhi : hi ≤ ISIZE_MAX).

Lemma write_records_any c s slots entries index rs :
  stored R f0 c s → lo ≤ rs → rs + blen (segment.encode_entries entries) ≤ hi → Forall segment.entry_ok entries →
  segment.fold_index slots (segment.placed_from rs entries) (replicate (Z.to_nat slots) (0, 0)) = Ok index →
  (∀ c', outside lo hi c c' → R c') →
  ∃ r s' c', (_ ← Io.seek (Start rs); BufWriter.scoped segment.WRITE_BUFFER_SIZE (
      r ← segment.write_entries slots entries (replicate (Z.to_nat slots) (0, 0)) rs 0;
      _ ← BufWriter.flush_buf; mret r)) s = (r, s')
    ∧ outside lo hi c c' ∧ stored R f0 c' s'
    ∧ (r = Ok (index, rs + blen (segment.encode_entries entries), blen entries)
         ∧ c' = over c rs (segment.encode_entries entries)
       ∨ ∃ e, r = Err e ∧ faulty f0).
Proof using All.
  intros Hst Hrs Hend Hes Hfold HR. set (enc := segment.encode_entries entries) in *.
  pose proof (blen_nonneg enc) as Henc.
  destruct (seek_start_any R f0 c s rs Hst) as (r&s1&Hr1&Hs1&[[-> Hat1]|(e&->&HF)]); [lia| |].
  2:{ exists (Err e), s1, c. rewrite (M_bind_err _ _ _ _ _ Hr1). split; [done|]. split; [apply outside_refl|].
      split; [done|]. right. by exists e. }
  mrun Hr1.
  destruct (scoped_write_any R f0 c rs s1 segment.WRITE_BUFFER_SIZE (concat (segment.entry_parts <$> entries)) Hat1)
    as (r&s2&d2&Hr2&Hd2&Hs2&Ho2); [lia|done| |].
  { intros q Hq. rewrite segment.concat_entry_parts in Hq. apply HR. by eapply (outside_over_prefix _ _ _ _ enc); [..|exact Hq]. }
  rewrite segment.concat_entry_parts in Hd2, Ho2. fold enc in Hd2, Ho2.
  pose proof (scoped_ret segment.WRITE_BUFFER_SIZE (concat (segment.entry_parts <$> entries))
    (segment.write_entries slots entries (replicate (Z.to_nat slots) (0, 0)) rs 0)
    (index, rs + blen enc, blen entries) s1) as Hsr. rewrite Hr2 in Hsr.
  assert (Hlt : rs + blen enc < U64) by lia.
  rewrite (Hsr (λ w, segment.write_entries_parts slots entries _ index rs 0 w Hes Hfold Hlt)).
  eexists _, s2, (over c rs d2). split; [done|]. split; [by eapply (outside_over_prefix _ _ _ _ enc); [..|exact Hd2]|].
  split; [by eapply stored_at_stored|]. destruct Ho2 as [[-> ->]|(e&->&HF)]; [by left|right; by exists e].
Qed.

Lemma write_index_any c s slots len index start :
  stored R f0 c s → lo ≤ start → blen index = slots → start + BASE_HEADER + slots * segment.SLOT_SIZE ≤ hi →
  (∀ c', outside lo hi c c' → R c') →
  let front := segment.base_header slots len ++ segment.encode_slots index in
  ∃ r s' c', (_ ← Io.seek (Start start); BufWriter.scoped segment.WRITE_BUFFER_SIZE (
      segment.write_index slots len index ≫= λ _, BufWriter.flush_buf)) s = (r, s')
    ∧ outside lo hi c c' ∧ stored R f0 c' s'
    ∧ (r = Ok () ∧ c' = over c start front ∨ ∃ e, r = Err e ∧ faulty f0).
Proof using All.
  intros Hst Hs Hi Hend HR front.
  assert (Hfl : blen front = BASE_HEADER + slots * segment.SLOT_SIZE)
    by (unfold front; rewrite blen_app, segment.blen_base_header, segment.blen_encode_slots; lia).
  assert (0 ≤ slots * segment.SLOT_SIZE) by (unfold segment.SLOT_SIZE; pose proof (blen_nonneg index); lia).
  assert (0 < BASE_HEADER) by done.
  destruct (seek_start_any R f0 c s start Hst) as (r&s3&Hr3&Hs3&[[-> Hat3]|(e&->&HF)]); [lia| |].
  2:{ exists (Err e), s3, c. rewrite (M_bind_err _ _ _ _ _ Hr3). split; [done|]. split; [apply outside_refl|].
      split; [done|]. right. by exists e. }
  mrun Hr3. set (parts := [segment.HASH_SECTION_ID; u32_le BASE_HEADER; u64_le slots; u64_le len]
                 ++ concat (segment.slot_parts <$> index)).
  assert (Hparts : concat parts = front) by (unfold parts; rewrite concat_app, segment.concat_slot_parts; reflexivity).
  rewrite (scoped_flush segment.WRITE_BUFFER_SIZE parts) by (intros w; by apply segment.write_index_parts).
  destruct (scoped_write_any R f0 c start s3 segment.WRITE_BUFFER_SIZE parts Hat3)
    as (r&s4&d4&Hr4&Hd4&Hs4&Ho4); [lia|done| |].
  { intros q Hq. rewrite Hparts in Hq. apply HR. eapply (outside_over_prefix _ _ _ _ front); [lia..|exact Hq]. }
  rewrite Hparts in Hd4, Ho4.
  exists r, s4, (over c start d4). split; [done|].
  split; [eapply (outside_over_prefix _ _ _ _ front); [lia..|exact Hd4]|].
  split; [by eapply stored_at_stored|]. destruct Ho4 as [[-> ->]|(e&->&HF)]; [by left|right; by exists e].
Qed.

End Range.

Lemma write_base_any R f0 c s start entries size :
  stored R f0 c s → 0 ≤ start → Forall segment.entry_ok entries → NoDup entries.*1 →
  segment.measure_base_iter entries = Ok (blen entries, size) → start + size ≤ ISIZE_MAX →
  (∀ c', outside start (start + size) c c' → R c') →
  ∃ r s' c', segment.write_base_with_metadata_at start (blen entries) entries s = (r, s')
    ∧ outside start (start + size) c c' ∧ stored R f0 c' s'
    ∧ ((∃ w bs, r = Ok w ∧ c' = splice c start bs ∧ written_as start size entries w bs)
       ∨ ∃ e, r = Err e ∧ troubled f0).
Proof.
  intros Hst Hs0 Hes Hnd Hm Hb HR. set (hi := start + size) in *.
  destruct (measured entries size Hm) as (slots&Hsc&Hsize).
  destruct (segment.slot_count_bounds entries slots Hsc) as (Hsl&_).
  set (rs := start + BASE_HEADER + slots * segment.SLOT_SIZE).
  assert (Hsp : 0 ≤ slots * segment.SLOT_SIZE) by (unfold segment.SLOT_SIZE; lia). assert (Hbh : 0 < BASE_HEADER) by done.
  destruct (segment.build_index_spec entries slots rs Hsc) as (index&Hfold&Hiok); [unfold rs; lia|].
  pose proof Hiok as (Hil&_). specialize (Hsize index Hil).
  set (data := segment.base_data slots index entries) in *.
  assert (Hdl : blen data = BASE_HEADER + slots * segment.SLOT_SIZE + blen (segment.encode_entries entries))
    by (unfold data; by rewrite segment.blen_base_data, Hil).
  assert (Hsz : size = blen data + blen (segment.base_metadata data))
    by (rewrite Hsize; unfold segment.segment_bytes; by rewrite blen_app).
  pose proof (blen_nonneg (segment.base_metadata data)). pose proof (blen_nonneg (segment.encode_entries entries)).
  (* an error, with some bytes inside the range *)
  assert (Hstop : ∀ e s1 c1, outside start hi c c1 → stored R f0 c1 s1 → troubled f0 →
    ∃ r s' c', (@Err segment.WrittenBase e, s1) = (r, s') ∧ outside start hi c c' ∧ stored R f0 c' s'
      ∧ ((∃ w bs, r = Ok w ∧ c' = splice c start bs ∧ written_as start size entries w bs)
         ∨ ∃ e, r = Err e ∧ troubled f0)).
  { intros e s1 c1 Ho1 Hs1 HF. exists (Err e), s1, c1. split; [reflexivity|]. split; [exact Ho1|]. split; [exact Hs1|].
    right. exists e. exact (conj eq_refl HF). }
  assert (HRt : ∀ c1, outside start hi c c1 → ∀ c', outside start hi c1 c' → R c')
    by (intros c1 Ho c' Ho'; apply HR; by eapply outside_trans).
  unfold segment.write_base_with_metadata_at. rewrite Hsc, M_lift_ok.
  rewrite checked_mul_ok by lia. cbn [ok_or]. rewrite M_lift_ok.
  rewrite checked_add_ok by lia. cbn [mbind option_bind]. rewrite checked_add_ok by lia.
  cbn [ok_or]. rewrite M_lift_ok. fold rs.
  destruct (write_records_any R f0 start hi Hs0 ltac:(lia) c s slots entries index rs Hst) as (r&s1&c1&Hr1&Ho1&Hs1&Hc1);
    [unfold rs; lia|unfold rs, hi; lia|done..|].
  rewrite <- M_bind_assoc. destruct Hc1 as [[-> Hc1]|(e&->&HF)].
  2:{ rewrite (M_bind_err _ _ _ _ _ Hr1). eapply Hstop; [exact Ho1|exact Hs1|by left]. }
  mrun Hr1. rewrite Z.eqb_refl. cbn [negb fail_if]. rewrite M_lift_ok.
  destruct (write_index_any R f0 start hi Hs0 ltac:(lia) c1 s1 slots (blen entries) index start Hs1) as (r&s2&c2&Hr2&Ho2&Hs2&Hc2);
    [done|done|unfold hi; lia|by apply HRt|]. pose proof (outside_trans _ _ _ _ _ Ho1 Ho2) as Ho2'.
  rewrite <- M_bind_assoc. destruct Hc2 as [[-> Hc2]|(e&->&HF)].
  2:{ rewrite (M_bind_err _ _ _ _ _ Hr2). eapply Hstop; [exact Ho2'|exact Hs2|by left]. }
  mrun Hr2. replace (rs + blen (segment.encode_entries entries) - start) with (blen data) by (unfold rs; lia).
  assert (Hgd : get_range c2 start (start + blen data) = Some data) by (rewrite Hc2, Hc1; by apply over_data).
  destruct (append_block_checksums_any R f0 c2 s2 start data Hs2 Hs0) as (r&s3&d3&Hr3&Hd3&Hs3&Hc3); [lia|exact Hgd| |].
  { intros q Hq. apply (HRt c2 Ho2'). eapply (outside_over_prefix _ _ _ _ (segment.base_metadata data)); [done|lia|unfold hi; lia|exact Hq]. }
  assert (Ho3 : outside start hi c (over c2 (start + blen data) d3)).
  { eapply outside_trans; [exact Ho2'|].
    eapply (outside_over_prefix _ _ _ _ (segment.base_metadata data)); [done|lia|unfold hi; lia|exact Hd3]. }
  destruct Hc3 as [[-> ->]|(e&->&HF)].
  2:{ rewrite (M_bind_err _ _ _ _ _ Hr3). eapply Hstop; [exact Ho3|exact Hs3|exact HF]. }
  mrun Hr3. eexists (Ok _), s3, _. split; [reflexivity|]. split; [exact Ho3|]. split; [exact Hs3|].
  left. eexists _, _. split; [reflexivity|]. split; [rewrite Hc2, Hc1; by apply over_base|].
  apply (written_segment start slots index entries size); assumption.
Qed.

End WriteBase.
