(* ===== verification/Compaction.v ===== *)
(** * Compaction is crash-safe

    [compact] on a file, whichever system call fails: the handle and every content of
    the file on the way stand for the same map. The steps of [compact_file] are proved
    one by one; each names the image that the next crash would find. *)

From S2P Require Import Prelude Errors Crates Io Superblock Values Log Segment Overlay Recovery View.
From S2P Require Import Base Storage Transaction Entries Database Maintenance Faults Commit Written Reopen Handle Overwrite.
Import overlay_map_facts commit_facts.

Module compaction.

#[local] Abbreviation DATA_START := superblock.DATA_START.
#[local] Abbreviation PAGE := superblock.SUPERBLOCK_SIZE.

(** ** Images *)

Section Images.
Context `{Crc32cLaws, Xxh3Laws}.
Implicit Types (c : bytes) (sb : Superblock) (entries : list (bytes * bytes)) (batches : list (list mutation)).

Lemma marker_prefix_end p : p `prefix_of` log.compact_marker → recovery.log_end p.
Proof.
  intros [q Hq]. destruct q as [|x q].
  - rewrite app_nil_r in Hq. right; left. exists []. by rewrite app_nil_r.
  - left. pose proof log.blen_compact_marker as Hl. rewrite Hq, blen_app, blen_cons in Hl. pose proof (blen_nonneg q). lia.
Qed.

Lemma outside_app lo hi c c' : outside lo hi c c' → blen c ≤ lo → ∃ junk, c' = c ++ junk.
Proof.
  intros (Hl&_&Hg) Hlo. exists (drop (length c) c').
  pose proof (Hg 0 (blen c) ltac:(by left) ltac:(lia)) as Hc. rewrite (get_range_all c) in Hc by done.
  apply get_range_Some in Hc as (_&_&_&Hc). rewrite drop_0, Z.sub_0_r in Hc. unfold blen in Hc. rewrite Nat2Z.id in Hc.
  rewrite Hc at 1. by rewrite take_drop.
Qed.

(** More bytes behind the end of the log. *)
Lemma image_rest c sb entries batches rest d :
  image_holds c sb entries batches rest → blen (c ++ d) ≤ ISIZE_MAX → image_holds (c ++ d) sb entries batches (rest ++ d).
Proof.
  intros Hi Hl. pose proof Hi as (_&_&_&_&_&_&Hok&_). by apply (image_holds_app _ _ _ _ _ _ _ _ Hi).
Qed.

(** Changes between the root pages and the Base. *)
Lemma image_outside lo hi c c' sb entries batches rest :
  image_holds c sb entries batches rest → outside lo hi c c' → DATA_START ≤ lo → hi ≤ base_offset sb →
  image_holds c' sb entries batches rest.
Proof.
  intros ((p0&p1&Hg0&Hg1&Hr)&(bs&Hbs&Hd)&?&?&?&Hlog&Hok&?) (Hl1&Hl2&Ho) Hlo Hhi.
  pose proof (get_range_Some _ _ _ _ Hbs) as (?&?&_&_).
  assert (Hlc : blen c' = blen c) by lia. unfold superblock.DATA_START, superblock.SUPERBLOCK_SIZE in *.
  split; [exists p0, p1|split; [exists bs|]].
  - pose proof (get_range_Some _ _ _ _ Hg1) as (?&?&_&_).
    unfold superblock.DATA_START, superblock.SUPERBLOCK_SIZE in *.
    split; [rewrite Ho by lia; done|]. split; [rewrite Ho by lia; done|exact Hr].
  - split; [rewrite Ho by lia; done|done].
  - split_and!; [done|done|lia| |done|lia]. rewrite <- Hlog.
    pose proof (Ho (log_start sb) (blen c) ltac:(right; lia) ltac:(lia)) as Hg.
    rewrite !get_range_in_bounds in Hg by lia. injection Hg as Hg.
    rewrite !take_ge in Hg by (rewrite length_drop; unfold blen in *; lia). done.
Qed.

Lemma out_of_bounds_mono sb len len' :
  superblock.out_of_bounds sb len = false → len ≤ len' → superblock.out_of_bounds sb len' = false.
Proof.
  unfold superblock.out_of_bounds. intros Hb Hl. bool_prop.
  repeat match goal with |- context [?a <? ?b] => replace (a <? b) with false by lia end. cbn [orb].
  destruct (checked_add _ _); [|done]. bool_prop.
  repeat match goal with |- context [?a <? ?b] => replace (a <? b) with false by lia end. done.
Qed.

Lemma root_of_mono len len' p x :
  superblock.root_of len p = Some x → len ≤ len' → superblock.root_of len' p = Some x.
Proof.
  unfold superblock.root_of. intros Hr Hl. destruct (superblock.read_envelope p) as [[[v hs]|]| |]; try done.
  destruct (superblock.decode_page p) as [y| |]; try done.
  destruct (v =? _); [|done]. destruct (hs =? _); [|done]. cbn [andb] in *.
  destruct (superblock.out_of_bounds y len) eqn:E; [done|]. by rewrite (out_of_bounds_mono y len len').
Qed.

Lemma roots_to_older c sb sb' : roots_to c sb → generation sb < generation sb' → older_roots c sb'.
Proof.
  intros (p0&p1&Hg0&Hg1&Hf0&Hf1&Hn) Hlt. exists p0, p1. split; [done|]. split; [done|].
  assert (Hle : ∀ len x, superblock.root_of len p0 = Some x ∨ superblock.root_of len p1 = Some x →
    generation x ≤ generation sb).
  { intros len x Hx. set (big := Z.max len (log_start sb)).
    specialize (Hn big ltac:(lia)). apply superblock.newer_Some in Hn.
    destruct Hx as [Hx|Hx]; apply (root_of_mono _ big) in Hx; try lia; rewrite Hx in Hn;
      destruct Hn as [[E Hy]|[E Hy]]; try (injection E as <-; lia).
    - specialize (Hy _ eq_refl). lia.
    - by apply Hy. }
  split; (split; [done|]); intros len x Hx; left; [pose proof (Hle len x (or_introl Hx))|pose proof (Hle len x (or_intror Hx))]; lia.
Qed.

Lemma roots_in_range c sb : roots_to c sb → superblock.in_range sb.
Proof.
  intros (p0&p1&Hg0&Hg1&_&_&Hn). specialize (Hn _ (Z.le_refl _)). apply superblock.newer_Some in Hn.
  assert (Hx : ∀ p, blen p = PAGE → superblock.root_of (log_start sb) p = Some sb → superblock.in_range sb).
  { intros p Hl. destruct (superblock.decode_page_total p Hl) as (x&Hx&Hr). unfold superblock.root_of. rewrite Hx.
    destruct (superblock.read_envelope p) as [[[v hs]|]| |]; try done. destruct (_ && _); [|done]. by intros [= <-]. }
  apply get_range_Some in Hg0 as (_&_&Hl0&_). apply get_range_Some in Hg1 as (_&_&Hl1&_).
  destruct Hn as [[E _]|[E _]]; [apply (Hx p0)|apply (Hx p1)]; try done.
Qed.

Lemma older_roots_ext c c' sb :
  older_roots c sb → (∀ a b, b ≤ DATA_START → get_range c' a b = get_range c a b) → older_roots c' sb.
Proof. intros (p0&p1&Hg0&Hg1&Ho) He. exists p0, p1. by rewrite !He. Qed.

End Images.

(** ** System calls *)

Section Calls.
Context `{Crc32cLaws, Alloc}.
Implicit Types (R : bytes → Prop) (c : bytes) (s : Storage) (sb : Superblock).

(** Calls may be cut short, but not to less than a page: a root page is written whole or
    not at all. *)
Definition whole_script (script : list IoFault) : Prop := ∀ n, Short n ∈ script → PAGE ≤ n.
Definition whole (f : File) : Prop := whole_script (file_script f).

Lemma whole_suffix f f' : whole f → file_script f' `suffix_of` file_script f → whole f'.
Proof. intros Hw [l Hl] n Hn. apply Hw. rewrite Hl. apply elem_of_app. by right. Qed.

Lemma write_whole_any R f0 c p s bs :
  whole f0 → stored_at R f0 c p s → 0 ≤ p → bs ≠ [] → blen bs ≤ PAGE → R (splice c p bs) →
  ∃ r s', write_all bs s = (r, s')
    ∧ (r = Ok () ∧ stored R f0 (splice c p bs) s' ∨ ∃ e, r = Err e ∧ faulty f0 ∧ stored R f0 c s').
Proof.
  intros Hw (f&->&Hc&Hp&Hh&Hs) Hp0 Hne Hpage HR. unfold write_all, stream_writer.
  set (go f1 := MkFile (splice c p bs) (p + blen bs) (file_script f1) (file_trace f1 ++ [OpWrite p bs])).
  assert (Hgo : ∀ rest, rest `suffix_of` file_script f0 →
    stored R f0 (splice c p bs) (SFile (go (MkFile c p rest (file_trace f))))).
  { intros rest Hrest. eexists. split; [done|]. split; [done|]. split; [|done].
    eapply (history_snoc R f0 f _ (OpWrite p bs)); [done| |done|done]. cbn. by rewrite Hc. }
  assert (Hrun : Io.write bs (SFile f) = (Ok (blen bs), SFile (go (MkFile c p (tail (file_script f)) (file_trace f))))
    ∨ ∃ e, Io.write bs (SFile f) = (Err e, SFile (MkFile c p (tail (file_script f)) (file_trace f))) ∧ faulty f0).
  { cbn [Io.write storage.storage_stream]. unfold storage.dispatch. cbn [Io.write file_stream].
    unfold file.write, file.syscall. destruct (file_script f) as [|x rest] eqn:E.
    - left. cbn [tail file.limit]. rewrite take_ge by (unfold blen; lia).
      unfold file.set_content, file.set_pos, go. cbn. by rewrite Hc, Hp, E.
    - assert (Hx : x ∈ file_script f0) by (destruct Hs as [l ->]; set_solver).
      destruct x as [|n|e]; [left| |right].
      + cbn [tail file.limit]. rewrite take_ge by (unfold blen; lia).
        unfold file.set_content, file.set_pos, go. cbn. by rewrite Hc, Hp.
      + left. pose proof (Hw n Hx). pose proof (blen_pos bs Hne). cbn [tail file.limit].
        replace (Z.max 1 (Z.min n (blen bs))) with (blen bs) by lia. rewrite take_ge by (unfold blen; lia).
        unfold file.set_content, file.set_pos, go. cbn. by rewrite Hc, Hp.
      + exists (error.from e). rewrite Hc, Hp. split; [done|by exists e]. }
  assert (Htl : tail (file_script f) `suffix_of` file_script f0).
  { etrans; [|exact Hs]. destruct (file_script f) as [|x rest]; [done|]. by exists [x]. }
  destruct bs as [|b bs]; [done|]. cbn [write_all_loop length]. set (all := b :: bs) in *.
  destruct Hrun as [Hrun|(e&Hrun&HF)].
  - mrun Hrun. pose proof (blen_pos all Hne). replace (blen all =? 0) with false by lia.
    rewrite take_drop_Z by lia. rewrite M_lift_ok. rewrite drop_ge by (unfold blen; lia).
    eexists (Ok ()), _. split; [by destruct (length bs)|]. left. split; [done|]. by apply Hgo.
  - rewrite (M_bind_err _ _ _ _ _ Hrun). eexists (Err e), _. split; [done|]. right. exists e. split; [done|]. split; [done|].
    eexists. split; [done|]. split; [done|]. split; [by eapply history_same|done].
Qed.

(** A root page, in the slot of [g]'s parity. *)
Lemma write_page_any R f0 c s sb g :
  whole f0 → stored R f0 c s → R (splice c (Z.land g 1 * PAGE) (superblock.encode_page sb)) →
  ∃ r s', (_ ← Io.seek (Start (Z.land g 1 * PAGE)); write_all (superblock.encode_page sb)) s = (r, s')
    ∧ (r = Ok () ∧ stored R f0 (splice c (Z.land g 1 * PAGE) (superblock.encode_page sb)) s'
       ∨ ∃ e, r = Err e ∧ faulty f0 ∧ stored R f0 c s').
Proof.
  intros Hw Hst HR. pose proof (superblock.land_1_cases g) as Hg. pose proof (superblock.blen_encode_page sb) as Hl.
  assert (Hpos : 0 ≤ Z.land g 1 * PAGE ≤ ISIZE_MAX) by (unfold superblock.SUPERBLOCK_SIZE; lia).
  destruct (seek_start_any R f0 c s _ Hst Hpos) as (r&s1&Hr&Hs1&[[-> Hat]|(e&->&HF)]).
  - mrun Hr. apply write_whole_any; [done|done|lia| |lia|done]. intros E. rewrite E in Hl. done.
  - exists (Err e), s1. rewrite (M_bind_err _ _ _ _ _ Hr). split; [done|]. right. by exists e.
Qed.

Lemma len_at_any R f0 c p s :
  stored_at R f0 c p s →
  ∃ r s', storage.len s = (r, s') ∧ stored_at R f0 c p s' ∧ (r = Ok (blen c) ∨ ∃ e, r = Err e ∧ faulty f0).
Proof.
  intros Hat. pose proof (stored_at_stored _ _ _ _ _ Hat) as Hst. destruct Hat as (f&->&Hc&Hp&_).
  unfold storage.len, storage.dispatch, file.len.
  destruct (stored_syscall R f0 c f (λ _, gets (λ f, blen (file_content f))) Hst)
    as (g&(?&[= <-]&Hg)&Hgc&Hgp&_&_&[(e&->&HF)|[x ->]]).
  - exists (Err e), (SFile g). split; [done|]. split; [exists g; split_and!; [done|done|congruence|apply Hg..]|].
    right. by exists e.
  - exists (Ok (blen c)), (SFile g). split; [by rewrite <- Hgc|].
    split; [exists g; split_and!; [done|done|congruence|apply Hg..]|by left].
Qed.

Lemma seek_end_at_any R f0 c s :
  stored R f0 c s → blen c ≤ ISIZE_MAX →
  ∃ r s', Io.seek (End_ 0) s = (r, s') ∧ stored R f0 c s'
    ∧ (r = Ok (blen c) ∧ stored_at R f0 c (blen c) s' ∨ ∃ e, r = Err e ∧ faulty f0).
Proof.
  intros Hst Hl. destruct (seek_end_any R f0 c s Hst Hl) as (r&s'&Hr&Hs'&[(->&f&->&Hp)|?]).
  - exists (Ok (blen c)), (SFile f). split; [done|]. split; [done|]. left. split; [done|].
    destruct Hs' as (?&[= <-]&?&?&?). by exists f.
  - exists r, s'. by split_and!; auto.
Qed.

End Calls.

(** ** The live entries *)

Section Live.
Context `{Crc32cLaws, Xxh3Laws, Alloc, HashTablesLaws}.
Implicit Types (entries l : list (bytes * bytes)) (batches : list (list mutation)) (m : gmap bytes bytes).

(** A list of the bindings of [m]. *)
Lemma listed_contents l m : l ≡ₚ map_to_list m → NoDup l.*1 ∧ contents l [] = m.
Proof.
  intros Hp. assert (Hnd : NoDup l.*1) by (rewrite Hp; apply NoDup_fst_map_to_list). split; [done|].
  apply map_eq. intros k. unfold contents. rewrite entries_facts.live_lookup by done. cbn.
  rewrite KeyMap.get_list_to_map by done. rewrite (list_to_map_proper l (map_to_list m)) by done.
  by rewrite list_to_map_to_list.
Qed.

Lemma apply_muts_ok (P : mutation → Prop) M muts k o :
  (∀ k o, M !! k = Some o → P (k, o)) → Forall P muts → apply_muts M muts !! k = Some o → P (k, o).
Proof.
  revert M. induction muts as [|[k' o'] muts IH]; intros M HM Hf; [apply HM|].
  apply Forall_cons in Hf as [Hx Hf]. rewrite apply_muts_cons. apply IH; [|done]. intros k1 o1.
  destruct (decide (k1 = k')) as [->|Hne]; [rewrite lookup_insert_eq; by intros [= <-]|].
  rewrite lookup_insert_ne by done. apply HM.
Qed.

(** Every live entry is within the limits of the format. *)
Lemma contents_ok c sb entries batches rest l :
  image_holds c sb entries batches rest → l ≡ₚ map_to_list (contents entries batches) → Forall segment.entry_ok l.
Proof.
  intros (_&(bs&_&(index&_&_&_&_&_&Hes&Hnd&_)&_)&_&_&_&_&Hbs&_) Hp.
  rewrite Hp. apply Forall_forall. intros [k v] Hkv%elem_of_map_to_list. unfold contents in Hkv.
  rewrite entries_facts.live_lookup in Hkv by done.
  assert (Hops : Forall recovery.op_ok (concat batches)).
  { apply Forall_concat. eapply Forall_impl; [exact Hbs|]. by intros muts (_&_&?). }
  destruct (apply_muts ∅ (concat batches) !! k) as [o|] eqn:E.
  - subst o. apply (apply_muts_ok recovery.op_ok ∅ _ k _) in E; [exact E|done|done].
  - rewrite KeyMap.get_list_to_map in Hkv by done. apply elem_of_list_to_map_2 in Hkv.
    rewrite Forall_forall in Hes. by apply Hes.
Qed.

(** What the handle reads, whatever has become of the file. *)
Definition reading (db : Database) m : Prop :=
  ∃ entries lg M, active_base.holds (db_base db) entries ∧ state_holds lg (db_overlay db) M
    ∧ entries_facts.live entries M = m.

Lemma handle_reading db f sb entries batches : handle_on db f sb entries batches → reading db (contents entries batches).
Proof. intros (_&_&Hb&_&_&_&Ho&_). by eexists _, _, _. Qed.

Lemma reading_ext db db' m :
  reading db m → db_base db' = db_base db → db_overlay db' = db_overlay db → reading db' m.
Proof. intros (es&lg&M&?&?&?) Hb Ho. exists es, lg, M. rewrite Hb, Ho. by split_and!. Qed.

Lemma items_reading `{Placement} db m mode :
  (∀ mapping, PlacementLaws mapping) → reading db m →
  ∃ l, maintenance.items (db_base db) (maintenance.raw_entries (db_base db) (db_overlay db) mode) = Ok l
    ∧ l ≡ₚ map_to_list m.
Proof.
  intros Hpl (es&lg&M&Hb&(Ho&_)&<-). pose proof Hb as (bs&Hd&_).
  destruct (entries_facts.iteration_live (db_base db) es lg _ M mode bs Hb Hd Ho (Hpl bs)) as (r&l&Hr&Hl&Hc&_).
  exists l. split; [|done]. unfold maintenance.items, maintenance.raw_entries, active_base.base_view.
  rewrite Hd. rstep. rewrite Hr. rstep. done.
Qed.

Lemma iter_raw_entries `{Placement} (db : Database) :
  database.iter_raw db = maintenance.raw_entries (db_base db) (db_overlay db) (opt_verification (db_options db)).
Proof.
  unfold database.iter_raw, database.read_view, maintenance.raw_entries. by destruct (active_base.base_view (db_base db)).
Qed.

End Live.

(** ** A Base in memory *)

Section Buffer.
Context `{Crc32cLaws, Xxh3Laws, Alloc}.
Implicit Types (l : list (bytes * bytes)).

Lemma build_memory_base_any offset l size :
  0 ≤ offset → Forall segment.entry_ok l → NoDup l.*1 → segment.measure_base_iter l = Ok (blen l, size) →
  offset + size ≤ ISIZE_MAX →
  (∃ w bs, maintenance.build_memory_base offset size (blen l) l = Ok bs ∧ written_as offset size l w bs)
  ∨ ∃ e n, maintenance.build_memory_base offset size (blen l) l = Err e ∧ try_reserve n = false.
Proof.
  intros Ho Hes Hnd Hm Hb. unfold maintenance.build_memory_base, OffsetBuffer.new.
  destruct (try_reserve size) eqn:Ha; rstep; [|right; by eexists _, size].
  destruct (write_base_written (MkOffsetBuffer offset [] 0) offset l size) as (r&b&Hr&Hu);
    [cbn; lia|cbn; lia|done..|]. unfold segment.write_base_at, mbind, M_bind. rewrite Hr.
  destruct Hu as [(w&bs&->&(_&_&Hd&_)&Hw)|(e&n&->&Hn)]; [left|right; by exists e, n].
  exists w, bs. split; [|done]. cbn [stream_data stream_base offset_buffer_view ofb_bytes ofb_origin] in Hd.
  rewrite Z.sub_diag, (splice_end []) in Hd. unfold mret, M_ret, result_bind, OffsetBuffer.into_inner.
  rewrite Hd, app_nil_l. destruct Hw as (Hs&Hl&_). by rewrite Hs, Hl, Z.eqb_refl.
Qed.

(** The Base that stands in while the file has no mapping. *)
Lemma detached_base_any gen :
  (∃ b, maintenance.detached_base gen = Ok b) ∨ ∃ e n, maintenance.detached_base gen = Err e ∧ try_reserve n = false.
Proof.
  unfold maintenance.detached_base.
  destruct (build_memory_base_any DATA_START [] segment.EMPTY_SEGMENT_SIZE) as [(w&bs&Hb&Hw)|(e&n&He&Hn)];
    [done|constructor|constructor|vm_compute; reflexivity|done| |];
    change (blen (@nil (bytes * bytes))) with 0 in *; [|right; exists e, n; by rewrite He].
  rewrite Hb. rstep. left. destruct Hw as (Hs&Hl&Hsc&Hwl&_&_&_&Hd).
  assert (Hde : BaseBytes.deref (BaseBytes.Memory bs 0 (blen bs)) = Ok bs).
  { cbn. unfold index_range. by rewrite get_range_all. }
  rewrite Hde. rstep. specialize (Hd gen (DATA_START + segment.EMPTY_SEGMENT_SIZE)).
  pose proof Hd as (_&_&_&Hck). rewrite Hck. rstep. rewrite add_ovf_ok by done. rstep.
  destruct (active_base.install_describes (BaseBytes.Memory bs 0 (blen bs)) bs _ _ Hde Hd) as (b&Hb'&_).
  exists b. rewrite <- Hb'. f_equal. unfold root_for. rewrite Hs, Hwl. by injection Hsc as <-.
Qed.

End Buffer.

(** ** The steps of [compact_file] *)

Section Steps.
Context `{Crc32cLaws, Xxh3Laws, Alloc, HashTablesLaws, Placement}.
Context (m : gmap bytes bytes) (f0 : File).
Hypothesis (Hpl : ∀ mapping, PlacementLaws mapping) (Hwhole : whole f0).
Implicit Types (c : bytes) (db : Database) (s : Storage) (sb : Superblock) (l entries : list (bytes * bytes))
  (batches : list (list mutation)) (size : Z).

(** An image that stands for [m] after recovery. *)
Definition durable c : Prop :=
  ∃ sb entries batches rest, image_holds c sb entries batches rest ∧ recovery.log_end rest
    ∧ contents entries batches = m.

Abbreviation kept := (stored durable f0).

(** A failed step closes the handle for writing. *)
Definition poison (s : Storage) (db : Database) : Database :=
  database.set_state WritePoisoned (database.set_storage s db).

Lemma or_poison_run {A} (x : M Database A) db r db' :
  x db = (r, db') → r ≠ Panic →
  maintenance.or_poison x db
  = (r, match r with Ok _ => db' | _ => database.set_state WritePoisoned db' end).
Proof. intros E Hr. unfold maintenance.or_poison, catch. rewrite E. by destruct r. Qed.

(** The offsets for a file of content [c]. *)
Definition plan_for c size : maintenance.CompactPlan :=
  let source := Z.max (blen c + log.LOG_HEADER_SIZE) (DATA_START + size + log.LOG_HEADER_SIZE) in
  maintenance.MkPlan (blen c) (DATA_START + size) source (source + size).

Lemma compact_plan_any c db size :
  kept c (db_storage db) → blen c ≤ ISIZE_MAX → 0 ≤ size → opt_max_database_bytes (db_options db) ≤ ISIZE_MAX →
  ∃ r s', maintenance.compact_plan size db = (r, database.set_storage s' db) ∧ kept c s'
    ∧ ((r = Ok (plan_for c size) ∧ stored_at durable f0 c (blen c) s'
          ∧ maintenance.source_end (plan_for c size) ≤ opt_max_database_bytes (db_options db))
       ∨ ∃ e, r = Err e ∧ (faulty f0 ∨ opt_max_database_bytes (db_options db) < maintenance.source_end (plan_for c size))).
Proof.
  intros Hst Hl Hs Hmax. unfold maintenance.compact_plan. pose proof (blen_nonneg c).
  set (limit := opt_max_database_bytes (db_options db)) in *. set (plan := plan_for c size).
  assert (Hse : maintenance.source_end plan
    = Z.max (blen c + log.LOG_HEADER_SIZE) (DATA_START + size + log.LOG_HEADER_SIZE) + size) by done.
  unfold log.LOG_HEADER_SIZE, superblock.DATA_START, superblock.SUPERBLOCK_SIZE in *.
  destruct (seek_end_at_any durable f0 c _ Hst Hl) as (r&s1&Hr&Hs1&[[-> Hat]|(e&->&HF)]).
  2:{ exists (Err e), s1. rewrite (M_bind_err _ _ _ _ _ (on_storage_run _ db _ _ Hr)). split; [done|]. split; [done|].
      right. exists e. split; [done|by left]. }
  rewrite (M_bind_ok _ _ _ _ _ (on_storage_run _ db _ _ Hr)).
  set (db1 := database.set_storage s1 db).
  assert (Hbig : ∀ e, limit < maintenance.source_end plan → ∃ r s',
    (@Err maintenance.CompactPlan e, db1) = (r, database.set_storage s' db) ∧ kept c s'
      ∧ (r = Ok plan ∧ stored_at durable f0 c (blen c) s' ∧ maintenance.source_end plan ≤ limit
         ∨ ∃ e, r = Err e ∧ (faulty f0 ∨ limit < maintenance.source_end plan))).
  { intros e Hb. exists (Err e), s1. split; [done|]. split; [done|]. right. exists e. split; [done|by right]. }
  (* an overflow would exceed the limit *)
  do 4 (cbv beta zeta; match goal with |- ∃ _ _, (lift (ok_or (checked_add ?a ?b) ?e) ≫= _) _ = _ ∧ _ =>
    destruct (decide (a + b < U64)); [rewrite (checked_add_ok a b) by done; cbn [ok_or]; rewrite M_lift_ok|
      rewrite (checked_add_none a b) by lia; cbn [ok_or]; apply Hbig; lia] end).
  rewrite checked_sub_ok by lia. cbn [unwrap]. rewrite M_lift_ok. unfold database.ensure_capacity.
  destruct (len_at_any durable f0 c _ s1 Hat) as (r&s2&Hr2&Hat2&Ho). rewrite M_bind_assoc.
  pose proof (stored_at_stored _ _ _ _ _ Hat2) as Hs2. destruct Ho as [->|(e&->&HF)].
  2:{ exists (Err e), s2. rewrite (M_bind_err _ _ _ _ _ (on_storage_run _ db1 _ _ Hr2)). split; [done|]. split; [done|].
      right. exists e. split; [done|by left]. }
  rewrite (M_bind_ok _ _ _ _ _ (on_storage_run _ db1 _ _ Hr2)). rewrite M_bind_assoc.
  set (db2 := database.set_storage s2 db1). rewrite (M_bind_ok database.self _ db2 db2 db2 eq_refl).
  change (opt_max_database_bytes (db_options db2)) with limit.
  match goal with |- context [checked_add (blen c) (?x - blen c)] => set (se := x) in * end.
  assert (Hsee : se = maintenance.source_end plan) by done.
  rewrite checked_add_ok by lia. cbn [ok_or]. rewrite M_bind_assoc, M_lift_ok.
  replace (blen c + (se - blen c)) with se by lia. destruct (limit <? se) eqn:E; bool_prop.
  - eexists (Err _), s2. split; [done|]. split; [done|]. right. eexists. split; [done|]. right. lia.
  - exists (Ok plan), s2. split; [done|]. split; [done|]. left. split; [done|]. split; [done|lia].
Qed.

Lemma or_rollback_fails {A} (x : M Database A) c d db e s1 :
  x db = (Err e, database.set_storage s1 db) → kept (c ++ d) s1 → durable c → blen (c ++ d) ≤ ISIZE_MAX →
  ∃ s' c', database.or_rollback (blen c) x db = (Err e, poison s' db) ∧ kept c' s'.
Proof.
  intros Hx Hk Hd Hl.
  destruct (rollback_stored (A := A) durable f0 c d (database.set_storage s1 db) e Hk Hd Hl) as (s'&d'&Hr&_&Hs').
  exists s', (c ++ d'). split; [|exact Hs'].
  by rewrite (or_rollback_err _ _ _ _ _ Hx), Hr.
Qed.

(** *** The staging Base *)

Section Staging.
Context c sb entries batches l size.
Hypothesis (Hi : image_holds c sb entries batches []) (Hm : contents entries batches = m).
Hypothesis (Hl : l ≡ₚ map_to_list m) (Hsz : segment.measure_base_iter l = Ok (blen l, size)).
#[local] Abbreviation plan := (plan_for c size).
Hypothesis (Hend : maintenance.source_end plan ≤ ISIZE_MAX).

Lemma staging_bounds :
  blen (c ++ log.compact_marker) ≤ maintenance.source_offset plan ∧ 0 ≤ maintenance.source_offset plan
  ∧ maintenance.source_offset plan + size = maintenance.source_end plan
  ∧ maintenance.destination_end plan + log.LOG_HEADER_SIZE ≤ maintenance.source_offset plan.
Proof using All.
  pose proof (measured_nonneg _ _ Hsz). pose proof (blen_nonneg c). rewrite blen_app, log.blen_compact_marker.
  unfold plan_for. cbn. unfold log.LOG_HEADER_SIZE. lia.
Qed.

Lemma durable_marker p : p `prefix_of` log.compact_marker → durable (c ++ p).
Proof using All.
  intros Hp. exists sb, entries, batches, p. split; [|split; [by apply marker_prefix_end|done]].
  apply (image_rest c sb entries batches []); [done|]. pose proof staging_bounds as (Hb&_&?&_). pose proof (measured_nonneg _ _ Hsz).
  destruct Hp as [q Hq]. rewrite Hq, app_assoc, blen_app in Hb. pose proof (blen_nonneg q). lia.
Qed.

Lemma durable_base : durable c.
Proof using All. rewrite <- (app_nil_r c). apply durable_marker. apply prefix_nil. Qed.

(** Writing behind the marker. *)
Lemma durable_staging c' :
  outside (maintenance.source_offset plan) (maintenance.source_end plan) (c ++ log.compact_marker) c' →
  durable c' ∧ blen c' ≤ ISIZE_MAX ∧ ∃ junk, c' = c ++ log.compact_marker ++ junk.
Proof using All.
  intros Ho. pose proof staging_bounds as (Hb&_&?&_). pose proof (measured_nonneg _ _ Hsz).
  destruct (outside_app _ _ _ _ Ho Hb) as [junk ->]. destruct Ho as (_&Hl2&_).
  assert (Hlen : blen ((c ++ log.compact_marker) ++ junk) ≤ ISIZE_MAX) by lia.
  split; [|split; [done|exists junk; by rewrite app_assoc]].
  exists sb, entries, batches, (log.compact_marker ++ junk). split; [|split; [right; left; by exists junk|done]].
  apply image_rest; [|done]. apply (image_rest c sb entries batches []); [done|]. rewrite blen_app in Hlen. pose proof (blen_nonneg junk). lia.
Qed.

Lemma write_staging_any db :
  stored_at durable f0 c (blen c) (db_storage db) → reading db m →
  maintenance.items (db_base db)
    (maintenance.raw_entries (db_base db) (db_overlay db) (opt_verification (db_options db))) = Ok l →
  ∃ r s' db', maintenance.write_staging plan (blen l) size db = (r, db')
    ∧ ((∃ w bs, r = Ok w ∧ db' = database.set_storage s' db
          ∧ kept (splice (c ++ log.compact_marker) (maintenance.source_offset plan) bs) s'
          ∧ written_as (maintenance.source_offset plan) size l w bs)
       ∨ ∃ e c', r = Err e ∧ db' = poison s' db ∧ kept c' s' ∧ troubled f0).
Proof using All.
  intros Hat Hrd Hit. pose proof staging_bounds as (Hb&Hso&Hse&_). pose proof (measured_nonneg _ _ Hsz). pose proof (blen_nonneg c).
  assert (Hstop : ∀ e s' c' db', db' = poison s' db → kept c' s' → troubled f0 → ∃ r s' db2, (@Err segment.WrittenBase e, db') = (r, db2)
    ∧ ((∃ w bs, r = Ok w ∧ db2 = database.set_storage s' db
          ∧ kept (splice (c ++ log.compact_marker) (maintenance.source_offset plan) bs) s'
          ∧ written_as (maintenance.source_offset plan) size l w bs)
       ∨ ∃ e c', r = Err e ∧ db2 = poison s' db ∧ kept c' s' ∧ troubled f0)).
  { intros e s' c' db' Hdb Hk HF. exists (Err e), s', db'. split; [done|]. right. by exists e, c'. }
  unfold maintenance.write_staging. cbv zeta. change (maintenance.rollback_offset plan) with (blen c).
  (* the marker *)
  destruct (write_all_any durable f0 c (blen c) (db_storage db) log.compact_marker Hat) as (r&s1&d&Hr&Hd&Hs1&Ho); [lia| |].
  { intros q Hq. rewrite over_end. by apply durable_marker. }
  rewrite over_end in Hs1. rewrite <- log.write_compact_marker_bytes in Hr. apply on_storage_run in Hr.
  assert (Hdl : blen (c ++ d) ≤ ISIZE_MAX).
  { destruct Hd as [q Hq]. rewrite Hq, app_assoc, blen_app in Hb. pose proof (blen_nonneg q). lia. }
  pose proof (stored_at_stored _ _ _ _ _ Hs1) as Hk1. destruct Ho as [[-> ->]|(e&->&HF)].
  2:{ destruct (or_rollback_fails _ _ _ _ _ _ Hr Hk1 durable_base Hdl) as (s'&c'&Hx&Hk).
      rewrite (M_bind_err _ _ _ _ _ Hx). by eapply Hstop; [..|left]. }
  rewrite (M_bind_ok _ _ _ _ _ (or_rollback_ok _ _ _ _ _ Hr)). set (db1 := database.set_storage s1 db) in *.
  destruct (seek_start_any durable f0 _ s1 (maintenance.source_offset plan) Hk1) as (r&s2&Hr2&Hk2&Ho); [lia|].
  apply (on_storage_run _ db1) in Hr2. destruct Ho as [[-> _]|(e&->&HF)].
  2:{ destruct (or_rollback_fails _ _ _ _ _ _ Hr2 Hk2 durable_base Hdl) as (s'&c'&Hx&Hk).
      rewrite (M_bind_err _ _ _ _ _ Hx). by eapply Hstop; [..|left]. }
  rewrite (M_bind_ok _ _ _ _ _ (or_rollback_ok _ _ _ _ _ Hr2)). set (db2 := database.set_storage s2 db1) in *.
  rewrite (M_bind_ok database.self _ db2 db2 db2 eq_refl).
  (* the Base *)
  change (db_base db2) with (db_base db). change (db_overlay db2) with (db_overlay db).
  change (db_options db2) with (db_options db). rewrite Hit.
  pose proof (listed_contents l m Hl) as [Hnd _].
  assert (Hes : Forall segment.entry_ok l) by (eapply contents_ok; [exact Hi|by rewrite Hm]).
  destruct (write_base_any durable f0 (c ++ log.compact_marker) s2 (maintenance.source_offset plan) l size)
    as (r&s3&c3&Hr3&Ho3&Hk3&Ho); [done|done|done|done|done|lia| |].
  { intros c' Hc'. rewrite Hse in Hc'. by apply durable_staging. }
  rewrite Hse in Ho3. destruct (durable_staging c3 Ho3) as (Hd3&Hl3&junk&Hj).
  apply (on_storage_run _ db2) in Hr3. destruct Ho as [(w&bs&->&Hc3&Hw)|(e&->&HF)].
  2:{ rewrite Hj in Hk3, Hl3. destruct (or_rollback_fails _ _ _ _ _ _ Hr3 Hk3 durable_base Hl3) as (s'&c'&Hx&Hk).
      rewrite (M_bind_err _ _ _ _ _ Hx). by eapply Hstop. }
  rewrite (M_bind_ok (database.or_rollback (blen c) _) _ db2 w (database.set_storage s3 db2)) by (by apply or_rollback_ok).
  destruct Hw as (Hws&Hw'). rewrite Hws, Z.eqb_refl. cbn [negb].
  set (db3 := database.set_storage s3 db2). rewrite (M_bind_ok (mret ()) _ db3 () db3 eq_refl).
  (* the sync *)
  destruct (sync_any durable f0 c3 s3 Hk3 Hd3) as (r&s4&Hr4&Hk4&Ho). apply (on_storage_run _ db3) in Hr4.
  destruct Ho as [[-> _]|(e&->&HF)].
  2:{ rewrite Hj in Hk4, Hl3. destruct (or_rollback_fails _ _ _ _ _ _ Hr4 Hk4 durable_base Hl3) as (s'&c'&Hx&Hk).
      rewrite (M_bind_err _ _ _ _ _ Hx). by eapply Hstop; [..|left]. }
  rewrite (M_bind_ok _ _ _ _ _ (or_rollback_ok _ _ _ _ _ Hr4)).
  exists (Ok w), s4, (database.set_storage s4 db3). split; [done|]. left. exists w, bs. split; [done|]. split; [done|].
  split; [by rewrite <- Hc3|]. by split.
Qed.

End Staging.

(** *** Installing and publishing a root *)

(** The Base of an image, as the handle's own. *)
Definition serves sb entries (b : ActiveBase) : Prop :=
  active_base.holds b entries ∧ ab_log_start b = log_start sb ∧ ab_offset b = base_offset sb
  ∧ ab_generation b = generation sb.

Lemma install_any c sb entries batches rest db :
  kept c (db_storage db) → image_holds c sb entries batches rest →
  ∃ r s' db', database.install_superblock sb db = (r, db') ∧ kept c s'
    ∧ ((∃ b, r = Ok () ∧ db' = database.set_base b (database.set_storage s' db) ∧ serves sb entries b)
       ∨ ∃ e, r = Err e ∧ db' = poison s' db ∧ faulty f0).
Proof using All.
  intros Hk Hi. pose proof Hi as (_&(bs&Hbs&Hd)&_&_&_&_&_&Hlen). destruct (describes_size _ _ _ Hd) as [_ Hpos].
  unfold database.install_superblock, catch.
  destruct (map_any durable f0 c _ _ _ bs Hk ltac:(lia) Hpos Hbs) as (r&s1&Hr&Hk1&_&Ho).
  rewrite (on_storage_run _ db _ _ Hr). set (db1 := database.set_storage s1 db).
  destruct Ho as [->|(e&->&HF)]; cbn [mbind result_bind].
  2:{ exists (Err e), s1, (poison s1 db). split; [done|]. split; [done|]. right. by exists e. }
  destruct (active_base.install_describes (BaseBytes.Mapped bs) bs sb entries eq_refl Hd) as (b&Hb&Hh&_&Ho&Hg&Hl&_).
  rewrite Hb. unfold database.finish_superblock_install, catch.
  destruct (seek_end_any durable f0 c s1 Hk1 ltac:(lia)) as (r&s2&Hr2&Hk2&Hs2).
  unfold mbind, M_bind. rewrite (on_storage_run _ db1 _ _ Hr2).
  destruct Hs2 as [[-> _]|(e&->&HF)].
  - eexists (Ok ()), s2, _. split; [done|]. split; [done|]. left. exists b. by split_and!.
  - eexists (Err e), s2, _. split; [done|]. split; [done|]. right. by exists e.
Qed.

(** Writing a root page and syncing it. *)
Lemma publish_root_any c c' db (x : M Storage ()) :
  kept c (db_storage db) → durable c' →
  (∃ r s', x (db_storage db) = (r, s') ∧ (r = Ok () ∧ kept c' s' ∨ ∃ e, r = Err e ∧ faulty f0 ∧ kept c s')) →
  ∃ r s' db', (_ ← maintenance.or_poison (database.on_storage x);
      maintenance.or_poison (database.on_storage storage.sync_all)) db = (r, db')
    ∧ (r = Ok () ∧ db' = database.set_storage s' db ∧ kept c' s'
       ∨ ∃ e c2, r = Err e ∧ db' = poison s' db ∧ kept c2 s' ∧ faulty f0).
Proof using All.
  intros Hk Hd' (r&s1&Hr&Ho). apply on_storage_run in Hr.
  destruct Ho as [[-> Hk1]|(e&->&HF&Hk1)].
  - rewrite (M_bind_ok _ _ _ _ _ (or_poison_run _ _ _ _ Hr ltac:(done))).
    destruct (sync_any durable f0 c' s1 Hk1 Hd') as (r&s2&Hr2&Hk2&Ho).
    change storage.sync_data with storage.sync_all in Hr2. apply (on_storage_run _ (database.set_storage s1 db)) in Hr2.
    destruct Ho as [[-> _]|(e&->&HF)]; rewrite (or_poison_run _ _ _ _ Hr2 ltac:(done)).
    + eexists (Ok ()), s2, _. split; [done|]. by left.
    + eexists (Err e), s2, _. split; [done|]. right. by exists e, c'.
  - rewrite (M_bind_err _ _ _ _ _ (or_poison_run _ _ _ _ Hr ltac:(done))).
    eexists (Err e), s1, _. split; [done|]. right. by exists e, c.
Qed.

Lemma page_slot c sb g :
  DATA_START ≤ blen c →
  let c' := splice c (Z.land g 1 * PAGE) (superblock.encode_page sb) in
  blen c' = blen c ∧ (∀ a b, DATA_START ≤ a → get_range c' a b = get_range c a b)
  ∧ ∀ a, DATA_START ≤ a → drop (Z.to_nat a) c' = drop (Z.to_nat a) c.
Proof using All.
  intros Hl. apply splice_slot; [apply superblock.land_1_cases|apply superblock.blen_encode_page|done].
Qed.

(** The root of a Base that was written fits. *)
Lemma root_for_fits gen start log l size w bs :
  written_as start size l w bs → BASE_HEADER ≤ size → 0 ≤ gen < U64 → DATA_START ≤ start →
  start + size ≤ log → log < U64 → root_fits (root_for gen start log w).
Proof using All.
  intros (Hs&_&_&_&?&?&?&_) Hb Hg Hst Hl Hlu. unfold superblock.DATA_START, superblock.SUPERBLOCK_SIZE, BASE_HEADER in *.
  unfold root_fits, superblock.in_range, root_for. cbn. rewrite Hs. unfold superblock.DATA_START, superblock.SUPERBLOCK_SIZE, BASE_HEADER.
  split_and!; lia.
Qed.

Section PublishStaging.
Context c sb entries batches l size (w : segment.WrittenBase) (bs : bytes).
Hypothesis (Hi : image_holds c sb entries batches []) (Hm : contents entries batches = m).
Hypothesis (Hl : l ≡ₚ map_to_list m) (Hsz : segment.measure_base_iter l = Ok (blen l, size)).
#[local] Abbreviation plan := (plan_for c size).
#[local] Abbreviation source := (maintenance.source_offset plan).
Hypothesis (Hend : maintenance.source_end plan ≤ ISIZE_MAX) (Hgen : generation sb + 1 < U64).
Hypothesis (Hw : written_as source size l w bs).

(** The root of the staging Base and the image that holds it. *)
Definition staged_root : Superblock := root_for (generation sb + 1) source (maintenance.source_end plan) w.
Definition staged_content : bytes := splice (c ++ log.compact_marker) source bs.
Definition staged_image : bytes :=
  splice staged_content (Z.land (generation sb + 1) 1 * PAGE) (superblock.encode_page staged_root).

Lemma staged_holds : image_holds staged_image staged_root l [] [] ∧ durable staged_image.
Proof using All.
  pose proof (staging_bounds c sb entries batches l size Hi Hm Hl Hsz Hend) as (Hb&Hso&Hse&Hds).
  pose proof (measured_lower _ _ Hsz) as Hlow. pose proof (measured_nonneg _ _ Hsz). pose proof Hi as (Hr&_&_&_&_&_&_&_).
  pose proof (roots_in_range _ _ Hr) as (Hg&_). pose proof Hw as (Hws&Hbl&_&_&_&_&_&Hdesc).
  assert (Hc1 : blen staged_content = maintenance.source_end plan)
    by (unfold staged_content; rewrite blen_splice by lia; lia).
  assert (Hdc : DATA_START ≤ blen c).
  { destruct Hr as (p0&p1&_&(?&?&_&_)%get_range_Some&_). done. }
  assert (Hds2 : DATA_START ≤ source) by (rewrite blen_app in Hb; pose proof (blen_nonneg log.compact_marker); lia).
  assert (Hfit : root_fits staged_root)
    by (eapply root_for_fits; [exact Hw|done|lia|done|lia|lia]).
  assert (Hold : older_roots staged_content staged_root).
  { eapply older_roots_ext; [apply (roots_to_older c sb); [done|cbn; lia]|]. intros a b Hab. unfold staged_content.
    rewrite get_range_splice_below by (rewrite ?blen_app; pose proof (blen_nonneg log.compact_marker); lia).
    apply get_range_app_l. lia. }
  destruct (put_root staged_content staged_root (Z.land (generation sb + 1) 1) Hold Hfit (superblock.land_1_cases _)) as [Hto _].
  assert (Hs1 : DATA_START ≤ blen staged_content) by (rewrite Hc1; unfold BASE_HEADER in Hlow; lia).
  destruct (page_slot staged_content staged_root (generation sb + 1) Hs1) as (Hbl2&Hgr&Hdr). fold staged_image in Hto, Hbl2, Hgr, Hdr.
  assert (Hih : image_holds staged_image staged_root l [] []).
  { split; [exact Hto|]. split; [exists bs; split; [|apply Hdesc]|].
    - cbn [staged_root root_for base_offset base_size]. rewrite Hws, Hgr by done. unfold staged_content.
      rewrite get_range_splice_in by lia. rewrite Z.sub_diag. apply get_range_all. lia.
    - cbn [staged_root root_for base_offset base_size log_start]. rewrite Hws, Hbl2, Hc1.
      split_and!; [done|lia|lia| |constructor|lia]. rewrite Hdr by (unfold BASE_HEADER in Hlow; lia).
      apply drop_ge. unfold blen in Hc1. lia. }
  split; [exact Hih|]. exists staged_root, l, [], []. split; [done|]. split; [by left|]. apply (listed_contents l m Hl).
Qed.

Lemma publish_staging_any db :
  kept staged_content (db_storage db) → ab_generation (db_base db) = generation sb →
  ∃ r s' db', maintenance.publish_staging plan w db = (r, db')
    ∧ ((∃ b, r = Ok staged_root ∧ kept staged_image s' ∧ serves staged_root l b
          ∧ db' = database.set_overlay (OverlayState.clear (db_overlay db)) (database.set_base b (database.set_storage s' db)))
       ∨ ∃ e c', r = Err e ∧ db' = poison s' db ∧ kept c' s' ∧ faulty f0).
Proof using All.
  intros Hk Hg. destruct staged_holds as [Hih Hdur]. pose proof Hw as (Hws&_).
  unfold maintenance.publish_staging. rewrite (M_bind_ok database.self _ db db db eq_refl), Hg.
  rewrite add_ovf_ok by done. rewrite M_lift_ok. cbv zeta.
  match goal with |- context [superblock.write ?x] => change x with staged_root end.
  rewrite <- (M_bind_assoc (maintenance.or_poison _)).
  destruct (publish_root_any staged_content staged_image db (superblock.write staged_root) Hk Hdur) as (r&s1&db1&Hr&Ho).
  { exact (write_page_any durable f0 staged_content (db_storage db) staged_root (generation sb + 1) Hwhole Hk Hdur). }
  destruct Ho as [(->&->&Hk1)|(e&c2&->&->&Hk1&HF)].
  2:{ rewrite (M_bind_err _ _ _ _ _ Hr). eexists (Err e), s1, _. split; [done|]. right. by exists e, c2. }
  rewrite (M_bind_ok _ _ _ _ _ Hr).
  destruct (install_any staged_image staged_root l [] [] (database.set_storage s1 db) Hk1 Hih) as (r&s2&db2&Hr2&Hk2&Ho).
  destruct Ho as [(b&->&->&Hb)|(e&->&->&HF)].
  2:{ rewrite (M_bind_err _ _ _ _ _ Hr2). eexists (Err e), s2, _. split; [done|]. right. by exists e, staged_image. }
  rewrite (M_bind_ok _ _ _ _ _ Hr2). eexists (Ok _), s2, _. split; [done|]. left. exists b. by split_and!.
Qed.

End PublishStaging.

(** *** The copy at the start of the data area *)

Section Relocate.
Context c sb l size (plan : maintenance.CompactPlan).
Hypothesis (Hi : image_holds c sb l [] []) (Hm : contents l [] = m).
Hypothesis (Hde : maintenance.destination_end plan = DATA_START + size).
Hypothesis (Hgap : DATA_START + size + log.LOG_HEADER_SIZE ≤ base_offset sb).
#[local] Abbreviation copy_end := (DATA_START + size + log.LOG_HEADER_SIZE).

(** Below the staging Base anything may be written. *)
Lemma image_below c' : outside DATA_START copy_end c c' → image_holds c' sb l [] [] ∧ durable c' ∧ blen c' = blen c.
Proof using All.
  intros Ho. assert (Hi' : image_holds c' sb l [] []) by (by eapply image_outside).
  split; [done|]. split; [exists sb, l, [], []; split; [done|split; [by left|done]]|].
  destruct Ho as (?&?&_). pose proof Hi as (_&(bs&(?&?&_&_)%get_range_Some&_)&_). lia.
Qed.

Lemma outside_within lo hi lo' hi' c1 c2 : outside lo hi c1 c2 → lo' ≤ lo → hi ≤ hi' → outside lo' hi' c1 c2.
Proof. intros (?&?&Hg) ??. split_and!; [lia|lia|]. intros a b [?|?] ?; apply Hg; lia. Qed.

Lemma relocate_any l2 db :
  l2 ≡ₚ map_to_list m → segment.measure_base_iter l2 = Ok (blen l2, size) →
  kept c (db_storage db) →
  maintenance.items (db_base db)
    (maintenance.raw_entries (db_base db) (db_overlay db) (opt_verification (db_options db))) = Ok l2 →
  ∃ r s', maintenance.relocate plan (blen l2) size db = (r, database.set_storage s' db)
    ∧ ((∃ w bs, r = Ok w ∧ written_as DATA_START size l2 w bs
          ∧ kept (splice (splice c DATA_START bs) (DATA_START + size) log.compact_marker) s')
       ∨ ∃ e c', r = Err e ∧ kept c' s' ∧ outside DATA_START copy_end c c' ∧ troubled f0).
Proof using All.
  intros Hl2 Hsz Hk Hit. pose proof (measured_nonneg _ _ Hsz). pose proof log.blen_compact_marker as Hml.
  pose proof (listed_contents l2 m Hl2) as [Hnd _].
  assert (Hes : Forall segment.entry_ok l2) by (eapply contents_ok; [exact Hi|by rewrite Hm]).
  pose proof Hi as (_&(bs0&(Hbo&Hbo2&_&_)%get_range_Some&_)&_&_&_&_&_&Hlen).
  assert (Hds : 0 ≤ DATA_START) by done. assert (Hls : log.LOG_HEADER_SIZE = 17) by done.
  assert (Hstop : ∀ e s1 c1, kept c1 s1 → outside DATA_START copy_end c c1 → troubled f0 →
    ∃ r s', (@Err segment.WrittenBase e, database.set_storage s1 db) = (r, database.set_storage s' db)
    ∧ ((∃ w bs, r = Ok w ∧ written_as DATA_START size l2 w bs
          ∧ kept (splice (splice c DATA_START bs) (DATA_START + size) log.compact_marker) s')
       ∨ ∃ e c', r = Err e ∧ kept c' s' ∧ outside DATA_START copy_end c c' ∧ troubled f0)).
  { intros e s1 c1 Hk1 Ho1 HF. exists (Err e), s1. split; [done|]. right. by exists e, c1. }
  unfold maintenance.relocate. rewrite (M_bind_ok database.self _ db db db eq_refl), Hit, M_lift_ok.
  (* the Base *)
  destruct (write_base_any durable f0 c (db_storage db) DATA_START l2 size Hk Hds Hes Hnd Hsz) as (r&s1&c1&Hr&Ho1&Hk1&Ho); [lia| |].
  { intros c' Hc'. apply image_below. eapply outside_within; [exact Hc'|lia|lia]. }
  apply (outside_within _ _ DATA_START copy_end) in Ho1; [|lia|lia]. apply on_storage_run in Hr.
  destruct Ho as [(w&bs&->&->&Hw)|(e&->&HF)].
  2:{ rewrite (M_bind_err _ _ _ _ _ Hr). by eapply Hstop. }
  rewrite (M_bind_ok _ _ _ _ _ Hr). pose proof Hw as (Hws&_). rewrite Hws, Z.eqb_refl. cbn [negb fail_if]. rewrite M_lift_ok.
  set (db1 := database.set_storage s1 db).
  (* the marker *)
  destruct (seek_start_any durable f0 _ s1 (maintenance.destination_end plan) Hk1) as (r&s2&Hr2&Hk2&Ho); [rewrite Hde; lia|].
  apply (on_storage_run _ db1) in Hr2. destruct Ho as [[-> Hat2]|(e&->&HF)].
  2:{ rewrite (M_bind_err _ _ _ _ _ Hr2). by eapply Hstop; [..|left]. }
  rewrite (M_bind_ok _ _ _ _ _ Hr2). set (db2 := database.set_storage s2 db1). rewrite Hde in Hat2.
  assert (Hmk : ∀ q, q `prefix_of` log.compact_marker →
    outside DATA_START copy_end c (over (splice c DATA_START bs) (DATA_START + size) q)).
  { intros q Hq. eapply outside_trans; [exact Ho1|].
    apply (outside_over_prefix _ _ _ _ log.compact_marker); [done|lia|lia|done]. }
  destruct (write_all_any durable f0 _ (DATA_START + size) s2 log.compact_marker Hat2) as (r&s3&d&Hr3&Hd&Hs3&Ho); [lia| |].
  { intros q Hq. by apply image_below, Hmk. }
  rewrite <- log.write_compact_marker_bytes in Hr3. apply (on_storage_run _ db2) in Hr3.
  apply stored_at_stored in Hs3. destruct Ho as [[-> ->]|(e&->&HF)].
  2:{ rewrite (M_bind_err _ _ _ _ _ Hr3). eapply Hstop; [exact Hs3|by apply Hmk|by left]. }
  rewrite (M_bind_ok _ _ _ _ _ Hr3). set (db3 := database.set_storage s3 db2).
  (* the sync *)
  destruct (sync_any durable f0 _ s3 Hs3) as (r&s4&Hr4&Hk4&Ho); [by apply image_below, Hmk|].
  apply (on_storage_run _ db3) in Hr4. destruct Ho as [[-> _]|(e&->&HF)].
  2:{ rewrite (M_bind_err _ _ _ _ _ Hr4). eapply Hstop; [exact Hk4|by apply Hmk|by left]. }
  rewrite (M_bind_ok _ _ _ _ _ Hr4). exists (Ok w), s4. split; [done|]. left. exists w, bs. split; [done|]. split; [done|].
  rewrite over_ne in Hk4; [exact Hk4|]. intros E. rewrite E in Hml. done.
Qed.

End Relocate.

(** *** Publishing the copy and cutting the file *)

Lemma drop_splice c a d : 0 ≤ a ≤ blen c → drop (Z.to_nat a) (splice c a d) = d ++ drop (Z.to_nat (a + blen d)) c.
Proof.
  intros Ha. rewrite splice_eq by lia. replace (Z.to_nat (a - blen c)) with 0%nat by lia. cbn [replicate].
  rewrite app_nil_l. apply drop_app_length'. rewrite length_take. unfold blen in *. lia.
Qed.

Section Finish.
Context c sb l size (w : segment.WrittenBase) (bs : bytes).
Hypothesis (Hl : l ≡ₚ map_to_list m) (Hsz : segment.measure_base_iter l = Ok (blen l, size)).
Hypothesis (Hroots : roots_to c sb) (Hgen : generation sb + 2 < U64) (Hlen : blen c ≤ ISIZE_MAX).
Hypothesis (Hfits : DATA_START + size + log.LOG_HEADER_SIZE ≤ blen c).
Hypothesis (Hw : written_as DATA_START size l w bs).

Definition copied_root : Superblock := root_for (generation sb + 1) DATA_START (DATA_START + size) w.
Definition copied : bytes := splice (splice c DATA_START bs) (DATA_START + size) log.compact_marker.
Definition copied_once : bytes :=
  splice copied (Z.land (generation copied_root) 1 * PAGE) (superblock.encode_page copied_root).
Definition copied_twice : bytes :=
  splice copied_once (Z.land (generation copied_root + 1) 1 * PAGE) (superblock.encode_page copied_root).

Lemma copied_facts :
  blen copied = blen c ∧ get_range copied DATA_START (DATA_START + size) = Some bs
  ∧ (∀ a b, b ≤ DATA_START → get_range copied a b = get_range c a b)
  ∧ ∃ junk, drop (Z.to_nat (DATA_START + size)) copied = log.compact_marker ++ junk.
Proof using All.
  pose proof (measured_nonneg _ _ Hsz). pose proof Hw as (_&Hbl&_). pose proof log.blen_compact_marker as Hml.
  assert (Hds : 0 ≤ DATA_START) by done. assert (Hls : log.LOG_HEADER_SIZE = 17) by done.
  assert (Hbs1 : blen (splice c DATA_START bs) = blen c) by (rewrite blen_splice by done; lia).
  unfold copied. split_and!.
  - rewrite blen_splice by lia. lia.
  - rewrite get_range_splice_below by lia. rewrite get_range_splice_in by lia. rewrite Z.sub_diag. apply get_range_all. lia.
  - intros a b Hb. rewrite get_range_splice_below by lia. apply get_range_splice_below; lia.
  - eexists. apply drop_splice. lia.
Qed.

(** Any content with these root pages over the copy. *)
Lemma copied_holds c' :
  roots_to c' copied_root → blen c' = blen copied → (∀ a b, DATA_START ≤ a → get_range c' a b = get_range copied a b) →
  (∀ a, DATA_START ≤ a → drop (Z.to_nat a) c' = drop (Z.to_nat a) copied) →
  ∃ junk, image_holds c' copied_root l [] (log.compact_marker ++ junk) ∧ durable c'.
Proof using All.
  intros Hr Hb Hg Hd. destruct copied_facts as (Hbc&Hbs&_&junk&Hj). pose proof (measured_nonneg _ _ Hsz).
  pose proof Hw as (Hws&_&_&_&_&_&_&Hdesc). assert (Hls : log.LOG_HEADER_SIZE = 17) by done.
  exists junk. assert (Hih : image_holds c' copied_root l [] (log.compact_marker ++ junk)).
  { split; [done|]. split; [exists bs; split; [|apply Hdesc]|].
    - cbn [copied_root root_for base_offset base_size]. rewrite Hws. by rewrite Hg.
    - cbn [copied_root root_for base_offset base_size log_start]. rewrite Hws.
      split_and!; [done|done|lia|by rewrite Hd by lia|constructor|lia]. }
  split; [done|]. exists copied_root, l, [], (log.compact_marker ++ junk). split; [done|].
  split; [right; left; by exists junk|apply (listed_contents l m Hl)].
Qed.

Lemma copied_published :
  durable copied_once ∧ durable copied_twice
  ∧ ∃ junk, image_holds copied_twice copied_root l [] (log.compact_marker ++ junk).
Proof using All.
  destruct copied_facts as (Hbc&_&Hlow&_). pose proof (measured_lower _ _ Hsz) as Hml. pose proof (measured_nonneg _ _ Hsz).
  pose proof (roots_in_range _ _ Hroots) as (Hg&_). assert (Hls : log.LOG_HEADER_SIZE = 17) by done.
  assert (Hdc : DATA_START ≤ blen copied) by lia.
  assert (Hfit : root_fits copied_root) by (eapply root_for_fits; [exact Hw|done|lia|done|lia|lia]).
  assert (Hold : older_roots copied copied_root)
    by (eapply older_roots_ext; [apply (roots_to_older c sb); [done|cbn; lia]|exact Hlow]).
  destruct (put_root copied copied_root (Z.land (generation copied_root) 1) Hold Hfit (superblock.land_1_cases _)) as [Hr1 Ho1].
  fold copied_once in Hr1, Ho1.
  destruct (page_slot copied copied_root (generation copied_root) Hdc) as (Hb1&Hg1&Hd1). fold copied_once in Hb1, Hg1, Hd1.
  destruct (put_root copied_once copied_root (Z.land (generation copied_root + 1) 1) Ho1 Hfit (superblock.land_1_cases _)) as [Hr2 _].
  destruct (page_slot copied_once copied_root (generation copied_root + 1)) as (Hb2&Hg2&Hd2); [lia|].
  fold copied_twice in Hr2, Hb2, Hg2, Hd2.
  split; [by destruct (copied_holds copied_once Hr1 Hb1 Hg1 Hd1) as (junk&_&?)|].
  destruct (copied_holds copied_twice Hr2) as (junk&Hih&Hdur); [lia| | |by split; [|exists junk]].
  - intros a b Ha. by rewrite Hg2, Hg1.
  - intros a Ha. by rewrite Hd2, Hd1.
Qed.

Lemma publish_relocated_any db :
  kept copied (db_storage db) →
  ∃ r s' db', maintenance.publish_relocated copied_root db = (r, db')
    ∧ (r = Ok () ∧ db' = database.set_storage s' db ∧ kept copied_twice s'
       ∨ ∃ e c', r = Err e ∧ db' = poison s' db ∧ kept c' s' ∧ faulty f0).
Proof using All.
  intros Hk. destruct copied_published as (Hd1&Hd2&_). unfold maintenance.publish_relocated.
  rewrite <- (M_bind_assoc (maintenance.or_poison (database.on_storage (superblock.write _)))).
  destruct (publish_root_any copied copied_once db (superblock.write copied_root) Hk Hd1) as (r&s1&db1&Hr&Ho).
  { exact (write_page_any durable f0 copied (db_storage db) copied_root (generation copied_root) Hwhole Hk Hd1). }
  destruct Ho as [(->&->&Hk1)|(e&c2&->&->&Hk1&HF)].
  2:{ rewrite (M_bind_err _ _ _ _ _ Hr). eexists (Err e), s1, _. split; [done|]. right. by exists e, c2. }
  rewrite (M_bind_ok _ _ _ _ _ Hr). set (db1 := database.set_storage s1 db).
  destruct (publish_root_any copied_once copied_twice db1 (superblock.write_redundant copied_root) Hk1 Hd2) as (r&s2&db2&Hr2&Ho).
  { unfold superblock.write_redundant. rewrite add_ovf_ok by (cbn [copied_root root_for generation]; lia). rewrite M_lift_ok.
    exact (write_page_any durable f0 copied_once s1 copied_root (generation copied_root + 1) Hwhole Hk1 Hd2). }
  exists r, s2, db2. split; [exact Hr2|]. destruct Ho as [?|(e&c2&->&->&Hk2&HF)]; [by left|right; by exists e, c2].
Qed.

Lemma truncate_to_any plan detached db :
  maintenance.destination_end plan = DATA_START + size → kept copied_twice (db_storage db) →
  ∃ r s' db', maintenance.truncate_to plan detached copied_root db = (r, db') ∧ db_storage db' = s'
    ∧ ∃ c', kept c' s'
    ∧ ((r = Ok () ∧ image_holds c' copied_root l [] [] ∧ ∃ b, serves copied_root l b
          ∧ db' = database.set_state Healthy (database.set_base b (database.set_storage s' db)))
       ∨ ∃ e, r = Err e ∧ db_state db' = Unavailable ∧ faulty f0).
Proof using All.
  intros Hde Hk. destruct copied_published as (_&_&junk&Hih). pose proof Hih as (_&_&_&_&Hls&Hlog&_&Hct).
  set (v := valid_part copied_twice copied_root []). pose proof (valid_part_holds _ _ _ _ _ Hih) as Hv. fold v in Hv.
  destruct (image_log_blen _ _ _ _ _ Hv) as [_ Hvb]. change (blen (recovery.encode_log [] ++ [])) with 0 in Hvb.
  assert (Hvl : blen v = DATA_START + size) by (cbn [copied_root root_for log_start] in Hvb; lia).
  assert (Hvd : copied_twice = v ++ drop (length v) copied_twice).
  { unfold v, valid_part. rewrite length_take. rewrite <- (take_drop (Z.to_nat (log_start copied_root + blen (recovery.encode_log []))) copied_twice) at 1.
    f_equal. destruct (decide (Z.to_nat (log_start copied_root + blen (recovery.encode_log [])) ≤ length copied_twice)%nat).
    - by rewrite Nat.min_l.
    - rewrite !drop_ge; [done|lia|lia]. }
  assert (Hdv : durable v) by (exists copied_root, l, [], []; split; [done|split; [by left|apply (listed_contents l m Hl)]]).
  unfold maintenance.truncate_to. rewrite Hde, <- Hvl.
  rewrite (M_bind_ok (modify _) _ db () (database.set_state Unavailable db) eq_refl).
  set (db1 := database.set_base detached (database.set_state Unavailable db)).
  rewrite (M_bind_ok (modify (database.set_base detached)) _ _ () db1 eq_refl).
  rewrite Hvd in Hk. destruct (truncate_any durable f0 v _ (db_storage db) Hk Hdv) as (r&s1&Hr&Ho).
  apply (on_storage_run _ db1) in Hr. destruct Ho as [[-> Hk1]|(e&->&HF&Hk1)].
  2:{ rewrite (M_bind_err _ _ _ _ _ Hr). eexists (Err e), s1, _. split; [done|]. split; [done|]. eexists. split; [exact Hk1|].
      right. by exists e. }
  rewrite (M_bind_ok _ _ _ _ _ Hr). set (db2 := database.set_storage s1 db1).
  destruct (sync_any durable f0 v s1 Hk1 Hdv) as (r&s2&Hr2&Hk2&Ho). change storage.sync_data with storage.sync_all in Hr2.
  apply (on_storage_run _ db2) in Hr2. destruct Ho as [[-> _]|(e&->&HF)].
  2:{ rewrite (M_bind_err _ _ _ _ _ Hr2). eexists (Err e), s2, _. split; [done|]. split; [done|]. exists v. split; [done|].
      right. by exists e. }
  rewrite (M_bind_ok _ _ _ _ _ Hr2). set (db3 := database.set_storage s2 db2).
  destruct (install_any v copied_root l [] [] db3 Hk2 Hv) as (r&s3&db4&Hr3&Hk3&Ho). unfold catch, mbind at 1, M_bind at 1.
  rewrite Hr3. destruct Ho as [(b&->&->&Hb)|(e&->&->&HF)].
  - eexists (Ok ()), s3, _. split; [done|]. split; [done|]. exists v. split; [done|]. left. split; [done|]. split; [done|].
    exists b. by split.
  - eexists (Err e), s3, _. split; [done|]. split; [done|]. exists v. split; [done|]. right. by exists e.
Qed.

End Finish.

(** *** The whole compaction of a file *)

(** The handle still stands for [m], as far as it answers at all. *)
Definition still db : Prop :=
  (db_state db ≠ Unavailable → reading db m)
  ∧ (db_state db = Healthy → ∃ f sb entries batches, handle_on db f sb entries batches ∧ contents entries batches = m).

(** The handle stands for [m], with nothing but a Base at the start of the data area. The
    file is as it was, or has the measured size. *)
Definition compacted db : Prop :=
  db_state db = Healthy ∧ ∃ f sb l, handle_on db f sb l [] ∧ contents l [] = m ∧ base_offset sb = DATA_START
    ∧ blen (file_content f) = log_start sb
    ∧ (file_content f = file_content f0
       ∨ ∃ size, l ≡ₚ map_to_list m ∧ segment.measure_base_iter l = Ok (blen l, size) ∧ blen (file_content f) = DATA_START + size).

Lemma still_poison s db : reading db m → still (poison s db).
Proof using All. intros Hr. split; [|done]. intros _. by apply (reading_ext db). Qed.

Lemma kept_handle c sb l b o s db :
  kept c s → image_holds c sb l [] [] → serves sb l b → (∀ table, OverlayState.index o ≠ OverlayMap.Memory table) →
  db_storage db = s → db_base db = b → db_overlay db = OverlayState.clear o →
  ∃ f, s = SFile f ∧ file_content f = c ∧ handle_on db f sb l [] ∧ blen c = log_start sb.
Proof using All.
  intros (f&->&Hc&_) Hi (Hh&Hls&Ho&Hg) Hn Hs Hb Hov. exists f. split; [done|]. split; [done|].
  split; [|destruct (image_log_blen _ _ _ _ _ Hi) as [_ Hx]; change (blen (recovery.encode_log [] ++ [])) with 0 in Hx; lia].
  split; [done|]. split; [by rewrite Hc|]. rewrite Hb, Hov. split_and!; try done; [apply clear_holds|].
  intros table. cbn. destruct (OverlayState.index o) eqn:E; [by destruct (Hn table0)|done].
Qed.

(** What [compact_file] and its second move give: when they fail there was a reason. *)
Definition outcome (why : Prop) (r : result ()) db : Prop :=
  match r with Ok _ => compacted db | Err _ => still db ∧ why | Panic => False end.

(** A step that closes the handle. *)
Lemma outcome_poison (why : Prop) e s c db :
  reading db m → kept c s → why →
  ∃ r db' c', (@Err () e, poison s db) = (r, db') ∧ kept c' (db_storage db') ∧ outcome why r db'.
Proof using All.
  intros Hr Hk HF. exists (Err e), (poison s db), c. split; [done|]. split; [exact Hk|]. split; [by apply still_poison|done].
Qed.

(** A failure that leaves the handle on the image it has. *)
Lemma outcome_still (why : Prop) e c sb l b o db db' :
  kept c (db_storage db) → image_holds c sb l [] [] → serves sb l b → contents l [] = m →
  (∀ table, OverlayState.index o ≠ OverlayMap.Memory table) → db_base db = b → db_overlay db = OverlayState.clear o → why →
  db = db' → ∃ r db2 c', (@Err () e, db') = (r, db2) ∧ kept c' (db_storage db2) ∧ outcome why r db2.
Proof using All.
  intros Hk Hi Hb Hm Hn Hdb Hov HF <-. exists (Err e), db, c. split; [done|]. split; [exact Hk|]. split; [|done].
  destruct (kept_handle c sb l b o (db_storage db) db Hk Hi Hb Hn) as (f&_&_&Hh&_); [done..|].
  split; intros _; [rewrite <- Hm; by eapply handle_reading|by exists f, sb, l, []].
Qed.

Lemma move_to_front_any plan c sb l b o size db :
  kept c (db_storage db) → image_holds c sb l [] [] → serves sb l b → l ≡ₚ map_to_list m →
  (∀ table, OverlayState.index o ≠ OverlayMap.Memory table) → db_base db = b → db_overlay db = OverlayState.clear o →
  segment.measure_base_iter l = Ok (blen l, size) → maintenance.destination_end plan = DATA_START + size →
  DATA_START + size + log.LOG_HEADER_SIZE ≤ base_offset sb → base_size sb = size → generation sb + 2 < U64 →
  ∃ r db' c', maintenance.move_to_front plan (blen l) size sb db = (r, db') ∧ kept c' (db_storage db')
    ∧ outcome (troubled f0) r db'.
Proof using All.
  intros Hk Hi Hb Hl Hn Hdb Hov Hsz Hde Hgap Hbsz Hgen. pose proof (listed_contents l m Hl) as [_ Hm].
  destruct (kept_handle c sb l b o (db_storage db) db Hk Hi Hb Hn) as (f&_&_&Hh&_); [done..|].
  pose proof (handle_reading _ _ _ _ _ Hh) as Hrd. rewrite Hm in Hrd.
  pose proof Hi as (Hroots&(bs0&(?&?&_&_)%get_range_Some&_)&_&_&_&_&_&Hlen).
  pose proof (roots_in_range _ _ Hroots) as (Hg&_). pose proof (measured_nonneg _ _ Hsz).
  unfold maintenance.move_to_front. rewrite add_ovf_ok by lia. rewrite M_lift_ok.
  destruct (detached_base_any (generation sb + 1)) as [[det Hdet]|(e&n&Hdet&Hres)]; rewrite Hdet.
  2:{ eapply outcome_still; try done. right. by exists n. }
  rewrite M_lift_ok. destruct (items_reading db m (opt_verification (db_options db)) Hpl Hrd) as (l2&Hit&Hl2).
  assert (Hperm : l ≡ₚ l2) by (by rewrite Hl, Hl2).
  assert (Hbl2 : blen l = blen l2) by (unfold blen; by rewrite (Permutation_length Hperm)).
  assert (Hsz2 : segment.measure_base_iter l2 = Ok (blen l2, size))
    by (rewrite <- Hbl2; by apply (segment.measure_base_iter_perm l)).
  rewrite Hbl2. destruct (relocate_any c sb l size plan Hi Hm Hde Hgap l2 db Hl2 Hsz2 Hk Hit)
    as (r&s1&Hr1&[(w&bs&->&Hw&Hk1)|(e&c1&->&Hk1&Ho1&HF)]).
  2:{ rewrite (M_bind_err _ _ _ _ _ Hr1).
      eapply (outcome_still _ _ c1 sb l b o (database.set_storage s1 db)); try done.
      exact (proj1 (image_below c sb l size plan Hi Hm Hde Hgap c1 Ho1)). }
  rewrite (M_bind_ok _ _ _ _ _ Hr1). set (db1 := database.set_storage s1 db).
  assert (Hfits : DATA_START + size + log.LOG_HEADER_SIZE ≤ blen c) by lia.
  destruct (publish_relocated_any c sb l2 size w bs Hl2 Hsz2 Hroots Hgen Hlen Hfits Hw db1 Hk1)
    as (r&s2&db2&Hr2&Ho2). cbv zeta. rewrite Hde. change (MkSuperblock _ _ _ _ _ _ _) with (copied_root sb size w).
  destruct Ho2 as [(->&->&Hk2)|(e&c2&->&->&Hk2&HF)].
  2:{ rewrite (M_bind_err _ _ _ _ _ Hr2). eapply outcome_poison; [by apply (reading_ext db)|exact Hk2|by left]. }
  rewrite (M_bind_ok _ _ _ _ _ Hr2). set (db2 := database.set_storage s2 db1).
  destruct (truncate_to_any c sb l2 size w bs Hl2 Hsz2 Hroots Hgen Hlen Hfits Hw plan det db2 Hde Hk2)
    as (r&s3&db3&Hr3&Hs3&c3&Hk3&Ho3).
  exists r, db3, c3. split; [exact Hr3|]. split; [by rewrite Hs3|].
  destruct Ho3 as [(->&Hi3&b3&Hb3&Hdb3)|(e&->&Hun&HF)].
  - destruct (kept_handle c3 (copied_root sb size w) l2 b3 o s3 db3 Hk3 Hi3 Hb3 Hn) as (f3&_&Hc3&Hh3&Hl3);
      [done|by rewrite Hdb3|by rewrite Hdb3|].
    split; [by rewrite Hdb3|]. exists f3, (copied_root sb size w), l2. split; [done|].
    split; [by apply listed_contents|]. split; [done|]. split; [by rewrite Hc3|]. right. exists size.
    split; [done|]. split; [done|]. rewrite Hc3, Hl3. done.
  - split; [|by left]. by split; rewrite Hun.
Qed.

(** Why a compaction of a file is refused. *)
Definition no_room db size : Prop :=
  opt_max_database_bytes (db_options db) < maintenance.source_end (plan_for (file_content f0) size).

Lemma compact_file_any db sb entries batches l size :
  handle_on db f0 sb entries batches → contents entries batches = m → generation sb + 3 < U64 →
  opt_max_database_bytes (db_options db) ≤ ISIZE_MAX → db_state db = Healthy →
  maintenance.items (db_base db)
    (maintenance.raw_entries (db_base db) (db_overlay db) (opt_verification (db_options db))) = Ok l →
  l ≡ₚ map_to_list m → segment.measure_base_iter l = Ok (blen l, size) →
  ∃ r db' c', maintenance.compact_file (blen l) size db = (r, db') ∧ kept c' (db_storage db')
    ∧ outcome (troubled f0 ∨ no_room db size) r db'.
Proof using All.
  intros Hh Hm Hgen Hmax Hst Hit Hl Hsz. set (c := file_content f0). pose proof Hh as (Hs0&Hi&Hb0&_&_&Hg0&_&Hn0).
  pose proof (handle_reading _ _ _ _ _ Hh) as Hrd. rewrite Hm in Hrd. fold c in Hi.
  pose proof Hi as (Hroots&_&_&_&_&_&_&Hlen). pose proof (roots_in_range _ _ Hroots) as (Hgr&_).
  assert (Hk0 : kept c (db_storage db)).
  { rewrite Hs0. exists f0. split; [done|]. split; [done|]. split; [|done]. apply history_refl.
    exists sb, entries, batches, []. split; [done|]. split; [by left|done]. }
  unfold maintenance.compact_file.
  destruct (compact_plan_any c db size Hk0 Hlen (measured_nonneg _ _ Hsz) Hmax) as (r&s1&Hr1&Hk1&[(->&Hat1&Hcap)|(e&->&Hwhy)]).
  2:{ rewrite (M_bind_err _ _ _ _ _ Hr1). exists (Err e), (database.set_storage s1 db), c. split; [done|]. split; [exact Hk1|].
      split; [|destruct Hwhy as [?|?]; [by left; left|by right]].
      split; intros _; [by apply (reading_ext db)|]. destruct Hk1 as (f1&->&Hc1&_). exists f1, sb, entries, batches.
      split; [|done]. destruct Hh as (_&_&Hrest). split; [done|]. split; [by rewrite Hc1|exact Hrest]. }
  rewrite (M_bind_ok _ _ _ _ _ Hr1). set (db1 := database.set_storage s1 db).
  assert (Hend : maintenance.source_end (plan_for c size) ≤ ISIZE_MAX) by lia.
  assert (Hrd1 : reading db1 m) by (by apply (reading_ext db)).
  destruct (write_staging_any c sb entries batches l size Hi Hm Hl Hsz Hend db1 Hat1 Hrd1 Hit)
    as (r&s2&db2&Hr2&[(w&bs&->&->&Hk2&Hw)|(e&c2&->&->&Hk2&HF)]).
  2:{ rewrite (M_bind_err _ _ _ _ _ Hr2). eapply outcome_poison; [exact Hrd1|exact Hk2|by left]. }
  rewrite (M_bind_ok _ _ _ _ _ Hr2). set (db2 := database.set_storage s2 db1).
  assert (Hgen1 : generation sb + 1 < U64) by lia.
  destruct (staged_holds c sb entries batches l size w bs Hi Hm Hl Hsz Hend Hgen1 Hw) as [Hih _].
  destruct (publish_staging_any c sb entries batches l size w bs Hi Hm Hl Hsz Hend Hgen1 Hw db2 Hk2 Hg0)
    as (r&s3&db3&Hr3&[(b&->&Hk3&Hb&->)|(e&c3&->&->&Hk3&HF)]).
  2:{ rewrite (M_bind_err _ _ _ _ _ Hr3). eapply outcome_poison; [by apply (reading_ext db)|exact Hk3|left; by left]. }
  rewrite (M_bind_ok _ _ _ _ _ Hr3). set (db3 := database.set_overlay _ _).
  destruct (move_to_front_any (plan_for c size) _ (staged_root c sb size w) l b (db_overlay db) size db3 Hk3 Hih Hb Hl Hn0)
    as (r&db4&c4&Hr4&Hk4&Ho4); [done|done|done|done| | | |].
  - cbn. lia.
  - exact (proj1 Hw).
  - cbn. lia.
  - exists r, db4, c4. split; [exact Hr4|]. split; [exact Hk4|]. destruct r as [u|e|]; [done| |done].
    destruct Ho4 as [? ?]. split; [done|by left].
Qed.

End Steps.

(** ** [compact] *)

Section Compact.
Context `{Crc32cLaws, Xxh3Laws, Alloc, HashTablesLaws, Placement}.
Implicit Types (db : Database) (f : File) (sb : Superblock) (entries l : list (bytes * bytes))
  (batches : list (list mutation)).

(** Why [compact] can be refused: the handle is closed for writing, a snapshot is
    alive, a system call or an allocation fails, or there is no room for both copies. *)
Definition refused f db (m : gmap bytes bytes) : Prop :=
  db_state db ≠ Healthy ∨ db_snapshots db ≠ 0 ∨ troubled f
  ∨ ∃ l, l ≡ₚ map_to_list m ∧ ∀ size, segment.measure_base_iter l = Ok (blen l, size) → no_room f db size.

Lemma outcome_mono m f f1 (P Q : Prop) r db :
  outcome m f1 P r db → file_content f1 = file_content f → (P → Q) → outcome m f Q r db.
Proof.
  destruct r as [u|e|]; cbn; [| |done].
  - intros (?&g&sb&l&?&?&?&?&Hor) E _. rewrite E in Hor. split; [done|]. exists g, sb, l. by split_and!.
  - intros [? ?] _ ?. split; auto.
Qed.

(** A file that only lost the head of its script. *)
Definition advanced f f1 : Prop :=
  file_content f1 = file_content f ∧ file_trace f1 = file_trace f ∧ file_script f1 `suffix_of` file_script f.

Lemma stored_advanced R f f1 c s : advanced f f1 → stored R f1 c s → stored R f c s.
Proof.
  intros (Hc&Ht&Hs) (g&->&Hg&(ops&Hot&Hoc&Hok)&Hgs). exists g. split; [done|]. split; [done|]. split; [|by etrans].
  exists ops. rewrite <- Ht, <- Hc. by split_and!.
Qed.

Lemma len_advanced f :
  ∃ r f1, storage.len (SFile f) = (r, SFile f1) ∧ advanced f f1
    ∧ (r = Ok (blen (file_content f)) ∨ ∃ e, r = Err e ∧ faulty f).
Proof.
  unfold storage.len, storage.dispatch, file.len.
  destruct (syscall_any (λ _, gets (λ f, blen (file_content f))) f) as (g&Hgc&_&Hgt&Hgs&[(e&->&He)|[x ->]]).
  - eexists (Err _), g. split; [done|]. split; [by split_and!|]. right. eexists. split; [done|by exists e].
  - eexists (Ok _), g. split; [done|]. split; [by split_and!|]. left. by rewrite Hgc.
Qed.

Lemma refused_advanced f f1 db db1 m :
  advanced f f1 → refused f1 db1 m → db_state db1 = db_state db → db_snapshots db1 = db_snapshots db →
  db_options db1 = db_options db → refused f db m.
Proof.
  intros (Hc&_&Hs) Hr E1 E2 E3. unfold refused, no_room in *. rewrite E1, E2, E3, Hc in Hr.
  destruct Hr as [?|[?|[[?|?]|?]]]; [by left|by right; left|right; right; left; left|right; right; left; by right|by do 3 right].
  by eapply faulty_suffix.
Qed.

(** What remains once the entries are known. *)
Lemma measure_compact_any st db f sb entries batches :
  storage.is_memory st = false → handle_on db f sb entries batches → whole f → generation sb + 3 < U64 →
  opt_max_database_bytes (db_options db) ≤ ISIZE_MAX → (∀ mapping, PlacementLaws mapping) → db_state db = Healthy →
  let m := contents entries batches in
  ∃ r db' c', ('(live_len, expected_base_size) ← lift (entries ← maintenance.items (db_base db) (database.iter_raw db);
                                          segment.measure_base_iter entries);
      if storage.is_memory st then maintenance.compact_memory live_len expected_base_size
      else maintenance.compact_file live_len expected_base_size) db = (r, db')
    ∧ stored (durable m) f c' (db_storage db') ∧ outcome m f (refused f db m) r db'.
Proof.
  intros Hmem Hh Hw Hgen Hmax Hpl Hst m. pose proof (handle_reading _ _ _ _ _ Hh) as Hrd. pose proof Hh as (Hs&Hi&_).
  destruct (items_reading db m (opt_verification (db_options db)) Hpl Hrd) as (l&Hit&Hl).
  rewrite iter_raw_entries, Hit. rstep. pose proof (segment.measure_base_iter_no_panic l) as Hnp.
  destruct (segment.measure_base_iter l) as [[n size]|e|] eqn:Hsz; [| |done].
  - assert (n = blen l) as -> by (by destruct (segment.measure_base_iter_spec l [] _ _ Hsz) as (?&_&?&_)).
    rewrite M_lift_ok, Hmem.
    destruct (compact_file_any m f Hpl Hw db sb entries batches l size Hh eq_refl Hgen Hmax Hst Hit Hl Hsz)
      as (r&db'&c'&Hr&Hk&Ho). exists r, db', c'. split; [exact Hr|]. split; [exact Hk|].
    eapply outcome_mono; [exact Ho|done|]. intros [?|Hno]; [by right; right; left|]. do 3 right. exists l. split; [done|].
    intros size' Hsz'. rewrite Hsz in Hsz'. by injection Hsz' as <-.
  - exists (Err e), db, (file_content f). split; [done|]. rewrite Hs. split.
    + exists f. split; [done|]. split; [done|]. split; [|done]. apply history_refl.
      exists sb, entries, batches, []. split; [done|]. split; [by left|done].
    + split; [split; [done|by exists f, sb, entries, batches]|]. do 3 right. exists l. split; [done|]. intros size'.
      by rewrite Hsz.
Qed.

(** A refusal that changes no more than the position of the file. *)
Lemma compact_stop f db0 e db f1 sb entries batches :
  let m := contents entries batches in
  handle_on db f1 sb entries batches → stored (durable m) f (file_content f) (SFile f1) → refused f db0 m →
  ∃ r db' c', (@Err () e, db) = (r, db') ∧ stored (durable m) f c' (db_storage db') ∧ outcome m f (refused f db0 m) r db'.
Proof.
  intros m Hh Hk HF. exists (Err e), db, (file_content f). split; [done|]. pose proof Hh as (->&_).
  split; [done|]. split; [|done]. split; intros _; [by eapply handle_reading|by exists f1, sb, entries, batches].
Qed.

(** A database that is compact already. *)
Lemma compact_idle db f sb entries batches P :
  handle_on db f sb entries batches → db_state db = Healthy → ab_offset (db_base db) = DATA_START →
  blen (file_content f) = ab_log_start (db_base db) → outcome (contents entries batches) f P (Ok ()) db.
Proof.
  intros Hh Hst Hoff Hlen. pose proof Hh as (_&Hi&_&Hls&Ho&_). rewrite Hls in Hlen.
  assert (batches = []) as ->.
  { destruct (image_log_blen _ _ _ _ _ Hi) as [_ Hx]. rewrite app_nil_r in Hx. apply encode_log_nil, blen_0. lia. }
  split; [done|]. exists f, sb, entries. split; [done|]. split; [done|]. split; [by rewrite <- Ho|]. split; [done|by left].
Qed.

Lemma compact_any db f sb entries batches :
  handle_on db f sb entries batches → whole f → generation sb + 3 < U64 →
  opt_max_database_bytes (db_options db) ≤ ISIZE_MAX → (∀ mapping, PlacementLaws mapping) →
  let m := contents entries batches in
  ∃ r db' c', maintenance.compact db = (r, db') ∧ stored (durable m) f c' (db_storage db')
    ∧ outcome m f (refused f db m) r db'.
Proof.
  intros Hh Hw Hgen Hmax Hpl m.
  assert (Hdur : ∀ f1, file_content f1 = file_content f → durable m (file_content f1)).
  { intros f1 ->. pose proof Hh as (_&Hi&_). exists sb, entries, batches, []. split; [done|]. split; [by left|done]. }
  assert (Hk : stored (durable m) f (file_content f) (SFile f)).
  { exists f. split; [done|]. split; [done|]. split; [|done]. apply history_refl. by apply Hdur. }
  unfold maintenance.compact, database.ensure_writable. rewrite M_bind_assoc, (M_bind_ok database.self _ db db db eq_refl).
  destruct (bool_decide (db_state db = Healthy)) eqn:Est; bool_prop; [|by eapply compact_stop; [..|left]].
  rewrite M_lift_ok, (M_bind_ok database.self _ db db db eq_refl).
  destruct (db_snapshots db =? 0) eqn:Esn; bool_prop; cbn [negb fail_if]; [|by eapply compact_stop; [..|right; left]].
  rewrite M_lift_ok. unfold database.verify, database.ensure_available.
  rewrite !M_bind_assoc, (M_bind_ok database.self _ db db db eq_refl). rewrite bool_decide_false by (by rewrite Est).
  rewrite M_lift_ok.
  pose proof Hh as (Hs&Hi&Hb&_). destruct (active_base.verify_any _ _ Hb) as (r&b&Hr&Hsame&Hb'&Ho).
  assert (Hv : database.on_base active_base.verify db = (r, database.set_base b db))
    by (unfold database.on_base, zoom; by rewrite Hr).
  assert (Hh1 : handle_on (database.set_base b db) f sb entries batches) by (by eapply handle.handle_on_base).
  destruct Ho as [[-> _]|(e&n&->&Hn)].
  2:{ rewrite (M_bind_err _ _ _ _ _ Hv). eapply compact_stop; [exact Hh1|exact Hk|]. do 2 right. left. right. by exists n. }
  rewrite (M_bind_ok _ _ _ _ _ Hv). set (db1 := database.set_base b db) in *.
  rewrite (M_bind_ok database.self _ db1 db1 db1 eq_refl).
  assert (Hmem : storage.is_memory (db_storage db1) = false) by (cbn; by rewrite Hs).
  destruct ((_ =? DATA_START) && _) eqn:Eno.
  2:{ rewrite (M_bind_ok (mret false) _ db1 false db1 eq_refl).
      destruct (measure_compact_any (db_storage db1) db1 f sb entries batches Hmem Hh1 Hw Hgen Hmax Hpl Est) as (r&db'&c'&Hr'&?&?).
      exists r, db', c'. by split. }
  bool_prop. rewrite M_bind_assoc.
  (* the length of the file *)
  destruct (len_advanced f) as (r&f1&Hr1&Hadv&Ho1). rewrite <- Hs in Hr1. apply (on_storage_run _ db1) in Hr1.
  set (db2 := database.set_storage (SFile f1) db1). pose proof Hadv as (Hc1&Ht1&Hsu1).
  assert (Hk1 : stored (durable m) f (file_content f) (SFile f1)).
  { eapply stored_advanced; [exact Hadv|]. exists f1. split; [done|]. split; [done|]. split; [|done].
    apply history_refl. by apply Hdur. }
  assert (Hh2 : handle_on db2 f1 sb entries batches).
  { destruct Hh1 as (_&_&Hrest). split; [done|]. split; [by rewrite Hc1|exact Hrest]. }
  destruct Ho1 as [->|(e&->&HF)].
  2:{ rewrite (M_bind_err _ _ _ _ _ Hr1). eapply compact_stop; [exact Hh2|exact Hk1|]. do 2 right. left. by left. }
  rewrite (M_bind_ok _ _ _ _ _ Hr1). rewrite (M_bind_ok (mret _) _ db2 _ db2 eq_refl).
  destruct (blen (file_content f) =? _) eqn:Elen; bool_prop.
  - exists (Ok ()), db2, (file_content f). split; [done|]. split; [done|].
    eapply (outcome_mono _ f f1 (refused f db m)); [eapply compact_idle; [done..|]; by rewrite Hc1|done|done].
  - destruct (measure_compact_any (db_storage db1) db2 f1 sb entries batches Hmem Hh2) as (r&db'&c'&Hr'&Hk'&Ho'); try done.
    { by eapply whole_suffix. }
    exists r, db', c'. split; [exact Hr'|]. split; [by eapply stored_advanced|].
    eapply outcome_mono; [exact Ho'|done|]. intros HF. by eapply (refused_advanced f f1 db db2).
Qed.

(** ** Properties *)

(** C10: compaction of a file changes nothing but the file. Whichever system calls and
    allocations fail, and whichever calls are cut short to a page or more: on success the
    handle stands for the same map with an empty Overlay and its Base at the start of the
    data area, and either the file was compact already and keeps its content, or it holds
    exactly the live entries and is exactly as long as the root pages and the size measured
    for these entries; on failure the handle, unless it closed itself, still reads the same
    map, and when it stays open for writing the file is the image of that map. It fails
    only if the handle is closed for writing, a snapshot is alive, something failed or
    there is no room for both copies, and it never panics. *)
Theorem compact_outcome db f sb entries batches :
  handle_on db f sb entries batches → whole f → generation sb + 3 < U64 →
  opt_max_database_bytes (db_options db) ≤ ISIZE_MAX → (∀ mapping, PlacementLaws mapping) →
  let m := contents entries batches in
  ∃ r db', maintenance.compact db = (r, db')
    ∧ match r with
      | Ok _ => db_state db' = Healthy ∧ ∃ f' sb' l, handle_on db' f' sb' l [] ∧ contents l [] = m
          ∧ base_offset sb' = superblock.DATA_START ∧ blen (file_content f') = log_start sb'
          ∧ (file_content f' = file_content f
             ∨ ∃ size, l ≡ₚ map_to_list m ∧ segment.measure_base_iter l = Ok (blen l, size)
                 ∧ blen (file_content f') = superblock.DATA_START + size)
      | Err _ => (db_state db' ≠ Unavailable → reading db' m)
          ∧ (db_state db' = Healthy → ∃ f' sb' l b, handle_on db' f' sb' l b ∧ contents l b = m)
          ∧ refused f db m
      | Panic => False
      end.
Proof.
  intros Hh Hw Hgen Hmax Hpl m. destruct (compact_any db f sb entries batches Hh Hw Hgen Hmax Hpl) as (r&db'&c'&Hr&_&Ho).
  exists r, db'. split; [exact Hr|]. destruct r as [u|e|]; [exact Ho| |exact Ho].
  destruct Ho as [[Ho1 Ho2] Hwhy]. by split_and!.
Qed.

(** C7: compaction is crash-safe. Take the content of the file after any number of
    the changes [compact] makes, failed system calls, short ones of a page or more and
    the rollback included, and open it: the result is a healthy database with the same map. *)
Theorem compact_crash_safe db f sb entries batches options :
  handle_on db f sb entries batches → whole f → generation sb + 3 < U64 →
  opt_max_database_bytes (db_options db) ≤ ISIZE_MAX → (∀ mapping, PlacementLaws mapping) →
  recovery.reserve_succeeds → (∀ n, try_reserve n = true) → ISIZE_MAX ≤ opt_max_database_bytes options →
  ∃ r db' f' ops, maintenance.compact db = (r, db') ∧ db_storage db' = SFile f' ∧ file_trace f' = file_trace f ++ ops
    ∧ ∀ k g, stream_ok g → file_content g = replay (file_content f) (take k ops) →
        ∃ db2 g' sb2 l2 b2, database.open_with_options g options = (Ok db2, SFile g')
          ∧ handle_on db2 g' sb2 l2 b2 ∧ db_state db2 = Healthy ∧ contents l2 b2 = contents entries batches.
Proof.
  intros Hh Hw Hgen Hmax Hpl Hres Ha Hopt.
  destruct (compact_any db f sb entries batches Hh Hw Hgen Hmax Hpl) as (r&db'&c'&Hr&(f'&Hs'&_&(ops&Ht&_&Hk)&_)&_).
  exists r, db', f', ops. split; [done|]. split; [done|]. split; [done|]. intros k g Hg Hgc.
  destruct (Hk k) as (sb2&l2&b2&rest&Hi2&He&Hc2). rewrite <- Hgc in Hi2.
  destruct (open_clean g sb2 l2 b2 rest options Hg Hi2 He Hres Ha) as (db2&g'&Ho&Hh2&_&Hst&_).
  - etrans; [|exact Hopt]. done.
  - destruct Hi2 as (_&_&_&_&_&_&_&?). lia.
  - exists db2, g', sb2, l2, b2. by split_and!.
Qed.

End Compact.

(** *** A concrete compaction *)

Import RefInstances.

#[local] Instance demo_placement : Placement :=
  {| base_addr := 65536; place kv := (view.MkSlice 1 kv.1, view.MkSlice 2 kv.2) |}.

(** One entry is live in the committed demonstration database; the copies fit. *)
Lemma demo_entries l :
  l ≡ₚ map_to_list (contents [] [handle.demo_muts]) → l = [([Byte.x62], [Byte.x01; Byte.x02; Byte.x03])].
Proof.
  intros Hl. apply Permutation_length_1_inv. symmetry. etrans; [exact Hl|].
  replace (contents [] [handle.demo_muts]) with ({[[Byte.x62] := [Byte.x01; Byte.x02; Byte.x03]]} : gmap bytes bytes)
    by (symmetry; vm_compute; reflexivity).
  by rewrite map_to_list_singleton.
Qed.

Lemma demo_not_refused db f :
  db_state db = Healthy → db_snapshots db = 0 → stream_ok f → db_options db = handle.demo_options →
  blen (file_content f) = database.MIN_DATABASE_BYTES + blen (log.encode_record handle.demo_muts) →
  refused f db (contents [] [handle.demo_muts]) → False.
Proof.
  intros Hst Hsn [Hs _] Hop Hlen [?|[?|[[[e He]|[n Hn]]|(l&Hl&Hno)]]]; [done|done| |done|].
  - rewrite Hs in He. by apply not_elem_of_nil in He.
  - rewrite (demo_entries l Hl) in Hno.
    destruct (segment.measure_base_iter [([Byte.x62], [Byte.x01; Byte.x02; Byte.x03])]) as [[n size]|e|] eqn:E;
      vm_compute in E; [|discriminate E..].
    injection E as <- <-. specialize (Hno _ eq_refl). unfold no_room, plan_for in Hno.
    rewrite Hop, Hlen in Hno. vm_compute in Hno. discriminate Hno.
Qed.

(** The committed demonstration database is compacted to a Base of one entry. *)
Lemma compact_outcome_witness :
  ∃ db db' f' sb' l, maintenance.compact db = (Ok (), db') ∧ handle_on db' f' sb' l []
    ∧ contents l [] = contents [] [handle.demo_muts].
Proof.
  destruct handle.demo_committed as (db&f&sb&Hh&Hok&Hst&Hop&Hsn&Hgen&Hlen).
  destruct (compact_outcome db f sb [] [handle.demo_muts] Hh) as (r&db'&Hr&Ho).
  - intros n Hn. destruct Hok as [Hs _]. rewrite Hs in Hn. by apply not_elem_of_nil in Hn.
  - rewrite Hgen. reflexivity.
  - rewrite Hop. apply Z.le_refl.
  - apply entries_facts.demo_placement_laws.
  - destruct r as [[]|e|].
    + destruct Ho as (_&f'&sb'&l&Hh'&Hc&_). exists db, db', f', sb', l. split; [exact Hr|]. split; [exact Hh'|exact Hc].
    + destruct Ho as (_&_&Hwhy). destruct (demo_not_refused db f Hst Hsn Hok Hop Hlen Hwhy).
    + destruct Ho.
Defined.

Lemma compact_crash_safe_witness :
  ∃ db f r db' f' ops, maintenance.compact db = (r, db') ∧ db_storage db' = SFile f'
    ∧ ∀ k, ∃ db2 g' sb2 l2 b2,
        database.open_with_options (MkFile (replay (file_content f) (take k ops)) 0 [] []) handle.demo_options
          = (Ok db2, SFile g')
        ∧ handle_on db2 g' sb2 l2 b2 ∧ contents l2 b2 = contents [] [handle.demo_muts].
Proof.
  destruct handle.demo_committed as (db&f&sb&Hh&Hok&Hst&Hop&Hsn&Hgen&Hlen).
  destruct (compact_crash_safe db f sb [] [handle.demo_muts] handle.demo_options Hh) as (r&db'&f'&ops&Hr&Hs'&_&Hk).
  - intros n Hn. destruct Hok as [Hs _]. rewrite Hs in Hn. by apply not_elem_of_nil in Hn.
  - rewrite Hgen. reflexivity.
  - rewrite Hop. apply Z.le_refl.
  - apply entries_facts.demo_placement_laws.
  - exact recovery.ref_reserve_succeeds.
  - reflexivity.
  - apply Z.le_refl.
  - exists db, f, r, db', f', ops. split; [exact Hr|]. split; [exact Hs'|]. intros k.
    destruct (Hk k (MkFile (replay (file_content f) (take k ops)) 0 [] [])) as (db2&g'&sb2&l2&b2&Ho&Hh2&_&Hc).
    + split; [reflexivity|apply Z.le_refl].
    + reflexivity.
    + exists db2, g', sb2, l2, b2. split; [exact Ho|]. split; [exact Hh2|exact Hc].
Defined.

End compaction.
