(* ===== verification/Volatile.v ===== *)
(** * Compacting a volatile database

    [compact] on the in-memory backend: the new Base is built in a buffer, swapped in
    and the Overlay emptied; only an allocation can fail, and the handle reads the same
    map before and after. *)

From S2P Require Import Prelude Errors Crates Io Superblock Values Log Segment Overlay Recovery View.
From S2P Require Import Base Storage Transaction Entries Database Maintenance Faults Commit Written Reopen Handle Overwrite Compaction.
Import overlay_map_facts commit_facts compaction.

Module volatile.

#[local] Abbreviation DATA_START := superblock.DATA_START.

Section Volatile.
Context `{Crc32cLaws, Xxh3Laws, Alloc, HashTablesLaws, Placement}.
Implicit Types (db : Database) (l : list (bytes * bytes)) (m : gmap bytes bytes) (ms : MemoryStorage).

(** An allocation was refused. *)
Definition starved : Prop := ∃ n, try_reserve n = false.

Lemma resize_any (bs : bytes) n :
  (∃ bs', memory.resize_bytes bs n = Ok bs') ∨ (∃ e, memory.resize_bytes bs n = Err e) ∧ starved.
Proof.
  unfold memory.resize_bytes. destruct (_ <? n); cbn [andb]; [|left; by eexists].
  destruct (try_reserve _) eqn:E; [left; by eexists|]. right. split; [by eexists|by eexists].
Qed.

(** Writing a root page into the header. *)
Lemma write_root_memory sb ms :
  ∃ r ms', superblock.write sb (SMemory ms) = (r, SMemory ms') ∧ (r = Ok () ∨ (∃ e, r = Err e) ∧ starved).
Proof.
  unfold superblock.write. set (off := Z.land (generation sb) 1 * superblock.SUPERBLOCK_SIZE).
  set (ms1 := memory.set_position off ms).
  assert (Hsk : Io.seek (Start off) (SMemory ms) = (Ok off, SMemory ms1)) by done. mrun Hsk.
  pose proof (superblock.blen_encode_page sb) as Hl. set (page := superblock.encode_page sb) in *.
  assert (Hne : page ≠ []) by (intros E; rewrite E in Hl; done).
  unfold superblock.SUPERBLOCK_SIZE in *.
  assert (Hoff : 0 ≤ off ≤ 4096) by (unfold off; destruct (superblock.land_1_cases (generation sb)) as [->| ->]; lia).
  assert (Hw : ∃ r ms2, Io.write page (SMemory ms1) = (r, SMemory ms2) ∧ (r = Ok (blen page) ∨ (∃ e, r = Err e) ∧ starved)).
  { cbn [Io.write storage.storage_stream]. unfold storage.dispatch. cbn [Io.write memory.memory_stream].
    unfold memory.write. clearbody page. destruct page as [|b page]; [done|]. set (all := b :: page) in *.
    unfold mbind, M_bind, gets, lift, modify, mret, M_ret. change (ms_position ms1) with off.
    rewrite checked_add_ok by lia. cbn [ok_or]. replace (off + blen all <=? DATA_START) with true
      by (unfold superblock.DATA_START, superblock.SUPERBLOCK_SIZE; lia).
    destruct (resize_any (ms_header ms1) (off + blen all)) as [[h Hr]|[[e Hr] Hs]]; rewrite Hr; cbn [memory.map_io].
    - eexists _, _. split; [done|]. by left.
    - eexists _, _. split; [done|]. right. split; [by eexists|done]. }
  destruct Hw as (r&ms2&Hw&Ho). unfold write_all, stream_writer. clearbody page. destruct page as [|b page]; [done|].
  cbn [length write_all_loop]. set (all := b :: page) in *. destruct Ho as [->|[[e ->] Hs]].
  - mrun Hw. pose proof (blen_pos all Hne). replace (blen all =? 0) with false by lia.
    rewrite take_drop_Z by lia. rewrite M_lift_ok. rewrite drop_ge by (unfold blen; lia).
    exists (Ok ()), ms2. split; [by destruct (length page)|by left].
  - rewrite (M_bind_err _ _ _ _ _ Hw). exists (Err e), ms2. split; [done|]. right. split; [by eexists|done].
Qed.

(** What compaction leaves in a volatile handle. *)
Definition after m (r : result ()) db' : Prop :=
  (∃ ms', db_storage db' = SMemory ms') ∧ reading db' m
  ∧ match r with
    | Ok _ => db_state db' = Healthy ∧ ab_offset (db_base db') = DATA_START
        ∧ OverlayMap.is_empty (OverlayState.index (db_overlay db')) = true
    | Err _ => True
    | Panic => False
    end.

Lemma after_err db m e db' ms' :
  reading db m → db_storage db' = SMemory ms' → db_base db' = db_base db → db_overlay db' = db_overlay db →
  after m (Err e) db'.
Proof. intros Hr Hs Hb Ho. split; [by eexists|]. split; [by apply (reading_ext db)|done]. Qed.

Lemma clear_is_empty (o : OverlayState) : OverlayMap.is_empty (OverlayState.index (OverlayState.clear o)) = true.
Proof.
  unfold OverlayMap.is_empty. rewrite (len_spec [] _ ∅); [by rewrite map_size_empty|]. apply (proj1 (clear_holds [] o)).
Qed.

Lemma install_memory_any db ms m l size w bs :
  db_storage db = SMemory ms → reading db m → db_state db = Healthy → l ≡ₚ map_to_list m →
  written_as DATA_START size l w bs → 0 < size → DATA_START + size ≤ ISIZE_MAX → ab_generation (db_base db) + 1 < U64 →
  ∃ r db', maintenance.install_memory_base DATA_START bs (blen l) db = (r, db') ∧ after m r db'.
Proof.
  intros Hs Hrd Hst Hl (Hws&Hbl&Hsc&Hwl&_&_&_&Hdesc) Hpos Hend Hgen. pose proof (listed_contents l m Hl) as [_ Hm].
  unfold maintenance.install_memory_base.
  assert (Hde : BaseBytes.deref (BaseBytes.Memory bs 0 (blen bs)) = Ok bs) by (cbn; unfold index_range; by rewrite get_range_all).
  rewrite Hde, M_lift_ok. pose proof (Hdesc 0 0) as ((index&Hseg)&_&_&Hck).
  destruct (active_base.segment_with_layout _ _ _ _ _ Hseg) as (Hlay&_&_&Hhd&_). cbn [base_slots root_for] in Hlay, Hhd.
  rewrite Hlay, M_lift_ok. cbn [segment.layout_data]. rewrite Hhd, M_lift_ok. rewrite Z.eqb_refl. cbn [negb fail_if].
  rewrite M_lift_ok, Hck, M_lift_ok. rewrite checked_add_ok by (unfold superblock.DATA_START, superblock.SUPERBLOCK_SIZE in *; lia).
  cbn [ok_or]. rewrite M_lift_ok, (M_bind_ok database.self _ db db db eq_refl), add_ovf_ok, M_lift_ok by done. cbv zeta.
  set (sb := root_for (ab_generation (db_base db) + 1) DATA_START (DATA_START + blen bs) w).
  match goal with |- context [active_base.install _ ?x] =>
    assert (Hsb : x = sb) by (unfold sb, root_for; cbn [base_checksum root_for]; by rewrite Hws, Hwl, Hbl) end.
  rewrite Hsb. destruct (active_base.install_describes _ bs sb l Hde (Hdesc _ _)) as (b&Hb&Hh&_&Hbo&_).
  rewrite Hb, M_lift_ok.
  (* the root page *)
  destruct (write_root_memory sb ms) as (r&ms1&Hr&Ho). rewrite <- Hs in Hr. apply on_storage_run in Hr.
  set (db1 := database.set_storage (SMemory ms1) db) in *.
  destruct Ho as [->|[[e ->] Hn]].
  2:{ assert (Hx : (_ ← database.on_storage (superblock.write sb); database.on_storage storage.sync_all) db = (Err e, db1))
        by (by rewrite (M_bind_err _ _ _ _ _ Hr)).
      rewrite (M_bind_err _ _ _ _ _ (or_poison_run _ _ _ _ Hx ltac:(done))). eexists _, _. split; [done|]. by eapply after_err. }
  assert (Hx : (_ ← database.on_storage (superblock.write sb); database.on_storage storage.sync_all) db = (Ok (), db1))
    by (by rewrite (M_bind_ok _ _ _ _ _ Hr)).
  rewrite (M_bind_ok _ _ _ _ _ (or_poison_run _ _ _ _ Hx ltac:(done))).
  (* the Base *)
  assert (Hrep : (∃ ms2, storage.replace_memory_base DATA_START bs (SMemory ms1) = (Ok (), SMemory ms2)
                    ∧ ms_len ms2 = DATA_START + blen bs)
    ∨ (∃ e, storage.replace_memory_base DATA_START bs (SMemory ms1) = (Err e, SMemory ms1)) ∧ starved).
  { unfold storage.replace_memory_base, storage.dispatch, memory.replace_base.
    replace (blen bs =? 0) with false by lia. replace (DATA_START <? DATA_START) with false by lia. cbn [orb fail_if].
    rewrite M_lift_ok. rewrite checked_add_ok by (unfold superblock.DATA_START, superblock.SUPERBLOCK_SIZE in *; lia).
    cbn [ok_or]. rewrite M_lift_ok. rewrite (M_bind_ok (gets _) _ ms1 ms1 ms1 eq_refl).
    destruct (resize_any (ms_header ms1) DATA_START) as [[h Hh']|[[e Hh'] Hn]]; rewrite Hh'.
    - left. eexists. by split.
    - right. split; [by exists e|done]. }
  destruct Hrep as [(ms2&Hrep&Hlen)|[[e Hrep] Hn]]; apply (on_storage_run _ db1) in Hrep.
  2:{ rewrite (M_bind_err _ _ _ _ _ (or_poison_run _ _ _ _ Hrep ltac:(done))). eexists _, _. split; [done|]. by eapply after_err. }
  rewrite (M_bind_ok _ _ _ _ _ (or_poison_run _ _ _ _ Hrep ltac:(done))).
  set (db2 := database.set_storage (SMemory ms2) db1).
  (* switching the handle *)
  assert (Hsk : Io.seek (End_ 0) (SMemory ms2) = (Ok (ms_len ms2), SMemory (memory.set_position (ms_len ms2) ms2))).
  { cbn [Io.seek storage.storage_stream]. unfold storage.dispatch. cbn [Io.seek memory.memory_stream]. unfold memory.seek.
    rewrite (M_bind_ok (gets _) _ ms2 ms2 ms2 eq_refl), Z.add_0_r.
    replace (0 <=? ms_len ms2) with true by (unfold superblock.DATA_START, superblock.SUPERBLOCK_SIZE in *; lia).
    replace (ms_len ms2 <? U64) with true by (unfold superblock.DATA_START, superblock.SUPERBLOCK_SIZE in *; lia). done. }
  apply (on_storage_run _ db2) in Hsk. unfold database.finish_superblock_install, catch, mbind at 2, M_bind at 2.
  unfold mbind, M_bind. rewrite Hsk. eexists (Ok ()), _. split; [done|].
  split; [by eexists|]. split; [|split; [done|split; [exact Hbo|apply clear_is_empty]]].
  exists l, [], ∅. split; [exact Hh|]. split; [apply clear_holds|exact Hm].
Qed.

Lemma compact_memory_any db ms m l size :
  db_storage db = SMemory ms → reading db m → db_state db = Healthy → (∀ mapping, PlacementLaws mapping) →
  Forall segment.entry_ok (map_to_list m) → maintenance.items (db_base db) (database.iter_raw db) = Ok l →
  l ≡ₚ map_to_list m → segment.measure_base_iter l = Ok (blen l, size) → ab_generation (db_base db) + 1 < U64 →
  opt_max_database_bytes (db_options db) ≤ ISIZE_MAX →
  ∃ r db', maintenance.compact_memory (blen l) size db = (r, db') ∧ after m r db'.
Proof.
  intros Hs Hrd Hst Hpl Hok Hit Hl Hsz Hgen Hmax. pose proof (measured_lower _ _ Hsz) as Hlow. unfold BASE_HEADER in Hlow.
  pose proof (listed_contents l m Hl) as [Hnd _].
  assert (Hes : Forall segment.entry_ok l) by (by rewrite Hl). unfold maintenance.compact_memory.
  assert (Hstop : ∀ e, ∃ r db', (@Err () e, db) = (r, db') ∧ after m r db')
    by (intros e; eexists _, _; split; [done|by eapply after_err]).
  destruct (decide (DATA_START + size < U64)); [|rewrite checked_add_none by lia; apply Hstop].
  rewrite checked_add_ok by done. cbn [ok_or]. rewrite M_lift_ok, (M_bind_ok database.self _ db db db eq_refl).
  destruct (_ <? DATA_START + size) eqn:Ecap; bool_prop; cbn [fail_if]; [apply Hstop|]. rewrite M_lift_ok, Hit. rstep.
  destruct (build_memory_base_any DATA_START l size) as [(w&bs&Hbd&Hw)|(e&n&Hbd&_)]; try done; [lia| |]; rewrite Hbd.
  2:{ apply Hstop. }
  rewrite M_lift_ok. pose proof Hw as (_&Hbl&_). rewrite Hbl, Z.eqb_refl. cbn [negb fail_if]. rewrite M_lift_ok.
  eapply install_memory_any; try done; lia.
Qed.

(** C24: compaction of a volatile database changes nothing it reads. Whichever
    allocations fail, the handle reads the same map afterwards and stays volatile; on
    success its Base is at the start of the data area and its Overlay is empty. It
    never panics. *)
Theorem compact_volatile db ms m :
  db_storage db = SMemory ms → reading db m → db_state db ≠ Unavailable → (∀ mapping, PlacementLaws mapping) →
  Forall segment.entry_ok (map_to_list m) → ab_generation (db_base db) + 1 < U64 →
  opt_max_database_bytes (db_options db) ≤ ISIZE_MAX →
  ∃ r db', maintenance.compact db = (r, db') ∧ after m r db'.
Proof.
  intros Hs Hrd Hav Hpl Hok Hgen Hmax.
  assert (Hstop : ∀ e db1, db_storage db1 = SMemory ms → reading db1 m → ∃ r db', (@Err () e, db1) = (r, db') ∧ after m r db')
    by (intros e db1 Hs1 Hr1; eexists _, _; split; [done|]; split; [by eexists|done]).
  unfold maintenance.compact, database.ensure_writable. rewrite M_bind_assoc, (M_bind_ok database.self _ db db db eq_refl).
  destruct (bool_decide (db_state db = Healthy)) eqn:Est; bool_prop; [|by apply Hstop].
  rewrite M_lift_ok, (M_bind_ok database.self _ db db db eq_refl).
  destruct (db_snapshots db =? 0) eqn:Esn; bool_prop; cbn [negb fail_if]; [|by apply Hstop].
  rewrite M_lift_ok. unfold database.verify, database.ensure_available.
  rewrite !M_bind_assoc, (M_bind_ok database.self _ db db db eq_refl). rewrite bool_decide_false by done. rewrite M_lift_ok.
  pose proof Hrd as (es&lg&M&Hb&Ho&Hm). destruct (active_base.verify_any _ _ Hb) as (r&b&Hr&Hsame&Hb'&Hv).
  assert (Hrun : database.on_base active_base.verify db = (r, database.set_base b db))
    by (unfold database.on_base, zoom; by rewrite Hr).
  set (db1 := database.set_base b db) in *. assert (Hrd1 : reading db1 m) by (by exists es, lg, M).
  destruct Hv as [[-> _]|(e&n&->&Hn)]; [|rewrite (M_bind_err _ _ _ _ _ Hrun); by apply Hstop].
  rewrite (M_bind_ok _ _ _ _ _ Hrun), (M_bind_ok database.self _ db1 db1 db1 eq_refl).
  assert (Hnote : ∃ nothing, (if (ab_offset (db_base db1) =? DATA_START) && OverlayMap.is_empty (OverlayState.index (db_overlay db1))
      then n ← database.on_storage storage.len; mret (n =? ab_log_start (db_base db1)) else mret false) db1 = (Ok nothing, db1)
    ∧ (nothing = true → ab_offset (db_base db1) = DATA_START ∧ OverlayMap.is_empty (OverlayState.index (db_overlay db1)) = true)).
  { destruct (_ && _) eqn:E; [|by exists false]. bool_prop. exists (ms_len ms =? ab_log_start (db_base db1)). split; [|done].
    assert (Hlen : storage.len (db_storage db1) = (Ok (ms_len ms), SMemory ms)) by (cbn; by rewrite Hs).
    rewrite (M_bind_ok _ _ _ _ _ (on_storage_run _ db1 _ _ Hlen)). rewrite <- Hs.
    change (db_storage db) with (db_storage db1). by rewrite database_eta. }
  destruct Hnote as (nothing&Hn&Hyes). rewrite (M_bind_ok _ _ _ _ _ Hn). destruct nothing.
  { eexists (Ok ()), db1. split; [done|]. split; [by eexists|]. split; [done|]. destruct (Hyes eq_refl). by split_and!. }
  destruct (items_reading db1 m (opt_verification (db_options db1)) Hpl Hrd1) as (l&Hit&Hl). rewrite <- iter_raw_entries in Hit.
  rewrite Hit. rstep. pose proof (segment.measure_base_iter_no_panic l) as Hnp.
  destruct (segment.measure_base_iter l) as [[n size]|e|] eqn:Hsz; [|by apply Hstop|done].
  assert (n = blen l) as -> by (by destruct (segment.measure_base_iter_spec l [] _ _ Hsz) as (?&_&?&_)).
  rewrite M_lift_ok. replace (storage.is_memory (db_storage db1)) with true by (cbn; by rewrite Hs).
  destruct (compact_memory_any db1 ms m l size) as (r&db2&Hr2&Ha); try done; [destruct Hsame as (_&_&_&_&_&Hg&_); cbn; by rewrite Hg|].
  exists r, db2. by split.
Qed.

End Volatile.

(** *** A concrete volatile database *)

Import RefInstances.

#[local] Instance demo_placement : Placement :=
  {| base_addr := 65536; place kv := (view.MkSlice 1 kv.1, view.MkSlice 2 kv.2) |}.

(** The demonstration Base of three entries under an empty Overlay. *)
Definition demo_db : Database :=
  MkDatabase (SMemory memory.default) active_base.demo_base (OverlayState.clear overlay_demo.empty_state)
    handle.demo_options 0 Healthy.

Lemma compact_volatile_witness :
  ∃ r db', maintenance.compact demo_db = (r, db') ∧ after (contents view.demo_entries []) r db'.
Proof.
  apply (compact_volatile demo_db memory.default (contents view.demo_entries [])).
  - reflexivity.
  - exists view.demo_entries, [], ∅. split; [exact entries_facts.demo_base_holds|]. split; [apply clear_holds|reflexivity].
  - discriminate.
  - apply entries_facts.demo_placement_laws.
  - apply Forall_forall. intros [k v] Hkv%elem_of_map_to_list. unfold contents in Hkv.
    rewrite entries_facts.live_lookup in Hkv by apply view.demo_entries_ok.
    cbn [concat] in Hkv. change (apply_muts ∅ [] !! k) with (@None (option bytes)) in Hkv. cbv iota in Hkv.
    pose proof (proj1 view.demo_entries_ok) as Hes. rewrite Forall_forall in Hes. apply Hes.
    rewrite KeyMap.get_list_to_map in Hkv by apply view.demo_entries_ok. by apply elem_of_list_to_map_2 in Hkv.
  - reflexivity.
  - apply Z.le_refl.
Defined.

End volatile.
