(* ===== verification/Snapshot.v ===== *)
(** * Snapshots and read transactions

    [Snapshot] of [database/transaction.rs], [Database::snapshot] of [database/mod.rs]
    and the rest of [ReadTransaction]. A snapshot shares the mapping and the Overlay
    index of the handle it was taken from; the handle copies the index before it changes
    one that is shared ([Arc::make_mut]), so the snapshot keeps the value. It also shares
    the verifier, which both sides update: the operations of a snapshot act on it, and a
    session of several owners runs them on the verifier of the handle. *)

From S2P Require Import Prelude Errors Crates Io Superblock Values Log Segment Overlay Recovery View.
From S2P Require Import Base Storage Transaction Entries Database.
Import view overlay_map_facts.

Record Snapshot `{HashTables} := MkSnapshot {
  sn_base : BaseBytes;
  sn_verification : VerificationMode;
  sn_overlay_index : OverlayMap;
  sn_base_offset : Z;
  sn_base_slots : Z;
  sn_base_len : Z
}.
Arguments MkSnapshot {_} _ _ _ _ _ _.
Arguments sn_base {_} _.
Arguments sn_verification {_} _.
Arguments sn_overlay_index {_} _.
Arguments sn_base_offset {_} _.
Arguments sn_base_slots {_} _.
Arguments sn_base_len {_} _.

Module snapshot.
Section Snapshot.
Context `{Crc32c, Xxh3, Alloc, HashTables, Placement}.

Definition new (base : BaseBytes) (verification : VerificationMode) (overlay_index : OverlayMap)
    (base_metadata : Z * Z * Z) : Snapshot :=
  let '(base_offset, base_slots, base_len) := base_metadata in
  MkSnapshot base verification overlay_index base_offset base_slots base_len.

Definition read_view (s : Snapshot) : result ReadView :=
  mapping ← BaseBytes.deref (sn_base s);
  Ok (MkReadView (MkBaseView mapping (sn_base_offset s) (sn_base_slots s)) (sn_overlay_index s)
        (sn_verification s)).

Definition get (s : Snapshot) (key : bytes) : M SegmentVerifier (option bytes) :=
  rv ← lift (read_view s); view.get rv key.

Definition contains_key (s : Snapshot) (key : bytes) : M SegmentVerifier bool :=
  value ← get s key; mret (bool_decide (is_Some value)).

(** The iterator [iter] returns. *)
Definition entries (s : Snapshot) : M SegmentVerifier RawEntries :=
  rv ← lift (read_view s);
  v ← gets (λ v : SegmentVerifier, v);
  lift (raw_entries.new rv v (sn_base_len s)).

(** Uses an iterator up. *)
Definition consume {A} (m : M (RawEntries * SegmentVerifier) A) (r : RawEntries) : M SegmentVerifier A :=
  λ v, let '(a, (_, v')) := m (r, v) in (a, v').

(** [iter] run to its end or its first error. *)
Definition iter (s : Snapshot) : M SegmentVerifier (list (bytes * bytes)) :=
  r ← entries s; consume raw_entries.entries_collect r.

(** The [try_fold] of [len]; the iterator bounds it. *)
Fixpoint fold_len (fuel : nat) (len : Z) : M (RawEntries * SegmentVerifier) Z :=
  match fuel with
  | O => lift Panic
  | S fuel =>
      item ← raw_entries.entries_next;
      match item with
      | None => mret len
      | Some r =>
          _ ← lift r;
          len ← lift (ok_or (checked_add len 1) (error.other "snapshot entry count overflow"));
          fold_len fuel len
      end
  end.

Definition len (s : Snapshot) : M SegmentVerifier Z :=
  r ← entries s; consume (fold_len (raw_entries.budget r) 0) r.

Definition is_empty (s : Snapshot) : M SegmentVerifier bool :=
  r ← entries s;
  consume (item ← raw_entries.entries_next;
           match item with
           | Some (Ok _) => mret false
           | Some (Err e) => lift (Err e)
           | Some Panic => lift Panic
           | None => mret true
           end) r.

(** [Database::snapshot]; the guard counts the snapshot until it is dropped. *)
Definition take : M Database Snapshot :=
  _ ← database.ensure_available;
  db ← database.self;
  _ ← modify (database.set_snapshots (db_snapshots db + 1));
  mret (new (ab_mapping (db_base db)) (opt_verification (db_options db))
          (OverlayState.index (db_overlay db))
          (ab_offset (db_base db), ab_slots (db_base db), ab_len (db_base db))).

Definition drop : M Database () :=
  modify (λ db : Database, database.set_snapshots (db_snapshots db - 1) db).

End Snapshot.
End snapshot.

(** [ReadTransaction]: a view of a handle it borrows, which was available. *)
Module read_transaction.
Section ReadTransaction.
Context `{Crc32c, Xxh3, Alloc, HashTables, Placement}.

Definition new : M Database () := database.begin_read.
Definition get (key : bytes) : M Database (option bytes) := database.read_get key.
Definition contains_key (key : bytes) : M Database bool :=
  value ← get key; mret (bool_decide (is_Some value)).
Definition iter : M Database (list (bytes * bytes)) := database.iter.
Definition len : M Database Z := database.len.
Definition is_empty : M Database bool := database.is_empty.

End ReadTransaction.
End read_transaction.

(** ** Reading through a snapshot *)

Module snapshot_facts.
Section Facts.
Context `{Crc32cLaws, Xxh3Laws, Alloc, HashTablesLaws, Placement}.
Implicit Types (b : ActiveBase) (s : Snapshot) (v : SegmentVerifier) (m : gmap bytes bytes).

(** A snapshot of a Base [b] with [entries] under an Overlay that makes it the map [m]. *)
Definition snapshot_of b entries s m : Prop :=
  sn_base s = ab_mapping b ∧ sn_base_offset s = ab_offset b ∧ sn_base_slots s = ab_slots b
  ∧ sn_base_len s = ab_len b
  ∧ ∃ lg M, represents lg (sn_overlay_index s) M ∧ entries_facts.live entries M = m.

Lemma snapshot_of_same b b' entries s m :
  active_base.same_base b b' → snapshot_of b entries s m → snapshot_of b' entries s m.
Proof. intros (E1&E2&_&E4&E5&_) (?&?&?&?&?). split_and!; congruence || done. Qed.

(** An operation that leaves a verifier of the same Base. *)
Definition keeps {A} b entries (x : M SegmentVerifier A) (r : result A) : Prop :=
  ∃ b', active_base.with_verifier x b = (r, b') ∧ active_base.same_base b b' ∧ active_base.holds b' entries.

Lemma get_snapshot b entries s m key :
  active_base.holds b entries → snapshot_of b entries s m → keeps b entries (snapshot.get s key) (Ok (m !! key)).
Proof.
  intros Hh (E1&E2&E3&_&lg&M&Hr&<-). pose proof Hh as (bs&Hd&_).
  unfold keeps, snapshot.get, snapshot.read_view. rewrite E1, E2, E3, Hd. cbn [mbind result_bind].
  destruct (entries_facts.view_get_live b entries _ lg M (sn_verification s) bs key Hh Hd Hr) as (b'&Hl&?&?).
  exists b'. split; [|done]. revert Hl. unfold active_base.with_verifier, zoom. by rewrite M_lift_ok.
Qed.

Lemma keeps_bind {A B} b entries (x : M SegmentVerifier A) (k : A → M SegmentVerifier B) a r :
  keeps b entries x (Ok a) → (∀ b', active_base.holds b' entries → keeps b' entries (k a) r) →
  keeps b entries (x ≫= k) r.
Proof.
  intros (b1&Hx&Hs1&Hh1) Hk. destruct (Hk b1 Hh1) as (b2&Hr&Hs2&Hh2). exists b2. split; [|split; [by etrans|done]].
  unfold active_base.with_verifier, zoom in *. destruct (x (ab_verifier b)) as [rx v1] eqn:E. injection Hx as -> <-.
  rewrite (M_bind_ok _ _ _ _ _ E). destruct (k a v1) as [rk v2] eqn:E2. cbn [ab_verifier] in Hr. rewrite E2 in Hr. exact Hr.
Qed.

Lemma keeps_ret {A} b entries (a : A) : active_base.holds b entries → keeps b entries (mret a) (Ok a).
Proof. intros Hh. exists b. by destruct b. Qed.

Lemma contains_key_snapshot b entries s m key :
  active_base.holds b entries → snapshot_of b entries s m →
  keeps b entries (snapshot.contains_key s key) (Ok (bool_decide (is_Some (m !! key)))).
Proof.
  intros Hh Hs. eapply keeps_bind; [by apply get_snapshot|]. intros b' Hb'. by apply keeps_ret.
Qed.

(** *** Iterating *)

(** What [len] makes of the number of entries. *)
Definition counted (n : Z) : result Z :=
  if n <? U64 then Ok n else Err (error.other "snapshot entry count overflow").

Lemma fold_len_spec lg rv M index offset entries fuel done todo ov r ver n :
  active_base.segment_with index offset (bv_slots (rv_base rv)) entries (bv_mapping (rv_base rv)) →
  represents lg (rv_overlay rv) M → PlacementLaws (bv_mapping (rv_base rv)) →
  entries_facts.iter_at rv entries done todo ov r → (length todo + length ov < fuel)%nat →
  entries_facts.verifier_good rv index entries ver → 0 ≤ n < U64 →
  ∃ r' ver', snapshot.fold_len fuel n (r, ver)
      = (counted (n + blen (entries_facts.unshadowed M todo ++ entries_facts.puts ov)), (r', ver'))
    ∧ entries_facts.verifier_good rv index entries ver' ∧ verifier.same_segment ver ver'.
Proof.
  intros Hseg Hrep Hpl. revert done todo ov r ver n.
  induction fuel as [|fuel IH]; intros done todo ov r ver n Hat Hf Hg Hn; [lia|]. cbn [snapshot.fold_len].
  destruct (entries_facts.entries_next_spec lg rv M index offset entries Hseg Hrep Hpl done todo ov r ver Hat Hg)
    as [(kv&d&t&o&r1&ver1&Hx&->&Hl&Hat1&Hg1&Hs1)|[-> [r1 Hx]]]; mrun Hx.
  - rewrite M_lift_ok. unfold counted. rewrite blen_cons.
    set (rest := blen (entries_facts.unshadowed M t ++ entries_facts.puts o)). assert (0 ≤ rest) by apply blen_nonneg.
    destruct (decide (n + 1 < U64)) as [Hlt|Hge].
    + rewrite (checked_add_ok n 1) by lia. cbn [ok_or]. rewrite M_lift_ok.
      destruct (IH _ _ _ _ ver1 (n + 1) Hat1) as (r2&ver2&Hr2&Hg2&Hs2); [lia|done|lia|]. fold rest in Hr2.
      exists r2, ver2. split; [rewrite Hr2; unfold counted; by rewrite <- Z.add_assoc|]. split; [done|]. by etrans.
    + rewrite (checked_add_none n 1) by lia. exists r1, ver1. cbn [ok_or]. split; [|done].
      replace (n + (1 + rest) <? U64) with false by lia. done.
  - exists r1, ver. split; [|done]. change (blen []) with 0. rewrite Z.add_0_r. unfold counted.
    by replace (n <? U64) with true by lia.
Qed.

(** The iterator of a snapshot, and what a consumer of it leaves behind. *)
Lemma consume_snapshot {A} b entries s m (x : RawEntries → M (RawEntries * SegmentVerifier) A) (Q : result A → Prop) :
  active_base.holds b entries → snapshot_of b entries s m → (∀ mapping, PlacementLaws mapping) →
  (∀ lg rv M index offset ms r ver,
     active_base.segment_with index offset (bv_slots (rv_base rv)) entries (bv_mapping (rv_base rv)) →
     represents lg (rv_overlay rv) M → entries_facts.iter_at rv entries [] entries ms r →
     entries_facts.verifier_good rv index entries ver → (length entries + length ms < raw_entries.budget r)%nat →
     entries_facts.unshadowed M entries ++ entries_facts.puts ms ≡ₚ map_to_list m →
     ∃ a r' ver', x r (r, ver) = (a, (r', ver')) ∧ Q a
       ∧ entries_facts.verifier_good rv index entries ver' ∧ verifier.same_segment ver ver') →
  ∃ a, Q a ∧ keeps b entries (r ← snapshot.entries s; snapshot.consume (x r) r) a.
Proof.
  intros Hh (E1&E2&E3&E4&lg&M&Hr&<-) Hpl Hx. pose proof Hh as (bs&Hd&_).
  destruct (entries_facts.new_iter_at b entries lg (sn_overlay_index s) M (sn_verification s) bs Hh Hd Hr)
    as (index&ms&r&Hseg&Hms&Hn&Hat&Hg).
  set (rv := MkReadView _ _ _) in Hn, Hat, Hg.
  assert (Hnd : NoDup entries.*1) by (by destruct Hseg as (_&_&_&_&_&_&?&_)).
  destruct (Hx lg rv M index (ab_offset b) ms r (ab_verifier b)) as (a&r'&ver'&Hrun&HQ&Hg'&Hs'); try done.
  { unfold raw_entries.budget. destruct Hat as (_&_&_&->&_&_&->). unfold blen. lia. }
  { by apply entries_facts.live_list. }
  exists a. split; [done|]. unfold keeps.
  assert (Hen : snapshot.entries s (ab_verifier b) = (Ok r, ab_verifier b)).
  { unfold snapshot.entries, snapshot.read_view. rewrite E1, E2, E3, E4, Hd. cbn [mbind result_bind].
    rewrite M_lift_ok, (M_bind_ok (gets _) _ _ _ _ eq_refl). fold rv. by rewrite Hn. }
  destruct (active_base.with_verifier_run (r ← snapshot.entries s; snapshot.consume (x r) r) b a ver') as (b'&Hb'&Hsb&Ev).
  { rewrite (M_bind_ok _ _ _ _ _ Hen). unfold snapshot.consume. by rewrite Hrun. }
  exists b'. split; [done|]. split; [done|]. eapply active_base.holds_same; [done|done|].
  intros bs' Hd'. rewrite Hd in Hd'. injection Hd' as <-. rewrite Ev. by destruct Hg'.
Qed.

Lemma iter_snapshot b entries s m :
  active_base.holds b entries → snapshot_of b entries s m → (∀ mapping, PlacementLaws mapping) →
  ∃ l, l ≡ₚ map_to_list m ∧ keeps b entries (snapshot.iter s) (Ok l).
Proof.
  intros Hh Hs Hpl.
  destruct (consume_snapshot b entries s m (λ _, raw_entries.entries_collect)
    (λ a, ∃ l, a = Ok l ∧ l ≡ₚ map_to_list m) Hh Hs Hpl) as (a&(l&->&Hl)&Hk); [|by exists l].
  intros lg rv M index offset ms r ver Hseg Hrep Hat Hg Hbud Hp.
  destruct (entries_facts.try_collect_spec lg rv M index offset entries Hseg Hrep (Hpl _) _ [] entries ms r ver Hat Hbud Hg)
    as (r'&ver'&Hc&?&?). unfold raw_entries.entries_collect. cbn [fst]. rewrite Hc.
  eexists _, r', ver'. split; [done|]. split; [by eexists|]. done.
Qed.

Lemma len_snapshot b entries s m :
  active_base.holds b entries → snapshot_of b entries s m → (∀ mapping, PlacementLaws mapping) →
  keeps b entries (snapshot.len s) (counted (Z.of_nat (size m))).
Proof.
  intros Hh Hs Hpl.
  destruct (consume_snapshot b entries s m (λ r, snapshot.fold_len (raw_entries.budget r) 0)
    (λ a, a = counted (Z.of_nat (size m))) Hh Hs Hpl) as (a&->&Hk); [|done].
  intros lg rv M index offset ms r ver Hseg Hrep Hat Hg Hbud Hp.
  destruct (fold_len_spec lg rv M index offset entries (raw_entries.budget r) [] entries ms r ver 0 Hseg Hrep (Hpl _) Hat Hbud Hg)
    as (r'&ver'&->&?&?); [done|]. eexists _, r', ver'. split; [done|]. split; [|done].
  f_equal. unfold blen. by rewrite (Permutation_length Hp), length_map_to_list.
Qed.

Lemma is_empty_snapshot b entries s m :
  active_base.holds b entries → snapshot_of b entries s m → (∀ mapping, PlacementLaws mapping) →
  keeps b entries (snapshot.is_empty s) (Ok (bool_decide (m = ∅))).
Proof.
  intros Hh Hs Hpl.
  destruct (consume_snapshot b entries s m (λ _, item ← raw_entries.entries_next;
     match item with
     | Some (Ok _) => mret false | Some (Err e) => lift (Err e) | Some Panic => lift Panic | None => mret true
     end) (λ a, a = Ok (bool_decide (m = ∅))) Hh Hs Hpl) as (a&->&Hk); [|done].
  intros lg rv M index offset ms r ver Hseg Hrep Hat Hg Hbud Hp.
  destruct (entries_facts.entries_next_spec lg rv M index offset entries Hseg Hrep (Hpl _) [] entries ms r ver Hat Hg)
    as [(kv&d&t&o&r1&ver1&Hx&E&_&_&Hg1&Hs1)|[E [r1 Hx]]]; mrun Hx; rewrite E in Hp.
  - eexists _, r1, ver1. split; [done|]. split; [|done]. rewrite bool_decide_false; [done|]. intros ->.
    rewrite map_to_list_empty in Hp. by apply Permutation_nil_r in Hp.
  - eexists _, r1, ver. split; [done|]. split; [|done]. rewrite bool_decide_true; [done|].
    apply map_to_list_empty_iff. symmetry. by apply Permutation_nil_l.
Qed.

End Facts.
End snapshot_facts.
