(* ===== verification/Session.v ===== *)
(** * Sessions: a handle and the snapshots taken from it

    The public operations of a database as requests, served by a handle that shares its
    verifier and its guard with any number of snapshots. The specification is a map, the
    state of the handle and the map each snapshot was taken of; a request is allowed an
    answer and a new state of the specification. The theorem shows that whatever requests
    are made in whatever order, and whichever system calls fail, the answers are those
    the specification allows: in particular a snapshot keeps answering for the moment it
    was taken, through later commits, failures and the closing of the handle. *)

From S2P Require Import Prelude Errors Crates Io Superblock Values Log Segment Overlay Recovery View.
From S2P Require Import Base Storage Transaction Entries Database Faults Commit Handle Maintenance Compaction Snapshot.
Import overlay_map_facts commit_facts handle snapshot_facts.

Module session.

Inductive query :=
  | Get (key : bytes)
  | ContainsKey (key : bytes)
  | Iter
  | Len
  | IsEmpty.

(** Snapshots are told apart by numbers. *)
Inductive request :=
  | Read (q : query)
  | ReadTx (q : query)
  | WriteTx (ops : list tx_spec.op)
  | Verify
  | Sync
  | Compact
  | TakeSnapshot (i : nat)
  | DropSnapshot (i : nat)
  | ReadSnapshot (i : nat) (q : query)
  | Close.

Inductive reply :=
  | Unit
  | Value (v : option bytes)
  | Flag (b : bool)
  | Count (n : Z)
  | Pairs (l : list (bytes * bytes)).

(** ** Serving requests *)

Section Serving.
Context `{Crc32c, Xxh3, Alloc, HashTables, Placement, MmapAnon}.

(** The handle outlives its closing as far as snapshots share parts of it. *)
Record World := MkWorld {
  w_handle : Database;
  w_open : bool;
  w_snapshots : gmap nat Snapshot
}.

Definition on_handle {A} (x : M Database A) : M World A :=
  zoom w_handle (λ db w, MkWorld db (w_open w) (w_snapshots w)) x.
Definition set_snapshots (ss : gmap nat Snapshot) (w : World) : World :=
  MkWorld (w_handle w) (w_open w) ss.

Definition query_handle (q : query) : M Database reply :=
  match q with
  | Get key => v ← database.get key; mret (Value v)
  | ContainsKey key => b ← database.contains_key key; mret (Flag b)
  | Iter => l ← database.iter; mret (Pairs l)
  | Len => n ← database.len; mret (Count n)
  | IsEmpty => b ← database.is_empty; mret (Flag b)
  end.

Definition query_transaction (q : query) : M Database reply :=
  _ ← read_transaction.new;
  match q with
  | Get key => v ← read_transaction.get key; mret (Value v)
  | ContainsKey key => b ← read_transaction.contains_key key; mret (Flag b)
  | Iter => l ← read_transaction.iter; mret (Pairs l)
  | Len => n ← read_transaction.len; mret (Count n)
  | IsEmpty => b ← read_transaction.is_empty; mret (Flag b)
  end.

Definition query_snapshot (s : Snapshot) (q : query) : M SegmentVerifier reply :=
  match q with
  | Get key => v ← snapshot.get s key; mret (Value v)
  | ContainsKey key => b ← snapshot.contains_key s key; mret (Flag b)
  | Iter => l ← snapshot.iter s; mret (Pairs l)
  | Len => n ← snapshot.len s; mret (Count n)
  | IsEmpty => b ← snapshot.is_empty s; mret (Flag b)
  end.

(** A write transaction whose owner stages [ops], goes on when one is refused, and
    commits. *)
Definition transact (ops : list tx_spec.op) : M Database () :=
  tx ← database.begin_write;
  db ← database.self;
  database.commit (foldl (λ tx o, (tx_run.step (storage.is_memory (db_storage db)) o tx).2) tx ops).

Definition exec (q : request) : M World reply :=
  match q with
  | Read q => on_handle (query_handle q)
  | ReadTx q => on_handle (query_transaction q)
  | WriteTx ops => _ ← on_handle (transact ops); mret Unit
  | Verify => _ ← on_handle database.verify; mret Unit
  | Sync => _ ← on_handle database.sync; mret Unit
  | Compact => _ ← on_handle maintenance.compact; mret Unit
  | TakeSnapshot i =>
      s ← on_handle snapshot.take;
      _ ← modify (λ w, set_snapshots (<[i := s]> (w_snapshots w)) w);
      mret Unit
  | DropSnapshot i =>
      _ ← on_handle snapshot.drop;
      _ ← modify (λ w, set_snapshots (delete i (w_snapshots w)) w);
      mret Unit
  | ReadSnapshot i q =>
      w ← gets (λ w : World, w);
      match w_snapshots w !! i with
      | Some s => on_handle (database.on_base (active_base.with_verifier (query_snapshot s q)))
      | None => lift Panic
      end
  | Close => _ ← modify (λ w, MkWorld (w_handle w) false (w_snapshots w)); mret Unit
  end.

(** Which requests can be made: the handle is there until it is closed, a snapshot from
    its taking to its dropping. Compaction counts generations in 64 bits. *)
Definition enabled (w : World) (q : request) : Prop :=
  match q with
  | ReadSnapshot i _ | DropSnapshot i => is_Some (w_snapshots w !! i)
  | TakeSnapshot i => w_open w = true ∧ w_snapshots w !! i = None
  | WriteTx ops => w_open w = true ∧ Forall tx_facts.op_typed ops
  | Compact => w_open w = true ∧ ab_generation (db_base (w_handle w)) + 3 < U64
  | _ => w_open w = true
  end.

(** Requests and their answers, from one world to another. *)
Inductive runs : World → list (request * result reply) → World → Prop :=
  | runs_nil w : runs w [] w
  | runs_cons w q w' trace w'' :
      enabled w q → (exec q w).2 = w' → runs w' trace w'' → runs w ((q, (exec q w).1) :: trace) w''.

End Serving.
Arguments World {_}.
Arguments MkWorld {_} _ _ _.

(** ** The specification *)

Record Spec := MkSpec {
  sp_map : gmap bytes bytes;
  sp_state : HandleState;
  sp_snapshots : gmap nat (gmap bytes bytes)
}.

(** The answer of a map to a query. *)
Definition answers (m : gmap bytes bytes) (q : query) (a : reply) : Prop :=
  match q with
  | Get key => a = Value (m !! key)
  | ContainsKey key => a = Flag (bool_decide (is_Some (m !! key)))
  | Iter => ∃ l, a = Pairs l ∧ l ≡ₚ map_to_list m
  | Len => a = Count (Z.of_nat (size m))
  | IsEmpty => a = Flag (bool_decide (m = ∅))
  end.

Inductive allowed : Spec → request → result reply → Spec → Prop :=
  (** an available handle answers for its map *)
  | allow_read sp q a :
      sp_state sp ≠ Unavailable → answers (sp_map sp) q a → allowed sp (Read q) (Ok a) sp
  | allow_read_tx sp q a :
      sp_state sp ≠ Unavailable → answers (sp_map sp) q a → allowed sp (ReadTx q) (Ok a) sp
  | allow_verify sp : sp_state sp ≠ Unavailable → allowed sp Verify (Ok Unit) sp
  | allow_sync sp : sp_state sp ≠ Unavailable → allowed sp Sync (Ok Unit) sp
  | allow_sync_fails sp e : sp_state sp ≠ Unavailable → allowed sp Sync (Err e) sp
  (** a handle that lost its file answers nothing *)
  | allow_unavailable sp q :
      sp_state sp = Unavailable →
      match q with Read _ | ReadTx _ | Verify | Sync | TakeSnapshot _ => True | _ => False end →
      allowed sp q (Err Poisoned) sp
  (** writing: the batch as a whole or not at all *)
  | allow_closed sp q :
      sp_state sp ≠ Healthy →
      match q with WriteTx _ | Compact => True | _ => False end → allowed sp q (Err Poisoned) sp
  | allow_commit m ss ops :
      allowed (MkSpec m Healthy ss) (WriteTx ops) (Ok Unit)
              (MkSpec (apply_batch m (tx_spec.steps ops)) Healthy ss)
  | allow_commit_fails m ss ops e h :
      h ≠ Unavailable → allowed (MkSpec m Healthy ss) (WriteTx ops) (Err e) (MkSpec m h ss)
  (** compaction: no snapshot may be alive, and the map stays *)
  | allow_blocked sp :
      sp_state sp = Healthy → sp_snapshots sp ≠ ∅ →
      allowed sp Compact (Err (error.from_io WouldBlock "compact requires all snapshots to be dropped")) sp
  | allow_compact m : allowed (MkSpec m Healthy ∅) Compact (Ok Unit) (MkSpec m Healthy ∅)
  | allow_compact_fails m e h : allowed (MkSpec m Healthy ∅) Compact (Err e) (MkSpec m h ∅)
  (** snapshots keep the map they were taken of *)
  | allow_take m h ss i :
      h ≠ Unavailable → ss !! i = None →
      allowed (MkSpec m h ss) (TakeSnapshot i) (Ok Unit) (MkSpec m h (<[i := m]> ss))
  | allow_drop m h ss i : allowed (MkSpec m h ss) (DropSnapshot i) (Ok Unit) (MkSpec m h (delete i ss))
  | allow_snapshot sp i m q a :
      sp_snapshots sp !! i = Some m → answers m q a → allowed sp (ReadSnapshot i q) (Ok a) sp
  | allow_snapshot_overflow sp i m e :
      sp_snapshots sp !! i = Some m → U64 ≤ Z.of_nat (size m) → allowed sp (ReadSnapshot i Len) (Err e) sp
  | allow_close sp : allowed sp Close (Ok Unit) sp.

Inductive permits : Spec → list (request * result reply) → Spec → Prop :=
  | permits_nil sp : permits sp [] sp
  | permits_cons sp q a sp' trace sp'' :
      allowed sp q a sp' → permits sp' trace sp'' → permits sp ((q, a) :: trace) sp''.

(** ** Refinement *)

(** Operations that leave the options and the guard of a handle alone. *)
Section Frames.
Context `{Crc32c, Xxh3, Alloc, HashTables}.

Definition frames {A} (x : M Database A) : Prop := ∀ db,
  db_options (x db).2 = db_options db ∧ db_snapshots (x db).2 = db_snapshots db.

Lemma frames_bind {A B} (x : M Database A) (k : A → M Database B) :
  frames x → (∀ a, frames (k a)) → frames (x ≫= k).
Proof.
  intros Hx Hk db. unfold mbind, M_bind. specialize (Hx db). destruct (x db) as [[a|e|] db1]; [|done..].
  destruct Hx as [<- <-]. apply Hk.
Qed.

Lemma frames_catch {A B} (x : M Database A) (k : result A → M Database B) :
  frames x → (∀ a, frames (k a)) → frames (catch x k).
Proof.
  intros Hx Hk db. unfold catch. specialize (Hx db). destruct (x db) as [[a|e|] db1]; [| |done].
  all: destruct Hx as [<- <-]; apply Hk.
Qed.

Lemma frames_lift {A} (r : result A) : frames (lift r).
Proof. done. Qed.
Lemma frames_ret {A} (a : A) : frames (mret a).
Proof. done. Qed.
Lemma frames_self : frames database.self.
Proof. done. Qed.
Lemma frames_modify g :
  (∀ db, db_options (g db) = db_options db ∧ db_snapshots (g db) = db_snapshots db) → frames (modify g).
Proof. intros Hg db. apply Hg. Qed.
Lemma frames_on_storage {A} (x : M Storage A) : frames (database.on_storage x).
Proof. intros db. unfold database.on_storage, zoom. by destruct (x _). Qed.
Lemma frames_on_base {A} (x : M ActiveBase A) : frames (database.on_base x).
Proof. intros db. unfold database.on_base, zoom. by destruct (x _). Qed.

End Frames.

Create HintDb frames.
#[local] Hint Resolve frames_lift frames_ret frames_self frames_on_storage frames_on_base : frames.

Ltac frames := repeat first
  [ apply frames_bind; [|intros ?] | apply frames_catch; [|intros ?] | apply frames_modify; done
  | case_match | solve [eauto with frames] ].

Section FramesCompact.
Context `{Crc32c, Xxh3, Alloc, HashTables, Placement}.

Lemma frames_rollback {A} offset e : frames (database.rollback_or_poison (A := A) offset e).
Proof. unfold database.rollback_or_poison, database.ignore. frames. Qed.
Lemma frames_or_rollback {A} offset (x : M Database A) : frames x → frames (database.or_rollback offset x).
Proof. intros Hx. unfold database.or_rollback. frames. all: apply frames_rollback. Qed.
Lemma frames_or_poison {A} (x : M Database A) : frames x → frames (maintenance.or_poison x).
Proof. intros Hx. unfold maintenance.or_poison. frames. Qed.
Hint Resolve frames_rollback frames_or_rollback frames_or_poison : frames.

Lemma frames_compact : frames maintenance.compact.
Proof.
  unfold maintenance.compact, maintenance.compact_memory, maintenance.install_memory_base, maintenance.compact_file,
    maintenance.compact_plan, maintenance.write_staging, maintenance.publish_staging, maintenance.move_to_front,
    maintenance.relocate, maintenance.publish_relocated, maintenance.truncate_to, maintenance.clear_overlay,
    database.install_superblock, database.finish_superblock_install, database.verify, database.ensure_capacity,
    database.ensure_available, database.ensure_writable.
  frames.
Qed.

End FramesCompact.

Section Reads.
Context `{Crc32cLaws, Xxh3Laws, Alloc, HashTablesLaws, Placement}.
Implicit Types (db : Database) (entries : list (bytes * bytes)) (m : gmap bytes bytes).
Hypothesis Hpl : ∀ mapping, PlacementLaws mapping.

(** The snapshot a handle would give. *)
Definition snapshot_now db : Snapshot :=
  snapshot.new (ab_mapping (db_base db)) (opt_verification (db_options db)) (OverlayState.index (db_overlay db))
    (ab_offset (db_base db), ab_slots (db_base db), ab_len (db_base db)).

Lemma snapshot_now_of db entries m : view_on db entries m → snapshot_of (db_base db) entries (snapshot_now db) m.
Proof. intros (_&lg&M&(Hr&_)&Hm). split_and!; try done. by exists lg, M. Qed.

(** Iterating the handle is iterating that snapshot. *)
Lemma iter_view db entries m :
  view_on db entries m → db_state db ≠ Unavailable → ∃ l, l ≡ₚ map_to_list m ∧ reads db entries database.iter (Ok l).
Proof using All.
  intros Hv Hav. pose proof Hv as (Hb&_). pose proof Hb as (bs&Hd&_).
  destruct (iter_snapshot (db_base db) entries (snapshot_now db) m Hb (snapshot_now_of _ _ _ Hv) Hpl)
    as (l&Hl&b'&Hx&Hs&Hh). exists l. split; [done|]. exists b'. split; [|done].
  unfold database.iter. rewrite available_run, (M_bind_ok database.self _ db db db eq_refl) by done.
  unfold active_base.with_verifier, zoom in Hx. unfold snapshot.iter, snapshot.entries, snapshot.read_view in Hx.
  cbn [snapshot_now snapshot.new sn_base sn_base_offset sn_base_slots sn_overlay_index sn_verification sn_base_len] in Hx.
  unfold database.iter_raw, database.read_view, active_base.base_view. rewrite Hd in Hx |- *. rstep. cbn [mbind result_bind] in Hx.
  rewrite M_bind_assoc, M_lift_ok, M_bind_assoc, (M_bind_ok (gets _) _ _ _ _ eq_refl) in Hx.
  destruct (raw_entries.new _ _ _) as [r|e|] eqn:En; [|discriminate Hx..].
  rewrite M_lift_ok. unfold mbind, M_bind, lift, snapshot.consume in Hx.
  destruct (raw_entries.entries_collect (r, ab_verifier (db_base db))) as [items [r' v']]. injection Hx as -> <-. done.
Qed.

Lemma query_handle_view db entries m q :
  view_on db entries m → db_state db ≠ Unavailable →
  ∃ a, answers m q a ∧ reads db entries (query_handle q) (Ok a).
Proof using All.
  intros Hv Hav. pose proof Hv as (Hb&_). pose proof Hb as (bs&Hd&_).
  assert (Hret : ∀ {A} (x : M Database A) v (g : A → reply), reads db entries x (Ok v) →
    reads db entries (v ← x; mret (g v)) (Ok (g v))).
  { intros A x v g Hx. eapply reads_bind; [exact Hx|]. intros b' _ Hb'. by apply reads_ret. }
  destruct q as [key|key| | |]; cbn [answers query_handle].
  - eexists. split; [done|]. apply Hret. by apply get_view.
  - eexists. split; [done|]. apply Hret. unfold database.contains_key. eapply reads_bind; [by apply get_view|].
    intros b' _ Hb'. by apply reads_ret.
  - destruct (iter_view db entries m Hv Hav) as (l&Hl&Hx). eexists. split; [by exists l|]. by apply Hret.
  - eexists. split; [done|]. apply Hret. apply reads_ret; [done|]. by eapply len_view.
  - eexists. split; [done|]. apply Hret. apply reads_ret; [done|]. by eapply is_empty_view.
Qed.

Lemma query_transaction_view db entries m q :
  view_on db entries m → db_state db ≠ Unavailable →
  ∃ a, answers m q a ∧ reads db entries (query_transaction q) (Ok a).
Proof using All.
  intros Hv Hav. destruct (query_handle_view db entries m q Hv Hav) as (a&Ha&b'&Hx&?).
  exists a. split; [done|]. exists b'. split; [|done]. rewrite <- Hx.
  unfold query_transaction, read_transaction.new, database.begin_read. rewrite available_run by done.
  destruct q as [key|key| | |]; [| |done..].
  all: unfold query_handle, database.contains_key, database.get, read_transaction.contains_key.
  all: rewrite ?M_bind_assoc, available_run by done; done.
Qed.

Lemma query_snapshot_of b entries s m q :
  active_base.holds b entries → snapshot_of b entries s m →
  ∃ r, keeps b entries (query_snapshot s q) r
    ∧ ((∃ a, r = Ok a ∧ answers m q a) ∨ ∃ e, r = Err e ∧ q = Len ∧ U64 ≤ Z.of_nat (size m)).
Proof using All.
  intros Hb Hs.
  assert (Hret : ∀ {A} (x : M SegmentVerifier A) v (g : A → reply), keeps b entries x (Ok v) →
    keeps b entries (v ← x; mret (g v)) (Ok (g v))).
  { intros A x v g Hx. eapply keeps_bind; [exact Hx|]. intros b' Hb'. by apply keeps_ret. }
  destruct q as [key|key| | |]; cbn [answers query_snapshot].
  - eexists. split; [by apply Hret, get_snapshot|]. left. by eexists.
  - eexists. split; [by apply Hret, contains_key_snapshot|]. left. by eexists.
  - destruct (iter_snapshot b entries s m Hb Hs Hpl) as (l&Hl&Hx). eexists. split; [by apply Hret|].
    left. eexists. split; [done|]. by exists l.
  - pose proof (len_snapshot b entries s m Hb Hs Hpl) as Hx. unfold counted in Hx.
    destruct (Z.of_nat (size m) <? U64) eqn:E; bool_prop.
    + eexists. split; [by apply Hret|]. left. by eexists.
    + destruct Hx as (b'&Hx&?). eexists (Err _). split; [|right; eexists; by split_and!]. exists b'. split; [|done].
      unfold active_base.with_verifier, zoom in *. destruct (snapshot.len s (ab_verifier b)) as [r v'] eqn:El.
      injection Hx as -> <-. by rewrite (M_bind_err _ _ _ _ _ El).
  - eexists. split; [by apply Hret, is_empty_snapshot|]. left. by eexists.
Qed.

End Reads.

Section Refinement.
Context `{Crc32cLaws, Xxh3Laws, Alloc, HashTablesLaws, Placement, MmapAnon}.
Implicit Types (db : Database) (w : World) (sp : Spec) (entries : list (bytes * bytes)).
Hypothesis Hpl : ∀ mapping, PlacementLaws mapping.
Hypothesis Hres : ∀ n, try_reserve n = true.
Hypothesis Hmaps : tx_facts.maps_succeed.

(** A handle that answers for the map of the specification, on a file that is its image
    as long as it may be written, with the snapshots of the specification. *)
Definition serving entries w sp : Prop :=
  let db := w_handle w in
  view_on db entries (sp_map sp)
  ∧ (db_state db = Healthy → ∃ f sb batches, handle_on db f sb entries batches
       ∧ contents entries batches = sp_map sp ∧ compaction.whole f)
  ∧ ∀ i, option_Forall2 (snapshot_of (db_base db) entries) (w_snapshots w !! i) (sp_snapshots sp !! i).

Definition refines w sp : Prop :=
  let db := w_handle w in
  sp_state sp = db_state db ∧ db_snapshots db = Z.of_nat (size (w_snapshots w))
  ∧ opt_max_database_bytes (db_options db) ≤ ISIZE_MAX
  ∧ (db_state db = Unavailable ∧ w_snapshots w = ∅ ∧ sp_snapshots sp = ∅
     ∨ db_state db ≠ Unavailable ∧ ∃ entries, serving entries w sp).

Definition step_ok w sp q : Prop := ∃ sp', allowed sp q (exec q w).1 sp' ∧ refines (exec q w).2 sp'.

(** An operation of the handle that leaves the snapshots alone. *)
Lemma exec_handle {A} w (x : M Database A) r db' :
  x (w_handle w) = (r, db') → on_handle x w = (r, MkWorld db' (w_open w) (w_snapshots w)).
Proof. intros Hx. unfold on_handle, zoom. by rewrite Hx. Qed.

Lemma world_eta w : MkWorld (w_handle w) (w_open w) (w_snapshots w) = w.
Proof. by destruct w. Qed.

Lemma refines_read {A} w sp entries (x : M Database A) r :
  refines w sp → db_state (w_handle w) ≠ Unavailable → serving entries w sp → reads (w_handle w) entries x r →
  ∃ w', on_handle x w = (r, w') ∧ refines w' sp.
Proof.
  intros (Hst&Hsn&Hmax&_) Hav ((Hb&Ho)&Hh&Hss) (b'&Hx&Hs&Hb'). eexists. split; [by apply exec_handle|].
  split; [done|]. split; [done|]. split; [done|]. right. split; [done|]. exists entries. split; [by split|]. split.
  - intros Hhl. destruct (Hh Hhl) as (f&sb&batches&?&?&?). exists f, sb, batches. split; [by eapply handle_on_base|done].
  - intros i. cbn. destruct (Hss i); constructor. by eapply snapshot_of_same.
Qed.

Lemma unavailable_run {A} db (k : () → M Database A) :
  db_state db = Unavailable → (database.ensure_available ≫= k) db = (Err Poisoned, db).
Proof.
  intros Hun. unfold database.ensure_available. rewrite M_bind_assoc, (M_bind_ok database.self _ db db db eq_refl).
  rewrite bool_decide_true by done. done.
Qed.

Lemma closed_run {A} db (k : () → M Database A) :
  db_state db ≠ Healthy → (database.ensure_writable ≫= k) db = (Err Poisoned, db).
Proof.
  intros Hun. unfold database.ensure_writable. rewrite M_bind_assoc, (M_bind_ok database.self _ db db db eq_refl).
  rewrite bool_decide_false by done. done.
Qed.

Lemma writable_run {A} db (k : () → M Database A) :
  db_state db = Healthy → (database.ensure_writable ≫= k) db = k () db.
Proof.
  intros Hun. unfold database.ensure_writable. rewrite M_bind_assoc, (M_bind_ok database.self _ db db db eq_refl).
  rewrite bool_decide_true by done. done.
Qed.

(** A refusal leaves the world as it is. *)
Lemma refused_step {A} w sp q (x : M Database A) (k : A → M World reply) e :
  refines w sp → x (w_handle w) = (Err e, w_handle w) → exec q w = (on_handle x ≫= k) w →
  allowed sp q (Err e) sp → step_ok w sp q.
Proof.
  intros Href Hx Hq Hal. exists sp. rewrite Hq. rewrite (M_bind_err _ _ _ _ _ (exec_handle w x _ _ Hx)).
  rewrite world_eta. by split.
Qed.

Lemma step_read w sp q : refines w sp → step_ok w sp (Read q).
Proof using All.
  intros Href. pose proof Href as (Hst&_&_&[(Hun&_)|(Hav&entries&Hsv)]).
  - assert (Hx : query_handle q (w_handle w) = (Err Poisoned, w_handle w)).
    { destruct q; cbn [query_handle]; unfold database.contains_key, database.is_empty, database.get, database.iter,
        database.len; rewrite ?M_bind_assoc, unavailable_run by done; done. }
    exists sp. cbn [exec]. rewrite (exec_handle w _ _ _ Hx), world_eta. split; [|done].
    apply allow_unavailable; [congruence|done].
  - pose proof Hsv as (Hv&_). destruct (query_handle_view Hpl _ _ _ q Hv Hav) as (a&Ha&Hr).
    destruct (refines_read w sp entries _ _ Href Hav Hsv Hr) as (w'&Hw&Href'). exists sp. cbn [exec]. rewrite Hw.
    split; [|done]. constructor; [congruence|done].
Qed.

Lemma step_read_tx w sp q : refines w sp → step_ok w sp (ReadTx q).
Proof using All.
  intros Href. pose proof Href as (Hst&_&_&[(Hun&_)|(Hav&entries&Hsv)]).
  - exists sp. cbn [exec]. unfold query_transaction, read_transaction.new, database.begin_read.
    erewrite exec_handle by (by apply unavailable_run). rewrite world_eta. split; [|done].
    apply allow_unavailable; [congruence|done].
  - pose proof Hsv as (Hv&_). destruct (query_transaction_view Hpl _ _ _ q Hv Hav) as (a&Ha&Hr).
    destruct (refines_read w sp entries _ _ Href Hav Hsv Hr) as (w'&Hw&Href'). exists sp. cbn [exec]. rewrite Hw.
    split; [|done]. constructor; [congruence|done].
Qed.

Lemma step_verify w sp : refines w sp → step_ok w sp Verify.
Proof using All.
  intros Href. pose proof Href as (Hst&_&_&[(Hun&_)|(Hav&entries&Hsv)]).
  - eapply refused_step; [done|by apply unavailable_run|done|]. apply allow_unavailable; [congruence|done].
  - pose proof Hsv as (Hv&_). pose proof (verify_view _ _ _ Hv Hav Hres) as Hr.
    destruct (refines_read w sp entries _ _ Href Hav Hsv Hr) as (w'&Hw&Href'). exists sp. cbn [exec].
    rewrite (M_bind_ok _ _ _ _ _ Hw). split; [|done]. constructor. congruence.
Qed.

(** The file may move its position and use up its script. *)
Definition same_file (s s' : Storage) : Prop :=
  ∀ f, s = SFile f → ∃ f', s' = SFile f' ∧ file_content f' = file_content f ∧ file_script f' `suffix_of` file_script f.

Lemma stored_same_file R f c s : stored R f c s → c = file_content f → same_file (SFile f) s.
Proof. intros (f'&->&?&_&?) -> ? [= <-]. by exists f'. Qed.

Lemma refines_storage w sp s' :
  refines w sp → (db_state (w_handle w) = Healthy → same_file (db_storage (w_handle w)) s') →
  refines (MkWorld (database.set_storage s' (w_handle w)) (w_open w) (w_snapshots w)) sp.
Proof.
  intros (Hst&Hsn&Hmax&Hc) Hf. split; [done|]. split; [done|]. split; [done|]. destruct Hc as [?|(Hav&entries&Hv&Hh&Hss)]; [by left|].
  right. split; [done|]. exists entries. split; [done|]. split; [|done]. intros Hhl.
  destruct (Hh Hhl) as (f&sb&batches&(Hs&Hi&Hrest)&Hm&Hw). destruct (Hf Hhl f Hs) as (f'&->&Hc'&Hsu).
  exists f', sb, batches. split; [|split; [done|by eapply compaction.whole_suffix]]. split; [done|]. by rewrite Hc'.
Qed.

Lemma sync_same_file s : ∃ r s', storage.sync_data s = (r, s') ∧ r ≠ Panic ∧ same_file s s'.
Proof.
  destruct s as [f|ms].
  - destruct (sync_any (λ _, True) f (file_content f) (SFile f)) as (r&s'&Hr&Hs&Ho); [|done|].
    { exists f. split; [done|]. split; [done|]. split; [by apply history_refl|done]. }
    exists r, s'. split; [done|]. split; [|by eapply stored_same_file]. by destruct Ho as [[-> _]|(e&->&_)].
  - by exists (Ok ()), (SMemory ms).
Qed.

Lemma step_sync w sp : refines w sp → step_ok w sp Sync.
Proof using All.
  intros Href. pose proof Href as (Hst&_&_&[(Hun&_)|(Hav&entries&Hsv)]).
  - eapply refused_step; [done|by apply unavailable_run|done|]. apply allow_unavailable; [congruence|done].
  - destruct (sync_same_file (db_storage (w_handle w))) as (r&s'&Hr&Hp&Hf).
    assert (Hx : on_handle database.sync w = (r, MkWorld (database.set_storage s' (w_handle w)) (w_open w) (w_snapshots w))).
    { apply exec_handle. unfold database.sync. rewrite available_run by done. by apply on_storage_run. }
    pose proof (refines_storage w sp s' Href (λ _, Hf)) as Href'.
    exists sp. cbn [exec]. destruct r as [[]|e|]; [rewrite (M_bind_ok _ _ _ _ _ Hx)|rewrite (M_bind_err _ _ _ _ _ Hx)|done].
    + split; [|done]. apply allow_sync. congruence.
    + split; [|done]. apply allow_sync_fails. congruence.
Qed.

(** A write transaction on a file is refused before anything is staged, or commits what
    was staged. *)
Lemma transact_run ops db f :
  db_storage db = SFile f → Forall tx_facts.op_typed ops →
  (∃ e, transact ops db = (Err e, db) ∧ (db_state db ≠ Healthy → e = Poisoned))
  ∨ db_state db = Healthy ∧ ∃ tx, tx_facts.tx_ok false tx (tx_spec.steps ops) ∧ transact ops db = database.commit tx db.
Proof using All.
  intros Hsf Hops. unfold transact, database.begin_write. rewrite M_bind_assoc.
  destruct (decide (db_state db = Healthy)) as [Hhl|Hhl]; [|left; exists Poisoned; by rewrite closed_run].
  rewrite writable_run by done. rewrite M_bind_assoc, (M_bind_ok database.self _ db db db eq_refl).
  destruct (opt_overlay_memory_limit (db_options db) <? OverlayState.memory (db_overlay db)) eqn:El.
  { left. by eexists. }
  right. split; [done|]. exists (tx_run.steps false ops).
  split; [by apply tx_facts.steps_refine; [apply tx_facts.tx_ok_new|..]|].
  rewrite (M_bind_ok (mret _) _ db _ db eq_refl), (M_bind_ok database.self _ db db db eq_refl). by rewrite Hsf.
Qed.

(** What a commit of a transaction makes of the world. *)
Lemma step_write w sp ops : refines w sp → Forall tx_facts.op_typed ops → step_ok w sp (WriteTx ops).
Proof using All.
  intros Href Hops. pose proof Href as (Hst&Hsn&Hmax&Hc).
  destruct (decide (db_state (w_handle w) = Healthy)) as [Hhl|Hhl].
  2:{ eapply refused_step; [done| |done|]; [|apply allow_closed; [congruence|done]].
      unfold transact, database.begin_write. by rewrite M_bind_assoc, closed_run. }
  destruct Hc as [(Hun&_)|(Hav&entries&Hv&Hh&Hss)]; [congruence|].
  destruct (Hh Hhl) as (f&sb&batches&Hon&Hm&Hw). pose proof Hon as (Hsf&_).
  destruct sp as [m h ss]. cbn [sp_state sp_map sp_snapshots] in *. assert (h = Healthy) as -> by congruence.
  set (db := w_handle w) in *. unfold step_ok. cbn [exec].
  destruct (transact_run ops db f Hsf Hops) as [(e&Hx&_)|(_&tx&Htx&Hx)].
  { eexists (MkSpec m Healthy ss).
    rewrite (M_bind_err _ _ _ _ _ (exec_handle w _ _ _ Hx)). unfold db. rewrite world_eta. split; [by constructor|done]. }
  set (muts := tx_spec.steps ops) in *.
  destruct (commit_any db f sb entries batches tx muts Hon Htx Hmax) as (r&db'&Hr&Ho). rewrite <- Hx in Hr.
  destruct Ho as [(->&Hmt&->)|[(->&_&Hok&Hne&Hlen&s'&ov&Hp)|(e&->&_&[(s'&->&Hs')|(_&_&_&s'&p&->&_)])]].
  - rewrite (M_bind_ok _ _ _ _ _ (exec_handle w _ _ _ Hr)). unfold db. rewrite world_eta.
    exists (MkSpec m Healthy ss). split; [|done]. pose proof (allow_commit m ss ops) as Hal. fold muts in Hal. by rewrite Hmt in Hal.
  - rewrite (M_bind_ok _ _ _ _ _ (exec_handle w _ _ _ Hr)).
    destruct (published_handle db f sb entries batches muts s' ov db' Hon Hok Hlen Hp) as (f'&Hon'&Hsf'&_).
    eexists. split; [apply allow_commit|]. fold muts. destruct Hp as (->&(f2&->&_&_&Hsu)&_). cbn in Hsf'. injection Hsf' as <-.
    assert (Hm' : contents entries (batches ++ [muts]) = apply_batch m muts).
    { rewrite contents_snoc by (eapply holds_NoDup; by destruct Hv). by rewrite Hm. }
    split; [done|]. split; [done|]. split; [done|]. right. split; [done|]. exists entries. split; [|split; [|done]].
    + cbn [sp_map]. rewrite <- Hm'. by eapply handle_view.
    + intros _. exists f2, sb, (batches ++ [muts]). split; [done|]. split; [done|]. by eapply compaction.whole_suffix.
  - rewrite (M_bind_err _ _ _ _ _ (exec_handle w _ _ _ Hr)). exists (MkSpec m Healthy ss). split; [by constructor|].
    apply refines_storage; [done|]. fold db. rewrite Hsf. intros _. by eapply stored_same_file.
  - rewrite (M_bind_err _ _ _ _ _ (exec_handle w _ _ _ Hr)). exists (MkSpec m WritePoisoned ss). split; [by constructor|].
    split; [done|]. split; [done|]. split; [done|]. right. split; [done|]. exists entries. split; [exact Hv|]. by split.
Qed.

Lemma serving_none entries w sp : serving entries w sp → w_snapshots w = ∅ ↔ sp_snapshots sp = ∅.
Proof.
  intros (_&_&Hss). split; intros E; apply map_eq; intros i; specialize (Hss i); rewrite E, lookup_empty in *; by inv Hss.
Qed.

Lemma step_compact w sp :
  refines w sp → ab_generation (db_base (w_handle w)) + 3 < U64 → step_ok w sp Compact.
Proof using All.
  intros Href Hgen. pose proof Href as (Hst&Hsn&Hmax&Hc).
  destruct (decide (db_state (w_handle w) = Healthy)) as [Hhl|Hhl].
  2:{ eapply refused_step; [done| |done|]; [|apply allow_closed; [congruence|done]].
      unfold maintenance.compact. by rewrite closed_run. }
  destruct Hc as [(Hun&_)|(Hav&entries&Hsv)]; [congruence|]. pose proof (serving_none _ _ _ Hsv) as Hnone.
  destruct Hsv as (Hv&Hh&_).
  destruct (decide (w_snapshots w = ∅)) as [Hse|Hse].
  2:{ eapply refused_step; [done| |done|]; [|apply allow_blocked; [congruence|by rewrite <- Hnone]].
      unfold maintenance.compact. rewrite writable_run, (M_bind_ok database.self _ _ _ _ eq_refl) by done.
      replace (db_snapshots (w_handle w) =? 0) with false; [done|]. symmetry. apply Z.eqb_neq.
      rewrite Hsn. destruct (size (w_snapshots w)) eqn:E; [by apply map_size_empty_inv in E|lia]. }
  destruct (Hh Hhl) as (f&sb&batches&Hon&Hm&Hw).
  destruct (compaction.compact_any (w_handle w) f sb entries batches Hon Hw) as (r&db'&c'&Hr&Hst'&Ho); [|done|done|].
  { by destruct Hon as (_&_&_&_&_&<-&_). }
  pose proof (frames_compact (w_handle w)) as [Hopt Hsnp]. rewrite Hr in Hopt, Hsnp. cbn [snd] in Hopt, Hsnp.
  destruct sp as [m h ss]. cbn [sp_state sp_map sp_snapshots] in *. assert (h = Healthy) as -> by congruence.
  apply Hnone in Hse as Hss. subst ss m. set (m := contents entries batches) in *.
  (* what is left to show: the handle serves the map, or is out of use *)
  assert (Hfin : ∀ entries', view_on db' entries' m → (db_state db' = Healthy → ∃ f' sb' batches',
      handle_on db' f' sb' entries' batches' ∧ contents entries' batches' = m) → db_state db' ≠ Unavailable →
    refines (MkWorld db' (w_open w) (w_snapshots w)) (MkSpec m (db_state db') ∅)).
  { intros es' Hv' Hh' Hav'. split; [done|]. split; [cbn; congruence|]. split; [cbn; by rewrite Hopt|]. right. split; [done|].
    exists es'. split; [done|]. split; [|intros i; cbn; rewrite Hse, !lookup_empty; constructor].
    intros Hhl'. destruct (Hh' Hhl') as (f'&sb'&bs'&Hon'&Hm'). exists f', sb', bs'. split; [done|]. split; [done|].
    destruct Hst' as (g&Hg&_&_&Hsu). destruct Hon' as (Hs'&_). cbn in Hs'. rewrite Hg in Hs'. injection Hs' as <-.
    by eapply compaction.whole_suffix. }
  unfold step_ok. cbn [exec]. destruct r as [[]|e|]; [rewrite (M_bind_ok _ _ _ _ _ (exec_handle w _ _ _ Hr))
    |rewrite (M_bind_err _ _ _ _ _ (exec_handle w _ _ _ Hr))|done].
  - destruct Ho as (Hhl'&f'&sb'&l&Hon'&Hm'&_). exists (MkSpec m Healthy ∅). split; [constructor|]. rewrite <- Hhl'.
    eapply (Hfin l); [rewrite <- Hm'; by eapply handle_view|eauto|congruence].
  - destruct Ho as [[Hrd Hon'] _]. exists (MkSpec m (db_state db') ∅). split; [constructor|].
    destruct (decide (db_state db' = Healthy)) as [Hhl'|Hnh].
    + destruct (Hon' Hhl') as (f'&sb'&l&bs'&Hon2&Hm2).
      eapply (Hfin l); [rewrite <- Hm2; by eapply handle_view|eauto|congruence].
    + destruct (decide (db_state db' = Unavailable)) as [Hun|Hav'].
      * split; [done|]. split; [cbn; congruence|]. split; [cbn; by rewrite Hopt|]. left. by split_and!.
      * destruct (Hrd Hav') as (es'&lg&M&?&?&?). eapply (Hfin es'); [split; [done|by exists lg, M]|done|done].
Qed.

Lemma exec_take w i :
  db_state (w_handle w) ≠ Unavailable →
  exec (TakeSnapshot i) w = (Ok Unit, MkWorld (database.set_snapshots (db_snapshots (w_handle w) + 1) (w_handle w)) (w_open w)
    (<[i := snapshot_now (w_handle w)]> (w_snapshots w))).
Proof.
  intros Hav. cbn [exec].
  assert (Hx : snapshot.take (w_handle w) = (Ok (snapshot_now (w_handle w)),
    database.set_snapshots (db_snapshots (w_handle w) + 1) (w_handle w))).
  { unfold snapshot.take. by rewrite available_run. }
  rewrite (M_bind_ok _ _ _ _ _ (exec_handle w _ _ _ Hx)). by rewrite (M_bind_ok (modify _) _ _ _ _ eq_refl).
Qed.

Lemma step_take w sp i : refines w sp → w_snapshots w !! i = None → step_ok w sp (TakeSnapshot i).
Proof using All.
  intros Href Hi. pose proof Href as (Hst&Hsn&Hmax&[(Hun&_)|(Hav&entries&Hv&Hh&Hss)]).
  { eapply refused_step; [done|by apply unavailable_run|done|]. apply allow_unavailable; [congruence|done]. }
  destruct sp as [m h ss]. cbn [sp_state sp_map sp_snapshots] in *. subst h.
  assert (Hsi : ss !! i = None) by (specialize (Hss i); rewrite Hi in Hss; by inv Hss).
  unfold step_ok. rewrite exec_take by done. eexists. split; [by apply allow_take|]. split; [done|]. split.
  { cbn. rewrite map_size_insert_None by done. lia. }
  split; [done|]. right. split; [done|]. exists entries. split; [exact Hv|]. split; [exact Hh|].
  intros j. cbn. destruct (decide (i = j)) as [<-|Hne].
  - rewrite !lookup_insert_eq. constructor. by apply snapshot_now_of.
  - rewrite !lookup_insert_ne by done. apply Hss.
Qed.

Lemma step_drop w sp i : refines w sp → is_Some (w_snapshots w !! i) → step_ok w sp (DropSnapshot i).
Proof.
  intros (Hst&Hsn&Hmax&Hc) [s Hi]. destruct Hc as [(_&E&_)|(Hav&entries&Hv&Hh&Hss)]; [by rewrite E, lookup_empty in Hi|].
  destruct sp as [m h ss]. cbn [sp_state sp_map sp_snapshots] in *.
  exists (MkSpec m h (delete i ss)). split; [apply (allow_drop m h ss i)|]. cbn [exec].
  rewrite (M_bind_ok _ _ _ _ _ (exec_handle w snapshot.drop _ _ eq_refl)), (M_bind_ok (modify _) _ _ _ _ eq_refl).
  split; [done|]. split.
  { cbn. rewrite map_size_delete_Some by done. pose proof (map_size_non_empty_iff (w_snapshots w)) as [_ Hz].
    assert (size (w_snapshots w) ≠ 0%nat); [|lia]. intros Hs. apply map_size_empty_inv in Hs. by rewrite Hs, lookup_empty in Hi. }
  split; [done|]. right. split; [done|]. exists entries. split; [exact Hv|]. split; [exact Hh|].
  intros j. cbn. destruct (decide (i = j)) as [<-|Hne].
  - rewrite !lookup_delete_eq. constructor.
  - rewrite !lookup_delete_ne by done. apply Hss.
Qed.

Lemma step_snapshot w sp i q : refines w sp → is_Some (w_snapshots w !! i) → step_ok w sp (ReadSnapshot i q).
Proof using All.
  intros Href [s Hi]. pose proof Href as (Hst&Hsn&Hmax&Hc).
  destruct Hc as [(_&E&_)|(Hav&entries&Hsv)]; [by rewrite E, lookup_empty in Hi|]. pose proof Hsv as ((Hb&_)&_&Hss).
  specialize (Hss i). rewrite Hi in Hss. destruct (sp_snapshots sp !! i) as [m|] eqn:Em; [|by inv Hss].
  inv Hss. rename select (snapshot_of _ _ _ _) into Hso.
  destruct (query_snapshot_of Hpl _ entries s m q Hb Hso) as (r&Hk&Ho).
  destruct (refines_read w sp entries (database.on_base (active_base.with_verifier (query_snapshot s q))) r Href Hav Hsv)
    as (w'&Hw&Href').
  { destruct Hk as (b'&Hx&?&?). exists b'. split; [|done]. unfold database.on_base, zoom. by rewrite Hx. }
  exists sp. cbn [exec]. rewrite (M_bind_ok (gets _) _ w w w eq_refl), Hi, Hw. split; [|done]. cbn [fst].
  destruct Ho as [(a&->&Ha)|(e&->&->&Hz)]; [by eapply allow_snapshot|by eapply allow_snapshot_overflow].
Qed.

Lemma request_refines w sp q : refines w sp → enabled w q → step_ok w sp q.
Proof using All.
  intros Href Hen. destruct q as [q|q|ops| | | |i|i|i q|]; cbn [enabled] in Hen.
  - by apply step_read.
  - by apply step_read_tx.
  - by apply step_write, Hen.
  - by apply step_verify.
  - by apply step_sync.
  - by apply step_compact, Hen.
  - by apply step_take, Hen.
  - by apply step_drop.
  - by apply step_snapshot.
  - exists sp. split; [constructor|]. exact Href.
Qed.

Lemma runs_refine w trace w' : runs w trace w' → ∀ sp, refines w sp → ∃ sp', permits sp trace sp' ∧ refines w' sp'.
Proof using All.
  induction 1 as [w|w q w' trace w'' Hen Hw' _ IH]; intros sp Href; [exists sp; split; [constructor|done]|].
  destruct (request_refines w sp q Href Hen) as (sp1&Hal&Href1). rewrite Hw' in Href1.
  destruct (IH sp1 Href1) as (sp2&Hp&?). exists sp2. split; [|done]. by econstructor.
Qed.

End Refinement.

(** ** Properties *)

(** C1: a database and its snapshots refine the specification. Start with a healthy
    handle on a file and make any sequence of requests: reads, read and write
    transactions, verification, syncing, compaction, taking, dropping and reading
    snapshots, closing the handle. Whichever system calls fail, every answer is one the
    specification allows: a write transaction applies its batch as a whole or not at all,
    a snapshot answers every query for the map at the moment it was taken, compaction is
    refused while one is alive and otherwise keeps the map, and nothing panics. *)
Theorem session_refines `{Crc32cLaws, Xxh3Laws, Alloc, HashTablesLaws, Placement, MmapAnon}
    (db : Database) f sb entries batches trace w' :
  handle_on db f sb entries batches → db_state db = Healthy → db_snapshots db = 0 → compaction.whole f →
  opt_max_database_bytes (db_options db) ≤ ISIZE_MAX → (∀ mapping, PlacementLaws mapping) →
  (∀ n, try_reserve n = true) → tx_facts.maps_succeed →
  runs (MkWorld db true ∅) trace w' →
  ∃ sp', permits (MkSpec (contents entries batches) Healthy ∅) trace sp'.
Proof.
  intros Hh Hst Hsn Hw Hmax Hpl Hres Hmaps Hr.
  destruct (runs_refine Hpl Hres Hmaps _ _ _ Hr (MkSpec (contents entries batches) Healthy ∅)) as (sp'&Hp&_); [|by exists sp'].
  split; [done|]. split; [exact Hsn|]. split; [done|]. right. split; [cbn; congruence|].
  exists entries. split; [by eapply handle_view|]. split; [|intros i; cbn; rewrite !lookup_empty; constructor].
  intros _. by exists f, sb, batches.
Qed.

(** *** A concrete session *)

Import RefInstances.
#[local] Instance demo_placement : Placement :=
  {| base_addr := 65536; place kv := (view.MkSlice 1 kv.1, view.MkSlice 2 kv.2) |}.
#[local] Instance demo_maps : MmapAnon := {| map_anon _ := Ok (); make_read_only _ := Ok () |}.

Lemma exec_write_snapshots ops (w : World) : w_snapshots (exec (WriteTx ops) w).2 = w_snapshots w.
Proof. cbn [exec]. unfold mbind, M_bind, on_handle, zoom. by destruct (transact ops (w_handle w)) as [[] ?]. Qed.

(** A snapshot still finds a key that a later transaction deleted. *)
Lemma session_refines_witness :
  ∃ (db : Database) a w', runs (MkWorld db true ∅)
    [(TakeSnapshot 0, Ok Unit); (WriteTx [tx_spec.Delete [Byte.x62]], a);
     (ReadSnapshot 0 (Get [Byte.x62]), Ok (Value (Some [Byte.x01; Byte.x02; Byte.x03])))] w'.
Proof.
  destruct handle.demo_committed as (db&f&sb&Hh&Hok&Hst&Hop&Hsn&Hgen&Hlen).
  set (w0 := MkWorld db true ∅). set (w1 := (exec (TakeSnapshot 0) w0).2).
  set (q2 := WriteTx [tx_spec.Delete [Byte.x62]]). set (q3 := ReadSnapshot 0 (Get [Byte.x62])).
  assert (Hw1 : exec (TakeSnapshot 0) w0
    = (Ok Unit, MkWorld (database.set_snapshots (db_snapshots db + 1) db) true {[0%nat := snapshot_now db]})).
  { apply exec_take. cbn. rewrite Hst. discriminate. }
  set (w2 := (exec q2 w1).2).
  assert (Hruns : runs w0 [(TakeSnapshot 0, (exec (TakeSnapshot 0) w0).1); (q2, (exec q2 w1).1); (q3, (exec q3 w2).1)] (exec q3 w2).2).
  { apply (runs_cons w0 _ w1); [split; reflexivity|reflexivity|].
    apply (runs_cons w1 _ w2); [|reflexivity|].
    { unfold w1. rewrite Hw1. split; [reflexivity|]. constructor; [exact I|constructor]. }
    apply (runs_cons w2 _ (exec q3 w2).2); [|reflexivity|constructor].
    unfold enabled, q3, w2, q2. rewrite exec_write_snapshots. unfold w1. rewrite Hw1. eexists. reflexivity. }
  assert (Hw : compaction.whole f).
  { intros n Hn. destruct Hok as [Hs _]. rewrite Hs in Hn. by apply not_elem_of_nil in Hn. }
  assert (Hmax : opt_max_database_bytes (db_options db) ≤ ISIZE_MAX) by (rewrite Hop; apply Z.le_refl).
  assert (Hmaps : tx_facts.maps_succeed) by (intros n; split; reflexivity).
  destruct (session_refines db f sb [] [handle.demo_muts] _ _ Hh Hst Hsn Hw Hmax entries_facts.demo_placement_laws
    (λ _, eq_refl) Hmaps Hruns) as (sp'&Hp).
  rewrite Hw1 in Hruns, Hp. cbn [fst] in Hruns, Hp. unfold q3, q2 in Hruns, Hp.
  revert Hruns Hp. generalize (exec (ReadSnapshot 0 (Get [Byte.x62])) w2) (exec (WriteTx [tx_spec.Delete [Byte.x62]]) w1).
  intros [r3 w3] [r2 ?] Hruns Hp. cbn [fst snd] in Hruns, Hp. exists db, r2, w3.
  inversion Hp as [|? ? ? sp1 ? ? H1 Hp1]; subst. inversion Hp1 as [|? ? ? sp2 ? ? H2 Hp2]; subst.
  inversion Hp2 as [|? ? ? sp3 ? ? H3 _]; subst.
  assert (Hm : sp_snapshots sp2 !! 0%nat = Some (contents [] [handle.demo_muts])).
  { inversion H1; subst; inversion H2; subst; cbn in *; try congruence; apply lookup_insert_eq. }
  inversion H3; subst; try contradiction. rename select (sp_snapshots _ !! _ = Some _) into Hm'.
  rewrite Hm in Hm'. injection Hm' as <-. rename select (answers _ _ _) into Ha. cbn [answers] in Ha.
  replace (contents [] [demo_muts] !! [Byte.x62]) with (Some [Byte.x01; Byte.x02; Byte.x03]) in Ha by (vm_compute; reflexivity).
  rewrite Ha in Hruns. exact Hruns.
Defined.

End session.
