(* ===== verification/Durability.v ===== *)
(** * Durability: a database across crashes

    A database file over its whole life: opened, served, cut off by a crash in the middle
    of a request or of a recovery, opened again. A crash keeps every change that was
    synced and a prefix of the changes that were not. The specification extends the one
    of a session by the maps the disk may hold; the theorems show that every life is one
    the specification allows, and that what an acknowledged transaction wrote is found
    again after any sequence of crashes. *)

From S2P Require Import Prelude Errors Crates Io Superblock Values Log Segment Overlay Recovery View Base Storage Transaction.
From S2P Require Import Entries Database Faults Commit Written Reopen Handle Maintenance Compaction Snapshot Session.
Import overlay_map_facts commit_facts handle session.

Module lifetime.

(** ** Lives *)

Inductive event :=
  | Request (q : request) (a : result reply)
  | CrashIn (q : request)
  | PowerOff
  | Open (options : DatabaseOptions)
  | OpenFails (options : DatabaseOptions) (e : Error)
  | CrashOpening (options : DatabaseOptions).

Section Machine.
Context `{Crc32c, Xxh3, Alloc, HashTables, Placement, MmapAnon}.

(** A process that opened the file when it had the content [start], or the file alone. *)
Inductive machine :=
  | Running (start : bytes) (w : World)
  | Off (c : bytes).

(** System calls that fail according to [script] from now on. *)
Definition with_script (script : list IoFault) (f : File) : File :=
  MkFile (file_content f) (file_pos f) script (file_trace f).

(** What a crash leaves: the changes up to [k], none of the later ones of [synced] being
    followed by a sync. *)
Inductive step : machine → event → machine → Prop :=
  | step_request start w q :
      enabled w q → step (Running start w) (Request q (exec q w).1) (Running start (exec q w).2)
  | step_crash start w q f f' k :
      enabled w q → db_storage (w_handle w) = SFile f → db_storage (w_handle (exec q w).2) = SFile f' →
      OpSync ∉ drop k (file_trace f) →
      step (Running start w) (CrashIn q) (Off (replay start (take k (file_trace f'))))
  | step_off start w f k :
      db_storage (w_handle w) = SFile f → OpSync ∉ drop k (file_trace f) →
      step (Running start w) PowerOff (Off (replay start (take k (file_trace f))))
  | step_open c options db f script :
      opt_max_database_bytes options ≤ ISIZE_MAX →
      database.open_with_options (MkFile c 0 [] []) options = (Ok db, SFile f) → compaction.whole_script script →
      step (Off c) (Open options)
        (Running c (MkWorld (database.set_storage (SFile (with_script script f)) db) true ∅))
  | step_open_fails c options e f :
      database.open_with_options (MkFile c 0 [] []) options = (Err e, SFile f) →
      step (Off c) (OpenFails options e) (Off (file_content f))
  | step_crash_opening c options r f k :
      database.open_with_options (MkFile c 0 [] []) options = (r, SFile f) →
      step (Off c) (CrashOpening options) (Off (replay c (take k (file_trace f)))).

Inductive lives : machine → list event → machine → Prop :=
  | lives_nil s : lives s [] s
  | lives_snoc s trace s' e s'' : lives s trace s' → step s' e s'' → lives s (trace ++ [e]) s''.

End Machine.
Arguments machine {_}.
Arguments Running {_} _ _.
Arguments Off {_} _.

(** ** The specification *)

Abbreviation dict := (gmap bytes bytes).

(** The maps the disk may hold, and a process that serves requests. *)
Inductive life :=
  | Up (sp : Spec) (disk : list dict)
  | Down (disk : list dict).

(** A write transaction may already be on disk before it is answered. *)
Definition possible (sp : Spec) (q : request) (disk : list dict) : list dict :=
  match q with
  | WriteTx ops => if bool_decide (sp_state sp = Healthy) then disk ++ [apply_batch (sp_map sp) (tx_spec.steps ops)] else disk
  | _ => disk
  end.

(** The answer settles it, unless the failure closed the handle. *)
Definition settled (sp : Spec) (q : request) (a : result reply) (sp' : Spec) (disk : list dict) : list dict :=
  match q, a with
  | WriteTx _, Ok _ => [sp_map sp']
  | WriteTx _, Err _ => if bool_decide (sp_state sp' = sp_state sp) then disk else possible sp q disk
  | _, _ => disk
  end.

Inductive permitted : life → event → life → Prop :=
  | permit_request sp disk q a sp' :
      allowed sp q a sp' → permitted (Up sp disk) (Request q a) (Up sp' (settled sp q a sp' disk))
  | permit_crash sp disk q : permitted (Up sp disk) (CrashIn q) (Down (possible sp q disk))
  | permit_off sp disk : permitted (Up sp disk) PowerOff (Down disk)
  | permit_open disk options m : m ∈ disk → permitted (Down disk) (Open options) (Up (MkSpec m Healthy ∅) [m])
  | permit_open_fails disk options e :
      opt_max_database_bytes options < database.MIN_DATABASE_BYTES ∨ (∃ limit len, e = error.database_full limit len) →
      permitted (Down disk) (OpenFails options e) (Down disk)
  | permit_crash_opening disk options : permitted (Down disk) (CrashOpening options) (Down disk).

Inductive permits_life : life → list event → life → Prop :=
  | permits_life_nil l : permits_life l [] l
  | permits_life_snoc l trace l' e l'' :
      permits_life l trace l' → permitted l' e l'' → permits_life l (trace ++ [e]) l''.

(** ** Refinement *)

(** What the requests of a session may change in the specification. *)
Lemma allowed_map sp q a sp' :
  allowed sp q a sp' →
  sp_map sp' = match q, a with WriteTx ops, Ok _ => apply_batch (sp_map sp) (tx_spec.steps ops) | _, _ => sp_map sp end
  ∧ (sp_state sp' = Healthy → sp_state sp = Healthy)
  ∧ (∀ ops u, q = WriteTx ops → a = Ok u → sp_state sp = Healthy).
Proof. intros Hal. destruct Hal; try done; split_and!; try done; by destruct q. Qed.

Lemma allowed_not_panic sp q a sp' : allowed sp q a sp' → a ≠ Panic.
Proof. by destruct 1. Qed.

Section Disk.
Context `{Crc32cLaws, Xxh3Laws, Alloc, HashTablesLaws}.
Implicit Types (f : File) (c start : bytes) (disk : list dict).

(** The content [c] is an image of one of the maps. *)
Definition on_disk disk c : Prop := ∃ m, m ∈ disk ∧ compaction.durable m c.

Lemma on_disk_mono disk disk' c : disk ⊆ disk' → on_disk disk c → on_disk disk' c.
Proof. intros Hs (m&Hm&Hc). exists m. split; [by apply Hs|done]. Qed.

(** Whatever a crash leaves of the changes [T] to [start] is an image. *)
Definition survives disk start (T : list FileOp) : Prop :=
  ∀ k, OpSync ∉ drop k T → on_disk disk (replay start (take k T)).

Definition file_since f start : Prop := file_content f = replay start (file_trace f).

Lemma history_since R f f' start :
  history R f f' → file_since f start →
  file_since f' start ∧ ∃ ops, file_trace f' = file_trace f ++ ops ∧ ∀ j, R (replay start (file_trace f ++ take j ops)).
Proof.
  intros (ops&Ht&Hr&Hk) Hf. assert (Hrep : ∀ l, replay start (file_trace f ++ l) = replay (file_content f) l)
    by (intros l; unfold replay; rewrite foldl_app; by rewrite Hf).
  split; [unfold file_since; by rewrite Ht, Hrep|]. exists ops. split; [done|]. intros j. rewrite Hrep. apply Hk.
Qed.

(** A crash while the changes after [f] are made. *)
Lemma crash_survives disk disk' f f' start k :
  survives disk start (file_trace f) → file_since f start → history (on_disk disk') f f' → disk ⊆ disk' →
  OpSync ∉ drop k (file_trace f) → on_disk disk' (replay start (take k (file_trace f'))).
Proof.
  intros Hs Hf Hh Hsub Hk. destruct (history_since _ _ _ _ Hh Hf) as (_&ops&->&Hops). rewrite take_app.
  destruct (decide (k ≤ length (file_trace f))%nat) as [Hle|Hgt].
  - replace (k - length (file_trace f))%nat with 0%nat by lia. rewrite take_0, app_nil_r. eapply on_disk_mono; [done|by apply Hs].
  - rewrite (take_ge (file_trace f)) by lia. apply Hops.
Qed.

Lemma survives_history disk disk' f f' start :
  survives disk start (file_trace f) → file_since f start → history (on_disk disk') f f' → disk ⊆ disk' →
  survives disk' start (file_trace f').
Proof.
  intros Hs Hf Hh Hsub k Hk. eapply crash_survives; [done..|]. intros Hin. apply Hk.
  destruct Hh as (ops&->&_). rewrite drop_app. apply elem_of_app. by left.
Qed.

(** After a sync only the content itself is left. *)
Lemma survives_synced disk f start :
  file_since f start → last (file_trace f) = Some OpSync → on_disk disk (file_content f) → survives disk start (file_trace f).
Proof.
  intros Hf Hl Hc k Hk. rewrite take_ge; [by rewrite <- Hf|]. destruct (decide (length (file_trace f) ≤ k)%nat) as [|Hlt]; [done|].
  exfalso. apply Hk. apply last_Some in Hl as [T ET]. rewrite ET, length_app in Hlt. cbn in Hlt.
  rewrite ET, drop_app_le by lia. apply elem_of_app. right. by apply list_elem_of_singleton.
Qed.

Lemma durable_handle db f sb entries batches :
  handle_on db f sb entries batches → compaction.durable (contents entries batches) (file_content f).
Proof. intros (_&Hi&_). exists sb, entries, batches, []. split; [done|]. split; [by left|done]. Qed.

End Disk.

(** Requests that leave the file alone. *)
Section Storage.
Context `{Crc32c, Xxh3, Alloc, HashTables, Placement, MmapAnon}.

Definition storage_kept {A} (x : M Database A) : Prop := ∀ db, db_storage (x db).2 = db_storage db.

Lemma storage_kept_bind {A B} (x : M Database A) (k : A → M Database B) :
  storage_kept x → (∀ a, storage_kept (k a)) → storage_kept (x ≫= k).
Proof.
  intros Hx Hk db. unfold mbind, M_bind. specialize (Hx db). destruct (x db) as [[a|e|] db1]; [|done..].
  rewrite <- Hx. apply Hk.
Qed.
Lemma storage_kept_lift {A} (r : result A) : storage_kept (lift r).
Proof. done. Qed.
Lemma storage_kept_ret {A} (a : A) : storage_kept (mret a).
Proof. done. Qed.
Lemma storage_kept_self : storage_kept database.self.
Proof. done. Qed.
Lemma storage_kept_modify g : (∀ db, db_storage (g db) = db_storage db) → storage_kept (modify g).
Proof. intros Hg db. apply Hg. Qed.
Lemma storage_kept_base {A} (x : M ActiveBase A) : storage_kept (database.on_base x).
Proof. intros db. unfold database.on_base, zoom. by destruct (x _). Qed.

End Storage.

Create HintDb storage_kept.
#[local] Hint Resolve storage_kept_lift storage_kept_ret storage_kept_self storage_kept_base : storage_kept.
Ltac storage_kept := repeat first
  [ apply storage_kept_bind; [|intros ?] | apply storage_kept_modify; done | case_match | solve [eauto with storage_kept] ].

Section Quiet.
Context `{Crc32c, Xxh3, Alloc, HashTables, Placement, MmapAnon}.

Definition quiet (q : request) : Prop := match q with WriteTx _ | Sync | Compact => False | _ => True end.

Lemma storage_kept_query q : storage_kept (query_handle q) ∧ storage_kept (query_transaction q).
Proof.
  split; destruct q; cbn [query_handle]; unfold query_transaction, read_transaction.new, read_transaction.contains_key,
    read_transaction.get, read_transaction.iter, read_transaction.len, read_transaction.is_empty, database.begin_read,
    database.contains_key, database.is_empty, database.get, database.view_get, database.iter, database.len, database.raw_len,
    database.ensure_available; storage_kept.
Qed.

Lemma on_handle_storage {A B} (x : M Database A) (k : A → M World B) w :
  storage_kept x → (∀ a w, db_storage (w_handle (k a w).2) = db_storage (w_handle w)) →
  db_storage (w_handle ((on_handle x ≫= k) w).2) = db_storage (w_handle w).
Proof.
  intros Hx Hk. specialize (Hx (w_handle w)). unfold mbind, M_bind, on_handle, zoom.
  destruct (x (w_handle w)) as [[a|e|] db1]; [by rewrite Hk|done..].
Qed.

Lemma exec_quiet q (w : World) : quiet q → db_storage (w_handle (exec q w).2) = db_storage (w_handle w).
Proof.
  intros Hq. destruct q as [q|q|ops| | | |i|i|i q|]; try done; cbn [exec].
  all: try (apply on_handle_storage; [|done]).
  - unfold on_handle, zoom. destruct (storage_kept_query q) as [Hk _]. specialize (Hk (w_handle w)). by destruct (query_handle q _).
  - unfold on_handle, zoom. destruct (storage_kept_query q) as [_ Hk]. specialize (Hk (w_handle w)). by destruct (query_transaction q _).
  - unfold database.verify, database.ensure_available. storage_kept.
  - unfold snapshot.take, database.ensure_available. storage_kept.
  - unfold mbind, M_bind, gets. destruct (w_snapshots w !! i) as [s|]; [|done].
    unfold on_handle, zoom. pose proof (storage_kept_base (active_base.with_verifier (query_snapshot s q)) (w_handle w)) as Hk.
    by destruct (database.on_base _ _).
Qed.

End Quiet.

Section Refinement.
Context `{Crc32cLaws, Xxh3Laws, Alloc, HashTablesLaws, Placement, MmapAnon}.
Implicit Types (f : File) (c start : bytes) (w : World) (sp : Spec) (disk : list dict).
Hypothesis Hpl : ∀ mapping, PlacementLaws mapping.
Hypothesis Hres : ∀ n, try_reserve n = true.
Hypothesis Hmaps : tx_facts.maps_succeed.
Hypothesis Hidx : recovery.reserve_succeeds.

(** A process, its file and the maps that file may hold after a crash. *)
Definition backed start w sp disk : Prop :=
  refines w sp ∧ (sp_state sp = Healthy → disk = [sp_map sp])
  ∧ ∃ f, db_storage (w_handle w) = SFile f ∧ file_since f start ∧ survives disk start (file_trace f).

Definition represented (s : machine) (l : life) : Prop :=
  match s, l with
  | Running start w, Up sp disk => backed start w sp disk
  | Off c, Down disk => on_disk disk c
  | _, _ => False
  end.

Lemma on_disk_one m c : compaction.durable m c → on_disk [m] c.
Proof. intros Hc. exists m. split; [by apply list_elem_of_singleton|done]. Qed.

(** The content of the file is one of the maps. *)
Lemma survives_now disk f start : file_since f start → survives disk start (file_trace f) → on_disk disk (file_content f).
Proof.
  intros Hf Hs. rewrite Hf. rewrite <- (firstn_all (file_trace f)). apply Hs. rewrite drop_all. apply not_elem_of_nil.
Qed.

(** What a request does to the file: on the way it is an image of a possible map, at the
    end whatever a crash can leave is one of the settled maps. *)
Definition tracked start w sp q disk : Prop :=
  ∀ f sp', db_storage (w_handle w) = SFile f → allowed sp q (exec q w).1 sp' → refines (exec q w).2 sp' →
  ∃ f', db_storage (w_handle (exec q w).2) = SFile f' ∧ history (on_disk (possible sp q disk)) f f'
    ∧ survives (settled sp q (exec q w).1 sp' disk) start (file_trace f').

Lemma possible_sub sp q disk : disk ⊆ possible sp q disk.
Proof. destruct q; cbn; try done. case_bool_decide; set_solver. Qed.

Lemma tracked_same start w sp q disk :
  backed start w sp disk → (∀ f, db_storage (w_handle w) = SFile f → ∃ f', db_storage (w_handle (exec q w).2) = SFile f'
    ∧ history (on_disk disk) f f') →
  (∀ sp', settled sp q (exec q w).1 sp' disk = disk) → tracked start w sp q disk.
Proof.
  intros (_&_&f0&Hf0&Hsi&Hsv) Hh Hse f sp' Hf _ _. rewrite Hf in Hf0. injection Hf0 as <-.
  destruct (Hh f Hf) as (f'&Hf'&Hhist). exists f'. split; [done|]. split.
  - eapply history_mono; [done|]. intros c. apply on_disk_mono, possible_sub.
  - rewrite Hse. by eapply survives_history.
Qed.

Lemma tracked_quiet start w sp q disk : backed start w sp disk → quiet q → tracked start w sp q disk.
Proof.
  intros Hb Hq. apply tracked_same; [done| |by destruct q]. intros f Hf. exists f.
  split; [by rewrite exec_quiet|]. apply history_refl. destruct Hb as (_&_&f0&Hf0&Hsi&Hsv).
  rewrite Hf in Hf0. injection Hf0 as <-. by eapply survives_now.
Qed.

Lemma tracked_sync start w sp disk : backed start w sp disk → tracked start w sp Sync disk.
Proof.
  intros Hb. apply tracked_same; [done| |done]. intros f Hf. pose proof Hb as (_&_&f0&Hf0&Hsi&Hsv).
  rewrite Hf in Hf0. injection Hf0 as <-. cbn [exec]. pose proof (survives_now _ _ _ Hsi Hsv) as Hnow.
  destruct (decide (db_state (w_handle w) = Unavailable)) as [Hun|Hav].
  - assert (Hx : database.sync (w_handle w) = (Err Poisoned, w_handle w)) by (by apply unavailable_run).
    exists f. rewrite (M_bind_err _ _ _ _ _ (exec_handle w _ _ _ Hx)). split; [done|]. by apply history_refl.
  - destruct (sync_any (on_disk disk) f (file_content f) (SFile f)) as (r&s'&Hr&(f'&->&_&Hh&_)&_).
    { exists f. split; [done|]. split; [done|]. split; [by apply history_refl|done]. }
    { done. }
    exists f'. split; [|done].
    assert (Hx : on_handle database.sync w = (r, MkWorld (database.set_storage (SFile f') (w_handle w)) (w_open w) (w_snapshots w))).
    { apply exec_handle. unfold database.sync. rewrite available_run by done. apply on_storage_run. by rewrite Hf. }
    unfold mbind, M_bind. rewrite Hx. by destruct r.
Qed.

Lemma tracked_compact start w sp disk :
  backed start w sp disk → ab_generation (db_base (w_handle w)) + 3 < U64 → tracked start w sp Compact disk.
Proof using All.
  intros Hb Hgen. apply tracked_same; [done| |done]. intros f Hf. pose proof Hb as ((Hst&_&Hmax&Hc)&Hd&f0&Hf0&Hsi&Hsv).
  rewrite Hf in Hf0. injection Hf0 as <-. cbn [exec].
  destruct (decide (db_state (w_handle w) = Healthy)) as [Hhl|Hhl].
  - rewrite Hst in Hd. specialize (Hd Hhl). subst disk. destruct Hc as [(Hun&_)|(_&entries&_&Hh&_)]; [congruence|].
    destruct (Hh Hhl) as (f1&sb&batches&Hon&Hm&Hw). pose proof Hon as (Hf1&_). rewrite Hf in Hf1. injection Hf1 as <-.
    destruct (compaction.compact_any (w_handle w) f sb entries batches Hon Hw) as (r&db'&c'&Hr&(f'&Hf'&_&Hh'&_)&_); [|done|done|].
    { by destruct Hon as (_&_&_&_&_&<-&_). }
    exists f'. split.
    + unfold mbind, M_bind. rewrite (exec_handle w _ _ _ Hr). by destruct r.
    + eapply history_mono; [exact Hh'|]. intros c Hdc. rewrite <- Hm. by apply on_disk_one.
  - assert (Hx : maintenance.compact (w_handle w) = (Err Poisoned, w_handle w)) by (unfold maintenance.compact; by rewrite closed_run).
    rewrite (M_bind_err _ _ _ _ _ (exec_handle w _ _ _ Hx)). exists f. split; [done|]. apply history_refl. by eapply survives_now.
Qed.

(** On the way to a record in the log the file holds the map with or without the batch. *)
Lemma grows_on_disk db f sb entries batches muts c :
  handle_on db f sb entries batches → recovery.batch_ok muts → blen (file_content f ++ log.encode_record muts) ≤ ISIZE_MAX →
  grows f (log.encode_record muts) c →
  on_disk [contents entries batches; apply_batch (contents entries batches) muts] c
  ∧ (c = file_content f ++ log.encode_record muts → compaction.durable (apply_batch (contents entries batches) muts) c).
Proof.
  intros Hh Hok Hl (p&Hp&->). pose proof Hh as (_&Hi&Hb&_). pose proof (holds_NoDup _ _ Hb) as Hnd.
  destruct (torn_image _ sb entries batches muts p Hi Hok Hp Hl) as (batches'&rest&Hi'&He&Hor&Hfull). split.
  - exists (contents entries batches'). split; [|by exists sb, entries, batches', rest].
    destruct Hor as [->| ->]; [|rewrite contents_snoc by done]; set_solver.
  - intros ->%app_inv_head. specialize (Hfull eq_refl). subst batches'. rewrite <- contents_snoc by done.
    by exists sb, entries, (batches ++ [muts]), rest.
Qed.

Lemma tracked_write start w sp ops disk :
  backed start w sp disk → Forall tx_facts.op_typed ops → tracked start w sp (WriteTx ops) disk.
Proof using All.
  intros ((Hst&_&Hmax&Hc)&Hd&f0&Hf0&Hsi&Hsv) Hops f sp' Hf Hal (Hst'&_). rewrite Hf in Hf0. injection Hf0 as <-.
  destruct (allowed_map _ _ _ _ Hal) as (Hmap&_&_). cbn [exec settled] in *.
  pose proof (survives_now _ _ _ Hsi Hsv) as Hnow.
  assert (Hstay : ∀ e f', (on_handle (transact ops) w) = (Err e, MkWorld (database.set_storage (SFile f') (w_handle w)) (w_open w) (w_snapshots w)) →
    history (on_disk disk) f f' → ∃ f'', db_storage (w_handle ((_ ← on_handle (transact ops); mret Unit) w).2) = SFile f''
      ∧ history (on_disk (possible sp (WriteTx ops) disk)) f f''
      ∧ survives (settled sp (WriteTx ops) ((_ ← on_handle (transact ops); mret Unit) w).1 sp' disk) start (file_trace f'')).
  { intros e f' Hx Hh. rewrite (M_bind_err _ _ _ _ _ Hx) in Hst' |- *. exists f'. split; [done|]. split.
    - eapply history_mono; [done|]. intros c. apply on_disk_mono, possible_sub.
    - cbn [fst settled]. rewrite bool_decide_true; [by eapply survives_history|]. by rewrite Hst', Hst. }
  destruct (transact_run Hpl Hres Hmaps ops (w_handle w) f Hf Hops) as [(e&Hx&_)|(Hhl&tx&Htx&Hx)].
  { apply (Hstay e f); [|by apply history_refl]. rewrite (exec_handle w _ _ _ Hx). by rewrite <- Hf, database_eta. }
  rewrite Hst in Hd. specialize (Hd Hhl). subst disk. destruct Hc as [(Hun&_)|(_&entries&_&Hh&_)]; [congruence|].
  destruct (Hh Hhl) as (f1&sb&batches&Hon&Hm&_). pose proof Hon as (Hf1&_). rewrite Hf in Hf1. injection Hf1 as <-.
  set (muts := tx_spec.steps ops) in *.
  assert (Hposs : possible sp (WriteTx ops) [sp_map sp] = [contents entries batches; apply_batch (contents entries batches) muts])
    by (cbn; rewrite bool_decide_true by congruence; by rewrite <- Hm).
  destruct (commit_any (w_handle w) f sb entries batches tx muts Hon Htx Hmax) as (r&db'&Hr&Ho). rewrite <- Hx in Hr.
  destruct Ho as [(->&Hmt&->)|[(->&_&Hok&Hne&Hlen&s'&ov&(->&(f'&->&Hfc&Hhist&_)&(?&[= <-]&Hsy)&_))|(e&->&_&Ho)]].
  - rewrite (M_bind_ok _ _ _ _ _ (exec_handle w _ _ _ Hr)) in Hmap |- *. exists f. split; [done|].
    split; [apply history_refl; eapply on_disk_mono; [apply possible_sub|done]|].
    cbn [fst settled mret M_ret] in *. by rewrite Hmap, Hmt.
  - rewrite (M_bind_ok _ _ _ _ _ (exec_handle w _ _ _ Hr)) in Hmap |- *. exists f'. split; [done|].
    split; [rewrite Hposs; eapply history_mono; [exact Hhist|]; intros c Hg; by eapply grows_on_disk|].
    cbn [fst settled mret M_ret] in *. apply survives_synced; [by eapply history_since|done|].
    apply on_disk_one. rewrite Hmap, <- Hm, Hfc. eapply (grows_on_disk _ f sb entries batches muts); [done..| |done].
    by exists (log.encode_record muts).
  - destruct Ho as [(s'&->&(f'&->&_&Hhist&_))|(Hok&Hne&Hlen&s'&p&->&_&(f'&->&_&Hhist&_))].
    + apply (Hstay e f'); [by apply exec_handle|]. eapply history_mono; [exact Hhist|].
      intros c (p&Hp&->). apply prefix_nil_inv in Hp as ->. by rewrite app_nil_r.
    + rewrite (M_bind_err _ _ _ _ _ (exec_handle w _ _ _ Hr)) in Hst' |- *. exists f'. split; [done|].
      assert (Hh2 : history (on_disk (possible sp (WriteTx ops) [sp_map sp])) f f').
      { rewrite Hposs. eapply history_mono; [exact Hhist|]. intros c Hg. by eapply grows_on_disk. }
      split; [done|]. cbn [fst settled]. rewrite bool_decide_false.
      * eapply survives_history; [exact Hsv|exact Hsi|exact Hh2|apply possible_sub].
      * rewrite Hst', Hst, Hhl. by cbn.
Qed.

Lemma request_lives start w sp disk q :
  backed start w sp disk → enabled w q →
  ∃ sp', allowed sp q (exec q w).1 sp' ∧ backed start (exec q w).2 sp' (settled sp q (exec q w).1 sp' disk)
    ∧ ∀ f f' k, db_storage (w_handle w) = SFile f → db_storage (w_handle (exec q w).2) = SFile f' →
        OpSync ∉ drop k (file_trace f) → on_disk (possible sp q disk) (replay start (take k (file_trace f'))).
Proof using All.
  intros Hb Hen. pose proof Hb as (Href&Hd&f&Hf&Hsi&Hsv).
  assert (Htr : tracked start w sp q disk).
  { destruct q; try by apply tracked_quiet.
    - by apply tracked_write, Hen.
    - by apply tracked_sync.
    - by apply tracked_compact, Hen. }
  destruct (request_refines Hpl Hres Hmaps w sp q Href Hen) as (sp'&Hal&Href').
  destruct (Htr f sp' Hf Hal Href') as (f'&Hf'&Hh&Hsv'). exists sp'. split; [done|]. split.
  - split; [done|]. split.
    + destruct (allowed_map _ _ _ _ Hal) as (Hmap&Hhl&_). intros Hhl'. specialize (Hd (Hhl Hhl')). subst disk.
      pose proof (allowed_not_panic _ _ _ _ Hal) as Hnp. generalize dependent (exec q w).1. intros a _ _ Hmap Hnp.
      destruct q; try (by rewrite Hmap). cbn [settled]. destruct a; [done| |done].
      rewrite bool_decide_true by (rewrite Hhl'; symmetry; by apply Hhl). by rewrite Hmap.
    + exists f'. split; [done|]. split; [by eapply history_since|done].
  - intros f1 f1' k Hf1 Hf1' Hk. rewrite Hf in Hf1. rewrite Hf' in Hf1'. injection Hf1 as <-. injection Hf1' as <-.
    exact (crash_survives disk (possible sp q disk) f f' start k Hsv Hsi Hh (possible_sub sp q disk) Hk).
Qed.

(** Opening an image: refused for its size, or recovered. *)
Lemma open_durable m c options :
  compaction.durable m c →
  let f := MkFile c 0 [] [] in
  (∃ e, database.open_with_options f options = (Err e, SFile f)
     ∧ (opt_max_database_bytes options < database.MIN_DATABASE_BYTES ∨ ∃ limit len, e = error.database_full limit len))
  ∨ ∃ db f' sb entries batches, database.open_with_options f options = (Ok db, SFile f')
      ∧ handle_on db f' sb entries batches ∧ contents entries batches = m ∧ db_state db = Healthy
      ∧ db_snapshots db = 0 ∧ db_options db = options ∧ history (compaction.durable m) f f'.
Proof using All.
  intros (sb&entries&batches&rest&Hi&He&Hm) f.
  destruct (decide (opt_max_database_bytes options < database.MIN_DATABASE_BYTES)) as [Hlt|Hge].
  { left. unfold database.open_with_options, database.validate_options. replace (_ <? database.MIN_DATABASE_BYTES) with true by lia.
    eexists. split; [done|by left]. }
  destruct (decide (opt_max_database_bytes options < blen c)) as [Hlt|Hfit].
  { left. unfold database.open_with_options, database.validate_options. replace (_ <? database.MIN_DATABASE_BYTES) with false by lia.
    cbn [fail_if]. rewrite (M_bind_ok _ _ _ _ _ (len_clean f eq_refl)). change (file_content f) with c.
    replace (_ <? blen c) with true by lia. eexists. split; [done|]. right. by eexists _, _. }
  right. destruct (open_clean f sb entries batches rest options) as (db&f'&Ho&Hh&_&Hst&Hop&Hsn&_&Hhist);
    [done|done|done|done|done|lia|change (file_content f) with c; lia|].
  exists db, f', sb, entries, batches. split_and!; try done. eapply history_mono; [exact Hhist|].
  intros c' [->| ->]; [by exists sb, entries, batches, rest|]. exists sb, entries, batches, [].
  split; [by eapply valid_part_holds|]. split; [by left|done].
Qed.

Lemma history_fresh R c f k :
  history R (MkFile c 0 [] []) f → R (replay c (take k (file_trace f))) ∧ file_since f c.
Proof. intros (ops&Ht&Hr&Hk). cbn in Ht. rewrite Ht. split; [by apply Hk|]. unfold file_since. by rewrite Ht. Qed.

Lemma step_lives s l e s' : represented s l → step s e s' → ∃ l', permitted l e l' ∧ represented s' l'.
Proof using All.
  intros Hrep Hstep. destruct Hstep as [start w q Hen|start w q f f' k Hen Hf Hf' Hk|start w f k Hf Hk
    |c options db f script Hmax Ho Hscr|c options e f Ho|c options r f k Ho]; destruct l as [sp disk|disk]; try done; cbn [represented] in Hrep.
  - destruct (request_lives start w sp disk q Hrep Hen) as (sp'&Hal&Hb&_). eexists. split; [by constructor|exact Hb].
  - destruct (request_lives start w sp disk q Hrep Hen) as (sp'&_&_&Hcr). eexists. split; [constructor|]. by eapply Hcr.
  - destruct Hrep as (_&_&f0&Hf0&_&Hsv). rewrite Hf in Hf0. injection Hf0 as <-. eexists. split; [constructor|]. by apply Hsv.
  - destruct Hrep as (m&Hm&Hd). destruct (open_durable m c options Hd) as [(e&He&_)|(db'&f'&sb&es&bs&Ho'&Hh&Hc&Hst&Hsn&Hop&Hhist)];
      [rewrite Ho in He; discriminate He|]. rewrite Ho in Ho'. injection Ho' as <- <-.
    exists (Up (MkSpec m Healthy ∅) [m]). split; [by constructor|].
    assert (Hh2 : handle_on (database.set_storage (SFile (with_script script f)) db) (with_script script f) sb es bs)
      by (destruct Hh as (_&Hi&Hrest); split; [done|]; split; [exact Hi|exact Hrest]).
    split; [|split; [done|]].
    + split; [done|]. split; [exact Hsn|]. split; [cbn; by rewrite Hop|]. right. split; [cbn; congruence|]. exists es.
      split; [cbn; rewrite <- Hc; by eapply handle_view|]. split; [|intros i; cbn; rewrite !lookup_empty; constructor].
      intros _. exists (with_script script f), sb, bs. split; [done|]. split; [done|]. exact Hscr.
    + exists (with_script script f). split; [done|]. destruct (history_fresh _ _ _ 0 Hhist) as [_ Hsi]. split; [exact Hsi|].
      intros k _. apply on_disk_one. by destruct (history_fresh _ _ _ k Hhist).
  - destruct Hrep as (m&Hm&Hd). destruct (open_durable m c options Hd) as [(e'&He&Hwhy)|(db'&f'&sb&es&bs&Ho'&_)];
      [|rewrite Ho in Ho'; discriminate Ho']. rewrite Ho in He. injection He as <- ->.
    exists (Down disk). split; [by constructor|]. by exists m.
  - destruct Hrep as (m&Hm&Hd). exists (Down disk). split; [constructor|]. exists m. split; [done|].
    destruct (open_durable m c options Hd) as [(e'&He&_)|(db'&f'&sb&es&bs&Ho'&_&_&_&_&_&Hhist)].
    + rewrite Ho in He. injection He as _ ->. cbn [file_trace]. by rewrite take_nil.
    + rewrite Ho in Ho'. injection Ho' as _ <-. by destruct (history_fresh _ _ _ k Hhist).
Qed.

Lemma lives_permitted s trace s' :
  lives s trace s' → ∀ l, represented s l → ∃ l', permits_life l trace l' ∧ represented s' l'.
Proof using All.
  induction 1 as [s|s trace s' e s'' _ IH Hstep]; intros l Hl; [exists l; split; [constructor|done]|].
  destruct (IH l Hl) as (l1&Hp&Hr1). destruct (step_lives s' l1 e s'' Hr1 Hstep) as (l2&Hp2&Hr2).
  exists l2. split; [by econstructor|done].
Qed.

End Refinement.

(** ** What the specification says about acknowledged transactions *)

(** The write transactions of a life that took effect: every acknowledged one, and some
    of those that failed or were cut off. *)
Inductive selects : list event → list (list tx_spec.op) → Prop :=
  | selects_nil : selects [] []
  | selects_acknowledged trace chosen ops a :
      selects trace chosen → selects (trace ++ [Request (WriteTx ops) (Ok a)]) (chosen ++ [ops])
  | selects_unanswered trace chosen ops e :
      (∃ err, e = Request (WriteTx ops) (Err err)) ∨ e = CrashIn (WriteTx ops) →
      selects trace chosen → selects (trace ++ [e]) (chosen ++ [ops])
  | selects_other trace chosen e :
      (∀ ops a, e ≠ Request (WriteTx ops) (Ok a)) → selects trace chosen → selects (trace ++ [e]) chosen.

Definition replayed : dict → list (list tx_spec.op) → dict := foldl (λ m ops, apply_batch m (tx_spec.steps ops)).

Lemma replayed_snoc m chosen ops : replayed m (chosen ++ [ops]) = apply_batch (replayed m chosen) (tx_spec.steps ops).
Proof. unfold replayed. by rewrite foldl_app. Qed.

Definition selected (m : dict) (trace : list event) (m' : dict) : Prop :=
  ∃ chosen, selects trace chosen ∧ m' = replayed m chosen.

Lemma selected_other m trace e m' :
  (∀ ops a, e ≠ Request (WriteTx ops) (Ok a)) → selected m trace m' → selected m (trace ++ [e]) m'.
Proof. intros He (chosen&Hs&->). exists chosen. split; [by constructor|done]. Qed.

Lemma selected_acknowledged m trace ops a m' :
  selected m trace m' → selected m (trace ++ [Request (WriteTx ops) (Ok a)]) (apply_batch m' (tx_spec.steps ops)).
Proof. intros (chosen&Hs&->). exists (chosen ++ [ops]). split; [by constructor|by rewrite replayed_snoc]. Qed.

Lemma selected_unanswered m trace ops e m' :
  (∃ err, e = Request (WriteTx ops) (Err err)) ∨ e = CrashIn (WriteTx ops) →
  selected m trace m' → selected m (trace ++ [e]) (apply_batch m' (tx_spec.steps ops)).
Proof. intros He (chosen&Hs&->). exists (chosen ++ [ops]). split; [by econstructor|by rewrite replayed_snoc]. Qed.

(** Every map the specification speaks of is made of selected transactions. *)
Definition accounted (m : dict) (trace : list event) (l : life) : Prop :=
  match l with
  | Up sp disk => selected m trace (sp_map sp) ∧ Forall (selected m trace) disk
  | Down disk => Forall (selected m trace) disk
  end.

Lemma accounted_possible m trace e sp disk q :
  (∀ ops a, e ≠ Request (WriteTx ops) (Ok a)) →
  (∀ ops, q = WriteTx ops → (∃ err, e = Request (WriteTx ops) (Err err)) ∨ e = CrashIn (WriteTx ops)) →
  accounted m trace (Up sp disk) → Forall (selected m (trace ++ [e])) (possible sp q disk).
Proof.
  intros He Hq [Hm Hd]. assert (Hd' : Forall (selected m (trace ++ [e])) disk)
    by (eapply Forall_impl; [exact Hd|]; intros; by apply selected_other).
  destruct q as [| |ops| | | | | | |]; try exact Hd'. cbn. case_bool_decide; [|done]. apply Forall_app_2; [done|].
  constructor; [|done]. apply selected_unanswered; [by apply Hq|done].
Qed.

Lemma permitted_accounted m trace l e l' :
  accounted m trace l → permitted l e l' → accounted m (trace ++ [e]) l'.
Proof.
  intros Ha Hp. destruct Hp as [sp disk q a sp' Hal|sp disk q|sp disk|disk options m' Hm|disk options e _|disk options].
  - destruct (allowed_map _ _ _ _ Hal) as (Hmap&_&_). pose proof (allowed_not_panic _ _ _ _ Hal) as Hnp. pose proof Ha as [Hm Hd].
    assert (Hw : (∃ ops, q = WriteTx ops) ∨ ¬ ∃ ops, q = WriteTx ops).
    { destruct q; solve [left; by eexists | right; by intros [? ?]]. }
    destruct Hw as [[ops ->]|Hq].
    + destruct a as [u|err|]; [| |done]; cbn [settled]; rewrite ?Hmap in *.
      * assert (Hs : selected m (trace ++ [Request (WriteTx ops) (Ok u)]) (apply_batch (sp_map sp) (tx_spec.steps ops)))
          by (by apply selected_acknowledged). split; [by rewrite Hmap|]. by constructor.
      * split; [rewrite Hmap; by apply selected_other|]. case_bool_decide; [|].
        -- eapply Forall_impl; [exact Hd|]. intros. by apply selected_other.
        -- apply accounted_possible; [done| |done]. intros ops' [= <-]. left. by eexists.
    + assert (He : ∀ ops b, Request q a ≠ Request (WriteTx ops) (Ok b)) by (intros ops b [= -> _]; apply Hq; by eexists).
      assert (Hd' : Forall (selected m (trace ++ [Request q a])) disk)
        by (eapply Forall_impl; [exact Hd|]; intros; by apply selected_other).
      destruct q as [| |ops| | | | | | |]; try (exfalso; apply Hq; by eexists).
      all: cbn in Hmap |- *; rewrite Hmap; split; [by apply selected_other|done].
  - cbn. apply accounted_possible; [done| |done]. intros ops ->. by right.
  - destruct Ha as [_ Hd]. eapply Forall_impl; [exact Hd|]. intros. by apply selected_other.
  - assert (Hs : selected m (trace ++ [Open options]) m').
    { apply selected_other; [done|]. cbn in Ha. rewrite Forall_forall in Ha. by apply Ha. }
    split; [done|]. by constructor.
  - eapply Forall_impl; [exact Ha|]. intros. by apply selected_other.
  - eapply Forall_impl; [exact Ha|]. intros. by apply selected_other.
Qed.

Lemma permits_accounted m trace l : permits_life (Down [m]) trace l → accounted m trace l.
Proof.
  remember (Down [m]) as l0 eqn:E. induction 1 as [l|l trace l' e l'' _ IH Hp]; subst.
  - cbn. constructor; [|done]. exists []. split; [constructor|done].
  - eapply permitted_accounted; [by apply IH|done].
Qed.

(** ** Properties *)

Section Properties.
Context `{Crc32cLaws, Xxh3Laws, Alloc, HashTablesLaws, Placement, MmapAnon}.

(** C2: a database refines its specification across crashes. Start with the file of a
    database and let it live: opened, served by any requests with any failing system
    calls, cut off between or within requests and within recoveries so that changes not
    yet synced are lost from some point on, and opened again. Every answer is one the
    specification allows, and every opening finds a map the disk may hold: that of the
    answered transactions, and after an unanswered one or a failure that closed the
    handle, that map or the one with the batch. *)
Theorem lifetime_refines m c trace s :
  compaction.durable m c → (∀ mapping, PlacementLaws mapping) → (∀ n, try_reserve n = true) → tx_facts.maps_succeed →
  recovery.reserve_succeeds → lives (Off c) trace s → ∃ l, permits_life (Down [m]) trace l.
Proof.
  intros Hd Hpl Hres Hmaps Hidx Hl.
  destruct (lives_permitted Hpl Hres Hmaps Hidx _ _ _ Hl (Down [m]) (on_disk_one m c Hd)) as (l&Hp&_). by exists l.
Qed.

(** C3: acknowledged transactions are durable. Through any life of a database file, what
    an open handle answers is the initial map with every acknowledged write transaction
    applied, in order, and perhaps some of those that failed or were cut off by a crash;
    never a part of one, and nothing else. *)
Theorem acknowledged_survives m c trace start w :
  compaction.durable m c → (∀ mapping, PlacementLaws mapping) → (∀ n, try_reserve n = true) → tx_facts.maps_succeed →
  recovery.reserve_succeeds → lives (Off c) trace (Running start w) → db_state (w_handle w) ≠ Unavailable →
  ∃ chosen, selects trace chosen ∧ ∀ key, fst (database.get key (w_handle w)) = Ok (replayed m chosen !! key).
Proof.
  intros Hd Hpl Hres Hmaps Hidx Hl Hav.
  destruct (lives_permitted Hpl Hres Hmaps Hidx _ _ _ Hl (Down [m]) (on_disk_one m c Hd)) as (l&Hp&Hr).
  pose proof (permits_accounted _ _ _ Hp) as Ha. destruct l as [sp disk|disk]; [|done].
  destruct Ha as [(chosen&Hs&Hm) _]. exists chosen. split; [done|]. intros key.
  destruct Hr as ((_&_&_&[(Hun&_)|(_&entries&Hv&_)])&_); [done|].
  destruct (get_view (w_handle w) entries (sp_map sp) key Hv Hav) as (b'&->&_). by rewrite <- Hm.
Qed.

End Properties.

(** *** A concrete life *)

Import RefInstances.
#[local] Instance demo_placement : Placement :=
  {| base_addr := 65536; place kv := (view.MkSlice 1 kv.1, view.MkSlice 2 kv.2) |}.
#[local] Instance demo_maps : MmapAnon := {| map_anon _ := Ok (); make_read_only _ := Ok () |}.

Lemma demo_maps_succeed : tx_facts.maps_succeed.
Proof. intros n. split; reflexivity. Qed.

(** A new file, opened and written to by a process whose first system call after opening
    fails, cut off, and opened again. *)
Definition demo_events (a : result reply) : list event :=
  [Open demo_options; Request (WriteTx tx_facts.demo_ops) a; PowerOff; Open demo_options].

Lemma demo_life : ∃ c a start w, compaction.durable ∅ c ∧ lives (Off c) (demo_events a) (Running start w)
  ∧ db_state (w_handle w) = Healthy.
Proof.
  destruct demo_image as (f0&sb0&_&Hi&_). set (c := file_content f0).
  assert (Hd : compaction.durable ∅ c) by (exists sb0, [], [], []; split; [exact Hi|]; split; [by left|done]).
  assert (Hopen : ∀ m c, compaction.durable m c → blen c ≤ ISIZE_MAX →
    ∃ db f, database.open_with_options (MkFile c 0 [] []) demo_options = (Ok db, SFile f) ∧ db_state db = Healthy).
  { intros m c1 (sb&es&bs&rest&Hi1&He&_) Hl. destruct (open_clean (MkFile c1 0 [] []) sb es bs rest demo_options)
      as (db&f&Ho&_&_&Hst&_); [done|done|done|exact recovery.ref_reserve_succeeds|done|vm_compute; discriminate|exact Hl|].
    by exists db, f. }
  assert (Hlen : ∀ m c, compaction.durable m c → blen c ≤ ISIZE_MAX) by (by intros ? ? (?&?&?&?&(_&_&_&_&_&_&_&?)&_)).
  destruct (Hopen ∅ c Hd (Hlen _ _ Hd)) as (db&f&Ho&_).
  set (w0 := MkWorld (database.set_storage (SFile (with_script [Fault (IoError OtherKind "interrupted")] f)) db) true ∅).
  assert (H1 : lives (Off c) [Open demo_options] (Running c w0)).
  { apply (lives_snoc _ [] (Off c)); [constructor|]. constructor; [apply Z.le_refl|exact Ho|]. intros n Hn. set_solver. }
  set (q := WriteTx tx_facts.demo_ops). set (a := (exec q w0).1). set (w1 := (exec q w0).2).
  assert (H2 : lives (Off c) [Open demo_options; Request q a] (Running c w1)).
  { apply (lives_snoc _ [Open demo_options] (Running c w0)); [exact H1|]. constructor. split; [done|].
    repeat constructor. cbn. lia. }
  destruct (lives_permitted entries_facts.demo_placement_laws (λ _, eq_refl) demo_maps_succeed recovery.ref_reserve_succeeds
    _ _ _ H2 (Down [∅]) (on_disk_one _ _ Hd)) as ([sp disk|]&_&Hr); [|done].
  destruct Hr as (_&_&f1&Hf1&Hsi&Hsv). destruct (survives_now _ _ _ Hsi Hsv) as (m2&_&Hd2).
  assert (H3 : lives (Off c) [Open demo_options; Request q a; PowerOff] (Off (file_content f1))).
  { apply (lives_snoc _ [Open demo_options; Request q a] (Running c w1)); [exact H2|]. rewrite Hsi, <- (firstn_all (file_trace f1)).
    apply step_off; [exact Hf1|]. rewrite drop_all. apply not_elem_of_nil. }
  destruct (Hopen m2 (file_content f1) Hd2 (Hlen _ _ Hd2)) as (db2&f2&Ho2&Hst2).
  exists c, a, (file_content f1), (MkWorld (database.set_storage (SFile (with_script [] f2)) db2) true ∅).
  split; [exact Hd|]. split; [|exact Hst2].
  apply (lives_snoc _ [Open demo_options; Request q a; PowerOff] (Off (file_content f1))); [exact H3|].
  constructor; [apply Z.le_refl|exact Ho2|]. intros n Hn. set_solver.
Qed.

Lemma lifetime_refines_witness : ∃ a l, permits_life (Down [∅]) (demo_events a) l.
Proof.
  destruct demo_life as (c&a&start&w&Hd&Hl&_).
  destruct (lifetime_refines ∅ c (demo_events a) (Running start w) Hd entries_facts.demo_placement_laws (λ _, eq_refl)
    demo_maps_succeed recovery.ref_reserve_succeeds Hl) as (l&Hp). exists a, l. exact Hp.
Defined.

(** The key [b] is there if the transaction was acknowledged or made it to the disk. *)
Lemma acknowledged_survives_witness :
  ∃ a (w : World) chosen, selects (demo_events a) chosen
    ∧ fst (database.get [Byte.x62] (w_handle w)) = Ok (replayed ∅ chosen !! [Byte.x62]).
Proof.
  destruct demo_life as (c&a&start&w&Hd&Hl&Hst).
  destruct (acknowledged_survives ∅ c (demo_events a) start w Hd entries_facts.demo_placement_laws (λ _, eq_refl)
    demo_maps_succeed recovery.ref_reserve_succeeds Hl) as (chosen&Hs&Hg); [rewrite Hst; discriminate|].
  exists a, w, chosen. split; [exact Hs|apply Hg].
Defined.

End lifetime.
