(* ===== verification/Untrusted.v ===== *)
(** * Files from anywhere

    A file that was not written by this library, was damaged or was made to do harm:
    whatever its bytes and whichever system calls fail, opening it ends in a handle or an
    error, and a handle answers every read, every verification and every read of its
    snapshots with a value or an error. Nothing panics, no loop runs out of its bound,
    and the unchecked reads of records ([trusted_record_at]) happen only in a Base whose
    records were validated. *)

From S2P Require Import Prelude Errors Crates Io Superblock Values Log Segment Overlay Recovery View.
From S2P Require Import Base Storage Transaction Entries Database Faults Commit Reopen Handle Integrity Iteration Maintenance Overwrite Compaction Snapshot Session.
Import view overlay_map_facts handle.

Module untrusted.

(** ** Computations that keep an invariant and do not panic *)

Section Triples.
Context {S : Type} (I : S → Prop).

Definition sane {A} (x : M S A) (Q : A → Prop) : Prop :=
  ∀ s, I s → ∃ r s', x s = (r, s') ∧ I s' ∧ safe r Q.

Lemma sane_lift {A} (r : result A) Q : safe r Q → sane (lift r) Q.
Proof. intros Hr s Hs. by exists r, s. Qed.
Lemma sane_ret {A} (a : A) (Q : A → Prop) : Q a → sane (mret a) Q.
Proof. intros Ha. by apply (sane_lift (Ok a)). Qed.
Lemma sane_gets {A} (f : S → A) (Q : A → Prop) : (∀ s, I s → Q (f s)) → sane (gets f) Q.
Proof. intros Hf s Hs. exists (Ok (f s)), s. split; [done|]. split; [done|]. by apply Hf. Qed.

Lemma sane_bind {A B} (x : M S A) (k : A → M S B) P Q :
  sane x P → (∀ a, P a → sane (k a) Q) → sane (x ≫= k) Q.
Proof.
  intros Hx Hk s Hs. destruct (Hx s Hs) as (r&s1&Hr&Hs1&Ha). destruct r as [a|e|]; [| |done].
  - destruct (Hk a Ha s1 Hs1) as (r&s2&?&?&?). exists r, s2. rewrite (M_bind_ok _ _ _ _ _ Hr). done.
  - exists (Err e), s1. by rewrite (M_bind_err _ _ _ _ _ Hr).
Qed.

Lemma sane_mono {A} (x : M S A) (P Q : A → Prop) : sane x P → (∀ a, P a → Q a) → sane x Q.
Proof.
  intros Hx HQ s Hs. destruct (Hx s Hs) as (r&s1&Hr&Hs1&Ha). exists r, s1. split_and!; [done|done|].
  destruct r; [by apply HQ|done|done].
Qed.

Lemma sane_then {A B} (x : M S A) (f : A → B) : sane x (λ _, True) → sane (a ← x; mret (f a)) (λ _, True).
Proof. intros Hx. eapply sane_bind; [exact Hx|]. intros a _. by apply sane_ret. Qed.

End Triples.

(** ** Reads of a mapped segment *)

Section Segment.
Context `{Crc32cLaws, Xxh3Laws, Alloc, HashTablesLaws, Placement}.
Implicit Types (v : SegmentVerifier) (r : RawEntries).
Context (bs : bytes) (layout : segment.SegmentLayout) (offset slots len : Z).

Abbreviation data := (segment.layout_data layout).

(** The sizes of a segment agree. *)
Definition fits : Prop :=
  segment.segment_layout bs = Ok layout ∧ (slots = 0 ∨ segment.pow2 slots)
  ∧ BASE_HEADER + slots * segment.SLOT_SIZE ≤ blen data ∧ 0 ≤ offset ∧ offset + blen bs ≤ ISIZE_MAX.

(** Its verifier: consistent, and marked only when the records were validated. *)
Definition guarded v : Prop :=
  verifier.verifier_inv bs v ∧ v_data_size v = blen data
  ∧ (v_semantically_verified v = true → segment.validate_base data offset slots len = Ok ()).

Hypothesis Hfits : fits.

Lemma data_prefix : ∃ rest, bs = data ++ rest.
Proof using Hfits.
  destruct Hfits as (Hlay&_&_&?&?). pose proof (active_base.layout_of_safe bs layout Hlay ltac:(lia)) as ((footer&->)&_).
  by eexists.
Qed.

(** Only the verifier of the same segment is left behind, with its mark as it was. *)
Definition unmarked {A} (x : M SegmentVerifier A) : Prop :=
  ∀ v, v_semantically_verified (x v).2 = v_semantically_verified v.

Lemma unmarked_bind {A B} (x : M SegmentVerifier A) (k : A → M SegmentVerifier B) :
  unmarked x → (∀ a, unmarked (k a)) → unmarked (x ≫= k).
Proof.
  intros Hx Hk v. specialize (Hx v). unfold mbind, M_bind. destruct (x v) as [[a|e|] v1]; cbn in Hx |- *; [|done..].
  by rewrite Hk.
Qed.

Lemma probe_unmarked count vor key h p : unmarked (probe_loop count bs vor offset slots key h p).
Proof.
  assert (Hmv : ∀ a b, unmarked (if vor then verifier.verify_range bs a b else mret ())).
  { intros a b v. destruct vor; [apply active_base.verify_range_flag|done]. }
  revert p. induction count as [|count IH]; intros p; [by intros v|]. cbn [probe_loop].
  apply unmarked_bind; [apply Hmv|]. intros _. apply unmarked_bind; [by intros v|]. intros f.
  apply unmarked_bind; [by intros v|]. intros o. destruct (o =? 0); [by intros v|]. destruct (_ =? _); [|apply IH].
  apply unmarked_bind; [by intros v|]. intros ds. apply unmarked_bind; [by intros v|]. intros [[[[? ?] ?] ?]|]; [|by intros v].
  apply unmarked_bind; [apply Hmv|]. intros _. destruct (_ && _); [by intros v|apply IH].
Qed.

Lemma lookup_sane mode key h : sane guarded (lookup_segment bs mode offset slots key h) (λ _, True).
Proof using All.
  intros v (Hinv&Hds&Hsem). destruct Hfits as (_&Hp&Hfit&_). rewrite <- Hds in Hfit.
  destruct (lookup_segment_safe bs mode offset slots key h v Hinv Hp Hfit) as (r&v'&Hr&Hinv'&(Ed&_)&Hnp&_).
  exists r, v'. split; [done|]. split; [|by destruct r].
  split; [done|]. split; [congruence|]. intros Hs. apply Hsem. rewrite <- Hs. symmetry.
  assert (Hu : unmarked (lookup_segment bs mode offset slots key h)).
  { unfold lookup_segment. destruct (_ =? _); [by intros w|]. apply unmarked_bind; [by intros w|]. intros b. apply probe_unmarked. }
  specialize (Hu v). by rewrite Hr in Hu.
Qed.

Lemma verify_range_sane a b : 0 ≤ a → sane guarded (verifier.verify_range bs a b) (λ _, True).
Proof.
  intros Ha v (Hinv&Hds&Hsem). destruct (verifier.verify_range_spec bs v a b Hinv Ha) as (r&v'&Hr&Hinv'&(Ed&_)&Ho).
  pose proof (active_base.verify_range_flag bs a b v) as Hf. rewrite Hr in Hf. cbn in Hf.
  exists r, v'. split; [done|]. split; [|by destruct r]. split; [done|]. split; [congruence|]. rewrite Hf. done.
Qed.

(** A view of the segment under an Overlay that can be read. *)
Definition viewed (rv : ReadView) : Prop :=
  rv_base rv = MkBaseView bs offset slots ∧ ∃ lg M, represents lg (rv_overlay rv) M.

Lemma get_sane rv key : viewed rv → sane guarded (view.get rv key) (λ _, True).
Proof using All.
  intros (Hb&lg&M&Hr). unfold view.get. rewrite (get_hashed_spec lg _ M key Hr), Hb.
  eapply sane_bind; [by apply (sane_lift _ (Ok _) (λ _, True))|]. intros [o|] _; [by apply sane_ret|].
  cbn [bv_mapping bv_offset bv_slots]. apply lookup_sane.
Qed.

(** *** Iteration *)

(** An iterator inside the data. A trusted one has records to come that were validated. *)
Definition inside r : Prop :=
  viewed (re_view r) ∧ 0 ≤ re_base_offset r ≤ blen data
  ∧ (re_base_trusted r = true →
       ∃ records keys x, segment.validate_records (Z.to_nat (re_base_remaining r)) data offset (re_base_offset r) records keys = Ok x).

(** The items an iterator can still yield, an error at the end apart. *)
Definition todo r : nat := Z.to_nat (re_base_remaining r) + length (re_overlay r).

(** The unchecked read of a record that was validated. *)
Lemma trusted_record n o records keys x :
  0 ≤ o ≤ blen data → segment.validate_records (S n) data offset o records keys = Ok x →
  ∃ k w e records' keys', segment.trusted_record_at bs o = Ok (k, w, e) ∧ o ≤ e ≤ blen data
    ∧ segment.validate_records n data offset e records' keys' = Ok x.
Proof using Hfits.
  intros Ho Hv. pose proof data_prefix as [rest Hbs]. destruct Hfits as (_&_&_&?&Hb).
  assert (Hbl : blen bs = blen data + blen rest) by (by rewrite Hbs at 1; rewrite blen_app). pose proof (blen_nonneg rest).
  cbn [segment.validate_records] in Hv. apply bind_Ok in Hv as (he&[-> _]%ok_or_Ok%checked_add_Some&Hv).
  apply bind_Ok in Hv as ([]&Hhe%fail_if_Ok&Hv). bool_prop.
  assert (Hu : ∀ a, 0 ≤ a → a + 4 ≤ blen data → ∃ n, format.u32_at data a = Ok n ∧ format.u32_at bs a = Ok n ∧ 0 ≤ n < U32).
  { intros a ??. destruct (format.u32_at_in_bounds data a) as (m&Hm&Hmr); [lia..|]. exists m. split; [done|]. split; [|done].
    rewrite <- Hm. unfold format.u32_at. rewrite add_ovf_ok by lia. rstep. unfold index_range. by rewrite Hbs, get_range_app_l by lia. }
  destruct (Hu o) as (kl&E1&F1&?); [lia..|]. destruct (Hu (o + 4)) as (vl&E2&F2&?); [lia..|]. rewrite E1, E2 in Hv. cbn [mbind result_bind] in Hv.
  apply bind_Ok in Hv as (vs&[-> _]%ok_or_Ok%checked_add_Some&Hv). apply bind_Ok in Hv as (e&[-> _]%ok_or_Ok%checked_add_Some&Hv).
  apply bind_Ok in Hv as ([]&He%fail_if_Ok&Hv). bool_prop.
  apply bind_Ok in Hv as (k&_&Hv). apply bind_Ok in Hv as ([]&_&Hv). apply bind_Ok in Hv as (ab&_&Hv).
  unfold segment.trusted_record_at. rewrite F1. rstep. rewrite !add_ovf_ok by lia. rstep. rewrite F2. rstep.
  repeat (rewrite !add_ovf_ok by lia; rstep).
  unfold index_range. rewrite !get_range_in_bounds by lia. cbn [unwrap]. rstep.
  do 5 eexists. split; [done|]. split; [lia|]. exact Hv.
Qed.

Lemma record_safe r :
  inside r → 0 < re_base_remaining r →
  safe (raw_entries.record r (blen data) (re_base_offset r))
    (λ '(_, _, e), inside (raw_entries.set_base e (re_base_remaining r - 1) r)).
Proof using Hfits.
  intros (Hv&Ho&Ht) Hrem. pose proof Hv as [Hb _]. unfold raw_entries.record. rewrite Hb. cbn [bv_mapping].
  destruct (re_base_trusted r) eqn:Etr.
  - destruct (Ht eq_refl) as (records&keys&x&Hx). replace (Z.to_nat (re_base_remaining r)) with (S (Z.to_nat (re_base_remaining r - 1))) in Hx by lia.
    destruct (trusted_record _ _ _ _ _ Ho Hx) as (k&w&e&records'&keys'&->&He&Hx'). split; [done|]. split; [cbn; lia|]. intros _. eauto.
  - eapply safe_mono; [apply segment.record_at_safe; [lia|destruct Hfits as (_&_&_&?&?); lia]|]. intros [[k w] e] (_&_&->&He). pose proof (blen_nonneg k). pose proof (blen_nonneg w). split; [done|]. split; [cbn; lia|]. cbn. by rewrite Etr.
Qed.

(** The loop over the Base ends, with a record, an error or at the end of the records. *)
Lemma next_base_any fuel r :
  inside r → (Z.to_nat (re_base_remaining r) ≤ fuel)%nat →
  ∃ a r', raw_entries.next_base fuel (blen data) r = (Ok a, r') ∧ inside r' ∧ re_overlay r' = re_overlay r
    ∧ (Z.to_nat (re_base_remaining r') ≤ Z.to_nat (re_base_remaining r))%nat
    ∧ match a with
      | Some (Some _) => (todo r' < todo r)%nat ∧ re_finished r' = re_finished r
      | Some None => re_finished r' = true
      | None => re_finished r' = re_finished r
      end.
Proof using All.
  revert r. induction fuel as [|fuel IH]; intros r Hin Hf; cbn [raw_entries.next_base];
    rewrite (M_bind_ok (gets _) _ r r r eq_refl); destruct (_ <=? 0) eqn:E; bool_prop; [by exists None, r|lia|by exists None, r|].
  pose proof (record_safe r Hin ltac:(lia)) as Hrec. cbv zeta.
  destruct (raw_entries.record r _ _) as [[[k w] e]|e|]; [| |done].
  2:{ eexists (Some None), _. split; [done|]. destruct Hin as (?&?&?). by split_and!. }
  set (r1 := raw_entries.set_base e (re_base_remaining r - 1) r) in *.
  rewrite (M_bind_ok (modify (raw_entries.set_base e (re_base_remaining r - 1))) _ r () r1 eq_refl).
  destruct Hin as ((_&lg&M&Hr)&_). unfold OverlayMap.contains_key, OverlayMap.get. rewrite (get_hashed_spec lg _ M k Hr). rstep. rewrite M_lift_ok.
  assert (Hless : (Z.to_nat (re_base_remaining r1) < Z.to_nat (re_base_remaining r))%nat) by (cbn; lia).
  destruct (bool_decide _).
  - destruct (IH r1 Hrec) as (a&r'&Hn&Hin'&Hov&Hle&Ha); [lia|]. exists a, r'. split; [done|]. split; [done|]. split; [done|].
    split; [lia|]. destruct a as [[a|]|]; [|done..]. destruct Ha as [Ha ?]. split; [|done]. unfold todo in *. cbn in *. lia.
  - eexists (Some (Some _)), r1. split; [done|]. split; [done|]. split; [done|]. split; [lia|]. split; [|done]. unfold todo. cbn in *. lia.
Qed.

Lemma next_any r :
  inside r →
  ∃ a r', raw_entries.next (blen data) r = (Ok a, r') ∧ inside r' ∧ (todo r' ≤ todo r)%nat
    ∧ match a with
      | Some _ => (todo r' < todo r)%nat ∧ re_finished r = false ∧ re_finished r' = false
      | None => re_finished r' = true ∧ (re_finished r = true → r' = r)
      end.
Proof using All.
  intros Hin. unfold raw_entries.next. rewrite (M_bind_ok (gets _) _ r r r eq_refl).
  destruct (re_finished r) eqn:Efin; [exists None, r; by split_and!|].
  destruct (next_base_any (Z.to_nat (re_base_remaining r)) r Hin ltac:(lia)) as (a&r1&Hn&Hin1&Hov&Hle&Ha).
  rewrite (M_bind_ok _ _ _ _ _ Hn). assert (Hto : (todo r1 ≤ todo r)%nat) by (unfold todo; rewrite Hov; lia).
  destruct a as [[a|]|].
  - destruct Ha as [Hlt Hfin]. exists (Some a), r1. split_and!; try done. congruence.
  - exists None, r1. by split_and!.
  - rewrite (M_bind_ok (gets _) _ r1 r1 r1 eq_refl). destruct (negb _).
    { eexists None, _. split; [done|]. split; [exact Hin1|]. by split_and!. }
    pose proof (entries_facts.next_put_spec (re_overlay r1)) as Hp. destruct (raw_entries.next_put (re_overlay r1)) as [[kv|] rest].
    + destruct Hp as [_ Hp]. rewrite (M_bind_ok (modify _) _ _ _ _ eq_refl). eexists (Some _), _. split; [done|]. split; [exact Hin1|].
      unfold todo in *. cbn. split; [lia|]. split; [lia|]. split; [done|congruence].
    + destruct Hp as [_ ->]. rewrite (M_bind_ok (modify _) _ _ _ _ eq_refl). eexists None, _. split; [done|]. split; [exact Hin1|].
      unfold todo in *. cbn. split; [lia|done].
Qed.

(** [Entries::next]: the pair it yields is one less to come, or the error was the last item. *)
Definition left r : nat :=
  todo r + match re_pending_error r with None => if re_finished r then 0 else 1 | Some _ => 1 end.

Definition iterating (s : RawEntries * SegmentVerifier) : Prop := inside s.1 ∧ guarded s.2.

Lemma verify_pair_sane rv key value : viewed rv → sane guarded (verify_pair rv base_addr key value) (λ _, True).
Proof using All.
  intros [Hb _]. unfold verify_pair. destruct (negb _); [by apply sane_ret|]. rewrite Hb. cbn [bv_mapping].
  destruct (pair_range _ key value) as [[a b]|] eqn:E; [|by apply sane_ret].
  apply verify_range_sane. unfold pair_range in E. destruct (_ && _ && _) eqn:Ec; [|done]. bool_prop. injection E as <- <-.
  cbn [slice_addr] in *. lia.
Qed.

Lemma entries_next_any r v :
  inside r → guarded v →
  ∃ a r' v', raw_entries.entries_next (r, v) = (Ok a, (r', v')) ∧ inside r' ∧ guarded v'
    ∧ match a with
      | Some (Ok _) => (todo r' < todo r)%nat ∧ (left r' < left r)%nat
      | Some (Err _) => (left r' < left r)%nat
      | Some Panic => False
      | None => True
      end.
Proof using All.
  intros Hin Hg. pose proof Hg as (_&Hds&_). unfold raw_entries.entries_next. rewrite Hds.
  destruct (next_any r Hin) as (a&r1&->&Hin1&Hle&Ha). destruct a as [[key value]|].
  - destruct Ha as (Hlt&Hf&Hf1). pose proof Hin1 as (Hv&_).
    destruct (verify_pair_sane (re_view r1) key value Hv v Hg) as (res&v1&->&Hg1&Hs).
    assert (Hl : (left r1 < left r)%nat) by (unfold left; rewrite Hf, Hf1; destruct (re_pending_error r), (re_pending_error r1); lia).
    destruct res as [[]|e|]; [by eexists (Some (Ok _)), r1, v1|by eexists (Some (Err _)), r1, v1|done].
  - destruct Ha as [Hf1 Hsame]. unfold raw_entries.take_error. rewrite (M_bind_ok (gets _) _ r1 r1 r1 eq_refl).
    rewrite (M_bind_ok (modify _) _ _ _ _ eq_refl). unfold mret, M_ret. set (r2 := MkRaw _ _ _ _ _ _ _).
    assert (Hin2 : inside r2) by exact Hin1.
    destruct (re_pending_error r1) as [e|] eqn:Ep; [|by exists None, r2, v]. exists (Some (Err e)), r2, v. split_and!; try done.
    unfold left. cbn [r2 re_pending_error re_finished]. rewrite Hf1. change (todo r2) with (todo r1).
    destruct (re_finished r) eqn:Ef; [|destruct (re_pending_error r); lia]. rewrite <- (Hsame eq_refl), Ep. lia.
Qed.

(** *** Consumers of the iterators *)

Lemma drain_any fuel r :
  inside r → (todo r < fuel)%nat → ∃ l r', raw_entries.drain fuel (blen data) r = (Ok l, r') ∧ inside r'.
Proof using All.
  revert r. induction fuel as [|fuel IH]; intros r Hin Hf; [lia|]. cbn [raw_entries.drain].
  destruct (next_any r Hin) as (a&r1&Hn&Hin1&_&Ha). rewrite (M_bind_ok _ _ _ _ _ Hn). destruct a as [[k w]|]; [|by exists [], r1].
  destruct Ha as [Hlt _]. destruct (IH r1 Hin1) as (l&r2&Hr&Hin2); [lia|]. rewrite (M_bind_ok _ _ _ _ _ Hr). by eexists _, r2.
Qed.

Lemma count_safe r : inside r → safe (raw_entries.count (blen data) r).1 (λ _, True).
Proof using All.
  intros Hin. unfold raw_entries.count.
  destruct (drain_any (raw_entries.budget r) r Hin) as (l&r1&Hr&_); [unfold raw_entries.budget, todo; lia|].
  rewrite (M_bind_ok (raw_entries.collect (blen data)) _ r l r1 Hr). unfold raw_entries.take_error. rewrite M_bind_assoc, (M_bind_ok (gets _) _ r1 r1 r1 eq_refl).
  rewrite M_bind_assoc, (M_bind_ok (modify _) _ _ _ _ eq_refl), (M_bind_ok (mret _) _ _ _ _ eq_refl). by destruct (re_pending_error r1).
Qed.

Lemma try_collect_any fuel r v :
  inside r → guarded v → (todo r < fuel)%nat →
  ∃ a r' v', raw_entries.try_collect fuel (r, v) = (a, (r', v')) ∧ guarded v' ∧ a ≠ Panic.
Proof using All.
  revert r v. induction fuel as [|fuel IH]; intros r v Hin Hg Hf; [lia|]. cbn [raw_entries.try_collect].
  destruct (entries_next_any r v Hin Hg) as (a&r1&v1&Hn&Hin1&Hg1&Ha). rewrite (M_bind_ok _ _ _ _ _ Hn).
  destruct a as [[kv|e|]|]; [|by eexists (Err e), r1, v1|done|by exists (Ok []), r1, v1].
  destruct Ha as [Hlt _]. rewrite M_lift_ok. destruct (IH r1 v1 Hin1 Hg1) as (a&r2&v2&Hr&Hg2&Hnp); [lia|].
  destruct a as [l|e|]; [| |done].
  - rewrite (M_bind_ok _ _ _ _ _ Hr). by eexists (Ok _), r2, v2.
  - rewrite (M_bind_err _ _ _ _ _ Hr). by exists (Err e), r2, v2.
Qed.

Lemma fold_len_any fuel n r v :
  inside r → guarded v → (todo r < fuel)%nat →
  ∃ a r' v', snapshot.fold_len fuel n (r, v) = (a, (r', v')) ∧ guarded v' ∧ a ≠ Panic.
Proof using All.
  revert n r v. induction fuel as [|fuel IH]; intros n r v Hin Hg Hf; [lia|]. cbn [snapshot.fold_len].
  destruct (entries_next_any r v Hin Hg) as (a&r1&v1&Hn&Hin1&Hg1&Ha). rewrite (M_bind_ok _ _ _ _ _ Hn).
  destruct a as [[kv|e|]|]; [|by eexists (Err e), r1, v1|done|by exists (Ok n), r1, v1].
  destruct Ha as [Hlt _]. rewrite M_lift_ok. destruct (checked_add n 1) as [n'|]; [|by eexists (Err _), r1, v1].
  cbn [ok_or]. rewrite M_lift_ok. apply IH; [done|done|lia].
Qed.

(** An iterator of the segment, taken from a verifier. *)
Lemma new_inside rv v :
  viewed rv → guarded v → safe (raw_entries.new rv v len) inside.
Proof using All.
  intros Hv (_&_&Hsem). pose proof Hv as (Hb&lg&M&Hr). unfold raw_entries.new.
  destruct (iter_spec lg _ M Hr) as (ms&->&_). rstep. cbn [safe]. rewrite Hb. cbn [bv_slots].
  pose proof Hfits as (_&Hp&Hfit&_). assert (0 ≤ slots) by (destruct Hp as [->|Hp]; [done|apply segment.pow2_pos in Hp; lia]).
  split; [done|]. split; [unfold BASE_HEADER, segment.SLOT_SIZE in *; cbn; lia|]. cbn [re_base_trusted re_base_remaining re_base_offset].
  intros Ht. specialize (Hsem Ht). unfold segment.validate_base in Hsem.
  apply bind_Ok in Hsem as (start&[-> _]%segment.records_start_inv&Hsem). do 3 apply bind_Ok in Hsem as (?&_&Hsem).
  apply bind_Ok in Hsem as ([o records]&Hx&_). by eexists _, _, _.
Qed.

(** ** Snapshots of the segment *)

Definition shot (s : Snapshot) : Prop :=
  BaseBytes.deref (sn_base s) = Ok bs ∧ sn_base_offset s = offset ∧ sn_base_slots s = slots ∧ sn_base_len s = len
  ∧ ∃ lg M, represents lg (sn_overlay_index s) M.

Lemma read_view_shot s : shot s → ∃ rv, snapshot.read_view s = Ok rv ∧ viewed rv.
Proof.
  intros (Hd&Ho&Hs&_&Hr). unfold snapshot.read_view. rewrite Hd. rstep. rewrite Ho, Hs. eexists. split; [done|]. by split.
Qed.

Lemma snapshot_get_sane s key : shot s → sane guarded (snapshot.get s key) (λ _, True).
Proof using All.
  intros Hs. destruct (read_view_shot s Hs) as (rv&Hrv&Hv). unfold snapshot.get. rewrite Hrv.
  eapply sane_bind; [by apply (sane_lift _ (Ok rv) (λ a, a = rv))|]. intros ? ->. by apply get_sane.
Qed.

Lemma entries_sane s : shot s → sane guarded (snapshot.entries s) inside.
Proof using All.
  intros Hs. destruct (read_view_shot s Hs) as (rv&Hrv&Hv). pose proof Hs as (_&_&_&Hl&_). unfold snapshot.entries. rewrite Hrv.
  eapply sane_bind; [by apply (sane_lift _ (Ok rv) (λ a, a = rv))|]. intros ? ->.
  eapply sane_bind; [apply (sane_gets _ _ guarded); auto|]. intros v Hg. apply sane_lift. rewrite Hl. by apply new_inside.
Qed.

Lemma consume_sane {A} (x : M (RawEntries * SegmentVerifier) A) r Q :
  (∀ v, guarded v → ∃ a r' v', x (r, v) = (a, (r', v')) ∧ guarded v' ∧ safe a Q) → sane guarded (snapshot.consume x r) Q.
Proof. intros Hx v Hg. unfold snapshot.consume. destruct (Hx v Hg) as (a&r'&v'&->&?&?). by eexists _, _. Qed.

Lemma no_panic_safe {A} (r : result A) : r ≠ Panic → safe r (λ _, True).
Proof. by destruct r. Qed.

Lemma query_snapshot_sane s q : shot s → sane guarded (session.query_snapshot s q) (λ _, True).
Proof using All.
  intros Hs. destruct q as [key|key| | |]; cbn [session.query_snapshot]; apply sane_then.
  - by apply snapshot_get_sane.
  - apply sane_then. by apply snapshot_get_sane.
  - eapply sane_bind; [by apply entries_sane|]. intros r Hin. apply consume_sane. intros v Hg.
    destruct (try_collect_any (raw_entries.budget r) r v Hin Hg) as (a&r'&v'&Hr&Hg'&Hnp); [unfold raw_entries.budget, todo; lia|].
    exists a, r', v'. split; [exact Hr|]. split; [done|]. by apply no_panic_safe.
  - eapply sane_bind; [by apply entries_sane|]. intros r Hin. apply consume_sane. intros v Hg.
    destruct (fold_len_any (raw_entries.budget r) 0 r v Hin Hg) as (a&r'&v'&Hr&Hg'&Hnp); [unfold raw_entries.budget, todo; lia|].
    exists a, r', v'. split; [exact Hr|]. split; [done|]. by apply no_panic_safe.
  - eapply sane_bind; [by apply entries_sane|]. intros r Hin. apply consume_sane. intros v Hg.
    destruct (entries_next_any r v Hin Hg) as (a&r1&v1&Hn&_&Hg1&Ha). rewrite (M_bind_ok _ _ _ _ _ Hn).
    destruct a as [[kv|e|]|]; [by eexists _, r1, v1|by eexists _, r1, v1|done|by eexists _, r1, v1].
Qed.

End Segment.

(** ** The handle *)

Section Handle.
Context `{Crc32cLaws, Xxh3Laws, Alloc, HashTablesLaws, Placement}.
Context (db : Database) (bs : bytes) (layout : segment.SegmentLayout) (lg : bytes) (muts : mutations_map) (P : Storage → Prop).

Abbreviation base := (db_base db).
Abbreviation ok_verifier := (guarded bs layout (ab_offset base) (ab_slots base) (ab_len base)).

(** A handle that can be read: what was checked when it was opened. *)
Definition readable_handle : Prop :=
  BaseBytes.deref (ab_mapping base) = Ok bs ∧ fits bs layout (ab_offset base) (ab_slots base)
  ∧ ok_verifier (ab_verifier base) ∧ represents lg (OverlayState.index (db_overlay db)) muts.

Hypothesis Hdb : readable_handle.

(** The handle later: it reads the same mapping through a verifier of the same segment,
    and its storage is still [P]. *)
Definition later (db' : Database) : Prop :=
  active_base.same_base base (db_base db') ∧ ok_verifier (ab_verifier (db_base db')) ∧ db_overlay db' = db_overlay db
  ∧ P (db_storage db').

Lemma later_now : P (db_storage db) → later db.
Proof using Hdb. by destruct Hdb as (_&_&?&_). Qed.

Lemma on_verifier_sane {A} (x : M SegmentVerifier A) Q :
  sane ok_verifier x Q → sane later (database.on_base (active_base.with_verifier x)) Q.
Proof.
  intros Hx db' (Hs&Hg&Ho&HP). destruct (Hx _ Hg) as (r&v&Hr&Hg'&Hq).
  destruct (active_base.with_verifier_run x (db_base db') r v Hr) as (b&Hb&Hs'&Ev).
  exists r, (database.set_base b db'). split; [unfold database.on_base, zoom; by rewrite Hb|]. split; [|done].
  split; [by etrans|]. cbn. by rewrite Ev.
Qed.

Lemma available_sane : sane later database.ensure_available (λ _, True).
Proof.
  unfold database.ensure_available. intros db' Hl. 
  unfold mbind, M_bind, database.self, gets, lift. destruct (db_state db'); by eexists _, db'.
Qed.

(** The view of the handle. *)
Lemma self_view :
  sane later database.self (λ db', later db' ∧ ∃ rv, database.read_view db' = Ok rv
    ∧ viewed bs (ab_offset base) (ab_slots base) rv).
Proof using Hdb.
  apply sane_gets. intros db' Hl. split; [done|]. destruct Hl as ((E1&E2&_&E4&_)&_&Ho&_), Hdb as (Hd&_&_&Hr).
  unfold database.read_view, active_base.base_view. rewrite E1, Hd. rstep. eexists. split; [done|].
  rewrite E2, E4, Ho. split; [done|]. by exists lg, muts.
Qed.

Lemma view_get_sane key : sane later (database.view_get key) (λ _, True).
Proof using All.
  unfold database.view_get. eapply sane_bind; [apply self_view|]. intros db' (_&rv&->&Hv).
  eapply sane_bind; [by apply (sane_lift _ (Ok rv) (λ a, a = rv))|]. intros ? ->. apply on_verifier_sane.
  destruct Hdb as (_&Hf&_). by apply get_sane.
Qed.

Lemma get_handle_sane key : sane later (database.get key) (λ _, True).
Proof using All. unfold database.get. eapply sane_bind; [apply available_sane|]. intros _ _. apply view_get_sane. Qed.

(** The iterator of the handle, with its verifier. *)
Lemma iter_raw_sane :
  sane later (db' ← database.self; r ← lift (database.iter_raw db'); mret (r, db'))
    (λ '(r, db'), inside bs layout (ab_offset base) (ab_slots base) r ∧ later db').
Proof using All.
  eapply sane_bind; [apply self_view|]. intros db' (Hl&rv&Hrv&Hv). unfold database.iter_raw. rewrite Hrv. rstep.
  pose proof Hl as ((_&_&_&_&E5&_)&Hg&_). rewrite E5. destruct Hdb as (_&Hf&_).
  eapply sane_bind; [apply sane_lift; by eapply new_inside|]. intros r Hr. by apply sane_ret.
Qed.

Lemma iter_sane : sane later database.iter (λ _, True).
Proof using All.
  unfold database.iter. eapply sane_bind; [apply available_sane|]. intros _ _ db' Hl.
  destruct (iter_raw_sane db' Hl) as (r&db1&Hr&Hl1&Hq). unfold mbind, M_bind, lift, mret, M_ret, database.self, gets in Hr |- *.
  destruct (database.iter_raw db') as [it|e|]; [|by injection Hr as <- <-; eexists _, _|by injection Hr as <- <-].
  injection Hr as <- <-. destruct Hq as [Hin _], Hl as (Hs&Hg&Ho&HP), Hdb as (_&Hf&_).
  destruct (try_collect_any _ _ _ _ _ Hf (raw_entries.budget it) it _ Hin Hg) as (a&r'&v'&Hc&Hg'&Hnp);
    [unfold raw_entries.budget, todo; lia|].
  unfold raw_entries.entries_collect. cbn [fst]. rewrite Hc. cbn. eexists a, _. split; [done|].
  split; [by split_and!|by apply no_panic_safe].
Qed.

Lemma raw_len_sane : sane later database.raw_len (λ _, True).
Proof using All.
  intros db' Hl. unfold database.raw_len. destruct (iter_raw_sane db' Hl) as (r&db1&Hr&Hl1&Hq).
  unfold mbind, M_bind, lift, mret, M_ret, database.self, gets in Hr |- *.
  destruct (database.iter_raw db') as [it|e|]; [|by injection Hr as <- <-; eexists _, _|by injection Hr as <- <-].
  injection Hr as <- <-. destruct Hq as [Hin _], Hdb as (_&Hf&_). pose proof Hl as (_&(_&->&_)&_).
  eexists _, db'. split; [done|]. split; [done|].
  exact (count_safe bs layout _ _ (ab_len base) Hf it Hin).
Qed.

Lemma query_handle_sane q : sane later (session.query_handle q) (λ _, True).
Proof using All.
  assert (Hlen : sane later database.len (λ _, True)).
  { unfold database.len. eapply sane_bind; [apply available_sane|]. intros _ _. apply raw_len_sane. }
  destruct q as [key|key| | |]; cbn [session.query_handle]; apply sane_then; [apply get_handle_sane| |apply iter_sane|exact Hlen|];
    apply sane_then; [apply get_handle_sane|exact Hlen].
Qed.

Lemma query_transaction_sane q : sane later (session.query_transaction q) (λ _, True).
Proof using All.
  unfold session.query_transaction, read_transaction.new, database.begin_read. eapply sane_bind; [apply available_sane|]. intros _ _.
  destruct q as [key|key| | |]; [apply sane_then, view_get_sane|apply sane_then, sane_then, view_get_sane|..].
  - apply (query_handle_sane session.Iter).
  - apply (query_handle_sane session.Len).
  - apply (query_handle_sane session.IsEmpty).
Qed.

(** A full verification marks the Base only when its records are valid. *)
Lemma verify_sane : sane later database.verify (λ _, True).
Proof using All.
  unfold database.verify. eapply sane_bind; [apply available_sane|]. intros _ _ db' Hl.
  pose proof Hl as (Hs&Hg&Ho&HP). pose proof Hdb as (Hd&Hf&_). pose proof Hs as (E1&E2&E3&E4&E5&_). pose proof Hf as (Hlay&Hp&_&Hoff&Hb).
  assert (Hend : ∀ r b, active_base.verify (db_base db') = (r, b) → active_base.same_base (db_base db') b →
    ok_verifier (ab_verifier b) → r ≠ Panic →
    ∃ r' s', database.on_base active_base.verify db' = (r', s') ∧ later s' ∧ safe r' (λ _, True)).
  { intros r b Hr Hsb Hgb Hnp. exists r, (database.set_base b db'). split; [unfold database.on_base, zoom; by rewrite Hr|].
    split; [|by apply no_panic_safe]. split; [by etrans|]. by split. }
  unfold active_base.verify in Hend. rewrite (M_bind_ok (gets _) _ (db_base db') _ _ eq_refl), E1, Hd, M_lift_ok, Hlay, M_lift_ok in Hend.
  pose proof (active_base.layout_of_safe bs layout Hlay ltac:(lia)) as Hlo.
  pose proof (active_base.segment_metadata_checksum_safe bs layout Hlay Hlo) as Hck.
  destruct (segment.segment_metadata_checksum bs) as [ck|e|]; [|by eapply Hend|done]. rewrite M_lift_ok in Hend.
  destruct (negb _); cbn [fail_if] in Hend; [by eapply Hend|]. rewrite M_lift_ok in Hend.
  destruct (verify_range_sane bs layout _ _ (ab_len base) 0 (blen (segment.layout_data layout)) ltac:(lia) _ Hg) as (r&v1&Hr&Hg1&Hq).
  destruct (active_base.with_verifier_run _ _ _ _ Hr) as (b1&Hb1&Hsame1&Ev1). rewrite <- Ev1 in Hg1.
  destruct r as [[]|e|]; [|rewrite (M_bind_err _ _ _ _ _ Hb1) in Hend; by eapply Hend|done].
  rewrite (M_bind_ok _ _ _ _ _ Hb1), (M_bind_ok (gets _) _ b1 _ b1 eq_refl) in Hend. cbv beta in Hend.
  destruct (v_semantically_verified (ab_verifier b1)); [by eapply Hend|]. rewrite E2, E4, E5 in Hend.
  assert (Hs0 : 0 ≤ ab_slots base) by (destruct Hp as [->|Hp]; [done|apply segment.pow2_pos in Hp; lia]).
  assert (Hdl : blen (segment.layout_data layout) ≤ blen bs).
  { destruct (data_prefix bs layout _ _ Hf) as [rest ->]. rewrite blen_app. pose proof (blen_nonneg rest). lia. }
  pose proof (segment.validate_base_no_panic (segment.layout_data layout) (ab_offset base) (ab_slots base) (ab_len base)
    ltac:(lia) Hoff Hs0) as Hvp.
  destruct (segment.validate_base _ _ _ _) as [[]|e|] eqn:Hvb; [|by eapply Hend|done]. rewrite M_lift_ok in Hend.
  destruct (active_base.with_verifier_run verifier.mark_semantically_verified b1 _ _ eq_refl) as (b2&Hb2&Hsame2&E).
  eapply Hend; [exact Hb2|by etrans| |done]. rewrite E. destruct Hg1 as (?&?&_). by split_and!.
Qed.

Lemma sync_sane : (∀ s, P s → P (storage.sync_data s).2) → sane later database.sync (λ _, True).
Proof.
  intros Hsync. unfold database.sync. eapply sane_bind; [apply available_sane|]. intros _ _ db' Hl.
  assert (Hs : ∀ s, (storage.sync_data s).1 ≠ Panic).
  { intros [f|m]; [|done]. unfold storage.sync_data, storage.dispatch, file.sync, file.syscall.
    by destruct (file_script f) as [|[] ?]. }
  unfold database.on_storage, zoom. pose proof Hl as (Hb&Hg&Ho&HP). specialize (Hs (db_storage db')).
  specialize (Hsync _ HP). destruct (storage.sync_data (db_storage db')) as [r s].
  eexists r, _. split; [done|]. split; [by split_and!|]. by apply no_panic_safe.
Qed.

(** ** Sessions of readers *)

Context `{MmapAnon}.

(** The requests that write nothing. *)
Definition reading (q : session.request) : Prop :=
  match q with session.WriteTx _ | session.Compact => False | _ => True end.

Abbreviation shot_now := (shot bs (ab_offset base) (ab_slots base) (ab_len base)).

Definition world_later (w : session.World) : Prop :=
  later (session.w_handle w) ∧ map_Forall (λ _ s, shot_now s) (session.w_snapshots w).

Lemma on_handle_sane {A} (x : M Database A) Q :
  sane later x Q → sane world_later (session.on_handle x) Q.
Proof.
  intros Hx w [Hl Hs]. destruct (Hx _ Hl) as (r&db'&Hr&Hl'&Hq). eexists r, _. split; [unfold session.on_handle, zoom; by rewrite Hr|].
  done.
Qed.

Lemma take_sane : sane later snapshot.take shot_now.
Proof using All.
  unfold snapshot.take. eapply sane_bind; [apply available_sane|]. intros _ _ db' Hl. eexists (Ok _), _. split; [reflexivity|].
  split; [done|]. destruct Hl as ((E1&E2&_&E4&E5&_)&_&Ho&_), Hdb as (Hd&_&_&Hr). cbn. unfold shot. cbn.
  rewrite E1, E2, E4, E5, Ho. split_and!; [done..|]. by exists lg, muts.
Qed.

Lemma modify_sane {S} (I : S → Prop) (f : S → S) : (∀ s, I s → I (f s)) → sane I (modify f) (λ _, True).
Proof. intros Hf s Hs. exists (Ok ()), (f s). split; [done|]. split; [by apply Hf|done]. Qed.

Lemma exec_sane w q :
  (∀ s, P s → P (storage.sync_data s).2) → world_later w → reading q → session.enabled w q →
  (session.exec q w).1 ≠ Panic ∧ world_later (session.exec q w).2.
Proof using All.
  intros Hsync Hw Hq He.
  assert (Hend : ∀ x, sane world_later x (λ _ : session.reply, True) → (x w).1 ≠ Panic ∧ world_later (x w).2).
  { intros x Hx. destruct (Hx w Hw) as (r&w'&Hr&?&Hs). rewrite Hr. cbn. split; [by destruct r|done]. }
  destruct q as [q|q|ops| | | |i|i|i q|]; [| |done| | |done|..]; cbn [session.exec].
  - apply Hend, on_handle_sane, query_handle_sane.
  - apply Hend, on_handle_sane, query_transaction_sane.
  - apply Hend, sane_then, on_handle_sane, verify_sane.
  - by apply Hend, sane_then, on_handle_sane, sync_sane.
  - apply Hend. eapply sane_bind; [apply on_handle_sane, take_sane|]. intros s Hs. apply sane_then, modify_sane.
    intros w' [Hl Hss]. split; [done|]. cbn. by apply map_Forall_insert_2.
  - apply Hend. eapply sane_bind.
    { apply (on_handle_sane _ (λ _, True)). unfold snapshot.drop. apply modify_sane. done. }
    intros _ _. apply sane_then, modify_sane. intros w' [Hl Hss]. split; [done|]. cbn. by apply map_Forall_delete.
  - cbn in He. destruct He as [s Hs]. destruct Hw as [Hl Hss]. pose proof (Hss i s Hs) as Hshot.
    rewrite (M_bind_ok (gets _) _ w w w eq_refl), Hs.
    apply Hend, on_handle_sane, on_verifier_sane. destruct Hdb as (_&Hf&_). by apply query_snapshot_sane.
  - apply Hend, sane_then, modify_sane. done.
Qed.

Lemma reading_sane w trace w' :
  (∀ s, P s → P (storage.sync_data s).2) → session.runs w trace w' → world_later w → Forall (λ qa, reading qa.1) trace → Forall (λ qa, qa.2 ≠ Panic) trace.
Proof using All.
  intros Hsync. induction 1 as [w|w q w1 trace w' He <- Hr IH]; intros Hw Hq; [done|]. apply Forall_cons in Hq as [Hq1 Hq].
  destruct (exec_sane w q Hsync Hw Hq1 He) as [Hnp Hw1]. constructor; [done|]. by apply IH.
Qed.

End Handle.

(** ** Opening *)

Section Opening.
Context `{Crc32cLaws, Xxh3Laws, Alloc, HashTablesLaws}.
Context (f0 : File).
Implicit Types (c : bytes) (s : Storage) (sb : Superblock).

(** The file has the content [c]; it may have come there in any way. *)
Definition held (c : bytes) (s : Storage) : Prop := stored (λ _, True) f0 c s.
Definition is_file (s : Storage) : Prop := ∃ f, s = SFile f ∧ file_script f `suffix_of` file_script f0.

Lemma held_file c s : held c s → is_file s.
Proof. intros (f&->&_&_&?). by exists f. Qed.

(** A step that leaves a file: with an invariant on success, in any state on an error. *)
Definition loads {A} (I : Storage → Prop) (x : M Storage A) (J : Storage → Prop) (Q : A → Prop) : Prop :=
  ∀ s, I s → ∃ r s', x s = (r, s') ∧ is_file s'
    ∧ match r with Ok a => J s' ∧ Q a | Err _ => True | Panic => False end.

Lemma loads_bind {A B} I J K (x : M Storage A) (k : A → M Storage B) P Q :
  loads I x J P → (∀ a, P a → loads J (k a) K Q) → loads I (x ≫= k) K Q.
Proof.
  intros Hx Hk s Hs. destruct (Hx s Hs) as (r&s1&Hr&Hf&Ha). destruct r as [a|e|]; [| |done].
  - destruct Ha as [Hj Ha]. destruct (Hk a Ha s1 Hj) as (r&s2&?&?). exists r, s2. by rewrite (M_bind_ok _ _ _ _ _ Hr).
  - exists (Err e), s1. by rewrite (M_bind_err _ _ _ _ _ Hr).
Qed.

Lemma loads_sane {A} c (x : M Storage A) Q : sane (held c) x Q → loads (held c) x (held c) Q.
Proof.
  intros Hx s Hs. destruct (Hx s Hs) as (r&s'&Hr&Hh&Hq). exists r, s'. split; [done|]. split; [by eapply held_file|].
  by destruct r.
Qed.

Lemma loads_lift {A} c (r : result A) Q : safe r Q → loads (held c) (lift r) (held c) Q.
Proof. intros Hr. by apply loads_sane, sane_lift. Qed.
Lemma loads_ret {A} c (a : A) (Q : A → Prop) : Q a → loads (held c) (mret a) (held c) Q.
Proof. intros Ha. by apply loads_sane, sane_ret. Qed.

Lemma len_loads c : loads (held c) storage.len (held c) (λ n, n = blen c).
Proof.
  apply loads_sane. intros s Hs. destruct (len_any _ _ _ _ Hs) as (r&s'&Hr&Hs'&_&Ho). exists r, s'. split_and!; [done|done|].
  by destruct Ho as [->|(e&->&_)].
Qed.

Lemma map_loads c o size bs :
  blen c < U64 → 0 < size → get_range c o (o + size) = Some bs →
  loads (held c) (storage.load_immutable o size) (held c) (λ b, b = BaseBytes.Mapped bs).
Proof.
  intros Hl Hs Hg. apply loads_sane. intros s Hh. destruct (map_any _ _ _ _ o size bs Hh Hl Hs Hg) as (r&s'&Hr&Hs'&_&Ho).
  exists r, s'. split_and!; [done|done|]. by destruct Ho as [->|(e&->&_)].
Qed.

(** *** The roots *)

Lemma read_held n c : sane (held c) (Io.read n) (λ got, 1 ≤ n → blen got ≤ n).
Proof.
  intros s Hh. pose proof Hh as (f&->&Hc&_). cbn [Io.read storage.storage_stream]. unfold storage.dispatch. cbn [Io.read file_stream].
  unfold file.read. match goal with |- context [file.syscall ?b _] =>
    destruct (stored_syscall _ f0 c f b Hh) as (g&Hg&Hgc&_&_&_&[(e&->&_)|[x ->]]) end.
  - by exists (Err e), (SFile g).
  - eexists (Ok _), _. split; [done|]. split.
    + destruct Hg as (?&[= <-]&?&Hh'&?). eexists. split; [done|]. split_and!; [done|by eapply history_same|done].
    + cbn [safe]. intros Hn. rewrite blen_take. unfold file.limit. destruct x; lia.
Qed.

Lemma read_exact_held n c : 0 ≤ n → sane (held c) (read_exact n) (λ got, blen got = n).
Proof.
  unfold read_exact. assert (Hf : n ≤ Z.of_nat (Z.to_nat n)) by lia. revert Hf. generalize (Z.to_nat n) as fuel. intros fuel. revert n.
  induction fuel as [|fuel IH]; intros n Hf Hn; cbn [read_exact_loop]; destruct (n =? 0) eqn:E; bool_prop;
    [by apply sane_ret; len|lia|by apply sane_ret; len|].
  eapply sane_bind; [apply read_held|]. intros got Hgot. destruct got as [|x got]; [by apply sane_lift|].
  pose proof (blen_nonneg got). rewrite blen_cons in *. eapply sane_bind; [apply (IH (n - (1 + blen got))); lia|].
  intros more Hmore. apply sane_ret. cbv beta in Hmore. rewrite blen_app, blen_cons. lia.
Qed.

(** A root that was accepted lies in the file. *)
Definition accepted (file_len : Z) (acc : option Superblock * option Z) : Prop :=
  ∀ sb, acc.1 = Some sb → superblock.in_range sb ∧ superblock.out_of_bounds sb file_len = false.

Lemma scan_page_safe file_len page acc :
  blen page = superblock.SUPERBLOCK_SIZE → accepted file_len acc →
  safe (superblock.scan_page file_len page acc) (accepted file_len).
Proof.
  intros Hl Ha. destruct acc as [latest uv]. unfold superblock.scan_page.
  destruct (superblock.read_envelope_total page Hl) as ([[version hs]|]&->); rstep; [|done].
  destruct (negb _); [done|]. destruct (negb _); [done|].
  destruct (superblock.decode_page_total page Hl) as (sb&->&Hr). rstep. destruct (superblock.out_of_bounds sb file_len) eqn:Ho; [done|].
  intros sb' Hsb. cbn in Hsb. destruct latest as [cur|]; [|by injection Hsb as <-].
  destruct (_ <? _); [by injection Hsb as <-|]. by apply Ha.
Qed.

Lemma seek_start_held c o : 0 ≤ o ≤ ISIZE_MAX → sane (held c) (Io.seek (Start o)) (λ _, True).
Proof.
  intros Ho s Hh. destruct (seek_start_any _ f0 c s o Hh Ho) as (r&s'&Hr&Hs'&Hor). exists r, s'. split_and!; [done|done|].
  by destruct Hor as [[-> _]|(e&->&_)].
Qed.

Lemma read_page_any file_len o c acc :
  0 ≤ o ≤ ISIZE_MAX → accepted file_len acc →
  sane (held c) (superblock.read_page file_len o acc) (accepted file_len).
Proof.
  intros Ho Ha. unfold superblock.read_page. eapply sane_bind; [by apply seek_start_held|]. intros _ _ s Hs.
  destruct (read_exact_held superblock.SUPERBLOCK_SIZE c ltac:(done) s Hs) as (r&s'&Hr&Hh&Hq). unfold catch. rewrite Hr.
  destruct r as [page|e|]; [| |done].
  - pose proof (scan_page_safe file_len page acc Hq Ha) as Hsp. unfold lift. by eexists _, s'.
  - case_bool_decide; [by exists (Ok acc), s'|by exists (Err e), s'].
Qed.

Lemma read_latest_any file_len c :
  sane (held c) (superblock.read_latest_from file_len)
    (λ sb, superblock.in_range sb ∧ superblock.out_of_bounds sb file_len = false).
Proof.
  unfold superblock.read_latest_from.
  eapply sane_bind; [apply (read_page_any file_len 0); [lia|done]|]. intros acc Ha.
  eapply sane_bind; [apply (read_page_any file_len superblock.SUPERBLOCK_SIZE); [unfold superblock.SUPERBLOCK_SIZE; lia|exact Ha]|].
  intros [latest uv] Ha2. apply sane_lift. destruct uv; [done|]. destruct latest as [sb|]; [|done]. by apply Ha2.
Qed.

(** *** The Base and the log *)

Definition readable_parts (b : ActiveBase) (overlay : OverlayState) : Prop :=
  ∃ bs layout lg muts, BaseBytes.deref (ab_mapping b) = Ok bs ∧ fits bs layout (ab_offset b) (ab_slots b)
    ∧ guarded bs layout (ab_offset b) (ab_slots b) (ab_len b) (ab_verifier b)
    ∧ represents lg (OverlayState.index overlay) muts.

(** A Base that was opened, of the root [sb]. *)
Definition opened sb (b : ActiveBase) : Prop :=
  ab_log_start b = log_start sb
  ∧ ∃ bs layout, BaseBytes.deref (ab_mapping b) = Ok bs ∧ fits bs layout (ab_offset b) (ab_slots b)
    ∧ guarded bs layout (ab_offset b) (ab_slots b) (ab_len b) (ab_verifier b).

Lemma open_opened sb bs mode :
  0 ≤ base_offset sb → base_offset sb + blen bs ≤ ISIZE_MAX →
  safe (active_base.open (BaseBytes.Mapped bs) sb mode) (opened sb).
Proof.
  intros Ho Hb. pose proof (active_base.open_safe (BaseBytes.Mapped bs) bs sb mode eq_refl Ho Hb) as Hs.
  destruct (active_base.open _ sb mode) as [b|e|] eqn:Eo; [|done..]. destruct Hs as [(bs'&Hd&Hinv&Hp&Hfit&layout&Hlay&Hds) Hfull].
  assert (Hfields : ab_mapping b = BaseBytes.Mapped bs ∧ ab_offset b = base_offset sb ∧ ab_log_start b = log_start sb
    ∧ v_semantically_verified (ab_verifier b) = bool_decide (mode = Full)).
  { unfold active_base.open in Eo. do 5 apply bind_Ok in Eo as (?&_&Eo). apply bind_Ok in Eo as ([slots len]&_&Eo).
    do 2 apply bind_Ok in Eo as (?&_&Eo). injection Eo as <-. by split_and!. }
  destruct Hfields as (Em&Eoff&Els&Esem). rewrite Em in Hd. injection Hd as <-. split; [done|]. exists bs, layout. rewrite Em, Eoff.
  split; [done|]. split; [split_and!; try done; congruence|]. split; [done|]. split; [done|]. rewrite Esem. intros Hm%bool_decide_eq_true.
  destruct (Hfull Hm) as (bs2&layout2&Hd2&Hlay2&_&Hv). rewrite Em in Hd2. injection Hd2 as <-. rewrite Eoff in Hv. congruence.
Qed.

(** The fields of a root that was accepted. *)
Lemma accepted_bounds sb n :
  superblock.in_range sb → superblock.out_of_bounds sb n = false →
  0 < base_offset sb ∧ 0 < base_size sb ∧ base_offset sb + base_size sb ≤ log_start sb ≤ n.
Proof.
  intros (_&?&?&_) Ho. unfold superblock.out_of_bounds in Ho. apply orb_false_iff in Ho as [Ho Ho3]. apply orb_false_iff in Ho as [Ho1 Ho2].
  destruct (checked_add _ _) as [e|] eqn:E; [|done]. apply checked_add_Some in E as [-> _].
  unfold superblock.DATA_START, superblock.SUPERBLOCK_SIZE, BASE_HEADER in *. bool_prop. lia.
Qed.

Definition lies_in sb (c : bytes) : Prop :=
  0 < base_offset sb ∧ 0 < base_size sb ∧ base_offset sb + base_size sb ≤ log_start sb ≤ blen c ∧ blen c ≤ ISIZE_MAX.

Lemma base_there c sb :
  lies_in sb c →
  ∃ bs, loads (held c) (storage.load_immutable (base_offset sb) (base_size sb)) (held c) (λ b, b = BaseBytes.Mapped bs)
    ∧ ∀ mode, safe (active_base.open (BaseBytes.Mapped bs) sb mode) (opened sb).
Proof.
  intros (?&?&?&?). destruct (get_range c (base_offset sb) (base_offset sb + base_size sb)) as [bs|] eqn:Hg.
  2:{ rewrite get_range_in_bounds in Hg by lia. done. }
  pose proof (get_range_Some _ _ _ _ Hg) as (_&_&Hbl&_). exists bs. split; [apply map_loads; [lia|lia|done]|].
  intros mode. apply open_opened; lia.
Qed.

(** What the scan of the log found: an index of its accepted part. *)
Definition found (c : bytes) (start : Z) (scan : OverlayScan) : Prop :=
  (scan = OverlayScan.empty start ∧ start = blen c)
  ∨ ∃ lg rest muts, lg ++ rest = drop (Z.to_nat start) c ∧ OverlayScan.valid_len scan = start + blen lg
    ∧ recovery.scan_inv (lg ++ rest) (BaseBytes.Mapped (lg ++ rest)) (OverlayScan.index scan) (OverlayScan.memory scan)
        (blen lg) muts.

Lemma log_range c start : 0 ≤ start ≤ blen c → get_range c start (start + (blen c - start)) = Some (drop (Z.to_nat start) c).
Proof.
  intros Hs. rewrite get_range_in_bounds by lia. f_equal. apply take_ge. pose proof (blen_drop (Z.to_nat start) c) as Hd. unfold blen in *. lia.
Qed.

Lemma scan_loads c start s0 :
  is_file s0 → 0 ≤ start ≤ blen c → blen c ≤ ISIZE_MAX →
  loads (held c)
    (if blen c - start =? 0 then mret (OverlayScan.empty start)
     else if storage.is_memory s0 then lift (Err (error.invalid_base "in-memory database cannot contain a persisted Overlay"))
     else mapping ← storage.load_immutable start (blen c - start); lift (recovery.scan_overlay mapping start))
    (held c) (found c start).
Proof.
  intros (f&->&_) Hs Hl. destruct (_ =? 0) eqn:E; bool_prop; [apply loads_ret; left; split; [done|lia]|]. cbn [storage.is_memory].
  pose proof (log_range c start Hs) as Hg. pose proof (get_range_Some _ _ _ _ Hg) as (_&_&Hbl&_).
  eapply loads_bind; [apply map_loads; [lia|lia|exact Hg]|]. intros ? ->. apply loads_lift.
  eapply safe_mono; [apply (recovery.scan_overlay_safe (drop (Z.to_nat start) c)); [done|lia]|].
  intros scan (used&muts&Hv&Hu&Hi). right. exists (take (Z.to_nat used) (drop (Z.to_nat start) c)), (drop (Z.to_nat used) (drop (Z.to_nat start) c)), muts.
  rewrite take_drop, blen_take. replace (Z.min _ _) with used by lia. done.
Qed.

Definition held_any (s : Storage) : Prop := ∃ c, held c s ∧ blen c ≤ ISIZE_MAX.
Definition overlay_of (scan : OverlayScan) : OverlayState :=
  OverlayState.with_memory (OverlayScan.index scan) (OverlayScan.memory scan).

Lemma loads_any {A} c (x : M Storage A) Q : blen c ≤ ISIZE_MAX → loads (held c) x (held c) Q → loads (held c) x held_any Q.
Proof.
  intros Hl Hx s Hs. destruct (Hx s Hs) as (r&s'&Hr&Hf&Hq). exists r, s'. split_and!; [done|done|].
  destruct r; [|done..]. destruct Hq. split; [by exists c|done].
Qed.

Lemma opened_parts sb b overlay lg muts :
  opened sb b → represents lg (OverlayState.index overlay) muts → readable_parts b overlay.
Proof. intros (_&bs&layout&?&?&?) Hr. by exists bs, layout, lg, muts. Qed.

(** The log is cut behind its accepted part, and the Base and the log are mapped again. *)
Lemma cut_loads c sb b scan options :
  lies_in sb c → opened sb b → found c (log_start sb) scan →
  loads (held c)
    (if OverlayScan.valid_len scan <? blen c then
      scan' ← lift (OverlayScan.release_mapping scan);
      _ ← storage.set_len (OverlayScan.valid_len scan);
      _ ← storage.sync_data;
      mapping ← storage.load_immutable (base_offset sb) (base_size sb);
      base ← lift (active_base.open mapping sb (opt_verification options));
      overlay_size ← lift (ok_or (checked_sub (OverlayScan.valid_len scan) (ab_log_start base))
                             (error.invalid_base "overlay range precedes active Base"));
      mapping ← (if overlay_size =? 0 then mret None
                 else mapping ← storage.load_immutable (ab_log_start base) overlay_size;
                      mret (Some mapping));
      scan ← lift (OverlayScan.replace_mapping scan' mapping);
      mret (base, scan)
    else mret (b, scan))
    held_any (λ '(b, scan), readable_parts b (overlay_of scan)).
Proof.
  intros Hin Hb [[-> Hst]|(lg&rest&muts&Hlg&Hv&Hi)]; pose proof Hin as (?&?&[? ?]&Hl).
  { cbn [OverlayScan.valid_len OverlayScan.empty]. replace (_ <? _) with false by lia. apply loads_any, loads_ret; [done|].
    eapply opened_parts; [done|]. apply empty_overlay_holds. }
  assert (Hbl : blen lg + blen rest = blen c - log_start sb).
  { apply (f_equal blen) in Hlg. rewrite blen_app, blen_drop in Hlg. lia. }
  pose proof (blen_nonneg rest). pose proof (blen_nonneg lg). rewrite Hv. destruct (_ <? _) eqn:E; bool_prop.
  2:{ apply loads_any, loads_ret; [done|]. eapply opened_parts; [done|]. eapply recovery.scan_inv_holds; [exact Hi|lia]. }
  destruct (replaced_holds lg rest _ _ _ _ Hi ltac:(lia)) as (index2&Hrep&(Hrp&_)&_). apply bind_Ok in Hrep as (index1&Hr1&Hr2).
  unfold OverlayScan.release_mapping. rewrite Hr1. rstep.
  eapply loads_bind; [by apply (loads_lift c (Ok _) (λ a, a = OverlayScan.Mk index1 (OverlayScan.memory scan) (OverlayScan.valid_len scan)))|].
  intros ? ->. set (c1 := take (Z.to_nat (log_start sb)) c ++ lg).
  assert (Hc : c = c1 ++ rest) by (unfold c1; rewrite <- app_assoc, Hlg; by rewrite take_drop).
  assert (Hc1 : blen c1 = log_start sb + blen lg) by (unfold c1; rewrite blen_app, blen_take; lia).
  eapply (loads_bind _ (held c1) _ _ _ (λ _, True)).
  { intros s Hs. rewrite Hc in Hs. rewrite <- Hc1. destruct (truncate_any _ _ c1 rest s Hs I) as (r&s'&Hr&Ho). exists r, s'. split; [done|].
    destruct Ho as [[-> Ho]|(e&->&_&Ho)]; (split; [by eapply held_file|done]). }
  intros _ _. eapply (loads_bind _ (held c1) _ _ _ (λ _, True)).
  { apply loads_sane. intros s Hs. destruct (sync_any _ _ c1 s Hs I) as (r&s'&Hr&Hs'&Ho). exists r, s'. split_and!; [done|done|].
    by destruct Ho as [[-> _]|(e&->&_)]. }
  intros _ _. assert (Hin1 : lies_in sb c1) by (unfold lies_in; lia). destruct (base_there c1 sb Hin1) as (bs&Hmap&Hopen).
  eapply loads_bind; [exact Hmap|]. intros ? ->. eapply loads_bind; [apply loads_lift, Hopen|]. intros b1 Hb1.
  pose proof Hb1 as [Els _]. rewrite Els, checked_sub_ok by lia. cbn [ok_or].
  eapply loads_bind; [by apply (loads_lift c1 (Ok _) (λ a, a = blen lg)); cbn; lia|]. intros ? ->.
  eapply (loads_bind _ (held c1) _ _ _ (λ mapping, mapping = mapping_of lg)).
  { destruct (blen lg =? 0) eqn:E0; bool_prop; [apply loads_ret; by destruct lg|].
    eapply loads_bind; [apply (map_loads c1 _ _ lg); [lia|lia|]|].
    - unfold c1. rewrite get_range_skip by (rewrite blen_take; lia). rewrite blen_take.
      replace (log_start sb - _) with 0 by lia. apply get_range_all. lia.
    - intros ? ->. apply loads_ret. by destruct lg. }
  intros ? ->. unfold OverlayScan.replace_mapping. cbn [OverlayScan.index]. rewrite Hr2. rstep. apply loads_any; [lia|].
  eapply loads_bind; [by apply (loads_lift c1 (Ok _) (λ a, a = OverlayScan.Mk index2 (OverlayScan.memory scan) (OverlayScan.valid_len scan)))|].
  intros ? ->. apply loads_ret. eapply opened_parts; [done|]. exact Hrp.
Qed.

Lemma load_any c options :
  blen c ≤ ISIZE_MAX →
  loads (held c) (database.load_storage_state options) is_file (λ '(b, overlay), readable_parts b overlay).
Proof.
  intros Hl. unfold database.load_storage_state. eapply loads_bind; [apply len_loads|]. intros ? ->.
  eapply loads_bind; [apply loads_sane, (read_latest_any (blen c))|]. intros sb [Hr Ho].
  assert (Hin : lies_in sb c) by (destruct (accepted_bounds sb _ Hr Ho) as (?&?&?&?); unfold lies_in; lia).
  destruct (base_there c sb Hin) as (bs&Hmap&Hopen). eapply loads_bind; [exact Hmap|]. intros ? ->.
  eapply loads_bind; [apply loads_lift, Hopen|]. intros b Hb. pose proof Hb as [Els _]. pose proof Hin as (?&?&[? ?]&_).
  rewrite Els, checked_sub_ok by lia. cbn [ok_or].
  eapply loads_bind; [by apply (loads_lift c (Ok _) (λ a, a = blen c - log_start sb))|]. intros ? ->.
  eapply loads_bind; [apply loads_sane, (sane_gets _ _ is_file); intros s; apply held_file|]. intros s0 Hs0.
  eapply loads_bind; [apply scan_loads; [done|lia|done]|]. intros scan Hscan.
  eapply loads_bind; [by apply (cut_loads c sb b scan options)|]. intros [b1 scan1] Hp.
  destruct Hs0 as (f&->&_). cbn [storage.is_memory]. unfold OverlayScan.into_index.
  intros s (c1&Hs&Hl1). rewrite (M_bind_ok (mret _) _ s _ s eq_refl).
  destruct (seek_end_any _ _ c1 s Hs Hl1) as (r&s'&Hr1&Hs'&Hor). destruct Hor as [[-> _]|(e&->&_)].
  - rewrite (M_bind_ok _ _ _ _ _ Hr1). eexists (Ok _), s'. split; [done|]. split; [by eapply held_file|]. split; [by eapply held_file|]. exact Hp.
  - rewrite (M_bind_err _ _ _ _ _ Hr1). exists (Err e), s'. split; [done|]. split; [by eapply held_file|done].
Qed.

End Opening.

(** A handle or an error, for any file. *)
Section AnyFile.
Context `{Crc32cLaws, Xxh3Laws, Alloc, HashTablesLaws}.
Implicit Types (f : File) (db : Database).

Definition opens_to (options : DatabaseOptions) f (r : result Database) : Prop :=
  safe r (λ db, db_storage db = SFile f ∧ db_state db = Healthy ∧ db_options db = options
    ∧ ∃ bs layout lg muts, readable_handle db bs layout lg muts).

Lemma open_any f options :
  blen (file_content f) ≤ ISIZE_MAX →
  ∃ r f', database.open_with_options f options = (r, SFile f') ∧ file_script f' `suffix_of` file_script f
    ∧ opens_to options f' r.
Proof.
  intros Hl. assert (Hh : held f (file_content f) (SFile f)) by (exists f; split_and!; [done|done|by apply history_refl|done]).
  unfold database.open_with_options, database.validate_options. destruct (_ <? _); [by eexists (Err _), f|]. cbn [fail_if].
  set (check := λ n, lift (fail_if (opt_max_database_bytes options <? n) (error.database_full (opt_max_database_bytes options) n))).
  assert (Hcheck : loads f (held f (file_content f)) (n ← storage.len; check n) (held f (file_content f)) (λ _, True)).
  { eapply loads_bind; [apply len_loads|]. intros n _. apply loads_lift. unfold fail_if. by destruct (_ <? _). }
  destruct (Hcheck _ Hh) as (r&s1&Hr&(f1&->&Hsu1)&Hq). change (λ n, check n) with check in Hr. rewrite Hr. clear Hr.
  destruct r as [[]|e|]; [|by exists (Err e), f1|done]. destruct Hq as [Hh1 _].
  assert (Hload : loads f (held f (file_content f)) (_ ← (n ← storage.len; check n); database.load_storage_state options) (is_file f)
    (λ '(b, overlay), readable_parts b overlay)).
  { eapply loads_bind; [exact Hcheck|]. intros _ _. by apply load_any. }
  destruct (Hload _ Hh1) as (r&s2&Hr2&(f2&->&Hsu2)&Hq2). rewrite M_bind_assoc in Hr2.
  unfold database.from_storage. unfold mbind, M_bind in Hr2 |- *. destruct (storage.len (SFile f1)) as [[n|e|] s3]; [| |].
  - change (lift (fail_if _ _)) with (check n). destruct (check n s3) as [[[]|e|] s4].
    + destruct (database.load_storage_state options s4) as [[[b overlay]|e|] s5]; injection Hr2 as <- ->; [|by exists (Err e), f2|done].
      eexists (Ok _), f2. split; [reflexivity|]. split; [done|]. split; [done|]. split; [done|]. split; [done|].
      destruct Hq2 as (_&bs&layout&lg&muts&?&?&?&?). by exists bs, layout, lg, muts.
    + injection Hr2 as <- ->. by exists (Err e), f2.
    + by injection Hr2 as <- ->.
  - injection Hr2 as <- ->. by exists (Err e), f2.
  - by injection Hr2 as <- ->.
Qed.

End AnyFile.

Section Property.
Context `{Crc32cLaws, Xxh3Laws, Alloc, HashTablesLaws, Placement, MmapAnon}.

(** C4: no file makes a reader panic. Whatever the content of the file, whichever system
    calls fail, and in both verification modes, opening it returns a handle or an error.
    Through a handle that was opened, every sequence of reads, iterations, verifications,
    snapshots and reads of snapshots is answered, with values or with errors: no index is
    out of bounds, no addition overflows, no loop outruns the records it was given. *)
Theorem untrusted_file_never_panics f options :
  blen (file_content f) ≤ ISIZE_MAX →
  (database.open_with_options f options).1 ≠ Panic
  ∧ ∀ db trace w, (database.open_with_options f options).1 = Ok db →
      session.runs (session.MkWorld db true ∅) trace w → Forall (λ qa, reading qa.1) trace →
      Forall (λ qa, qa.2 ≠ Panic) trace.
Proof.
  intros Hl. destruct (open_any f options Hl) as (r&f'&->&_&Hr). cbn [fst]. split; [by destruct r|].
  intros db trace w -> Hrun Hq. destruct Hr as (_&_&_&bs&layout&lg&muts&Hdb).
  eapply (reading_sane db bs layout lg muts (λ _, True) Hdb _ trace w); [done|exact Hrun| |done]. split; [by eapply later_now|]. apply map_Forall_empty.
Qed.

End Property.

(** *** Some requests that can be made *)

Definition demo_requests : list session.request :=
  [session.TakeSnapshot 0; session.Read (session.Get []); session.ReadSnapshot 0 session.Iter; session.Verify].

Section Requests.
Context `{Crc32c, Xxh3, Alloc, HashTables, Placement, MmapAnon}.

Lemma on_handle_frame {A} (x : M Database A) w :
  session.w_open (session.on_handle x w).2 = session.w_open w
  ∧ session.w_snapshots (session.on_handle x w).2 = session.w_snapshots w.
Proof. unfold session.on_handle, zoom. by destruct (x _). Qed.

Lemma demo_runs db :
  db_state db = Healthy → ∃ trace w, session.runs (session.MkWorld db true ∅) trace w ∧ trace.*1 = demo_requests.
Proof.
  intros Hst. set (w0 := session.MkWorld db true ∅).
  set (w1 := session.MkWorld (database.set_snapshots (db_snapshots db + 1) db) true {[0%nat := session.snapshot_now db]}).
  assert (Ht : session.exec (session.TakeSnapshot 0) w0 = (Ok session.Unit, w1)).
  { unfold session.exec, session.on_handle, zoom, snapshot.take, database.ensure_available, mbind, M_bind, database.self, gets, lift.
    cbn. by rewrite Hst. }
  set (w2 := (session.exec (session.Read (session.Get [])) w1).2). destruct (on_handle_frame (session.query_handle (session.Get [])) w1) as [Ho2 Hs2].
  set (w3 := (session.exec (session.ReadSnapshot 0 session.Iter) w2).2).
  assert (Hw3 : session.w_open w3 = true).
  { unfold w3. cbn [session.exec]. rewrite (M_bind_ok (gets _) _ w2 w2 w2 eq_refl). destruct (session.w_snapshots w2 !! 0%nat); [|exact Ho2].
    etrans; [apply on_handle_frame|exact Ho2]. }
  do 2 eexists. split.
  - eapply (session.runs_cons w0 (session.TakeSnapshot 0) w1); [split; [done|apply lookup_empty]|by rewrite Ht|].
    eapply (session.runs_cons w1 (session.Read (session.Get [])) w2); [done|done|].
    eapply (session.runs_cons w2 (session.ReadSnapshot 0 session.Iter) w3); [|done|].
    + exists (session.snapshot_now db). etrans; [exact (f_equal (λ m, m !! 0%nat) Hs2)|]. apply lookup_singleton_eq.
    + eapply (session.runs_cons w3 session.Verify); [exact Hw3|done|apply session.runs_nil].
  - done.
Qed.

End Requests.

(** *** A concrete file: a database with one changed byte *)

Import RefInstances.
#[local] Instance demo_placement : Placement :=
  {| base_addr := 65536; place kv := (view.MkSlice 1 kv.1, view.MkSlice 2 kv.2) |}.
#[local] Instance demo_maps : MmapAnon := {| map_anon _ := Ok (); make_read_only _ := Ok () |}.

Definition demo_bad_file : File :=
  MkFile (superblock.encode_page iteration.lone_root ++ superblock.encode_page iteration.lone_root
          ++ <[48%nat := Byte.x00]> iteration.lone_bytes) 0 [] [].
Lemma demo_bad_file_opens : ∃ db, (database.open_with_options demo_bad_file options.default).1 = Ok db.
Proof.
  assert (Hok : match (database.open_with_options demo_bad_file options.default).1 with Ok _ => true | _ => false end = true)
    by (vm_compute; reflexivity).
  destruct (database.open_with_options demo_bad_file options.default).1 as [db|e|]; [by exists db|discriminate Hok..].
Qed.

Lemma demo_healthy db : (database.open_with_options demo_bad_file options.default).1 = Ok db → db_state db = Healthy.
Proof.
  destruct (open_any demo_bad_file options.default) as (r&f&->&_&Ho); [vm_compute; discriminate|]. cbn. intros ->. apply Ho.
Qed.

(** It opens, since blocks are checked when they are read; then some reads return errors
    and none panics. *)
Lemma untrusted_file_never_panics_witness :
  ∃ db trace w, (database.open_with_options demo_bad_file options.default).1 = Ok db
    ∧ session.runs (session.MkWorld db true ∅) trace w ∧ trace.*1 = demo_requests ∧ Forall (λ qa, qa.2 ≠ Panic) trace.
Proof.
  destruct demo_bad_file_opens as [db Hdb].
  destruct (untrusted_file_never_panics demo_bad_file options.default) as [_ Hs]; [vm_compute; discriminate|].
  destruct (demo_runs db (demo_healthy db Hdb)) as (trace&w&Hr&Hq). exists db, trace, w. split; [exact Hdb|]. split; [exact Hr|]. split; [exact Hq|].
  apply (Hs db trace w Hdb Hr). apply (proj1 (Forall_fmap fst reading trace)). rewrite Hq. repeat constructor.
Defined.

(** *** The last generation

    The requests of the theorem write nothing. One that writes can panic: compaction adds
    to the generation of the root without a check, and a file whose root has the last
    generation of 64 bits is opened, verified and read like any other. *)

Definition last_generation_root : Superblock :=
  MkSuperblock (U64 - 1) 8192 (blen active_base.demo_bytes) 4 3 (8192 + blen active_base.demo_bytes)
    (crc32c (segment.base_metadata view.demo_data)).
Definition last_generation_file : File :=
  MkFile (superblock.encode_page last_generation_root ++ superblock.encode_page last_generation_root ++ active_base.demo_bytes
          ++ log.encode_record [([Byte.x61], None)]) 0 [] [].

Lemma compact_last_generation_panics :
  (db ← (database.open_with_options last_generation_file options.default).1;
   Ok (db_state db, (database.verify db).1, (database.get [Byte.x61; Byte.x61] db).1, (maintenance.compact db).1))
  = Ok (Healthy, Ok (), Ok (Some [Byte.x03]), Panic).
Proof. vm_compute. reflexivity. Qed.

End untrusted.
