(* ===== verification/Transport.v ===== *)
(** * Moving programs between streams

    The format writers are generic in the stream they write to. When one stream embeds
    into another and the three primitive operations commute with the embedding, so does
    every writer: what is proved of a writer on [Storage] holds of it on a [File]. *)

From S2P Require Import Prelude Errors Crates Io Superblock Values Log Segment Storage.

(** [y] does on the image of a state what [x] does on the state. *)
Definition lifts {S T A} (inj : S → T) (x : M S A) (y : M T A) : Prop :=
  ∀ s, y (inj s) = (let '(r, s') := x s in (r, inj s')).

Create HintDb lifts.

Section Monad.
Context {S T : Type} (inj : S → T).

Lemma lifts_ret {A} (a : A) : lifts inj (mret a) (mret a).
Proof. done. Qed.
Lemma lifts_lift {A} (r : result A) : lifts inj (lift r) (lift r).
Proof. done. Qed.

Lemma lifts_bind {A B} (x : M S A) y (k : A → M S B) l :
  lifts inj x y → (∀ a, lifts inj (k a) (l a)) → lifts inj (x ≫= k) (y ≫= l).
Proof.
  intros Hx Hk s. unfold mbind, M_bind. rewrite Hx. destruct (x s) as [[a|e|] s1]; [apply Hk|done..].
Qed.

Lemma lifts_modify g h : (∀ s, h (inj s) = inj (g s)) → lifts inj (modify g) (modify h).
Proof. intros Hg s. unfold modify. by rewrite Hg. Qed.
Lemma lifts_gets {A} (g : S → A) h : (∀ s, h (inj s) = g s) → lifts inj (gets g) (gets h).
Proof. intros Hg s. unfold gets. by rewrite Hg. Qed.

End Monad.
#[export] Hint Resolve lifts_ret lifts_lift : lifts.

Ltac lifts := repeat first
  [ apply lifts_bind; [|intros ?] | progress cbv zeta | case_match | solve [eauto with lifts] ].

(** ** Streams *)

Class StreamMap {S T} (inj : S → T) `{Stream S, Stream T} : Prop := {
  lifts_seek p : lifts inj (seek p) (seek p);
  lifts_write bs : lifts inj (write bs) (write bs);
  lifts_read n : lifts inj (read n) (read n)
}.
#[export] Hint Resolve lifts_seek lifts_write lifts_read : lifts.

Section Streams.
Context {S T} (inj : S → T) `{StreamMap S T inj}.

Lemma lifts_write_all bs : lifts inj (write_all bs) (write_all bs).
Proof.
  unfold write_all, stream_writer. generalize (length bs) as fuel. intros fuel. revert bs.
  induction fuel as [|fuel IH]; intros [|b bs]; cbn [write_all_loop]; lifts.
Qed.

Lemma lifts_read_exact n : lifts inj (read_exact n) (read_exact n).
Proof.
  unfold read_exact. generalize (Z.to_nat n) as fuel. intros fuel. revert n.
  induction fuel as [|fuel IH]; intros n; cbn [read_exact_loop]; lifts.
Qed.

(** *** Through a [BufWriter] *)

Definition buffered (w : BufWriter S) : BufWriter T := MkBuf (buf_capacity w) (buf w) (inj (buf_inner w)).

Lemma lifts_inner {A} (x : M S A) y : lifts inj x y → lifts buffered (BufWriter.inner x) (BufWriter.inner y).
Proof. intros Hx w. unfold BufWriter.inner, zoom. cbn. rewrite Hx. by destruct (x _). Qed.

Lemma lifts_set_buf bs : lifts buffered (modify (BufWriter.set_buf bs)) (modify (BufWriter.set_buf bs)).
Proof. by apply lifts_modify. Qed.
Hint Resolve lifts_inner lifts_set_buf : lifts.

Lemma lifts_flush_buf : lifts buffered BufWriter.flush_buf BufWriter.flush_buf.
Proof.
  intros w. unfold BufWriter.flush_buf. cbn [buffered buf]. generalize (length (buf w)) as fuel. intros fuel. revert w.
  enough (lifts buffered (BufWriter.flush_loop fuel) (BufWriter.flush_loop fuel)) by done.
  induction fuel as [|fuel IH]; cbn [BufWriter.flush_loop]; (apply lifts_bind; [by apply lifts_gets|intros rest]); lifts.
Qed.
Hint Resolve lifts_write_all lifts_flush_buf : lifts.

Lemma lifts_buf_write_all bs : lifts buffered (BufWriter.write_all bs) (BufWriter.write_all bs).
Proof.
  intros w. unfold BufWriter.write_all. rewrite !(M_bind_ok (gets _) _ _ _ _ eq_refl).
  cbn [buffered buf buf_capacity].
  destruct (_ <? _); [done|]. refine (lifts_bind buffered _ _ _ _ _ _ w); [lifts|intros _].
  destruct (_ <=? _); [lifts|done].
Qed.

Lemma lifts_scoped {A} capacity (x : M (BufWriter S) A) y :
  lifts buffered x y → lifts inj (BufWriter.scoped capacity x) (BufWriter.scoped capacity y).
Proof.
  intros Hx s. unfold BufWriter.scoped.
  change (BufWriter.with_capacity capacity (inj s)) with (buffered (BufWriter.with_capacity capacity s)). rewrite Hx.
  destruct (x _) as [[a|e|] w]; [| |done].
  all: rewrite lifts_flush_buf; by destruct (BufWriter.flush_buf w).
Qed.

End Streams.

(** ** The writers of a segment and of a root *)

Section Segments.
Context `{Crc32c, Xxh3, Alloc} {S T} (inj : S → T) `{StreamMap S T inj}.
#[local] Hint Resolve lifts_write_all lifts_flush_buf lifts_buf_write_all lifts_read_exact lifts_scoped : lifts.

Lemma lifts_write_entries slots entries index offset n :
  lifts (buffered inj) (segment.write_entries slots entries index offset n) (segment.write_entries slots entries index offset n).
Proof.
  revert index offset n. induction entries as [|[k v] entries IH]; intros index offset n; cbn [segment.write_entries];
    unfold write_all, bufwriter_writer; lifts.
Qed.

Lemma lifts_write_slots index : lifts (buffered inj) (segment.write_slots index) (segment.write_slots index).
Proof. induction index as [|[fp o] index IH]; cbn [segment.write_slots]; unfold write_all, bufwriter_writer; lifts. Qed.

Lemma lifts_block_checksums fuel n : lifts inj (segment.block_checksums fuel n) (segment.block_checksums fuel n).
Proof. revert n. induction fuel as [|fuel IH]; intros n; cbn [segment.block_checksums]; lifts. Qed.
Hint Resolve lifts_write_entries lifts_write_slots lifts_block_checksums : lifts.

Lemma lifts_write_base_at start len entries : lifts inj (segment.write_base_at start len entries) (segment.write_base_at start len entries).
Proof.
  unfold segment.write_base_at, segment.write_base_with_metadata_at, segment.append_block_checksums, segment.write_index.
  repeat (lifts; try (apply lifts_scoped; [exact _|])).
Qed.

Lemma lifts_write_root sb : lifts inj (superblock.write sb) (superblock.write sb).
Proof. apply lifts_bind; [apply lifts_seek|intros _]. by apply lifts_write_all. Qed.

End Segments.

(** ** A file as a storage *)

#[export] Instance file_storage `{Alloc} : StreamMap SFile.
Proof. split; intros x f; reflexivity. Qed.
