(* ===== verification/Initialize.v ===== *)
(** * Initializing a database file under failures

    [initialize_file] of [database/mod.rs] on a new file whose system calls may fail or
    come up short, through the equivalence of [initialize_file] and [initialize_storage]. *)

From S2P Require Import Prelude Errors Crates Io Superblock Values Log Segment Overlay Recovery View.
From S2P Require Import Base Storage Transaction Entries Database Faults Commit Written Reopen Handle Overwrite Compaction Transport.
Import commit_facts.

#[local] Abbreviation DATA_START := superblock.DATA_START.

(** ** Initializing under failures *)

Section Initialize.
Context `{Crc32cLaws, Xxh3Laws, Alloc}.

Lemma lifts_map offset size :
  lifts SFile (segment.map offset size) (mapping ← storage.load_immutable offset size; lift (BaseBytes.deref mapping)).
Proof.
  intros f. unfold mbind, M_bind, storage.load_immutable, storage.dispatch. cbn.
  unfold mbind, M_bind. by destruct (segment.map offset size f) as [[bs|e|] f'].
Qed.

(** The two initializations do the same to a file. *)
Lemma initialize_lifts : lifts SFile database.initialize_file database.initialize_storage.
Proof.
  unfold database.initialize_file, database.initialize_storage.
  apply lifts_bind; [intros f; done|intros _]. apply lifts_bind; [by apply lifts_write_base_at|intros size].
  intros f. rewrite <- M_bind_assoc. revert f. apply lifts_bind; [apply lifts_map|intros mapping].
  do 2 (apply lifts_bind; [apply lifts_lift|intros ?]). apply lifts_bind; [by apply lifts_write_root|intros _]. by intros f.
Qed.

(** How a step of the initialization of [f] ends: as [finished] says, or with an error
    that something caused. *)
Definition step_ends {A} (f : File) (x : result A * Storage) (finished : A → bytes → Storage → Prop) : Prop :=
  ∃ c, stored (λ _, True) f c x.2 ∧ ((∃ a, x.1 = Ok a ∧ finished a c x.2) ∨ ∃ e, x.1 = Err e ∧ troubled f).

Lemma step_bind {A B} f (x : M Storage A) (k : A → M Storage B) s P Q :
  step_ends f (x s) P → (∀ a c s', stored (λ _, True) f c s' → P a c s' → step_ends f (k a s') Q) →
  step_ends f ((x ≫= k) s) Q.
Proof.
  intros (c&Hs&Ho) Hk. unfold mbind, M_bind. destruct (x s) as [r s1]. cbn [fst snd] in *.
  destruct Ho as [(a&->&Ha)|(e&->&He)]; [by eapply Hk|]. exists c. split; [done|]. right. by exists e.
Qed.

Lemma step_failed {A} f c s e (P : A → bytes → Storage → Prop) :
  stored (λ _, True) f c s → troubled f → step_ends f (Err e, s) P.
Proof. intros Hs Ht. exists c. split; [done|]. right. by exists e. Qed.

(** The space of the root pages. *)
Lemma reserve_pages_any f :
  file_content f = [] → step_ends f (storage.set_len DATA_START (SFile f)) (λ _ c _, c = replicate 8192 Byte.x00).
Proof.
  intros Hc. assert (Hst : stored (λ _, True) f [] (SFile f)).
  { exists f. split; [done|]. split; [done|]. split; [by apply history_refl|done]. }
  unfold storage.set_len, storage.dispatch, file.set_len.
  match goal with |- context [file.syscall ?b _] =>
    destruct (stored_syscall _ f _ f b Hst) as (g&Hg&Hgc&_&_&_&[(e&->&HF)|[x ->]]) end.
  - eapply step_failed; [exact Hg|by left].
  - destruct Hg as (?&[= <-]&_&Hh&?). eexists. split.
    + eexists. split; [done|]. split; [reflexivity|]. split; [|done].
      eapply (history_snoc _ f g _ (OpSetLen DATA_START)); [exact Hh|reflexivity|reflexivity|exact I].
    + left. exists (). split; [done|]. cbn [file_content file.set_content]. rewrite Hgc. reflexivity.
Qed.

(** The empty Base behind them, and its mapping. *)
Lemma empty_base_any f zeros s :
  stored (λ _, True) f zeros s → blen zeros = DATA_START →
  step_ends f (segment.write_base_at DATA_START 0 [] s) (λ size c _, size = segment.EMPTY_SEGMENT_SIZE
    ∧ ∃ w bs, c = zeros ++ bs ∧ written_as DATA_START segment.EMPTY_SEGMENT_SIZE [] w bs).
Proof.
  intros Hs Hz.
  destruct (write_base_any _ f zeros s DATA_START [] segment.EMPTY_SEGMENT_SIZE Hs) as (r&s'&c&Hr&_&Hs'&Ho);
    [done|constructor|constructor|vm_compute; reflexivity|done|done|].
  change (blen (@nil (bytes * bytes))) with 0 in Hr. unfold segment.write_base_at. destruct Ho as [(w&bs&->&->&Hw)|(e&->&HF)].
  - rewrite (M_bind_ok _ _ _ _ _ Hr). rewrite <- Hz, splice_end in Hs'. exists (zeros ++ bs). split; [exact Hs'|]. left.
    exists (segment.wb_size w). split; [done|]. split; [apply Hw|]. by exists w, bs.
  - rewrite (M_bind_err _ _ _ _ _ Hr). by eapply step_failed.
Qed.

Lemma map_base_any f zeros bs s :
  stored (λ _, True) f (zeros ++ bs) s → blen zeros = DATA_START → blen bs = segment.EMPTY_SEGMENT_SIZE →
  step_ends f (storage.load_immutable DATA_START segment.EMPTY_SEGMENT_SIZE s)
    (λ mapping c _, mapping = BaseBytes.Mapped bs ∧ c = zeros ++ bs).
Proof.
  intros Hs Hz Hb.
  assert (Hrg : get_range (zeros ++ bs) DATA_START (DATA_START + segment.EMPTY_SEGMENT_SIZE) = Some bs).
  { rewrite <- Hz. rewrite <- (app_nil_r bs) at 1. apply get_range_mid; [done|by rewrite Hb]. }
  destruct (map_any _ f _ s DATA_START segment.EMPTY_SEGMENT_SIZE bs Hs) as (r&s'&->&Hs'&_&[->|(e&->&HF)]);
    [by rewrite blen_app, Hz, Hb|reflexivity|exact Hrg| |eapply step_failed; [exact Hs'|by left]].
  exists (zeros ++ bs). split; [exact Hs'|]. left. by eexists.
Qed.

(** The root of generation one, synced. *)
Lemma first_root_any f c s sb :
  stored (λ _, True) f c s → generation sb = 1 →
  step_ends f ((_ ← superblock.write sb; storage.sync_all) s)
    (λ _ c' s', c' = splice c superblock.SUPERBLOCK_SIZE (superblock.encode_page sb) ∧ synced s').
Proof.
  intros Hs Hg. pose proof (superblock.blen_encode_page sb) as Hpl. unfold superblock.write. rewrite Hg, M_bind_assoc.
  change (Z.land 1 1 * superblock.SUPERBLOCK_SIZE) with superblock.SUPERBLOCK_SIZE.
  destruct (seek_start_any _ f _ s superblock.SUPERBLOCK_SIZE Hs) as (r1&s1&Hr1&Hs1&[[-> Hat]|(e&->&HF)]);
    [done| |rewrite (M_bind_err _ _ _ _ _ Hr1); eapply step_failed; [exact Hs1|by left]].
  rewrite (M_bind_ok _ _ _ _ _ Hr1).
  destruct (write_all_any _ f _ _ s1 (superblock.encode_page sb) Hat) as (r2&s2&d&Hr2&_&Hs2&[[-> ->]|(e&->&HF)]);
    [done|done| |rewrite (M_bind_err _ _ _ _ _ Hr2); eapply step_failed; [by eapply stored_at_stored|by left]].
  rewrite (M_bind_ok _ _ _ _ _ Hr2). rewrite over_ne in Hs2 by (intros E; by rewrite E in Hpl).
  destruct (sync_any _ f _ s2 (stored_at_stored _ _ _ _ _ Hs2) I) as (r3&s3&Hr3&Hs3&[[-> Hsy]|(e&->&HF)]);
    change storage.sync_all with storage.sync_data; rewrite Hr3; [|eapply step_failed; [exact Hs3|by left]].
  eexists. split; [exact Hs3|]. left. by exists ().
Qed.

Lemma initialize_storage_any f :
  file_content f = [] →
  step_ends f (database.initialize_storage (SFile f)) (λ _ c s, empty_database c ∧ synced s).
Proof.
  intros Hc. unfold database.initialize_storage. eapply step_bind; [by apply reserve_pages_any|].
  intros [] zeros s1 Hs1 Hzd. assert (Hz : blen zeros = DATA_START) by (rewrite Hzd; apply blen_replicate).
  eapply step_bind; [by apply (empty_base_any f zeros)|]. intros size c2 s2 Hs2 (->&w&bs&->&Hw).
  pose proof Hw as (Hsz&Hbl&Hsc&Hln&_&_&_&Hdesc).
  eapply step_bind; [by apply (map_base_any f zeros bs)|]. intros mapping c3 s3 Hs3 [-> ->]. cbn [BaseBytes.deref].
  set (sb := root_for 1 DATA_START (DATA_START + segment.EMPTY_SEGMENT_SIZE) w).
  destruct (Hdesc 1 (DATA_START + segment.EMPTY_SEGMENT_SIZE)) as (_&_&_&Hmc).
  rewrite M_lift_ok, Hmc, M_lift_ok. rewrite add_ovf_ok by done. rewrite M_lift_ok.
  assert (Hsb : MkSuperblock 1 DATA_START segment.EMPTY_SEGMENT_SIZE 0 0
     (DATA_START + segment.EMPTY_SEGMENT_SIZE) (base_checksum sb) = sb).
  { unfold sb, root_for. cbn [base_checksum]. rewrite Hsz, Hln. by injection Hsc as <-. }
  fold sb. rewrite Hsb. destruct (first_root_any f _ s3 sb Hs3 eq_refl) as (c&Hs&[(a&Ha&->&Hsy)|Ho]); [|exists c; by split; [|right]].
  eexists. split; [exact Hs|]. left. exists a. split; [exact Ha|]. split; [|exact Hsy]. exists sb. rewrite Hzd. by apply initialized_image.
Qed.

(** Initializing a new file: whichever calls fail or come up short, it succeeds only with
    the complete bytes of an empty database, synced. *)
Lemma initialize_any f :
  file_content f = [] →
  ∃ r f', database.initialize_file f = (r, f') ∧ history (λ _, True) f f'
    ∧ (r = Ok () ∧ empty_database (file_content f') ∧ last (file_trace f') = Some OpSync
       ∨ ∃ e, r = Err e ∧ troubled f).
Proof.
  intros Hc. pose proof (initialize_storage_any f Hc) as (c&(f'&E&<-&Hh&_)&Ho). rewrite initialize_lifts in E, Ho.
  destruct (database.initialize_file f) as [r f1]. cbn [fst snd] in *. injection E as <-. exists r, f1.
  split; [done|]. split; [done|]. destruct Ho as [([]&->&He&?&[= <-]&?)|Ho]; [left; by split_and!|by right].
Qed.

End Initialize.
