(* ===== verification/Creation.v ===== *)
(** * Creating and opening databases by name

    [create_with_options], [open_with_options] and their helpers of [database/mod.rs] on a
    directory: names of files, the exclusive locks of their owners and the directory calls
    of the operating system. A creation writes a temporary file completely before it gives
    it its name with a hard link, so that a crash leaves either no database or an empty one. *)

From S2P Require Import Prelude Errors Crates Io Superblock Values Log Segment Overlay Recovery View.
From S2P Require Import Base Storage Transaction Entries Database Faults Commit Written Reopen Handle Overwrite Initialize.
Import commit_facts.

#[local] Abbreviation DATA_START := superblock.DATA_START.

(** ** Directories *)

(** The changes that reach the disk: names, synced directories and the bytes of files. *)
Inductive FsOp :=
  | OpCreate (name : bytes) (ino : Z)
  | OpLink (name : bytes) (ino : Z)
  | OpUnlink (name : bytes)
  | OpSyncDir (dir : bytes)
  | OpFile (ino : Z) (op : FileOp).

(** The names of a file system, its files, the locks held on them, the counter
    [NEXT_CREATION_FILE] of the process, how the next directory calls end, how the calls
    on the next new files end, and the changes made so far. *)
Record Fs := MkFs {
  fs_names : gmap bytes Z;
  fs_files : gmap Z File;
  fs_locks : gset Z;
  fs_creations : Z;
  fs_script : list (option io_Error);
  fs_new_scripts : list (list IoFault);
  fs_trace : list FsOp
}.

(** [std::process::id()]. *)
Class Process := process_id : Z.

Module fs.

Definition set_names (names : gmap bytes Z) (op : FsOp) (s : Fs) : Fs :=
  MkFs names (fs_files s) (fs_locks s) (fs_creations s) (fs_script s) (fs_new_scripts s) (fs_trace s ++ [op]).
Definition set_locks (locks : gset Z) (s : Fs) : Fs :=
  MkFs (fs_names s) (fs_files s) locks (fs_creations s) (fs_script s) (fs_new_scripts s) (fs_trace s).
Definition set_creations (n : Z) (s : Fs) : Fs :=
  MkFs (fs_names s) (fs_files s) (fs_locks s) n (fs_script s) (fs_new_scripts s) (fs_trace s).
Definition set_script (script : list (option io_Error)) (s : Fs) : Fs :=
  MkFs (fs_names s) (fs_files s) (fs_locks s) (fs_creations s) script (fs_new_scripts s) (fs_trace s).

(** A call that returns [io::Result]: the script decides whether it fails. *)
Definition call {A} (body : Fs → (io_Error + A) * Fs) : M Fs (io_Error + A) := λ s,
  match fs_script s with
  | [] => let '(r, s) := body s in (Ok r, s)
  | None :: rest => let '(r, s) := body (set_script rest s) in (Ok r, s)
  | Some e :: rest => (Ok (inl e), set_script rest s)
  end.

(** The operator [?] on [io::Result]. *)
Definition try {A} (x : M Fs (io_Error + A)) : M Fs A :=
  r ← x; match r with inl e => lift (Err (error.from e)) | inr a => mret a end.

Definition no_entry {A} : io_Error + A := inl (IoError NotFound "No such file or directory").
Definition exists_already {A} : io_Error + A := inl (IoError AlreadyExists "File exists").

(** [OpenOptions::new().read(true).write(true).create_new(true).open(name)]. *)
Definition create_new (name : bytes) : M Fs (io_Error + Z) := call (λ s,
  match fs_names s !! name with
  | Some _ => (exists_already, s)
  | None =>
      let ino := fresh (dom (fs_files s)) in
      let file := MkFile [] 0 (default [] (head (fs_new_scripts s))) [] in
      (inr ino, MkFs (<[name := ino]> (fs_names s)) (<[ino := file]> (fs_files s)) (fs_locks s) (fs_creations s)
                  (fs_script s) (tail (fs_new_scripts s)) (fs_trace s ++ [OpCreate name ino]))
  end).

(** [OpenOptions::new().read(true).write(true).open(name)]. *)
Definition open (name : bytes) : M Fs (io_Error + Z) := call (λ s,
  match fs_names s !! name with Some ino => (inr ino, s) | None => (no_entry, s) end).

(** [fs::symlink_metadata(name)]. *)
Definition symlink_metadata (name : bytes) : M Fs (io_Error + ()) := call (λ s,
  match fs_names s !! name with Some _ => (inr (), s) | None => (no_entry, s) end).

(** [FileExt::try_lock_exclusive]; the last descriptor of a file releases its lock. *)
Definition try_lock_exclusive (ino : Z) : M Fs (io_Error + ()) := call (λ s,
  if bool_decide (ino ∈ fs_locks s)
  then (inl (IoError WouldBlock "Resource temporarily unavailable"), s)
  else (inr (), set_locks ({[ino]} ∪ fs_locks s) s)).
Definition close (ino : Z) : M Fs () := modify (λ s, set_locks (fs_locks s ∖ {[ino]}) s).

Definition hard_link (original link : bytes) : M Fs (io_Error + ()) := call (λ s,
  match fs_names s !! original, fs_names s !! link with
  | None, _ => (no_entry, s)
  | Some _, Some _ => (exists_already, s)
  | Some ino, None => (inr (), set_names (<[link := ino]> (fs_names s)) (OpLink link ino) s)
  end).

Definition remove_file (name : bytes) : M Fs (io_Error + ()) := call (λ s,
  match fs_names s !! name with
  | None => (no_entry, s)
  | Some _ => (inr (), set_names (delete name (fs_names s)) (OpUnlink name) s)
  end).

(** Directories with a name exist: [create_dir_all] made the parent of a database, and
    accepts the empty path, which [File::open] does not. *)
Definition create_dir_all (dir : bytes) : M Fs (io_Error + ()) := call (λ s, (inr (), s)).
Definition open_directory (dir : bytes) : M Fs (io_Error + ()) := call (λ s,
  match dir with [] => (no_entry, s) | _ => (inr (), s) end).
Definition sync_all (dir : bytes) : M Fs (io_Error + ()) := call (λ s,
  (inr (), set_names (fs_names s) (OpSyncDir dir) s)).

(** Runs an operation of an open file. *)
Definition on_file {A} (ino : Z) (x : M File A) : M Fs A := λ s,
  match fs_files s !! ino with
  | None => (Panic, s)
  | Some f =>
      let '(r, f') := x f in
      (r, MkFs (fs_names s) (<[ino := f']> (fs_files s)) (fs_locks s) (fs_creations s) (fs_script s) (fs_new_scripts s)
            (fs_trace s ++ (OpFile ino <$> drop (length (file_trace f)) (file_trace f'))))
  end.

End fs.

(** *** [std::path] *)

Module path.

Definition SLASH : Byte.byte := Byte.x2f.
Definition DOT : Byte.byte := Byte.x2e.

(** On a reversed path: drops separators and [.] components at its end. *)
Fixpoint trim (p : bytes) : bytes :=
  match p with
  | c :: rest =>
      if bool_decide (c = SLASH) then (match rest with [] => [SLASH] | _ => trim rest end)
      else match rest with
           | d :: _ => if bool_decide (c = DOT) && bool_decide (d = SLASH) then trim rest else p
           | [] => p
           end
  | [] => []
  end.

Fixpoint drop_component (p : bytes) : bytes :=
  match p with
  | c :: rest => if bool_decide (c = SLASH) then p else drop_component rest
  | [] => []
  end.

(** [Path::parent]. *)
Definition parent (p : bytes) : option bytes :=
  let p := trim (rev p) in
  if bool_decide (p = []) || bool_decide (p = [SLASH]) then None
  else Some (rev (trim (drop_component p))).

End path.

(** ** Creating *)

Module creation.
Section Creation.
Context `{Crc32c, Xxh3, Alloc, HashTables, Process}.

(** A name for the temporary file of a creation: the [n]th of this process. *)
Definition temporary_name (p : bytes) (n : Z) : bytes :=
  p ++ String.list_byte_of_string (".creating-" +:+ fmt_num process_id +:+ "-" +:+ fmt_num n).

(** [creation_path]; the counter wraps around. *)
Definition creation_path (p : bytes) : M Fs bytes :=
  n ← gets fs_creations;
  _ ← modify (fs.set_creations ((n + 1) mod U64));
  mret (temporary_name p n).

Definition lock_database_file (ino : Z) : M Fs () :=
  r ← fs.try_lock_exclusive ino;
  match r with
  | inr _ => mret ()
  | inl e => lift (Err (error.from_io WouldBlock
               ("database is already open for writing: " +:+ io_message e)))
  end.

Definition sync_directory (dir : bytes) : M Fs () :=
  _ ← fs.try (fs.open_directory dir);
  fs.try (fs.sync_all dir).

(** The end of a scope that owns the descriptor [ino] unless it returns it. *)
Definition owning {A} (ino : Z) (x : M Fs A) : M Fs A :=
  catch x (λ r, match r with
                | Ok a => mret a
                | Err e => _ ← fs.close ino; lift (Err e)
                | Panic => lift Panic
                end).

(** [drop(file); let _ = fs::remove_file(&temporary); return Err(error)]. *)
Definition abandon (ino : Z) (temporary : bytes) (e : Error) : M Fs Z :=
  _ ← fs.close ino;
  _ ← fs.remove_file temporary;
  lift (Err e).

(** What follows the completed temporary file in an iteration of [create_database_file]. *)
Definition link_database (p temporary : bytes) (ino : Z) : M Fs Z :=
  let parent := default [path.DOT] (path.parent p) in
  linked ← fs.hard_link temporary p;
  match linked with
  | inr _ =>
      _ ← sync_directory parent;
      _ ← fs.try (fs.remove_file temporary);
      _ ← sync_directory parent;
      mret ino
  | inl e =>
      if bool_decide (io_kind e = AlreadyExists) then
        _ ← fs.close ino;
        _ ← fs.try (fs.remove_file temporary);
        _ ← sync_directory parent;
        lift (Err (error.from e))
      else abandon ino temporary (error.from e)
  end.

Definition fill_database (p temporary : bytes) (ino : Z) : M Fs Z :=
  catch (lock_database_file ino) (λ r, match r with
    | Err e => abandon ino temporary e
    | Panic => lift Panic
    | Ok _ =>
        catch (fs.on_file ino database.initialize_file) (λ r, match r with
          | Err e => abandon ino temporary e
          | Panic => lift Panic
          | Ok _ => owning ino (link_database p temporary ino)
          end)
    end).

Fixpoint create_loop (attempts : nat) (p : bytes) : M Fs Z :=
  match attempts with
  | O => lift (Err (error.from_io AlreadyExists "could not allocate a unique database creation file"))
  | S attempts =>
      temporary ← creation_path p;
      created ← fs.create_new temporary;
      match created with
      | inr ino => fill_database p temporary ino
      | inl e => if bool_decide (io_kind e = AlreadyExists) then create_loop attempts p
                 else lift (Err (error.from e))
      end
  end.

Definition create_database_file (p : bytes) : M Fs Z := create_loop 16 p.

Definition open_database_file (p : bytes) : M Fs Z :=
  ino ← fs.try (fs.open p);
  _ ← owning ino (lock_database_file ino);
  mret ino.

(** A handle on an open file, which it owns: the descriptor and the handle. A descriptor
    that was just opened stands at the start of its file. *)
Definition with_file (ino : Z) (x : File → result Database * Storage) : M Fs (Z * Database) :=
  db ← owning ino (fs.on_file ino (λ f, let '(r, s) := x f in
    (r, match s with SFile f' => f' | SMemory _ => f end)));
  mret (ino, db).

(** [Drop for Database]: unlocks and closes the file, which is then as the handle left it.
    Nobody else opens it before, since the handle holds its lock. *)
Definition drop_database (ino : Z) (db : Database) : M Fs () :=
  match db_storage db with
  | SFile f => _ ← fs.on_file ino (λ _, (Ok (), f)); fs.close ino
  | SMemory _ => mret ()
  end.

Definition open_with_options (p : bytes) (options : DatabaseOptions) : M Fs (Z * Database) :=
  _ ← lift (database.validate_options options);
  ino ← open_database_file p;
  with_file ino (λ f, database.open_with_options (file.set_pos 0 f) options).

Definition open (p : bytes) : M Fs (Z * Database) := open_with_options p options.default.

Definition create_with_options (p : bytes) (options : DatabaseOptions) : M Fs (Z * Database) :=
  _ ← lift (database.validate_options options);
  _ ← match path.parent p with
      | Some parent => fs.try (fs.create_dir_all parent)
      | None => mret ()
      end;
  found ← fs.symlink_metadata p;
  match found with
  | inr _ => lift (Err (error.from_io AlreadyExists "database already exists"))
  | inl e =>
      if bool_decide (io_kind e = NotFound) then
        ino ← create_database_file p;
        with_file ino (λ f, database.from_storage (SFile f) options)
      else lift (Err (error.from e))
  end.

Definition create (p : bytes) : M Fs (Z * Database) := create_with_options p options.default.

End Creation.

(** ** What is on the disk *)

Record Disk := MkDisk { d_names : gmap bytes Z; d_contents : gmap Z bytes }.

Definition disk_of (s : Fs) : Disk := MkDisk (fs_names s) (file_content <$> fs_files s).

(** The content of the file with a name. *)
Definition disk_read (d : Disk) (name : bytes) : option bytes :=
  ino ← d_names d !! name; d_contents d !! ino.

Definition replay_fs_op (d : Disk) (op : FsOp) : Disk :=
  match op with
  | OpCreate name ino => MkDisk (<[name := ino]> (d_names d)) (<[ino := []]> (d_contents d))
  | OpLink name ino => MkDisk (<[name := ino]> (d_names d)) (d_contents d)
  | OpUnlink name => MkDisk (delete name (d_names d)) (d_contents d)
  | OpSyncDir _ => d
  | OpFile ino op => MkDisk (d_names d) (alter (λ c, replay_op c op) ino (d_contents d))
  end.
Definition replay_fs : Disk → list FsOp → Disk := foldl replay_fs_op.

(** [s] was reached from [s0] by changes after each of which the disk satisfied [R]. *)
Definition fs_history (R : Disk → Prop) (s0 s : Fs) : Prop :=
  ∃ ops, fs_trace s = fs_trace s0 ++ ops ∧ replay_fs (disk_of s0) ops = disk_of s
    ∧ ∀ k, R (replay_fs (disk_of s0) (take k ops)).

Section Disks.
Implicit Types (R : Disk → Prop) (s : Fs).

Lemma fs_history_refl R s : R (disk_of s) → fs_history R s s.
Proof. intros HR. exists []. split; [by rewrite app_nil_r|]. split; [done|]. intros k. by rewrite take_nil. Qed.

Lemma fs_history_app R s0 s s' ops :
  fs_history R s0 s → fs_trace s' = fs_trace s ++ ops → replay_fs (disk_of s) ops = disk_of s' →
  (∀ k, R (replay_fs (disk_of s) (take k ops))) → fs_history R s0 s'.
Proof.
  intros (ops0&Ht&Hd&Hk) Ht' Hd' Hk'. exists (ops0 ++ ops). split; [by rewrite Ht', Ht, app_assoc|].
  unfold replay_fs in *. split; [by rewrite foldl_app, Hd|]. intros k. rewrite take_app, foldl_app.
  destruct (decide (k ≤ length ops0)%nat).
  - replace (k - length ops0)%nat with 0%nat by lia. cbn. apply Hk.
  - rewrite take_ge, Hd by lia. apply Hk'.
Qed.

Lemma fs_history_snoc R s0 s s' op :
  fs_history R s0 s → fs_trace s' = fs_trace s ++ [op] → replay_fs_op (disk_of s) op = disk_of s' →
  R (disk_of s') → fs_history R s0 s'.
Proof.
  intros Hh Ht Hd HR. pose proof Hh as (ops&_&Hd0&Hk).
  eapply fs_history_app; [exact Hh|exact Ht|exact Hd|]. intros [|k]; cbn.
  - specialize (Hk (length ops)). by rewrite take_ge, Hd0 in Hk by lia.
  - rewrite take_nil. cbn. by rewrite Hd.
Qed.

Lemma fs_history_same R s0 s s' :
  fs_history R s0 s → fs_trace s' = fs_trace s → fs_names s' = fs_names s → fs_files s' = fs_files s → fs_history R s0 s'.
Proof.
  intros (ops&Ht&Hd&Hk) Ht' Hn Hf. exists ops. split; [congruence|]. split; [|done]. rewrite Hd. unfold disk_of. by rewrite Hn, Hf.
Qed.

(** The changes of one file, replayed on the disk. *)
Lemma replay_file names contents ino c ops :
  replay_fs (MkDisk names (<[ino := c]> contents)) (OpFile ino <$> ops) = MkDisk names (<[ino := replay c ops]> contents).
Proof.
  revert c. induction ops as [|op ops IH]; intros c; [done|]. cbn. rewrite alter_insert_eq. apply IH.
Qed.

(** One directory call. *)
Lemma call_any {A} (body : Fs → (io_Error + A) * Fs) s :
  ∃ script, let s1 := fs.set_script script s in
    (∃ e, fs.call body s = (Ok (inl e), s1)) ∨ fs.call body s = (let '(r, s2) := body s1 in (Ok r, s2)).
Proof.
  unfold fs.call. destruct (fs_script s) as [|[e|] rest] eqn:E.
  - exists []. right. destruct s. cbn in *. by subst.
  - exists rest. left. by exists e.
  - exists rest. by right.
Qed.

End Disks.

(** ** A creation under failures *)

Section Safety.
Context `{Crc32cLaws, Xxh3Laws, Alloc, HashTables, Process}.
Context (s0 : Fs) (p : bytes).
Hypothesis Hfiles : ∀ name i, fs_names s0 !! name = Some i → is_Some (fs_files s0 !! i).
Hypothesis Hfree : fs_names s0 !! p = None.

(** The other files are as they were, apart from temporary ones, and the database is
    either not there or complete and empty. *)
Definition safe (d : Disk) : Prop :=
  (∀ name, name ≠ p → (∀ n, name ≠ temporary_name p n) → disk_read d name = disk_read (disk_of s0) name)
  ∧ (disk_read d p = None ∨ ∃ c, disk_read d p = Some c ∧ empty_database c).

Lemma safe_start : safe (disk_of s0).
Proof using Hfree. split; [done|]. left. unfold disk_read. cbn. by rewrite Hfree. Qed.

Section Attempt.
Context (n : Z) (ino : Z).
#[local] Abbreviation t := (temporary_name p n).
#[local] Abbreviation names1 := (<[t := ino]> (fs_names s0)).
#[local] Abbreviation names2 := (<[p := ino]> names1).
#[local] Abbreviation names3 := (<[p := ino]> (fs_names s0)).
Hypothesis Ht : fs_names s0 !! t = None.
Hypothesis Hino : fs_files s0 !! ino = None.

Lemma temporary_ne : t ≠ p.
Proof.
  unfold temporary_name. intros E. rewrite <- (app_nil_r p) in E at 2. apply app_inv_head in E. discriminate E.
Qed.

Lemma safe_names names c :
  (∀ name, name ≠ p → name ≠ t → names !! name = fs_names s0 !! name) →
  (names !! p = None ∨ names !! p = Some ino ∧ empty_database c) →
  safe (MkDisk names (<[ino := c]> (file_content <$> fs_files s0))).
Proof using Hfiles Hino.
  intros Ho Hp. unfold safe, disk_read. cbn [d_names d_contents disk_of]. split.
  - intros name Hne Hnt. rewrite Ho by done. destruct (fs_names s0 !! name) as [i|] eqn:E; [|done]. cbn.
    rewrite lookup_insert_ne; [done|]. intros <-. destruct (Hfiles _ _ E) as [f Hf]. congruence.
  - destruct Hp as [->|[-> Hc]]; [by left|right]. exists c. cbn. by rewrite lookup_insert_eq.
Qed.

(** The directory has [names] and the temporary file is [f]. *)
Definition during (names : gmap bytes Z) (f : File) (s : Fs) : Prop :=
  fs_names s = names ∧ fs_files s = <[ino := f]> (fs_files s0) ∧ fs_history safe s0 s.

Lemma during_same names f s s' :
  during names f s → fs_trace s' = fs_trace s → fs_names s' = fs_names s → fs_files s' = fs_files s → during names f s'.
Proof. intros (?&?&Hh) ???. split_and!; [congruence..|]. by eapply fs_history_same. Qed.

(** A change of the names that keeps the disk safe. *)
Lemma during_names names f s names' op s' :
  during names f s → fs_names s' = names' → fs_files s' = fs_files s → fs_trace s' = fs_trace s ++ [op] →
  replay_fs_op (disk_of s) op = MkDisk names' (d_contents (disk_of s)) →
  (∀ name, name ≠ p → name ≠ t → names' !! name = fs_names s0 !! name) →
  (names' !! p = None ∨ names' !! p = Some ino ∧ empty_database (file_content f)) → during names' f s'.
Proof using Hfiles Hino.
  intros (Hn&Hf&Hh) Hn' Hf' Ht' Hr Ho Hp. split; [done|]. split; [congruence|].
  assert (Hd : disk_of s' = MkDisk names' (d_contents (disk_of s))) by (unfold disk_of; cbn; by rewrite Hn', Hf').
  eapply fs_history_snoc; [exact Hh|exact Ht'|by rewrite Hr|]. rewrite Hd. cbn. rewrite Hf, fmap_insert. by apply safe_names.
Qed.

(** Stages of the directory: with the temporary name, with both, with the final one. *)
Definition stage names f : Prop :=
  names = names1 ∨ (names = names2 ∨ names = names3) ∧ empty_database (file_content f) ∨ names = fs_names s0.

Lemma stage_names names f :
  stage names f → (∀ name, name ≠ p → name ≠ t → names !! name = fs_names s0 !! name)
    ∧ (names !! p = None ∨ names !! p = Some ino ∧ empty_database (file_content f)).
Proof using Hfree.
  pose proof temporary_ne as Hne. intros [->|[[[->| ->] He]| ->]]; (split; [intros name Hp Hnt|]).
  all: rewrite ?lookup_insert_eq, ?lookup_insert_ne by done; auto.
Qed.

Lemma close_during names f s : during names f s → ∃ s', fs.close ino s = (Ok (), s') ∧ during names f s'.
Proof. intros Hd. eexists. split; [done|]. by eapply during_same. Qed.

Lemma lock_during names f s :
  during names f s → ∃ r s', lock_database_file ino s = (r, s') ∧ during names f s' ∧ r ≠ Panic
    ∧ (r = Ok () → ino ∈ fs_locks s').
Proof.
  intros Hd. unfold lock_database_file, fs.try_lock_exclusive. match goal with |- context [fs.call ?b] =>
    destruct (call_any b s) as (script&[[e Hc]|Hc]) end.
  - rewrite (M_bind_ok _ _ _ _ _ Hc). eexists _, _. split; [done|]. split; [by eapply during_same|done].
  - destruct (bool_decide _) in Hc; rewrite (M_bind_ok _ _ _ _ _ Hc); eexists _, _; (split; [done|]);
      (split; [by eapply during_same|]); (split; [done|]); [done|]. intros _. cbn. set_solver.
Qed.

Lemma remove_during names f s :
  during names f s → stage names f →
  ∃ r s' names', fs.remove_file t s = (Ok r, s') ∧ during names' f s'
    ∧ fs_locks s' = fs_locks s ∧ stage names' f ∧ (r = inr () → names' = delete t names).
Proof using Hfiles Hfree Ht Hino.
  intros Hd Hst. pose proof temporary_ne as Hne. pose proof Hd as (Hn&_). unfold fs.remove_file.
  match goal with |- context [fs.call ?b] => destruct (call_any b s) as (script&[[e Hc]|Hc]) end.
  { eexists _, _, names. split; [exact Hc|]. split; [by eapply during_same|]. split; [done|]. by split. }
  cbn [fs_names fs.set_script] in Hc. rewrite Hn in Hc. destruct (names !! t) as [i|] eqn:E.
  2:{ eexists _, _, names. split; [exact Hc|]. split; [by eapply during_same|]. split; [done|]. by split. }
  assert (Hst' : stage (delete t names) f).
  { destruct Hst as [->|[[[->| ->] He]| ->]].
    - right; right. by rewrite delete_insert_id.
    - right; left. split; [right|done]. by rewrite delete_insert_ne, delete_insert_id.
    - right; left. split; [right|done]. apply delete_id. by rewrite lookup_insert_ne.
    - right; right. by apply delete_id. }
  destruct (stage_names _ _ Hst') as [Ho Hp].
  eexists _, _, (delete t names). split; [exact Hc|]. split; [|by auto].
  eapply (during_names names f s _ (OpUnlink t)); try done. cbn. by rewrite Hn.
Qed.

Lemma sync_during names f s dir :
  during names f s → stage names f →
  ∃ r s', sync_directory dir s = (r, s') ∧ during names f s' ∧ r ≠ Panic ∧ fs_locks s' = fs_locks s
    ∧ (r = Ok () → last (fs_trace s') = Some (OpSyncDir dir)).
Proof using Hfiles Hfree Hino.
  intros Hd Hst. destruct (stage_names _ _ Hst) as [Ho Hp].
  unfold sync_directory, fs.try, fs.open_directory. rewrite M_bind_assoc.
  match goal with |- context [fs.call ?b ≫= _] => destruct (call_any b s) as (script&[[e Hc]|Hc]) end.
  { rewrite (M_bind_ok _ _ _ _ _ Hc). eexists (Err _), _. split; [done|]. split; [by eapply during_same|done]. }
  destruct dir as [|x dir]; rewrite (M_bind_ok _ _ _ _ _ Hc).
  { eexists (Err _), _. split; [done|]. split; [by eapply during_same|done]. }
  set (s1 := fs.set_script script s). assert (Hd1 : during names f s1) by (by eapply during_same).
  rewrite (M_bind_ok (mret _) _ s1 _ s1 eq_refl). unfold fs.sync_all.
  match goal with |- context [fs.call ?b] => destruct (call_any b s1) as (script2&[[e Hc2]|Hc2]) end;
    rewrite (M_bind_ok _ _ _ _ _ Hc2).
  - eexists (Err _), _. split; [done|]. split; [by eapply during_same|done].
  - eexists (Ok ()), _. split; [done|]. split; [|split; [done|split; [done|intros _; cbn; by rewrite last_snoc]]].
    pose proof Hd1 as (Hn&_). eapply (during_names names f s1 _ (OpSyncDir (x :: dir))); try done. cbn [replay_fs_op]. unfold disk_of. by rewrite Hn.
Qed.

(** How an attempt ends: with the database under its name, complete, locked by nobody
    else and its directory synced, or with an error on a safe disk. *)
Definition parent_directory : bytes := default [path.DOT] (path.parent p).

Definition ends (r : result Z) (s : Fs) : Prop :=
  match r with
  | Ok i => i = ino ∧ ino ∈ fs_locks s ∧ last (fs_trace s) = Some (OpSyncDir parent_directory)
      ∧ ∃ f, during names3 f s ∧ empty_database (file_content f)
  | Err _ => ∃ names f, during names f s
  | Panic => False
  end.

Lemma abandon_any names f s e :
  during names f s → stage names f → ∃ r s', abandon ino t e s = (r, s') ∧ ends r s'.
Proof using Hfiles Hfree Ht Hino.
  intros Hd Hst. unfold abandon. destruct (close_during _ _ _ Hd) as (s1&Hc&Hd1). rewrite (M_bind_ok _ _ _ _ _ Hc).
  destruct (remove_during _ _ _ Hd1 Hst) as (r&s2&names'&Hr&Hd2&_). rewrite (M_bind_ok _ _ _ _ _ Hr).
  exists (Err e), s2. split; [done|]. by exists names', f.
Qed.

(** The steps after a link that succeeded. *)
Lemma linked_any f s :
  during names2 f s → empty_database (file_content f) → ino ∈ fs_locks s →
  ∃ r s', (_ ← sync_directory parent_directory; _ ← fs.try (fs.remove_file t); _ ← sync_directory parent_directory; mret ino) s
      = (r, s') ∧ ends r s'.
Proof using Hfiles Hfree Ht Hino.
  intros Hd He Hlk. pose proof temporary_ne as Hne. assert (Hs2 : stage names2 f) by (right; left; split; [by left|done]).
  destruct (sync_during _ _ _ parent_directory Hd Hs2) as (r1&s1&Hr1&Hd1&Hp1&Hk1&_).
  destruct r1 as [[]|e|]; [rewrite (M_bind_ok _ _ _ _ _ Hr1)|rewrite (M_bind_err _ _ _ _ _ Hr1)|done].
  2:{ exists (Err e), s1. split; [done|]. by eexists _, _. }
  destruct (remove_during _ _ _ Hd1 Hs2) as (r2&s2&names'&Hr2&Hd2&Hk2&Hs3&Hdel).
  unfold fs.try. rewrite M_bind_assoc, (M_bind_ok _ _ _ _ _ Hr2). destruct r2 as [e|[]].
  { exists (Err (error.from e)), s2. split; [done|]. by eexists _, _. }
  rewrite (M_bind_ok (mret _) _ s2 _ s2 eq_refl).
  destruct (sync_during _ _ _ parent_directory Hd2 Hs3) as (r3&s3&Hr3&Hd3&Hp3&Hk3&Hsy).
  destruct r3 as [[]|e|]; [rewrite (M_bind_ok _ _ _ _ _ Hr3)|rewrite (M_bind_err _ _ _ _ _ Hr3)|done].
  - exists (Ok ino), s3. split; [done|]. split; [done|].
    split; [by rewrite Hk3, Hk2, Hk1|]. split; [by apply Hsy|]. exists f. split; [|done].
    rewrite (Hdel eq_refl), delete_insert_ne, delete_insert_id in Hd3 by done. done.
  - exists (Err e), s3. split; [done|]. by eexists _, _.
Qed.

Lemma link_any f s :
  during names1 f s → empty_database (file_content f) → ino ∈ fs_locks s →
  ∃ r s', link_database p t ino s = (r, s') ∧ ends r s'.
Proof using Hfiles Hfree Ht Hino.
  intros Hd He Hlk. pose proof temporary_ne as Hne. pose proof Hd as (Hn&_). unfold link_database. cbv zeta. fold parent_directory.
  assert (Hs1 : stage names1 f) by (by left).
  (* the link failed and changed nothing *)
  assert (Hfail : ∀ e s1, during names1 f s1 → ∃ r s', (if bool_decide (io_kind e = AlreadyExists) then
        _ ← fs.close ino; _ ← fs.try (fs.remove_file t); _ ← sync_directory parent_directory; lift (Err (error.from e))
      else abandon ino t (error.from e)) s1 = (r, s') ∧ ends r s').
  { intros e s1 Hd1. case_bool_decide; [|by eapply abandon_any].
    destruct (close_during _ _ _ Hd1) as (s2&Hc&Hd2). rewrite (M_bind_ok _ _ _ _ _ Hc).
    destruct (remove_during _ _ _ Hd2 Hs1) as (r3&s3&names'&Hr3&Hd3&_&Hs3&_). unfold fs.try.
    rewrite M_bind_assoc, (M_bind_ok _ _ _ _ _ Hr3). destruct r3 as [e'|[]].
    { exists (Err (error.from e')), s3. split; [done|]. by eexists _, _. }
    rewrite (M_bind_ok (mret _) _ s3 _ s3 eq_refl).
    destruct (sync_during _ _ _ parent_directory Hd3 Hs3) as (r4&s4&Hr4&Hd4&Hp4&_&_).
    destruct r4 as [[]|e'|]; [rewrite (M_bind_ok _ _ _ _ _ Hr4)|rewrite (M_bind_err _ _ _ _ _ Hr4)|done].
    all: eexists (Err _), s4; split; [done|]; by eexists _, _. }
  unfold fs.hard_link. match goal with |- context [fs.call ?b] => destruct (call_any b s) as (script&[[e Hc]|Hc]) end.
  { rewrite (M_bind_ok _ _ _ _ _ Hc). apply Hfail. by eapply during_same. }
  cbn [fs_names fs.set_script] in Hc. rewrite Hn, lookup_insert_eq, lookup_insert_ne, Hfree in Hc by done.
  rewrite (M_bind_ok _ _ _ _ _ Hc). eapply linked_any; [|done|done].
  destruct (stage_names names2 f) as [Ho Hp]; [right; left; split; [by left|done]|].
  eapply (during_names names1 f s names2 (OpLink p ino)); try done. cbn. by rewrite Hn.
Qed.

Lemma fill_any f s :
  during names1 f s → file_content f = [] → ∃ r s', fill_database p t ino s = (r, s') ∧ ends r s'.
Proof using All.
  intros Hd Hc. unfold fill_database. assert (Hs1 : ∀ f, stage names1 f) by (by left).
  destruct (lock_during _ _ _ Hd) as (r1&s1&Hr1&Hd1&Hp1&Hlk). unfold catch at 1. rewrite Hr1.
  destruct r1 as [[]|e|]; [|by eapply abandon_any|done].
  pose proof Hd1 as (Hn&Hf&Hh). destruct (initialize_any f Hc) as (r2&f2&Hr2&(ops&Ht2&Hc2&_)&Ho2).
  assert (∃ s2, fs.on_file ino database.initialize_file s1 = (r2, s2) ∧ during names1 f2 s2 ∧ fs_locks s2 = fs_locks s1)
    as (s2&Hr3&Hd2&Hk2).
  { unfold fs.on_file. rewrite Hf, lookup_insert_eq, Hr2. eexists. split; [done|]. split; [|done].
    split; [done|]. split; [cbn; by rewrite insert_insert_eq|].
    rewrite Ht2, drop_app_length. eapply fs_history_app; [exact Hh|done| |].
    - unfold disk_of. cbn [fs_names fs_files]. rewrite Hf, insert_insert_eq, !fmap_insert, replay_file. by rewrite Hc2.
    - intros k. unfold disk_of. rewrite Hf, fmap_insert, <- fmap_take, replay_file.
      destruct (stage_names names1 f2 (Hs1 f2)) as [Ho [Hp|[Hp _]]]; rewrite Hn; [by apply safe_names; [|left]|].
      rewrite lookup_insert_ne in Hp by apply temporary_ne. congruence. }
  unfold catch. rewrite Hr3. destruct Ho2 as [(->&He&_)|(e&->&_)]; [|by eapply abandon_any].
  destruct (link_any f2 s2 Hd2 He) as (r4&s4&Hr4&He4); [rewrite Hk2; by apply Hlk|]. unfold owning, catch. rewrite Hr4.
  destruct r4 as [i|e|]; [by exists (Ok i), s4| |done].
  destruct He4 as (names&f4&Hd4). destruct (close_during _ _ _ Hd4) as (s5&Hc5&Hd5). rewrite (M_bind_ok _ _ _ _ _ Hc5).
  exists (Err e), s5. split; [done|]. by exists names, f4.
Qed.

End Attempt.

(** The end of a creation: the disk was safe all along, and on success the database is
    complete under its name, its file locked, its directory synced and no other name added. *)
Definition created (r : result Z) (s : Fs) : Prop :=
  fs_history safe s0 s
  ∧ match r with
    | Ok ino => ino ∈ fs_locks s ∧ last (fs_trace s) = Some (OpSyncDir parent_directory)
        ∧ fs_names s = <[p := ino]> (fs_names s0)
        ∧ ∃ f, fs_files s = <[ino := f]> (fs_files s0) ∧ empty_database (file_content f)
    | Err _ => True
    | Panic => False
    end.

Lemma create_loop_any attempts s :
  fs_names s = fs_names s0 → fs_files s = fs_files s0 → fs_history safe s0 s →
  ∃ r s', create_loop attempts p s = (r, s') ∧ created r s'.
Proof using All.
  revert s. induction attempts as [|attempts IH]; intros s Hn Hf Hh; [by eexists (Err _), s|].
  cbn [create_loop]. unfold creation_path. rewrite M_bind_assoc, (M_bind_ok (gets _) _ s _ s eq_refl).
  rewrite M_bind_assoc, (M_bind_ok (modify _) _ _ _ _ eq_refl), (M_bind_ok (mret _) _ _ _ _ eq_refl).
  set (n := fs_creations s). set (s1 := fs.set_creations _ s).
  assert (Hretry : ∀ e s2, fs_trace s2 = fs_trace s1 → fs_names s2 = fs_names s1 → fs_files s2 = fs_files s1 →
    ∃ r s', (if bool_decide (io_kind e = AlreadyExists) then create_loop attempts p else lift (Err (error.from e))) s2 = (r, s')
      ∧ created r s').
  { intros e s2 E1 E2 E3. assert (Hh2 : fs_history safe s0 s2) by (by eapply fs_history_same).
    case_bool_decide; [apply IH; [by rewrite E2|by rewrite E3|done]|]. by eexists (Err _), s2. }
  unfold fs.create_new. match goal with |- context [fs.call ?b] => destruct (call_any b s1) as (script&[[e Hc]|Hc]) end.
  { rewrite (M_bind_ok _ _ _ _ _ Hc). by apply Hretry. }
  cbn [fs_names fs.set_script fs_files s1 fs.set_creations] in Hc. rewrite Hn, Hf in Hc.
  destruct (fs_names s0 !! temporary_name p n) as [i|] eqn:Et; rewrite (M_bind_ok _ _ _ _ _ Hc); [by apply (Hretry (IoError AlreadyExists "File exists"))|].
  set (ino := fresh (dom (fs_files s0))). set (f := MkFile [] 0 _ []). set (s2 := MkFs _ _ _ _ _ _ _).
  assert (Hino : fs_files s0 !! ino = None) by (apply not_elem_of_dom, is_fresh).
  assert (Hd : during ino (<[temporary_name p n := ino]> (fs_names s0)) f s2).
  { split; [done|]. split; [done|]. eapply (fs_history_snoc safe s0 s s2 (OpCreate (temporary_name p n) ino)); [done|done| |].
    - unfold disk_of. cbn. by rewrite Hn, Hf, fmap_insert.
    - unfold disk_of. cbn. rewrite fmap_insert. cbn. eapply (safe_names n ino Hino); [|left].
      + intros name _ Hne. by rewrite lookup_insert_ne.
      + by rewrite lookup_insert_ne by apply temporary_ne. }
  destruct (fill_any n ino Et Hino f s2 Hd eq_refl) as (r&s'&Hr&He). exists r, s'. split; [exact Hr|].
  destruct r as [i|e|]; [|by destruct He as (?&?&?&?&?)|done].
  destruct He as (->&Hlk&Hl&f'&(Hn'&Hf'&Hh')&He). split; [done|]. split; [done|]. split; [done|]. split; [done|]. by exists f'.
Qed.

End Safety.
(** ** A creation without failures *)

Section Quiet.
Context `{Crc32cLaws, Xxh3Laws, Alloc, HashTablesLaws, Process}.
Implicit Types (s : Fs).

Lemma call_quiet {A} (body : Fs → (io_Error + A) * Fs) s :
  fs_script s = [] → fs.call body s = (let '(r, s') := body s in (Ok r, s')).
Proof. intros Hq. unfold fs.call. by rewrite Hq. Qed.

(** No call is going to fail, and the temporary name and a lock are to be had. *)
Definition ready s (p : bytes) : Prop :=
  fs_script s = [] ∧ fs_new_scripts s = [] ∧ fs_names s !! p = None
  ∧ fs_names s !! temporary_name p (fs_creations s) = None
  ∧ (∀ ino, ino ∈ fs_locks s → is_Some (fs_files s !! ino)).

(** No call is going to fail, and locks are held on files only. *)
Definition settled s : Prop :=
  fs_script s = [] ∧ fs_new_scripts s = [] ∧ ∀ ino, ino ∈ fs_locks s → is_Some (fs_files s !! ino).

(** Up to the link everything goes well. *)
Lemma create_linked s p :
  ready s p → (∀ n, try_reserve n = true) →
  let t := temporary_name p (fs_creations s) in
  ∃ ino f s2, fs_files s !! ino = None ∧ stream_ok f ∧ empty_database (file_content f)
    ∧ fs_names s2 = <[p := ino]> (<[t := ino]> (fs_names s)) ∧ fs_files s2 = <[ino := f]> (fs_files s)
    ∧ fs_script s2 = [] ∧ fs_new_scripts s2 = [] ∧ fs_locks s2 = {[ino]} ∪ fs_locks s
    ∧ create_database_file p s = owning ino (
        _ ← sync_directory (parent_directory p); _ ← fs.try (fs.remove_file t);
        _ ← sync_directory (parent_directory p); mret ino) s2.
Proof.
  intros (Hq&Hnew&Hp&Ht&Hlk) Ha t. pose proof (temporary_ne p (fs_creations s)) as Hne. fold t in Ht, Hne.
  unfold create_database_file. change 16%nat with (S 15). cbn [create_loop].
  unfold creation_path. rewrite M_bind_assoc, (M_bind_ok (gets _) _ s _ s eq_refl).
  rewrite M_bind_assoc, (M_bind_ok (modify _) _ _ _ _ eq_refl), (M_bind_ok (mret _) _ _ _ _ eq_refl). fold t.
  set (s1 := fs.set_creations _ s). set (ino := fresh (dom (fs_files s))).
  assert (Hino : fs_files s !! ino = None) by (apply not_elem_of_dom, is_fresh).
  destruct (initialize_clean (MkFile [] 0 [] []) ltac:(by split) eq_refl Ha) as (f&sb&Hi&Hok&Hg&Him&Hl&_).
  unfold fs.create_new. erewrite (M_bind_ok (fs.call _)) by (rewrite call_quiet by exact Hq; cbn [fs_names fs_files fs_new_scripts s1 fs.set_creations];
    rewrite Ht, Hnew; reflexivity).
  fold ino. set (s2 := MkFs _ _ _ _ _ _ _). unfold fill_database, catch at 1.
  set (s3 := fs.set_locks ({[ino]} ∪ fs_locks s2) s2).
  assert (Hlock : lock_database_file ino s2 = (Ok (), s3)).
  { unfold lock_database_file. rewrite (M_bind_ok (fs.try_lock_exclusive ino) _ s2 (inr ()) s3); [reflexivity|].
    unfold fs.try_lock_exclusive. rewrite call_quiet by exact Hq. rewrite bool_decide_false; [done|]. intros Hin. destruct (Hlk ino Hin) as [? E].
    rewrite Hino in E. discriminate E. }
  rewrite Hlock. unfold catch at 1. unfold fs.on_file. cbn [fs_files s3 fs.set_locks s2].
  rewrite lookup_insert_eq. cbn [default head from_option]. rewrite Hi. set (s4 := MkFs _ _ _ _ _ _ _).
  exists ino, f, (fs.set_names (<[p := ino]> (fs_names s4)) (OpLink p ino) s4).
  split; [exact Hino|]. split; [exact Hok|]. split; [exists sb; exact (conj Him (conj Hg Hl))|]. split; [reflexivity|].
  split; [apply insert_insert_eq|]. split; [exact Hq|]. split; [reflexivity|]. split; [reflexivity|].
  unfold owning, catch. unfold link_database. cbv zeta. fold (parent_directory p).
  assert (Hlink : fs.hard_link t p s4 = (Ok (inr ()), fs.set_names (<[p := ino]> (fs_names s4)) (OpLink p ino) s4)).
  { unfold fs.hard_link. rewrite call_quiet by exact Hq. cbn [fs_names s4]. cbn [fs_names s3 fs.set_locks s2].
    rewrite lookup_insert_eq, lookup_insert_ne by done. by rewrite Hp. }
  rewrite (M_bind_ok _ _ _ _ _ Hlink). done.
Qed.

Lemma sync_quiet s dir : fs_script s = [] →
  sync_directory dir s = match dir with
    | [] => (Err (error.from (IoError NotFound "No such file or directory")), s)
    | _ => (Ok (), fs.set_names (fs_names s) (OpSyncDir dir) s)
    end.
Proof.
  intros Hq. unfold sync_directory, fs.try, fs.open_directory, fs.sync_all, fs.call, mbind, M_bind. rewrite Hq.
  destruct dir as [|x dir]; [done|]. cbn [mret M_ret]. by rewrite Hq.
Qed.

(** The checks before a creation. *)
Lemma create_checked s p options :
  ready s p → database.MIN_DATABASE_BYTES ≤ opt_max_database_bytes options →
  create_with_options p options s
    = (ino ← create_database_file p; with_file ino (λ f, database.from_storage (SFile f) options)) s.
Proof.
  intros (Hq&_&Hp&_) Hmin. unfold create_with_options, database.validate_options.
  replace (_ <? _) with false by lia. rewrite M_lift_ok.
  assert (Hdir : match path.parent p with Some parent => fs.try (fs.create_dir_all parent) | None => mret () end s = (Ok (), s)).
  { destruct (path.parent p); [|done]. unfold fs.try, fs.create_dir_all.
    by erewrite (M_bind_ok (fs.call _)) by (by rewrite call_quiet). }
  rewrite (M_bind_ok _ _ _ _ _ Hdir). unfold fs.symlink_metadata.
  erewrite (M_bind_ok (fs.call _)) by (rewrite call_quiet by done; by rewrite Hp). done.
Qed.

Lemma from_storage_clean f options :
  stream_ok f → empty_database (file_content f) → recovery.reserve_succeeds → (∀ n, try_reserve n = true) →
  database.MIN_DATABASE_BYTES ≤ opt_max_database_bytes options →
  ∃ db f' sb, database.from_storage (SFile f) options = (Ok db, SFile f')
    ∧ database.open_with_options f options = (Ok db, SFile f')
    ∧ handle_on db f' sb [] [] ∧ db_state db = Healthy
    ∧ stream_ok f' ∧ db_options db = options ∧ db_snapshots db = 0 ∧ generation sb = 1
    ∧ blen (file_content f') = database.MIN_DATABASE_BYTES.
Proof.
  intros Hok (sb&Hi&Hg&Hl) Hres Ha Hmin.
  destruct (open_clean f sb [] [] [] options Hok Hi) as (db&f'&Ho&Hh&Hok'&Hst&Hop&Hsn&Hc&_); [by left|done|done|done|by rewrite Hl|].
  rewrite (valid_part_all _ _ [] []) in Hc by exact Hi.
  exists db, f', sb. split; [|by rewrite Hc]. rewrite <- Ho. unfold database.open_with_options, database.validate_options.
  replace (_ <? _) with false by lia. destruct Hok as [Hs _].
  unfold mbind at 1, M_bind at 1. rewrite len_clean by done. unfold lift at 1, fail_if at 1. rewrite Hl.
  by replace (opt_max_database_bytes options <? database.MIN_DATABASE_BYTES) with false by lia.
Qed.

End Quiet.

(** The parent of a bare file name is the empty path. *)
Lemma trim_bare p : path.SLASH ∉ p → path.trim p = p.
Proof.
  intros Hp. destruct p as [|c p]; [done|]. cbn [path.trim]. rewrite bool_decide_false by set_solver.
  destruct p as [|d p]; [done|]. rewrite (bool_decide_false (d = path.SLASH)) by set_solver. by rewrite andb_false_r.
Qed.

Lemma drop_component_bare p : path.SLASH ∉ p → path.drop_component p = [].
Proof.
  induction p as [|c p IH]; intros Hp; [done|]. cbn [path.drop_component]. rewrite bool_decide_false by set_solver.
  apply IH. set_solver.
Qed.

Lemma bare_parent p : p ≠ [] → path.SLASH ∉ p → parent_directory p = [].
Proof.
  intros Hne Hp. unfold parent_directory, path.parent. assert (Hr : path.SLASH ∉ rev p) by (rewrite rev_alt; set_solver).
  rewrite trim_bare by done. rewrite bool_decide_false.
  2:{ intros E. apply (f_equal (@rev _)) in E. by rewrite rev_involutive in E. }
  rewrite bool_decide_false by (intros E; rewrite E in Hr; set_solver). cbn [orb from_option id].
  by rewrite drop_component_bare.
Qed.

(** ** Properties *)

Section Properties.
Context `{Crc32cLaws, Xxh3Laws, Alloc, HashTablesLaws, Process}.
Implicit Types (s : Fs) (p : bytes) (options : DatabaseOptions).

(** C8: a creation is crash-safe. Whichever calls fail, stop after any number of the
    changes it makes to the disk: every other file has the content it had, and the
    database is either not there or opens as a healthy empty one. On success the file has
    its name, no other name was added, it is locked, and its directory was synced last. *)
Theorem create_crash_safe s p :
  (∀ name ino, fs_names s !! name = Some ino → is_Some (fs_files s !! ino)) → fs_names s !! p = None →
  recovery.reserve_succeeds → (∀ n, try_reserve n = true) →
  ∃ r s' ops, create_database_file p s = (r, s') ∧ fs_trace s' = fs_trace s ++ ops
    ∧ (∀ k, let d := replay_fs (disk_of s) (take k ops) in
        (∀ name, name ≠ p → (∀ n, name ≠ temporary_name p n) → disk_read d name = disk_read (disk_of s) name)
        ∧ (disk_read d p = None ∨ ∃ c, disk_read d p = Some c ∧ ∀ g options,
             stream_ok g → file_content g = c → database.MIN_DATABASE_BYTES ≤ opt_max_database_bytes options →
             ∃ db g' sb, database.open_with_options g options = (Ok db, SFile g')
               ∧ handle_on db g' sb [] [] ∧ db_state db = Healthy))
    ∧ match r with
      | Ok ino => fs_names s' = <[p := ino]> (fs_names s) ∧ ino ∈ fs_locks s'
          ∧ last ops = Some (OpSyncDir (parent_directory p))
      | Err _ => True
      | Panic => False
      end.
Proof.
  intros Hfiles Hfree Hres Ha.
  destruct (create_loop_any s p Hfiles Hfree 16 s) as (r&s'&Hr&(ops&Ht&Hd&Hk)&Ho); [done|done|by apply fs_history_refl, safe_start|].
  exists r, s', ops. split; [exact Hr|]. split; [done|]. split.
  - intros k d. destruct (Hk k) as [Hothers Hp]. split; [exact Hothers|]. destruct Hp as [Hp|(c&Hp&He)]; [by left|right].
    exists c. split; [exact Hp|]. intros g options Hg <- Hmin.
    destruct (from_storage_clean g options Hg He Hres Ha Hmin) as (db&g'&sb&_&?&?&?&_). exists db, g', sb. done.
  - destruct r as [ino|e|]; [|done|done]. destruct Ho as (Hlk&Hl&Hn&_). split; [done|]. split; [done|].
    rewrite Ht, last_app in Hl. destruct (last ops) as [op|] eqn:El; [done|]. exfalso.
    apply last_None in El as ->. cbn in Hd. unfold disk_of in Hd. injection Hd as Hd _. rewrite Hn in Hd.
    apply (f_equal (.!! p)) in Hd. by rewrite Hfree, lookup_insert_eq in Hd.
Qed.

Lemma create_clean s p options :
  ready s p → path.parent p ≠ Some [] → database.MIN_DATABASE_BYTES ≤ opt_max_database_bytes options →
  recovery.reserve_succeeds → (∀ n, try_reserve n = true) →
  ∃ db s' ino f sb, create_with_options p options s = (Ok (ino, db), s')
    ∧ handle_on db f sb [] [] ∧ db_state db = Healthy
    ∧ fs_names s' = <[p := ino]> (fs_names s) ∧ fs_files s' !! ino = Some f ∧ ino ∈ fs_locks s'
    ∧ stream_ok f ∧ db_options db = options ∧ db_snapshots db = 0 ∧ generation sb = 1
    ∧ blen (file_content f) = database.MIN_DATABASE_BYTES ∧ settled s'.
Proof.
  intros Hrd Hpar Hmin Hres Ha. rewrite create_checked by done. pose proof Hrd as (_&_&_&Ht&Hold).
  destruct (create_linked s p Hrd Ha) as (ino&f&s2&Hino&Hok&He&Hn&Hf&Hq&Hnew&Hlk&Hc).
  destruct (from_storage_clean f options Hok He Hres Ha Hmin) as (db&f'&sb&Hfs&_&Hh&Hst&Hok'&Hop&Hsn&Hg&Hl).
  assert (Hdir : parent_directory p ≠ []).
  { unfold parent_directory. destruct (path.parent p); cbn; congruence. }
  destruct (parent_directory p) as [|x dir]; [done|].
  set (s3 := fs.set_names (fs_names s2) (OpSyncDir (x :: dir)) s2).
  set (t := temporary_name p (fs_creations s)) in *. pose proof (temporary_ne p (fs_creations s)) as Hne. fold t in Hne.
  set (s4 := fs.set_names (delete t (fs_names s3)) (OpUnlink t) s3).
  assert (Hrm : fs.remove_file t s3 = (Ok (inr ()), s4)).
  { unfold fs.remove_file. rewrite call_quiet by exact Hq. change (fs_names s3) with (fs_names s2).
    rewrite Hn at 1. rewrite lookup_insert_ne, lookup_insert_eq by done. done. }
  assert (Hcr : create_database_file p s = (Ok ino, fs.set_names (fs_names s4) (OpSyncDir (x :: dir)) s4)).
  { rewrite Hc. unfold owning, catch, fs.try. rewrite (M_bind_ok _ _ _ _ _ (sync_quiet s2 (x :: dir) Hq)).
    rewrite M_bind_assoc, (M_bind_ok _ _ _ _ _ Hrm), (M_bind_ok (mret _) _ s4 _ s4 eq_refl).
    by rewrite (M_bind_ok _ _ _ _ _ (sync_quiet s4 (x :: dir) Hq)). }
  rewrite (M_bind_ok _ _ _ _ _ Hcr). unfold with_file, owning, catch, fs.on_file, mbind, M_bind.
  change (fs_files (fs.set_names _ _ s4)) with (fs_files s2). rewrite Hf, lookup_insert_eq, Hfs.
  eexists db, _, ino, f', sb. split; [reflexivity|]. split; [exact Hh|]. split; [exact Hst|].
  split; [|split; [apply lookup_insert_eq|split; [cbn; rewrite Hlk; set_solver|split_and!; try done]]].
  2:{ split; [done|]. split; [exact Hnew|]. intros i Hi. cbn in Hi |- *. rewrite Hlk in Hi. destruct (decide (i = ino)) as [->|]; [by rewrite lookup_insert_eq|].
      rewrite !lookup_insert_ne by done. apply Hold. set_solver. }
  cbn [fs_names]. change (delete t (fs_names s2) = <[p := ino]> (fs_names s)).
  by rewrite Hn, delete_insert_ne, delete_insert_id.
Qed.

(** C23: a creation succeeds when no call fails: the new database is healthy, empty, open
    and locked, and its name is the only one that was added. *)
Theorem create_succeeds s p options :
  ready s p → path.parent p ≠ Some [] → database.MIN_DATABASE_BYTES ≤ opt_max_database_bytes options →
  recovery.reserve_succeeds → (∀ n, try_reserve n = true) →
  ∃ db s' ino f sb, create_with_options p options s = (Ok (ino, db), s')
    ∧ handle_on db f sb [] [] ∧ db_state db = Healthy ∧ contents [] [] = ∅
    ∧ fs_names s' = <[p := ino]> (fs_names s) ∧ fs_files s' !! ino = Some f ∧ ino ∈ fs_locks s'.
Proof.
  intros Hrd Hpar Hmin Hres Ha.
  destruct (create_clean s p options Hrd Hpar Hmin Hres Ha) as (db&s'&ino&f&sb&Hc&Hh&Hst&Hn&Hf&Hlk&_).
  exists db, s', ino, f, sb. by split_and!.
Qed.

(** C39: the creation of a database whose path is a bare file name reports that a file was
    not found, although it created the database, and leaves the temporary name behind:
    the parent of such a path is the empty path, which cannot be opened to be synced. *)
Theorem create_bare_name_fails s p options :
  ready s p → p ≠ [] → path.SLASH ∉ p → database.MIN_DATABASE_BYTES ≤ opt_max_database_bytes options →
  (∀ n, try_reserve n = true) →
  ∃ s' ino, create_with_options p options s = (Err (Io (IoError NotFound "No such file or directory")), s')
    ∧ fs_names s' = <[p := ino]> (<[temporary_name p (fs_creations s) := ino]> (fs_names s)).
Proof.
  intros Hrd Hne Hsl Hmin Ha. rewrite create_checked by done.
  destruct (create_linked s p Hrd Ha) as (ino&f&s2&_&_&_&Hn&_&Hq&_&_&Hc).
  rewrite (bare_parent p Hne Hsl) in Hc. unfold owning, catch in Hc.
  rewrite (M_bind_err _ _ _ _ _ (sync_quiet s2 [] Hq)) in Hc. rewrite (M_bind_err _ _ _ _ _ Hc).
  eexists _, ino. split; [reflexivity|]. exact Hn.
Qed.

End Properties.

(** *** Concrete creations *)

Import RefInstances.
#[local] Instance demo_process : Process := 42.

(** An empty file system, whose next calls end as [script] says. *)
Definition demo_fs (script : list (option io_Error)) : Fs := MkFs ∅ ∅ ∅ 0 script [] [].
Definition demo_path : bytes := String.list_byte_of_string "data/example.lkv".
Definition demo_name : bytes := String.list_byte_of_string "example.lkv".

Lemma demo_ready p : ready (demo_fs []) p.
Proof.
  split; [reflexivity|]. split; [reflexivity|]. split; [apply lookup_empty|]. split; [apply lookup_empty|].
  intros ino Hi. by apply not_elem_of_empty in Hi.
Qed.

(** The link fails: the disk never shows an incomplete database. *)
Lemma create_crash_safe_witness :
  ∃ r s' ops, create_database_file demo_path (demo_fs [None; None; Some (IoError PermissionDenied "Operation not permitted")])
      = (r, s') ∧ fs_trace s' = ops ∧ r ≠ Panic
    ∧ ∀ k, let d := replay_fs (disk_of (demo_fs [])) (take k ops) in
        disk_read d demo_path = None ∨ ∃ c db g', disk_read d demo_path = Some c
          ∧ database.open_with_options (MkFile c 0 [] []) options.default = (Ok db, SFile g').
Proof.
  destruct (create_crash_safe (demo_fs [None; None; Some (IoError PermissionDenied "Operation not permitted")]) demo_path)
    as (r&s'&ops&Hr&Ht&Hk&Ho).
  - intros name ino Hn. discriminate Hn.
  - reflexivity.
  - apply recovery.ref_reserve_succeeds.
  - reflexivity.
  - exists r, s', ops. split; [exact Hr|]. split; [exact Ht|]. split; [intros ->; exact Ho|].
    intros k d. destruct (Hk k) as [_ [Hd|(c&Hd&Hopen)]]; [left; exact Hd|right].
    destruct (Hopen (MkFile c 0 [] []) options.default) as (db&g'&sb&Hdb&_);
      [split; [reflexivity|apply Z.le_refl]|reflexivity|discriminate|]. exists c, db, g'. split; [exact Hd|exact Hdb].
Defined.

Lemma create_succeeds_witness :
  ∃ db s' ino, create_with_options demo_path options.default (demo_fs []) = (Ok (ino, db), s')
    ∧ fs_names s' = {[demo_path := ino]} ∧ db_state db = Healthy.
Proof.
  destruct (create_succeeds (demo_fs []) demo_path options.default (demo_ready demo_path)) as (db&s'&ino&f&sb&Hc&_&Hst&_&Hn&_).
  - discriminate.
  - discriminate.
  - apply recovery.ref_reserve_succeeds.
  - reflexivity.
  - exists db, s', ino. split; [exact Hc|]. split; [exact Hn|exact Hst].
Defined.

Lemma create_bare_name_fails_witness :
  ∃ s' ino, create_with_options demo_name options.default (demo_fs [])
      = (Err (Io (IoError NotFound "No such file or directory")), s')
    ∧ fs_names s' !! demo_name = Some ino.
Proof.
  destruct (create_bare_name_fails (demo_fs []) demo_name options.default (demo_ready demo_name)) as (s'&ino&Hc&Hn).
  - discriminate.
  - apply (bool_decide_unpack _). reflexivity.
  - discriminate.
  - reflexivity.
  - exists s', ino. split; [exact Hc|]. rewrite Hn. apply lookup_insert_eq.
Defined.

End creation.
