(* ===== verification/Scratch.v ===== *)
(** * The scratch directories of the fuzz targets

    The calls of [std::fs] and [std::path] that [fuzz/fuzz_targets] make around the
    database: a scratch directory that is removed and created again, whole files written
    and read, and descriptors that truncate and corrupt a database file. An [expect] that
    fails is a panic. *)

From S2P Require Import Prelude Errors Crates Io Superblock Values Log Segment Overlay Recovery View.
From S2P Require Import Base Storage Transaction Entries Database Faults Commit Written Reopen Handle Creation.

(** [std::env::temp_dir()]. *)
Class TempDir := temp_dir : bytes.

(** A file system and the directories in it. *)
Record Scratch := MkScratch {
  sc_fs : Fs;
  sc_dirs : gset bytes
}.

Module scratch.

Definition text (s : string) : bytes := String.list_byte_of_string s.

(** [Path::join]. *)
Definition join (p q : bytes) : bytes :=
  if bool_decide (head q = Some path.SLASH) then q else
  match last p with
  | None => q
  | Some c => if bool_decide (c = path.SLASH) then p ++ q else p ++ path.SLASH :: q
  end.

(** A name in the directory [p] or below. *)
Definition below (p name : bytes) : Prop := (p ++ [path.SLASH]) `prefix_of` name.
#[global] Instance below_dec p name : Decision (below p name).
Proof. unfold below. apply _. Defined.

Definition on_fs {A} (x : M Fs A) : M Scratch A := zoom sc_fs (λ s c, MkScratch s (sc_dirs c)) x.

(** [Result::expect]. *)
Definition expect {S A} (x : M S A) : M S A := catch x (λ r,
  match r with Ok a => mret a | _ => lift Panic end).

(** [assert!] and [assert_eq!]. *)
Definition assert_that {S} (b : bool) : M S () := if b then mret () else lift Panic.

(** [Path::exists]. *)
Definition is_there (p : bytes) : M Scratch bool := gets (λ c,
  bool_decide (p ∈ sc_dirs c) || bool_decide (is_Some (fs_names (sc_fs c) !! p))).

(** [fs::create_dir]. *)
Definition create_dir (p : bytes) : M Scratch () :=
  there ← is_there p;
  if (there : bool) then lift (Err (error.from (IoError AlreadyExists "File exists"))) else
  _ ← on_fs (fs.try (fs.call (λ s, (inr (), s))));
  modify (λ c, MkScratch (sc_fs c) ({[p]} ∪ sc_dirs c)).

(** [fs::remove_dir_all]. *)
Definition remove_names (p : bytes) (s : Fs) : Fs :=
  MkFs (filter (λ e, ¬ below p e.1) (fs_names s)) (fs_files s) (fs_locks s) (fs_creations s) (fs_script s)
    (fs_new_scripts s) (fs_trace s ++ (OpUnlink <$> (map_to_list (filter (λ e, below p e.1) (fs_names s))).*1)).
Definition remove_dir_all (p : bytes) : M Scratch () :=
  dirs ← gets sc_dirs;
  if negb (bool_decide (p ∈ dirs)) then lift (Err (error.from (IoError NotFound "No such file or directory"))) else
  _ ← on_fs (fs.try (fs.call (λ s, (inr (), remove_names p s))));
  modify (λ c, MkScratch (sc_fs c) (filter (λ d, d ≠ p ∧ ¬ below p d) (sc_dirs c))).

(** How both targets begin: an empty directory [p], an old one is removed first. *)
Definition fresh_dir (p : bytes) : M Scratch () :=
  there ← is_there p;
  _ ← (if (there : bool) then expect (remove_dir_all p) else mret ());
  expect (create_dir p).

(** [File::create]: a new file, or an empty one with the old name. *)
Definition create_file (name : bytes) : M Fs (io_Error + Z) := fs.call (λ s,
  match fs_names s !! name with
  | Some ino =>
      (inr ino, MkFs (fs_names s) (alter (λ f, MkFile [] 0 (file_script f) (file_trace f ++ [OpSetLen 0])) ino (fs_files s))
                  (fs_locks s) (fs_creations s) (fs_script s) (fs_new_scripts s) (fs_trace s ++ [OpFile ino (OpSetLen 0)]))
  | None =>
      let ino := fresh (dom (fs_files s)) in
      let file := MkFile [] 0 (default [] (head (fs_new_scripts s))) [] in
      (inr ino, MkFs (<[name := ino]> (fs_names s)) (<[ino := file]> (fs_files s)) (fs_locks s) (fs_creations s)
                  (fs_script s) (tail (fs_new_scripts s)) (fs_trace s ++ [OpCreate name ino]))
  end).

(** [fs::write]. *)
Definition write_file (name bs : bytes) : M Fs () :=
  ino ← fs.try (create_file name);
  _ ← fs.on_file ino (write_all bs);
  fs.close ino.

(** [fs::read]: the whole content. *)
Definition read_file (name : bytes) : M Fs bytes :=
  ino ← fs.try (fs.open name);
  bs ← fs.on_file ino (gets file_content);
  _ ← fs.close ino;
  mret bs.

(** [fs::metadata(name)?.len()]. *)
Definition metadata_len (name : bytes) : M Fs Z :=
  ino ← fs.try (fs.open name);
  fs.on_file ino (gets (λ f, blen (file_content f))).

(** A descriptor of the file [name] that [x] works with, from the start of the file. *)
Definition with_descriptor {A} (name : bytes) (x : M File A) : M Fs A :=
  ino ← fs.try (fs.open name);
  a ← fs.on_file ino (λ f, x (file.set_pos 0 f));
  _ ← fs.close ino;
  mret a.

End scratch.

(** ** Calls that do not fail *)

Module scratch_facts.
Import scratch.

Lemma expect_ok {S A} (x : M S A) s a s' : x s = (Ok a, s') → expect x s = (Ok a, s').
Proof. intros Hx. unfold expect, catch. by rewrite Hx. Qed.

Lemma assert_run {S A} (k : () → M S A) s : (assert_that true ≫= k) s = k () s.
Proof. done. Qed.

Lemma on_fs_run {A} (x : M Fs A) c r s : x (sc_fs c) = (r, s) → on_fs x c = (r, MkScratch s (sc_dirs c)).
Proof. intros Hx. unfold on_fs, zoom. by rewrite Hx. Qed.

Lemma try_quiet {A} (body : Fs → (io_Error + A) * Fs) s a s' :
  fs_script s = [] → body s = (inr a, s') → fs.try (fs.call body) s = (Ok a, s').
Proof. intros Hq Hb. unfold fs.try, fs.call, mbind, M_bind. rewrite Hq. by rewrite Hb. Qed.

Lemma remove_dir_all_run c p :
  fs_script (sc_fs c) = [] → p ∈ sc_dirs c →
  remove_dir_all p c = (Ok (), MkScratch (remove_names p (sc_fs c)) (filter (λ d, d ≠ p ∧ ¬ below p d) (sc_dirs c))).
Proof.
  intros Hq Hp. unfold remove_dir_all. rewrite (M_bind_ok (gets sc_dirs) _ c _ c eq_refl), bool_decide_true by done. cbn [negb].
  assert (Hx : on_fs (fs.try (fs.call (λ s, (inr (), remove_names p s)))) c = (Ok (), MkScratch (remove_names p (sc_fs c)) (sc_dirs c)))
    by (by apply on_fs_run, try_quiet).
  by rewrite (M_bind_ok _ _ _ _ _ Hx).
Qed.

Lemma create_dir_run c p :
  fs_script (sc_fs c) = [] → p ∉ sc_dirs c → fs_names (sc_fs c) !! p = None →
  create_dir p c = (Ok (), MkScratch (sc_fs c) ({[p]} ∪ sc_dirs c)).
Proof.
  intros Hq Hp Hn. unfold create_dir. rewrite (M_bind_ok (is_there p) _ c _ c eq_refl), Hn, bool_decide_false by done.
  rewrite (bool_decide_false (is_Some None)) by (by intros [? ?]). cbn [orb].
  assert (Hx : on_fs (fs.try (fs.call (λ s, (inr (), s)))) c = (Ok (), c)).
  { rewrite (on_fs_run _ c (Ok ()) (sc_fs c)) by (by apply try_quiet). by destruct c. }
  by rewrite (M_bind_ok _ _ _ _ _ Hx).
Qed.

Lemma removed_below p s name : below p name → fs_names (remove_names p s) !! name = None.
Proof. intros Hb. cbn. apply map_lookup_filter_None. right. intros x _ Hn. by apply Hn. Qed.
Lemma removed_other p s name : fs_names s !! name = None → fs_names (remove_names p s) !! name = None.
Proof. intros Hb. cbn. apply map_lookup_filter_None. by left. Qed.

(** A file system whose calls do not fail, in which [p] is not a file and nothing is below
    it unless it is a directory. *)
Definition usable (p : bytes) (c : Scratch) : Prop :=
  fs_script (sc_fs c) = [] ∧ fs_new_scripts (sc_fs c) = []
  ∧ (∀ ino, ino ∈ fs_locks (sc_fs c) → is_Some (fs_files (sc_fs c) !! ino)) ∧ fs_names (sc_fs c) !! p = None
  ∧ ∀ name, below p name → is_Some (fs_names (sc_fs c) !! name) → p ∈ sc_dirs c.

Lemma fresh_dir_run p c :
  usable p c → ∃ c', fresh_dir p c = (Ok (), c') ∧ p ∈ sc_dirs c' ∧ (∀ name, below p name → fs_names (sc_fs c') !! name = None)
    ∧ fs_script (sc_fs c') = [] ∧ fs_new_scripts (sc_fs c') = []
    ∧ (∀ ino, ino ∈ fs_locks (sc_fs c') → is_Some (fs_files (sc_fs c') !! ino)) ∧ fs_names (sc_fs c') !! p = None.
Proof.
  intros (Hq&Hnew&Hlk&Hf&Hd). unfold fresh_dir. rewrite (M_bind_ok (is_there _) _ c _ c eq_refl), Hf.
  rewrite (bool_decide_false (is_Some None)) by (by intros [? ?]). rewrite orb_false_r. case_bool_decide as Hp.
  - rewrite (M_bind_ok _ _ _ _ _ (expect_ok _ _ _ _ (remove_dir_all_run c p Hq Hp))). set (c1 := MkScratch _ _).
    assert (Hp1 : p ∉ sc_dirs c1) by (cbn; rewrite elem_of_filter; naive_solver).
    rewrite (expect_ok _ _ _ _ (create_dir_run c1 p Hq Hp1 (removed_other p (sc_fs c) p Hf))). eexists. split; [done|].
    split; [cbn; set_solver|]. split; [intros name; apply removed_below|]. split_and!; try done. by apply removed_other.
  - rewrite (M_bind_ok (mret ()) _ c () c eq_refl), (expect_ok _ _ _ _ (create_dir_run c p Hq Hp Hf)). eexists. split; [done|].
    split; [cbn; set_solver|]. split; [|done]. intros name Hb. cbn. destruct (fs_names (sc_fs c) !! name) eqn:E; [|done].
    destruct Hp. apply (Hd name Hb). by rewrite E.
Qed.

(** Paths below a directory. *)
Lemma join_below p q :
  p ≠ [] → last p ≠ Some path.SLASH → head q ≠ Some path.SLASH → join p q = p ++ path.SLASH :: q.
Proof.
  intros Hp Hl Hq. unfold join. rewrite bool_decide_false by done. destruct (last p) as [c|] eqn:E.
  - rewrite bool_decide_false by congruence. done.
  - by apply last_None in E.
Qed.

(** Numbers are written without separators. *)
Lemma text_cons c s : text (String c s) = Ascii.byte_of_ascii c :: text s.
Proof. done. Qed.
Lemma text_app s t : text (s +:+ t) = text s ++ text t.
Proof. induction s as [|c s IH]; [done|]. change (String c s +:+ t) with (String c (s +:+ t)). by rewrite !text_cons, IH. Qed.

Lemma go_no_slash x s : path.SLASH ∉ text s → path.SLASH ∉ text (pretty_N_go x s).
Proof.
  revert s. induction (N.lt_wf_0 x) as [x _ IH]; intros s Hs. destruct (decide (0 < x)%N) as [Hx|Hx].
  - rewrite pretty_N_go_step by done. apply IH; [by apply N.div_lt|]. rewrite text_cons. apply not_elem_of_cons. split; [|done].
    unfold pretty_N_char. by repeat case_match.
  - replace x with 0%N by lia. by rewrite pretty_N_go_0.
Qed.

Lemma fmt_num_no_slash z : path.SLASH ∉ text (fmt_num z).
Proof.
  assert (HN : ∀ n : N, path.SLASH ∉ text (pretty n)).
  { intros n. unfold pretty, pretty_N. case_decide; [vm_compute; set_solver|]. apply go_no_slash, not_elem_of_nil. }
  unfold fmt_num. destruct z as [|z|z]; [apply (HN 0%N)|apply (HN (N.pos z))|].
  change (pretty (Z.neg z)) with ("-" +:+ pretty (N.pos z)). rewrite text_app. apply not_elem_of_app. split; [|apply HN].
  vm_compute. set_solver.
Qed.

(** The leaf of a path that is made of a word and a number. *)
Lemma leaf_path p word z :
  path.SLASH ∉ text word → word ≠ "" →
  let q := join p (text (word +:+ fmt_num z)) in q ≠ [] ∧ last q ≠ Some path.SLASH.
Proof.
  intros Hw Hne q. set (leaf := text (word +:+ fmt_num z)) in *.
  assert (Hs : path.SLASH ∉ leaf) by (unfold leaf; rewrite text_app; apply not_elem_of_app; split; [done|apply fmt_num_no_slash]).
  assert (Hl : leaf ≠ []) by (unfold leaf; rewrite text_app; by destruct word).
  assert (Hq : ∃ front, q = front ++ leaf).
  { unfold q, join. case_bool_decide; [by exists []|]. destruct (last p); [|by exists []]. case_bool_decide; [by exists p|].
    exists (p ++ [path.SLASH]). by rewrite <- app_assoc. }
  destruct Hq as [front ->]. split; [by intros [_ ?]%app_eq_nil|]. rewrite last_app.
  destruct (last leaf) as [c|] eqn:E; [|by apply last_None in E]. intros [= ->]. apply Hs.
  apply last_Some in E as [l ->]. apply elem_of_app. right. by apply list_elem_of_singleton.
Qed.

Lemma below_join p q : below p (p ++ path.SLASH :: q).
Proof. exists q. by rewrite <- app_assoc. Qed.

Lemma trim_nil p : path.trim p = [] → p = [].
Proof.
  induction p as [|c p IH]; [done|]. cbn [path.trim]. case_bool_decide.
  - destruct p; [done|]. intros E. specialize (IH E). done.
  - destruct p as [|d p]; [done|]. destruct (_ && _); [|done]. intros E. specialize (IH E). done.
Qed.

Lemma parent_below p q :
  p ≠ [] → q ≠ [] → path.SLASH ∉ q → last q ≠ Some path.DOT → path.parent (p ++ path.SLASH :: q) ≠ Some [].
Proof.
  intros Hp Hq Hs Hd. unfold path.parent. rewrite rev_app_distr. cbn [rev]. rewrite <- app_assoc. cbn [app].
  assert (Hrq : ∀ x, x ∈ rev q → x ≠ path.SLASH).
  { intros x Hx ->. apply Hs. apply list_elem_of_In, in_rev, list_elem_of_In in Hx. done. }
  destruct (rev q) as [|x r] eqn:Eq; [apply (f_equal (@rev _)) in Eq; rewrite rev_involutive in Eq; done|].
  assert (Hx : x ≠ path.SLASH) by (apply Hrq; by left).
  assert (Hxd : x ≠ path.DOT).
  { intros ->. apply Hd. rewrite <- (rev_involutive q), Eq. cbn. by rewrite last_snoc. }
  assert (Ht : path.trim ((x :: r) ++ path.SLASH :: rev p) = (x :: r) ++ path.SLASH :: rev p).
  { cbn [app path.trim]. rewrite bool_decide_false by done. rewrite (bool_decide_false (x = _)) by done. by destruct (r ++ _). }
  rewrite Ht. rewrite bool_decide_false by done. rewrite bool_decide_false.
  2:{ intros [= -> _]. done. }
  cbn [orb]. assert (Hdc : ∀ l, (∀ y, y ∈ l → y ≠ path.SLASH) → path.drop_component (l ++ path.SLASH :: rev p) = path.SLASH :: rev p).
  { induction l as [|y l IH]; intros Hl; cbn [app path.drop_component].
    - by rewrite bool_decide_true.
    - rewrite bool_decide_false by (apply Hl; by left). apply IH. intros z Hz. apply Hl. by right. }
  rewrite Hdc by done. intros [= E]. apply (f_equal (@rev _)) in E. rewrite rev_involutive in E.
  apply (trim_nil (path.SLASH :: rev p)) in E. done.
Qed.

(** A file system whose calls do not fail, with the file [f] under the name [p]. *)
Definition has_file (s : Fs) (p : bytes) (ino : Z) (f : File) : Prop :=
  fs_script s = [] ∧ fs_names s !! p = Some ino ∧ fs_files s !! ino = Some f.

(** [s'] is [s] with [f] as the content of the file, and the names as they were. *)
Definition file_set (s s' : Fs) (p : bytes) (ino : Z) (f : File) : Prop :=
  has_file s' p ino f ∧ fs_names s' = fs_names s ∧ fs_new_scripts s' = fs_new_scripts s ∧ dom (fs_files s') = dom (fs_files s).

Lemma try_open s p ino f : has_file s p ino f → fs.try (fs.open p) s = (Ok ino, s).
Proof. intros (Hq&Hn&_). apply try_quiet; [done|]. by rewrite Hn. Qed.

Lemma on_file_run {A} s p ino f (x : M File A) r f' :
  has_file s p ino f → x f = (r, f') →
  ∃ s', fs.on_file ino x s = (r, s') ∧ file_set s s' p ino f' ∧ fs_locks s' = fs_locks s.
Proof.
  intros (Hq&Hn&Hf) Hx. unfold fs.on_file. rewrite Hf, Hx. eexists. split; [done|].
  split; [|done]. split; [split_and!; [done|done|apply lookup_insert_eq]|]. split; [done|]. split; [done|].
  cbn. rewrite dom_insert_L. apply elem_of_dom_2 in Hf. set_solver.
Qed.

Lemma with_descriptor_run {A} s p ino f (x : M File A) a f' :
  has_file s p ino f → x (file.set_pos 0 f) = (Ok a, f') →
  ∃ s', with_descriptor p x s = (Ok a, s') ∧ file_set s s' p ino f' ∧ fs_locks s' = fs_locks s ∖ {[ino]}.
Proof.
  intros Hs Hx. unfold with_descriptor. rewrite (M_bind_ok _ _ _ _ _ (try_open _ _ _ _ Hs)).
  destruct (on_file_run s p ino f (λ f, x (file.set_pos 0 f)) (Ok a) f' Hs Hx) as (s1&Hr&Hf&Hl).
  rewrite (M_bind_ok _ _ _ _ _ Hr). eexists. split; [reflexivity|]. split; [exact Hf|]. cbn. by rewrite Hl.
Qed.

Lemma metadata_len_run s p ino f :
  has_file s p ino f → ∃ s', metadata_len p s = (Ok (blen (file_content f)), s') ∧ file_set s s' p ino f ∧ fs_locks s' = fs_locks s.
Proof.
  intros Hs. unfold metadata_len. rewrite (M_bind_ok _ _ _ _ _ (try_open _ _ _ _ Hs)).
  by apply (on_file_run s p ino f).
Qed.

Section Handles.
Context `{Crc32c, Xxh3, Alloc, HashTables, Process}.

Lemma drop_database_run s p ino f (db : Database) f' :
  has_file s p ino f → db_storage db = SFile f' →
  ∃ s', creation.drop_database ino db s = (Ok (), s') ∧ file_set s s' p ino f' ∧ fs_locks s' = fs_locks s ∖ {[ino]}.
Proof.
  intros Hs Hst. unfold creation.drop_database. rewrite Hst.
  destruct (on_file_run s p ino f (λ _, (Ok (), f')) (Ok ()) f' Hs eq_refl) as (s1&Hr&Hf&Hl).
  rewrite (M_bind_ok _ _ _ _ _ Hr). eexists. split; [reflexivity|]. split; [exact Hf|]. cbn. by rewrite Hl.
Qed.

(** Opening a database by its name opens its file. *)
Lemma open_run s p ino f options r f' :
  has_file s p ino f → ino ∉ fs_locks s → database.MIN_DATABASE_BYTES ≤ opt_max_database_bytes options →
  database.open_with_options (file.set_pos 0 f) options = (r, SFile f') → r ≠ Panic →
  ∃ s', creation.open_with_options p options s = ((db ← r; Ok (ino, db)), s') ∧ file_set s s' p ino f'
    ∧ fs_locks s' = match r with Ok _ => {[ino]} ∪ fs_locks s | _ => fs_locks s end.
Proof.
  intros Hs Hlk Hmin Ho Hnp. unfold creation.open_with_options, database.validate_options.
  replace (_ <? _) with false by lia. rewrite M_lift_ok. unfold creation.open_database_file.
  rewrite M_bind_assoc, (M_bind_ok _ _ _ _ _ (try_open _ _ _ _ Hs)), M_bind_assoc.
  set (s1 := fs.set_locks ({[ino]} ∪ fs_locks s) s).
  assert (Hlock : creation.owning ino (creation.lock_database_file ino) s = (Ok (), s1)).
  { unfold creation.owning, catch, creation.lock_database_file. pose proof Hs as (Hq&_).
    rewrite (M_bind_ok (fs.try_lock_exclusive ino) _ s (inr ()) s1); [done|].
    unfold fs.try_lock_exclusive. rewrite creation.call_quiet by done. by rewrite bool_decide_false. }
  rewrite (M_bind_ok _ _ _ _ _ Hlock), (M_bind_ok (mret _) _ s1 _ s1 eq_refl).
  assert (Hs1 : has_file s1 p ino f) by exact Hs. unfold creation.with_file.
  destruct (on_file_run s1 p ino f (λ f, let '(r, s) := database.open_with_options (file.set_pos 0 f) options in
    (r, match s with SFile f' => f' | SMemory _ => f end)) r f' Hs1) as (s2&Hr&Hf&Hl); [by rewrite Ho|].
  unfold creation.owning, catch, mbind, M_bind. rewrite Hr. destruct r as [db|e|]; [| |done].
  - exists s2. split; [done|]. split; [exact Hf|]. by rewrite Hl.
  - eexists. split; [reflexivity|]. split; [exact Hf|]. cbn. rewrite Hl. cbn. set_solver.
Qed.

End Handles.

End scratch_facts.
