(* ===== verification/Workload.v ===== *)
(** * Small workloads

    Batches of a few short operations, committed to a database on a file whose system
    calls do not fail, and its compaction: they succeed, and the file stays small. The
    programs of [fuzz/fuzz_targets] do this before they damage the file. *)

From S2P Require Import Prelude Errors Crates Io Superblock Values Log Segment Overlay Recovery View Base Storage Transaction.
From S2P Require Import Entries Database Faults Commit Written Reopen Handle Maintenance Overwrite Compaction Snapshot Session.
Import overlay_map_facts commit_facts handle.

Module workload.

(** ** Small batches *)

Definition small_op (kv : mutation) : Prop := blen kv.1 ≤ 5 ∧ blen (OverlayEntry.contents kv.2) ≤ 95.
Definition small (muts : list mutation) : Prop := muts ≠ [] ∧ blen muts ≤ 8 ∧ Forall small_op muts ∧ NoDup muts.*1.

Lemma small_ops_blen muts : Forall small_op muts → blen (log.encode_ops muts) ≤ 109 * blen muts.
Proof.
  induction 1 as [|kv muts [Hk Hv] _ IH]; [done|]. rewrite log.encode_ops_cons, blen_app, log.blen_encode_op, blen_cons. lia.
Qed.

Lemma small_record `{Crc32c} muts :
  small muts → recovery.batch_ok muts ∧ 0 < blen (log.encode_record muts) ≤ 1000.
Proof.
  intros (Hne&Hl&Hs&_). pose proof (small_ops_blen muts Hs) as Hb. pose proof (blen_nonneg (log.encode_ops muts)).
  rewrite log.blen_encode_record, log.blen_encode_payload. unfold log.LOG_HEADER_SIZE. split; [|lia].
  split; [unfold log.MAX_BATCH_OPERATIONS; lia|].
  split; [rewrite log.blen_encode_payload; unfold log.MAX_LOG_PAYLOAD_SIZE; lia|].
  eapply Forall_impl; [exact Hs|]. intros kv [Hk Hv]. unfold recovery.op_ok, segment.MAX_KEY_SIZE, segment.MAX_VALUE_SIZE. lia.
Qed.

(** A map of few small bindings fits in a small Base. *)
Definition small_map (m : gmap bytes bytes) : Prop := (size m ≤ 8)%nat ∧ map_Forall (λ k v, blen k ≤ 5 ∧ blen v ≤ 95) m.

Lemma small_measure m l :
  small_map m → l ≡ₚ map_to_list m → ∃ size, segment.measure_base_iter l = Ok (blen l, size) ∧ 0 ≤ size ≤ 4000.
Proof.
  intros [Hsz Hall] Hp. assert (Hbl : 0 ≤ blen l ≤ 8).
  { unfold blen. rewrite (Permutation_length Hp), length_map_to_list. lia. }
  assert (Hes : 0 ≤ blen (segment.encode_entries l) ≤ 108 * blen l).
  { split; [apply blen_nonneg|]. assert (Hf : Forall (λ kv : bytes * bytes, blen kv.1 ≤ 5 ∧ blen kv.2 ≤ 95) l).
    { rewrite Forall_forall. intros [k v] Hin. rewrite Hp in Hin. apply elem_of_map_to_list in Hin. by apply Hall in Hin. }
    clear -Hf. induction Hf as [|[k v] l [Hk Hv] _ IH]; [done|]. cbn [fst snd] in *.
    rewrite segment.encode_entries_cons, blen_app, segment.blen_encode_entry, blen_cons. cbn [fst snd]. lia. }
  assert (Hsc : ∃ slots, segment.base_slot_count (blen l) = Ok slots ∧ 0 ≤ slots ≤ 16).
  { assert (Hc : blen l = 0 ∨ blen l = 1 ∨ blen l = 2 ∨ blen l = 3 ∨ blen l = 4 ∨ blen l = 5 ∨ blen l = 6 ∨ blen l = 7 ∨ blen l = 8) by lia.
    destruct_or! Hc; rewrite Hc; eexists; (split; [vm_compute; reflexivity|lia]). }
  destruct Hsc as (slots&Hsc&Hs16). unfold segment.measure_base_iter. unfold BASE_HEADER.
  rewrite segment.measure_loop_ok by lia. rstep. rewrite Z.add_0_l, Hsc. rstep. unfold segment.SLOT_SIZE.
  rewrite checked_mul_ok by lia. rstep. rewrite checked_add_ok by lia. rstep.
  set (n := 24 + blen (segment.encode_entries l) + slots * 12).
  assert (Hd : 0 ≤ div_ceil n segment.CHECKSUM_BLOCK_SIZE ≤ 1).
  { pose proof (div_ceil_mul n segment.CHECKSUM_BLOCK_SIZE ltac:(done)) as [? ?]. unfold segment.CHECKSUM_BLOCK_SIZE in *. lia. }
  rewrite checked_mul_ok by lia. cbn [mbind option_bind]. unfold segment.CHECKSUM_FOOTER_SIZE.
  rewrite checked_add_ok by lia. rstep. rewrite checked_add_ok by lia. rstep. eexists. split; [done|]. lia.
Qed.

Lemma apply_small muts : small muts → small_map (handle.apply_batch ∅ muts).
Proof.
  intros (_&Hl&Hs&Hnd). assert (Hin : ∀ k v, handle.apply_batch ∅ muts !! k = Some v → (k, Some v) ∈ muts).
  { intros k v. rewrite apply_batch_lookup by done. destruct (KeyMap.get muts k) as [o|] eqn:Eg; [|by rewrite lookup_empty].
    intros ->. rewrite KeyMap.get_list_to_map in Eg by done. by apply elem_of_list_to_map_2 in Eg. }
  split.
  - rewrite <- size_dom. assert (Hsub : dom (handle.apply_batch ∅ muts) ⊆ (list_to_set muts.*1 : gset bytes)).
    { intros k [v Hk]%elem_of_dom. apply elem_of_list_to_set, list_elem_of_fmap. exists (k, Some v). split; [done|by apply Hin]. }
    apply subseteq_size in Hsub. rewrite size_list_to_set in Hsub by done. rewrite length_fmap in Hsub. unfold blen in Hl. lia.
  - intros k v Hk. rewrite Forall_forall in Hs. destruct (Hs _ (Hin _ _ Hk)) as [? ?]. done.
Qed.

(** ** Steps on a quiet file *)

Section Steps.
Context `{Crc32cLaws, Xxh3Laws, Alloc, HashTablesLaws, Placement, MmapAnon}.
Implicit Types (db : Database) (muts : list mutation) (tx : WriteTransaction).

Definition roomy (o : DatabaseOptions) : Prop := opt_max_database_bytes o = Z.shiftl 1 40.

Lemma commit_small db f sb entries batches tx muts :
  (∀ n, try_reserve n = true) → handle_on db f sb entries batches → file_script f = [] → db_state db = Healthy →
  roomy (db_options db) → tx_facts.tx_ok false tx muts → small muts →
  blen (file_content f) + 1000 ≤ opt_max_database_bytes (db_options db) →
  ∃ db' f', database.commit tx db = (Ok (), db') ∧ handle_on db' f' sb entries (batches ++ [muts]) ∧ file_script f' = []
    ∧ db_state db' = Healthy ∧ db_options db' = db_options db ∧ db_snapshots db' = db_snapshots db
    ∧ file_content f' = file_content f ++ log.encode_record muts.
Proof.
  intros Hres Hh Hsc Hst Hop Htx Hsm Hcap. destruct (small_record muts Hsm) as [(Hcnt&Hpay&_) Hrec]. pose proof Hsm as (Hne&_).
  assert (Hmax : opt_max_database_bytes (db_options db) ≤ ISIZE_MAX) by (rewrite Hop; vm_compute; discriminate).
  destruct (commit_any db f sb entries batches tx muts Hh Htx Hmax) as (r&db'&Hr&Ho).
  destruct Ho as [(_&->&_)|[(->&_&Hok&_&Hl&s'&ov&Hp)|(e&->&Href&_)]]; [done| |].
  - destruct (published_handle db f sb entries batches muts s' ov db' Hh Hok Hl Hp) as (f'&Hh'&Hs'&Hc'&_).
    exists db', f'. destruct Hp as (->&(f2&->&_&_&Hsu)&_). cbn in Hs'. injection Hs' as <-.
    rewrite Hsc in Hsu. apply suffix_nil_inv in Hsu. by split_and!.
  - exfalso. destruct Href as [[? _]|[Hbig|[[Hfull _]|[[n Hn]|[x Hx]]]]]; [done| | |by rewrite Hres in Hn|].
    + unfold log.MAX_BATCH_OPERATIONS, log.MAX_LOG_PAYLOAD_SIZE in *. lia.
    + lia.
    + rewrite Hsc in Hx. by apply not_elem_of_nil in Hx.
Qed.

Lemma compact_small db f sb entries batches :
  (∀ n, try_reserve n = true) → (∀ mapping, PlacementLaws mapping) →
  handle_on db f sb entries batches → file_script f = [] → db_state db = Healthy → roomy (db_options db) → db_snapshots db = 0 →
  generation sb + 3 < U64 → small_map (contents entries batches) → blen (file_content f) ≤ 20000 →
  ∃ db' f' sb' l, maintenance.compact db = (Ok (), db') ∧ handle_on db' f' sb' l [] ∧ file_script f' = []
    ∧ db_state db' = Healthy ∧ db_options db' = db_options db ∧ db_snapshots db' = 0
    ∧ contents entries batches = contents l [] ∧ blen (file_content f') ≤ 20000.
Proof.
  intros Hres Hpl Hh Hsc Hst Hop Hsn Hgen Hsmall Hlen.
  assert (Hmax : opt_max_database_bytes (db_options db) ≤ ISIZE_MAX) by (rewrite Hop; vm_compute; discriminate).
  assert (Hw : compaction.whole f) by (intros n Hn; rewrite Hsc in Hn; by apply not_elem_of_nil in Hn).
  destruct (compaction.compact_any db f sb entries batches Hh Hw Hgen Hmax Hpl) as (r&db'&c'&Hr&(g&Hg&_&_&Hsu)&Ho).
  pose proof (session.frames_compact db) as [Hopt Hsnp]. rewrite Hr in Hopt, Hsnp. cbn [snd] in Hopt, Hsnp.
  rewrite Hsc in Hsu. apply suffix_nil_inv in Hsu. destruct r as [[]|e|]; [| |done].
  - destruct Ho as (Hst'&f'&sb'&l&Hh'&Hm'&_&_&Hor). exists db', f', sb', l. split; [done|].
    pose proof Hh' as (Hsf'&_). rewrite Hg in Hsf'. injection Hsf' as <-.
    split_and!; try done; [congruence|]. destruct Hor as [->|(size&Hpm&Hsz&->)]; [done|].
    destruct (small_measure _ l Hsmall Hpm) as (size'&Hsz'&Hb). rewrite Hsz in Hsz'. injection Hsz' as <-.
    unfold superblock.DATA_START, superblock.SUPERBLOCK_SIZE. lia.
  - exfalso. destruct Ho as [_ [?|[?|[[[x Hx]|[n Hn]]|(l&Hpm&Hno)]]]]; [done|done| |by rewrite Hres in Hn|].
    + rewrite Hsc in Hx. by apply not_elem_of_nil in Hx.
    + destruct (small_measure _ l Hsmall Hpm) as (size&Hsz&Hb). specialize (Hno size Hsz). unfold compaction.no_room in Hno.
      rewrite Hop in Hno. revert Hno.
      unfold compaction.plan_for. cbn [maintenance.source_end]. unfold superblock.DATA_START, superblock.SUPERBLOCK_SIZE, log.LOG_HEADER_SIZE.
      change (Z.shiftl 1 40) with 1099511627776. lia.
Qed.

End Steps.

End workload.
