(* ===== verification/RecoveryModel.v ===== *)
(** * The fuzz target [recovery_model]

    [fuzz/fuzz_targets/recovery_model.rs]: batches read off the input are committed to a
    database and to a model, the file is truncated, corrupted in one bit or left alone, and
    what reopening finds is compared with the model. The theorem shows that the target
    never panics: none of its assertions fails on any input. *)

From S2P Require Import Prelude Errors Crates Io Superblock Values Log Segment Overlay Recovery View Base Storage Transaction.
From S2P Require Import Entries Database Faults Commit Written Reopen Handle Integrity Maintenance Overwrite Compaction Snapshot Session Creation Scratch Workload.
Import overlay_map_facts commit_facts handle scratch workload.

Module recovery_model.

Abbreviation model := (gmap bytes bytes).

(** ** [Input] *)

Module input.

(** [Input::byte] of the input [bs]; the state is [offset]. *)
Definition byte (bs : bytes) : M Z Z :=
  offset ← gets (λ o : Z, o);
  i ← lift (if blen bs =? 0 then Panic else Ok (offset mod blen bs));
  b ← lift (unwrap (bs !! Z.to_nat i));
  offset ← lift (add_ovf offset 1);
  _ ← modify (λ _, offset);
  mret (Z_of_u8 b).

Fixpoint take_bytes (bs : bytes) (n : nat) : M Z bytes :=
  match n with
  | O => mret []
  | S n => b ← byte bs; rest ← take_bytes bs n; mret (u8_of_Z b :: rest)
  end.

(** [Input::number]. *)
Definition number (bs : bytes) : M Z Z := le ← take_bytes bs 8; mret (from_le_bytes le).

End input.

(** ** The workload *)

Section Target.
Context `{Crc32c, Xxh3, Alloc, HashTables, Placement, MmapAnon, Process, TempDir}.

(** [db], [model] and [input] of the functions of the target. *)
Record Harness := MkHarness {
  h_db : Database;
  h_model : model;
  h_input : Z
}.

Definition on_db {A} (x : M Database A) : M Harness A := zoom h_db (λ db h, MkHarness db (h_model h) (h_input h)) x.
Definition on_input {A} (x : M Z A) : M Harness A := zoom h_input (λ i h, MkHarness (h_db h) (h_model h) i) x.
Definition set_model (m : model) : M Harness () := modify (λ h, MkHarness (h_db h) m (h_input h)).

(** The loop of [apply_batch]. *)
Fixpoint stage_ops (bs : bytes) (memory : bool) (n : nat) (tx : WriteTransaction) : M Harness WriteTransaction :=
  match n with
  | O => mret tx
  | S n =>
      k0 ← on_input (input.byte bs);
      k1 ← on_input (input.byte bs);
      let key := [u8_of_Z (k0 mod 32); u8_of_Z k1] in
      choice ← on_input (input.byte bs);
      h ← gets (λ h : Harness, h);
      if Z.land choice 3 =? 0 then
        let '(r, tx) := expect (transaction.delete key) tx in
        _ ← lift r;
        _ ← set_model (delete key (h_model h));
        stage_ops bs memory n tx
      else
        len ← on_input (input.byte bs);
        value ← on_input (input.take_bytes bs (Z.to_nat (len mod 96)));
        let '(r, tx) := expect (transaction.put memory key value) tx in
        _ ← lift r;
        _ ← set_model (<[key := value]> (h_model h));
        stage_ops bs memory n tx
  end.

Definition apply_batch (bs : bytes) : M Harness () :=
  tx ← expect (on_db database.begin_write);
  h ← gets (λ h : Harness, h);
  n ← on_input (input.byte bs);
  tx ← stage_ops bs (storage.is_memory (db_storage (h_db h))) (Z.to_nat (1 + n mod 8)) tx;
  expect (on_db (database.commit tx)).

Definition read_model : M Database model :=
  entries ← expect database.iter;
  mret (foldl (λ m kv, <[kv.1 := kv.2]> m) ∅ entries).

Definition storage_bytes_of : M Harness Z :=
  stats ← expect (on_db database.stats); mret (storage_bytes stats).

Fixpoint rounds (bs : bytes) (n : nat) : M Harness (list (Z * model)) :=
  match n with
  | O => mret []
  | S n =>
      _ ← apply_batch bs;
      len ← storage_bytes_of;
      h ← gets (λ h : Harness, h);
      rest ← rounds bs n;
      mret ((len, h_model h) :: rest)
  end.

(** From the first batch to [drop(db)]: [log_start], [prefix_model] and [commits]. *)
Definition workload (bs : bytes) : M Harness (Z * model * list (Z * model)) :=
  _ ← apply_batch bs;
  flag ← on_input (input.byte bs);
  _ ← (if negb (Z.land flag 1 =? 0) then expect (on_db maintenance.compact) else mret ());
  log_start ← storage_bytes_of;
  h ← gets (λ h : Harness, h);
  n ← on_input (input.byte bs);
  commits ← rounds bs (Z.to_nat (1 + n mod 16));
  mret (log_start, h_model h, commits).

(** ** The three endings *)

(** [commits.iter().rev().find(|(end, _)| *end <= cut)]. *)
Definition last_within (cut : Z) (commits : list (Z * model)) : option (Z * model) :=
  head (filter (λ c, c.1 ≤ cut) (rev commits)).

Definition truncated (p : bytes) (cut log_start : Z) (prefix_model : model) (commits : list (Z * model)) : M Fs () :=
  _ ← expect (with_descriptor p (_ ← file.set_len cut; file.sync));
  let found := last_within cut commits in
  '(ino, db) ← expect (creation.open p);
  let '(r, db) := read_model db in
  recovered ← lift r;
  _ ← assert_that (bool_decide (recovered = match found with Some c => c.2 | None => prefix_model end));
  let '(r, db) := expect database.stats db in
  stats ← lift r;
  _ ← assert_that (storage_bytes stats =? match found with Some c => c.1 | None => log_start end);
  creation.drop_database ino db.

Definition corrupted (p : bytes) (offset bit : Z) : M Fs () :=
  _ ← expect (with_descriptor p (
        _ ← seek (Start offset);
        byte ← read_exact 1;
        let byte := match byte with b :: _ => [u8_of_Z (Z.lxor (Z_of_u8 b) (Z.shiftl 1 bit))] | [] => [] end in
        _ ← seek (Start offset);
        _ ← write_all byte;
        file.sync));
  catch (creation.open p) (λ r, match r with Err _ => mret () | _ => lift Panic end).

Definition clean (p : bytes) (m : model) : M Fs () :=
  '(ino, db) ← expect (creation.open p);
  let '(r, db) := read_model db in
  recovered ← lift r;
  _ ← assert_that (bool_decide (recovered = m));
  creation.drop_database ino db.

(** [fuzz_target!]. *)
Definition scratch_dir : bytes := join temp_dir (text ("lkv-fuzz-recovery-model-" +:+ fmt_num process_id)).
Definition database_path : bytes := join scratch_dir (text "database.lkv").

Definition fuzz_session (bs : bytes) : M Fs () :=
  '(ino, db) ← expect (creation.create_with_options database_path
                  (options.with_overlay_memory_limit options.default (U64 - 1)));
  let '(r, h) := workload bs (MkHarness db ∅ 0) in
  '(log_start, prefix_model, commits) ← lift r;
  _ ← creation.drop_database ino (h_db h);
  full_len ← expect (metadata_len database_path);
  let '(r, i) := input.byte bs (h_input h) in
  choice ← lift r;
  if choice mod 3 =? 0 then
    let '(r, _) := input.number bs i in
    number ← lift r;
    span ← lift (unwrap (checked_sub full_len log_start));
    span ← lift (add_ovf span 1);
    cut ← lift (add_ovf log_start (number mod span));
    truncated database_path cut log_start prefix_model commits
  else if choice mod 3 =? 1 then
    let '(r, i) := input.number bs i in
    number ← lift r;
    span ← lift (unwrap (checked_sub full_len log_start));
    rem ← lift (if span =? 0 then Panic else Ok (number mod span));
    offset ← lift (add_ovf log_start rem);
    let '(r, _) := input.byte bs i in
    bit ← lift r;
    corrupted database_path offset (Z.land bit 7)
  else clean database_path (h_model h).

Definition fuzz_target (bs : bytes) : M Scratch () :=
  match bs with
  | [] => mret ()
  | _ =>
      _ ← fresh_dir scratch_dir;
      _ ← on_fs (fuzz_session bs);
      expect (remove_dir_all scratch_dir)
  end.

End Target.

(** ** Reading the input *)

Section Input.
Implicit Types (bs : bytes) (o : Z).

Lemma byte_ok bs o :
  bs ≠ [] → 0 ≤ o → o + 1 < U64 → ∃ b, input.byte bs o = (Ok b, o + 1) ∧ 0 ≤ b < 256.
Proof.
  intros Hbs Ho Hlt. assert (Hpos : 0 < blen bs) by (by apply blen_pos). pose proof (Z.mod_pos_bound o (blen bs) Hpos).
  destruct (lookup_lt_is_Some_2 bs (Z.to_nat (o mod blen bs))) as [b Hb]; [unfold blen in *; lia|].
  exists (Z_of_u8 b). split; [|apply Z_of_u8_range]. unfold input.byte.
  rewrite (M_bind_ok (gets _) _ o _ o eq_refl). replace (blen bs =? 0) with false by lia.
  rewrite M_lift_ok, Hb. cbn [unwrap]. rewrite M_lift_ok, add_ovf_ok by done. done.
Qed.

Lemma take_bytes_ok bs n o :
  bs ≠ [] → 0 ≤ o → o + Z.of_nat n < U64 →
  ∃ l, input.take_bytes bs n o = (Ok l, o + Z.of_nat n) ∧ length l = n.
Proof.
  intros Hbs. revert o. induction n as [|n IH]; intros o Ho Hlt; cbn [input.take_bytes].
  { exists []. rewrite Z.add_0_r. done. }
  destruct (byte_ok bs o Hbs Ho) as (b&Hb&_); [lia|]. destruct (IH (o + 1)) as (l&Hl&Hlen); [lia|lia|].
  exists (u8_of_Z b :: l). rewrite (M_bind_ok _ _ _ _ _ Hb), (M_bind_ok _ _ _ _ _ Hl).
  split; [cbn; f_equal; lia|cbn; lia].
Qed.

Lemma number_ok bs o :
  bs ≠ [] → 0 ≤ o → o + 8 < U64 → ∃ n, input.number bs o = (Ok n, o + 8) ∧ 0 ≤ n.
Proof.
  intros Hbs Ho Hlt. destruct (take_bytes_ok bs 8 o Hbs Ho) as (l&Hl&_); [lia|]. exists (from_le_bytes l).
  unfold input.number. rewrite (M_bind_ok _ _ _ _ _ Hl). split; [done|]. apply from_le_bytes_range.
Qed.

End Input.

(** ** Batches *)

Lemma apply_insert m muts k o :
  NoDup muts.*1 → handle.apply_batch m (KeyMap.insert muts k o) = apply_mutation (handle.apply_batch m muts) (k, o).
Proof.
  intros Hnd. apply map_eq. intros key. rewrite apply_batch_lookup by (by apply KeyMap.insert_wf). rewrite KeyMap.get_insert.
  unfold apply_mutation. cbn [fst snd]. destruct (decide (key = k)) as [->|Hne].
  - rewrite decide_True by done. destruct o; [by rewrite lookup_insert_eq|by rewrite lookup_delete_eq].
  - rewrite decide_False by done. destruct o; [rewrite lookup_insert_ne by done|rewrite lookup_delete_ne by done];
      by rewrite apply_batch_lookup.
Qed.

Lemma insert_blen {V} (m : KeyMap V) k v : blen (KeyMap.insert m k v) ≤ blen m + 1 ∧ KeyMap.insert m k v ≠ [].
Proof.
  induction m as [|[k1 v1] m [IH _]]; cbn [KeyMap.insert]; [done|]. case_decide; (split; [|done]); rewrite !blen_cons; lia.
Qed.

Section Stats.
Context `{Crc32cLaws, Xxh3Laws, Alloc, HashTablesLaws}.

Lemma stats_ok (db : Database) f sb entries batches :
  handle_on db f sb entries batches → file_script f = [] → db_state db = Healthy →
  ∃ st, database.stats db = (Ok st, db) ∧ storage_bytes st = blen (file_content f).
Proof.
  intros Hh Hsc Hst. pose proof Hh as (Hsf&_&(mapping&Hd&_)&_). eexists. unfold database.stats.
  rewrite available_run by (by rewrite Hst).
  assert (Hl : database.on_storage storage.len db = (Ok (blen (file_content f)), db)).
  { rewrite (on_storage_run _ db (Ok (blen (file_content f))) (SFile f)) by (rewrite Hsf; by apply len_clean).
    by rewrite <- Hsf, database_eta. }
  rewrite (M_bind_ok _ _ _ _ _ Hl), (M_bind_ok database.self _ _ _ _ eq_refl), Hd, M_lift_ok. done.
Qed.

End Stats.

Section Runs.
Context `{Crc32cLaws, Xxh3Laws, Alloc, HashTablesLaws, Placement, MmapAnon}.
Context (bs : bytes) (Hbs : bs ≠ []).
Hypothesis Hpl : ∀ mapping, PlacementLaws mapping.
Hypothesis Hres : ∀ n, try_reserve n = true.
Implicit Types (h : Harness) (muts : list mutation) (tx : WriteTransaction) (m : model).

Lemma on_input_run {A} (x : M Z A) h r i :
  x (h_input h) = (r, i) → on_input x h = (r, MkHarness (h_db h) (h_model h) i).
Proof. intros Hx. unfold on_input, zoom. by rewrite Hx. Qed.

Lemma on_db_run {A} (x : M Database A) h r db :
  x (h_db h) = (r, db) → on_db x h = (r, MkHarness db (h_model h) (h_input h)).
Proof. intros Hx. unfold on_db, zoom. by rewrite Hx. Qed.

Lemma stage_ops_ok n tx muts m h :
  tx_facts.tx_ok false tx muts → Forall small_op muts → h_model h = handle.apply_batch m muts →
  0 ≤ h_input h → h_input h + 100 * Z.of_nat n < U64 →
  ∃ tx' muts' i, stage_ops bs false n tx h = (Ok tx', MkHarness (h_db h) (handle.apply_batch m muts') i)
    ∧ tx_facts.tx_ok false tx' muts' ∧ Forall small_op muts' ∧ blen muts' ≤ blen muts + Z.of_nat n
    ∧ ((0 < n)%nat ∨ muts ≠ [] → muts' ≠ []) ∧ h_input h ≤ i ≤ h_input h + 100 * Z.of_nat n.
Proof using Hbs Hres H0.
  revert tx muts h. induction n as [|n IH]; intros tx muts h Htx Hsm Hm Hi Hlt; cbn [stage_ops].
  { exists tx, muts, (h_input h). rewrite <- Hm. destruct h. split; [done|]. split; [done|]. split; [done|].
    split; [lia|]. split; [by intros [?|?]; [lia|]|]. cbn [h_input]. lia. }
  set (i := h_input h) in *. pose proof Htx as (_&Hnd&_).
  destruct (byte_ok bs i Hbs) as (k0&Hk0&_); [lia|lia|]. destruct (byte_ok bs (i + 1) Hbs) as (k1&Hk1&_); [lia|lia|].
  destruct (byte_ok bs (i + 1 + 1) Hbs) as (ch&Hch&_); [lia|lia|].
  rewrite (M_bind_ok _ _ _ _ _ (on_input_run _ h _ _ Hk0)).
  rewrite (M_bind_ok _ _ _ _ _ (on_input_run _ (MkHarness (h_db h) (h_model h) (i + 1)) _ _ Hk1)). cbv zeta. cbn [h_db h_model].
  rewrite (M_bind_ok _ _ _ _ _ (on_input_run _ (MkHarness (h_db h) (h_model h) (i + 1 + 1)) _ _ Hch)). cbn [h_db h_model].
  rewrite (M_bind_ok (gets _) _ _ _ _ eq_refl). set (key := [u8_of_Z (k0 mod 32); u8_of_Z k1]).
  (* one staged operation and the rest of the loop *)
  assert (Hstep : ∀ o (r : result ()) tx1 j, r = Ok () → tx_facts.tx_ok false tx1 (KeyMap.insert muts key o) →
    blen (OverlayEntry.contents o) ≤ 95 → i ≤ j ≤ i + 100 →
    ∃ tx' muts' i', (_ ← lift r; _ ← set_model (apply_mutation (h_model h) (key, o)); stage_ops bs false n tx1)
        (MkHarness (h_db h) (h_model h) j) = (Ok tx', MkHarness (h_db h) (handle.apply_batch m muts') i')
      ∧ tx_facts.tx_ok false tx' muts' ∧ Forall small_op muts' ∧ blen muts' ≤ blen muts + Z.of_nat (S n)
      ∧ ((0 < S n)%nat ∨ muts ≠ [] → muts' ≠ []) ∧ i ≤ i' ≤ i + 100 * Z.of_nat (S n)).
  { intros o r tx1 j -> Htx1 Hv Hj. rewrite M_lift_ok. unfold set_model. rewrite (M_bind_ok (modify _) _ _ _ _ eq_refl).
    cbn [h_db h_model h_input]. destruct (insert_blen muts key o) as [Hbl Hne].
    destruct (IH tx1 (KeyMap.insert muts key o) (MkHarness (h_db h) (apply_mutation (h_model h) (key, o)) j))
      as (tx'&muts'&i'&Hr&Htx'&Hsm'&Hb'&Hne'&Hi'); [done| | |cbn; lia|cbn; lia|].
    - apply tx_facts.Forall_insert_ok; [done|done|]. by split.
    - cbn [h_model]. by rewrite Hm, apply_insert.
    - cbn [h_db h_input] in *. exists tx', muts', i'. split; [exact Hr|]. split; [done|]. split; [done|].
      split; [lia|]. split; [intros _; by apply Hne'; right|lia]. }
  destruct (Z.land ch 3 =? 0).
  - destruct (tx_facts.delete_spec false tx muts key Htx) as (r&tx1&Hr&Ho). cbn [tx_spec.step] in Ho.
    rewrite decide_True in Ho by done. destruct Ho as [-> Htx1]. rewrite (scratch_facts.expect_ok _ _ _ _ Hr).
    apply (Hstep None); [done|done|done|lia].
  - destruct (byte_ok bs (i + 1 + 1 + 1) Hbs) as (len&Hlen&Hlr); [lia|lia|].
    rewrite (M_bind_ok _ _ _ _ _ (on_input_run _ (MkHarness (h_db h) (h_model h) (i + 1 + 1 + 1)) _ _ Hlen)). cbn [h_db h_model].
    pose proof (Z.mod_pos_bound len 96 ltac:(lia)).
    destruct (take_bytes_ok bs (Z.to_nat (len mod 96)) (i + 1 + 1 + 1 + 1) Hbs) as (value&Hval&Hvl); [lia|lia|].
    rewrite (M_bind_ok _ _ _ _ _ (on_input_run _ (MkHarness (h_db h) (h_model h) (i + 1 + 1 + 1 + 1)) _ _ Hval)). cbn [h_db h_model].
    destruct (tx_facts.put_spec false tx muts key value Htx Hres) as (r&tx1&Hr&Ho). cbn [tx_spec.step] in Ho.
    assert (Hfit : tx_spec.put_fits (blen key) (blen value)).
    { unfold tx_spec.put_fits, segment.MAX_KEY_SIZE, segment.MAX_VALUE_SIZE, log.MAX_LOG_PAYLOAD_SIZE, blen. cbn. lia. }
    rewrite decide_True in Ho by done. destruct Ho as [-> Htx1]. rewrite (scratch_facts.expect_ok _ _ _ _ Hr).
    apply (Hstep (Some value)); [done|done|cbn; unfold blen; lia|lia].
Qed.

(** The database and its model, on a file whose system calls do not fail. *)
Definition fuzz_options : DatabaseOptions := options.with_overlay_memory_limit options.default (U64 - 1).

Definition running h f sb entries batches : Prop :=
  handle_on (h_db h) f sb entries batches ∧ file_script f = [] ∧ db_state (h_db h) = Healthy
  ∧ db_options (h_db h) = fuzz_options ∧ db_snapshots (h_db h) = 0 ∧ h_model h = contents entries batches.

Lemma apply_batch_ok h f sb entries batches :
  running h f sb entries batches → 0 ≤ h_input h → h_input h + 900 < U64 →
  blen (file_content f) + 1000 ≤ opt_max_database_bytes fuzz_options →
  ∃ h' f' muts, apply_batch bs h = (Ok (), h') ∧ running h' f' sb entries (batches ++ [muts]) ∧ small muts
    ∧ file_content f' = file_content f ++ log.encode_record muts ∧ h_input h ≤ h_input h' ≤ h_input h + 900.
Proof using H0 H2 H5 Hres Hbs.
  intros (Hh&Hsc&Hst&Hop&Hsn&Hm) Hi Hlt Hcap. unfold apply_batch.
  assert (Hbw : database.begin_write (h_db h) = (Ok transaction.new, h_db h)).
  { unfold database.begin_write. rewrite session.writable_run, (M_bind_ok database.self _ _ _ _ eq_refl), Hop by done. cbv zeta.
    destruct Hh as (_&_&_&_&_&_&(_&_&Hlim)&_). replace (_ <? _) with false; [done|]. symmetry. apply Z.ltb_ge.
    cbn [fuzz_options options.with_overlay_memory_limit opt_overlay_memory_limit]. lia. }
  rewrite (M_bind_ok _ _ _ _ _ (scratch_facts.expect_ok _ _ _ _ (on_db_run _ h _ _ Hbw))).
  rewrite (M_bind_ok (gets _) _ _ _ _ eq_refl). cbn [h_db h_model h_input]. pose proof Hh as (Hsf&_). rewrite Hsf. cbn [storage.is_memory].
  destruct (byte_ok bs (h_input h) Hbs) as (n&Hn&Hnr); [lia|lia|].
  rewrite (M_bind_ok _ _ _ _ _ (on_input_run _ (MkHarness (h_db h) (h_model h) (h_input h)) _ _ Hn)). cbn [h_db h_model].
  pose proof (Z.mod_pos_bound n 8 ltac:(lia)). set (k := Z.to_nat (1 + n mod 8)).
  destruct (stage_ops_ok k transaction.new [] (h_model h) (MkHarness (h_db h) (h_model h) (h_input h + 1)))
    as (tx&muts&i&Hs&Htx&Hsm&Hbl&Hne&Hir); [apply tx_facts.tx_ok_new|constructor|done|cbn; lia|cbn [h_input]; lia|].
  rewrite (M_bind_ok _ _ _ _ _ Hs). cbn [h_db h_input] in *. rewrite blen_nil in Hbl.
  assert (Hsmall : small muts) by (split; [apply Hne; left; lia|split; [lia|split; [done|apply Htx]]]).
  destruct (commit_small (h_db h) f sb entries batches tx muts Hres Hh Hsc Hst)
    as (db'&f'&Hc&Hh'&Hsc'&Hst'&Hop'&Hsn'&Hfc); [by rewrite Hop|done|done|by rewrite Hop|]. rewrite Hop in Hop'.
  set (h1 := MkHarness (h_db h) (handle.apply_batch (h_model h) muts) i).
  rewrite (scratch_facts.expect_ok _ _ _ _ (on_db_run (database.commit tx) h1 (Ok ()) db' Hc)).
  eexists _, f', muts. split; [reflexivity|]. split; [|split; [done|split; [done|cbn [h_input h1]; lia]]].
  split_and!; try done; cbn [h_db h_model h1]; [congruence|]. rewrite Hm.
  by rewrite contents_snoc by (eapply holds_NoDup; by destruct Hh as (_&_&?&_)).
Qed.

Lemma storage_bytes_ok h f sb entries batches :
  running h f sb entries batches → storage_bytes_of h = (Ok (blen (file_content f)), h).
Proof using All.
  intros (Hh&Hsc&Hst&_). destruct (stats_ok _ f sb entries batches Hh Hsc Hst) as (st&Hx&Hl). unfold storage_bytes_of.
  rewrite (M_bind_ok _ _ _ _ _ (scratch_facts.expect_ok _ _ _ _ (on_db_run _ h _ _ Hx))). rewrite Hl. by destruct h.
Qed.

Lemma compact_ok h f sb entries batches :
  running h f sb entries batches → generation sb + 3 < U64 → small_map (h_model h) → blen (file_content f) ≤ 20000 →
  ∃ db' f' sb' l, maintenance.compact (h_db h) = (Ok (), db')
    ∧ running (MkHarness db' (h_model h) (h_input h)) f' sb' l [] ∧ blen (file_content f') ≤ 20000.
Proof using H0 H2 H5 Hpl Hres.
  intros (Hh&Hsc&Hst&Hop&Hsn&Hm) Hgen Hsmall Hlen. rewrite Hm in Hsmall.
  destruct (compact_small (h_db h) f sb entries batches Hres Hpl Hh Hsc Hst) as (db'&f'&sb'&l&Hr&Hh'&Hsc'&Hst'&Hop'&Hsn'&Hm'&Hl');
    [by rewrite Hop|done|done|done|done|].
  exists db', f', sb', l. split; [done|]. split; [|done]. split_and!; try done; cbn; congruence.
Qed.

(** The lengths and contents after each of the batches [new] on a file of [len] bytes. *)
Fixpoint trail (len : Z) (entries : list (bytes * bytes)) (batches new : list (list mutation)) : list (Z * model) :=
  match new with
  | [] => []
  | muts :: new =>
      let len := len + blen (log.encode_record muts) in
      (len, contents entries (batches ++ [muts])) :: trail len entries (batches ++ [muts]) new
  end.

Lemma rounds_ok n h f sb entries batches :
  running h f sb entries batches → 0 ≤ h_input h → h_input h + 900 * Z.of_nat n < U64 →
  blen (file_content f) + 1000 * Z.of_nat n ≤ opt_max_database_bytes fuzz_options →
  ∃ h' f' new, rounds bs n h = (Ok (trail (blen (file_content f)) entries batches new), h')
    ∧ running h' f' sb entries (batches ++ new) ∧ Forall small new ∧ length new = n
    ∧ file_content f' = file_content f ++ recovery.encode_log new
    ∧ h_input h ≤ h_input h' ≤ h_input h + 900 * Z.of_nat n.
Proof using All.
  revert h f batches. induction n as [|n IH]; intros h f batches Hrun Hi Hlt Hcap; cbn [rounds].
  { exists h, f, []. rewrite !app_nil_r. split; [done|]. split; [done|]. split; [done|]. split; [done|]. split; [done|lia]. }
  destruct (apply_batch_ok h f sb entries batches Hrun Hi) as (h1&f1&muts&Hb&Hrun1&Hsm&Hc1&Hi1); [lia|lia|].
  rewrite (M_bind_ok _ _ _ _ _ Hb), (M_bind_ok _ _ _ _ _ (storage_bytes_ok _ _ _ _ _ Hrun1)), (M_bind_ok (gets _) _ _ _ _ eq_refl).
  destruct (small_record muts Hsm) as [_ Hrec].
  destruct (IH h1 f1 (batches ++ [muts]) Hrun1) as (h2&f2&new&Hr&Hrun2&Hsm2&Hln&Hc2&Hi2); [lia|lia|rewrite Hc1, blen_app; lia|].
  rewrite (M_bind_ok _ _ _ _ _ Hr). exists h2, f2, (muts :: new). split.
  { cbn [trail]. rewrite Hc1, blen_app. destruct Hrun1 as (_&_&_&_&_&->). done. }
  split; [by rewrite <- app_assoc in Hrun2|]. split; [by constructor|]. split; [cbn; lia|]. split; [|lia].
  rewrite Hc2, Hc1, <- app_assoc. done.
Qed.

(** The workload on a new database. *)
Lemma workload_ok h f sb :
  running h f sb [] [] → h_input h = 0 → generation sb = 1 → blen (file_content f) = database.MIN_DATABASE_BYTES →
  ∃ h' f' sb' entries batches new c0,
    workload bs h = (Ok (blen c0, contents entries batches, trail (blen c0) entries batches new), h')
    ∧ running h' f' sb' entries (batches ++ new) ∧ image_holds c0 sb' entries batches []
    ∧ file_content f' = c0 ++ recovery.encode_log new ∧ Forall small new ∧ new ≠ []
    ∧ blen (file_content f') ≤ 40000 ∧ 0 ≤ h_input h' ≤ 20000.
Proof using All.
  intros Hrun Hi Hgen Hlen. assert (Hmin : database.MIN_DATABASE_BYTES ≤ 9000) by (vm_compute; discriminate).
  assert (Hcap : 100000 ≤ opt_max_database_bytes fuzz_options) by (vm_compute; discriminate). unfold workload.
  destruct (apply_batch_ok h f sb [] [] Hrun) as (h1&f1&muts&Hb&Hrun1&Hsm&Hc1&Hi1); [lia|lia|lia|].
  rewrite (M_bind_ok _ _ _ _ _ Hb). destruct (small_record muts Hsm) as [Hok Hrec].
  destruct (byte_ok bs (h_input h1) Hbs) as (flag&Hflag&_); [lia|lia|].
  rewrite (M_bind_ok _ _ _ _ _ (on_input_run _ h1 _ _ Hflag)). set (h2 := MkHarness (h_db h1) (h_model h1) (h_input h1 + 1)).
  assert (Hrun2 : running h2 f1 sb [] [muts]) by exact Hrun1.
  assert (Hl1 : blen (file_content f1) ≤ 20000) by (rewrite Hc1, blen_app; lia).
  (* compacted or not *)
  assert (Hcompact : ∃ h3 f3 sb3 entries batches,
    (if negb (Z.land flag 1 =? 0) then expect (on_db maintenance.compact) else mret ()) h2 = (Ok (), h3)
    ∧ running h3 f3 sb3 entries batches ∧ blen (file_content f3) ≤ 20000 ∧ h_input h3 = h_input h1 + 1).
  { destruct (negb _); [|by exists h2, f1, sb, [], [muts]].
    assert (Hsmall : small_map (h_model h2)).
    { destruct Hrun2 as (Hh&_&_&_&_&->). change [muts] with ([] ++ [muts]). rewrite (contents_snoc [] [] muts) by constructor.
      by apply apply_small. }
    destruct (compact_ok h2 f1 sb [] [muts] Hrun2) as (db3&f3&sb3&l&Hc&Hrun3&Hl3); [lia|done|done|].
    exists (MkHarness db3 (h_model h2) (h_input h2)), f3, sb3, l, []. split; [|done].
    by rewrite (scratch_facts.expect_ok _ _ _ _ (on_db_run _ h2 _ _ Hc)). }
  destruct Hcompact as (h3&f3&sb3&entries&batches&Hc&Hrun3&Hl3&Hi3).
  rewrite (M_bind_ok _ _ _ _ _ Hc), (M_bind_ok _ _ _ _ _ (storage_bytes_ok _ _ _ _ _ Hrun3)), (M_bind_ok (gets _) _ _ _ _ eq_refl).
  destruct (byte_ok bs (h_input h3) Hbs) as (n&Hn&Hnr); [lia|lia|].
  rewrite (M_bind_ok _ _ _ _ _ (on_input_run _ h3 _ _ Hn)). set (h4 := MkHarness (h_db h3) (h_model h3) (h_input h3 + 1)).
  assert (Hrun4 : running h4 f3 sb3 entries batches) by exact Hrun3. pose proof (Z.mod_pos_bound n 16 ltac:(lia)).
  destruct (rounds_ok (Z.to_nat (1 + n mod 16)) h4 f3 sb3 entries batches Hrun4)
    as (h5&f5&new&Hr&Hrun5&Hsm5&Hln&Hc5&Hi5); [cbn; lia|cbn [h4 h_input]; lia|lia|].
  rewrite (M_bind_ok _ _ _ _ _ Hr). pose proof Hrun3 as ((_&Hi0&_)&_&_&_&_&Hm3).
  exists h5, f5, sb3, entries, batches, new, (file_content f3). cbn [h4 h_input] in Hi5. rewrite Hm3. split; [done|]. split; [done|].
  split; [done|]. split; [done|]. split; [done|]. split; [intros ->; cbn in Hln; lia|]. split; [|lia].
  rewrite Hc5, blen_app.
  assert (Hlog : ∀ l, Forall small l → blen (recovery.encode_log l) ≤ 1000 * Z.of_nat (length l)).
  { induction 1 as [|x l Hx _ IH]; [done|]. change (recovery.encode_log (x :: l)) with (log.encode_record x ++ recovery.encode_log l).
    rewrite blen_app. destruct (small_record x Hx) as [_ ?]. cbn [length]. lia. }
  specialize (Hlog new Hsm5). lia.
Qed.

End Runs.

(** ** The durable prefix *)

Lemma last_within_cons cut c commits :
  last_within cut (c :: commits)
  = match last_within cut commits with Some d => Some d | None => if decide (c.1 ≤ cut) then Some c else None end.
Proof.
  unfold last_within. cbn [rev]. rewrite filter_app. destruct (filter _ (rev commits)) as [|d l]; [|done].
  cbn. by case_decide.
Qed.

Section Prefix.
Context `{Crc32c, Xxh3, Alloc, HashTables}.
Implicit Types (entries : list (bytes * bytes)) (batches new : list (list mutation)).

Lemma trail_beyond cut len entries batches new : Forall small new → cut < len → last_within cut (trail len entries batches new) = None.
Proof.
  intros Hs. revert len batches. induction Hs as [|muts new Hm _ IH]; intros len batches Hlt; [done|].
  cbn [trail]. destruct (small_record muts Hm) as [_ Hrec]. rewrite last_within_cons, IH by lia. rewrite decide_False; [done|]. cbn [fst]. lia.
Qed.

(** The last length within [cut] is where the whole records of the prefix end. *)
Lemma trail_within cut len entries batches new :
  Forall small new → len ≤ cut →
  ∃ j rest, take (Z.to_nat (cut - len)) (recovery.encode_log new) = recovery.encode_log (take j new) ++ rest ∧ recovery.log_end rest
    ∧ match last_within cut (trail len entries batches new) with
      | Some c => c = (len + blen (recovery.encode_log (take j new)), contents entries (batches ++ take j new))
      | None => take j new = []
      end.
Proof.
  intros Hs. revert len batches. induction Hs as [|muts new Hm Hs IH]; intros len batches Hle.
  { exists 0%nat, []. change (recovery.encode_log []) with (@nil byte). rewrite take_nil. split; [done|]. split; [by left|done]. }
  destruct (small_record muts Hm) as [Hok Hrec]. cbn [trail]. cbv zeta. rewrite last_within_cons.
  change (recovery.encode_log (muts :: new)) with (log.encode_record muts ++ recovery.encode_log new).
  set (len' := len + blen (log.encode_record muts)). destruct (decide (cut < len')) as [Hlt|Hge].
  - exists 0%nat, (take (Z.to_nat (cut - len)) (log.encode_record muts)). rewrite take_app_le by (unfold blen in *; lia).
    split; [done|]. split.
    { right; right. exists muts, (Z.to_nat (cut - len)). split; [done|]. split; [done|]. unfold len' in Hlt. lia. }
    rewrite trail_beyond by done. cbn [fst]. by rewrite decide_False by lia.
  - destruct (IH len' (batches ++ [muts])) as (j&rest&Htk&He&Hlw); [lia|]. exists (S j), rest. cbn [take].
    change (recovery.encode_log (muts :: take j new)) with (log.encode_record muts ++ recovery.encode_log (take j new)).
    assert (Htake : take (Z.to_nat (cut - len)) (log.encode_record muts ++ recovery.encode_log new)
      = (log.encode_record muts ++ recovery.encode_log (take j new)) ++ rest).
    { rewrite take_app_ge by (unfold len', blen in *; lia). rewrite <- app_assoc, <- Htk. do 2 f_equal. unfold len', blen in *. lia. }
    split; [exact Htake|]. split; [done|]. rewrite blen_app. destruct (last_within cut (trail len' _ _ _)) as [c|].
    + rewrite Hlw, <- app_assoc. f_equal; unfold len'; lia.
    + cbn [fst]. rewrite decide_True by lia. rewrite Hlw. change (recovery.encode_log []) with (@nil byte). rewrite blen_nil.
      f_equal; unfold len'; lia.
Qed.

End Prefix.

(** ** The endings *)

Lemma collect_map (l : list (bytes * bytes)) (acc : model) :
  NoDup l.*1 → foldl (λ m kv, <[kv.1 := kv.2]> m) acc l = list_to_map l ∪ acc.
Proof.
  revert acc. induction l as [|[k v] l IH]; intros acc Hnd; cbn [foldl]; [by rewrite list_to_map_nil, (left_id_L ∅ (∪))|].
  cbn [fmap list_fmap fst] in Hnd. apply NoDup_cons in Hnd as [Hk Hnd]. rewrite IH by done. rewrite list_to_map_cons. cbn [fst snd].
  rewrite <- insert_union_r by (by apply not_elem_of_list_to_map_1). by rewrite insert_union_l.
Qed.

Section Endings.
Context `{Crc32cLaws, !Crc32cDetects, Xxh3Laws, Alloc, HashTablesLaws, Placement, Process}.
Hypothesis Hpl : ∀ mapping, PlacementLaws mapping.
Hypothesis Hres : ∀ n, try_reserve n = true.
Hypothesis Hidx : recovery.reserve_succeeds.
Implicit Types (s : Fs) (p : bytes) (f : File) (sb : Superblock) (entries : list (bytes * bytes)) (batches new : list (list mutation)).

Lemma reopen_ok s p ino f sb entries batches rest :
  scratch_facts.has_file s p ino f → ino ∉ fs_locks s → file_script f = [] →
  image_holds (file_content f) sb entries batches rest → recovery.log_end rest →
  blen (file_content f) ≤ opt_max_database_bytes options.default →
  ∃ db s' f', creation.open p s = (Ok (ino, db), s') ∧ scratch_facts.file_set s s' p ino f'
    ∧ handle_on db f' sb entries batches ∧ file_script f' = [] ∧ db_state db = Healthy.
Proof using All.
  intros Hs Hlk Hsc Hi He Hlen.
  destruct (open_clean (file.set_pos 0 f) sb entries batches rest options.default) as (db&f'&Ho&Hh&[Hsc' _]&Hst&_);
    [by split|exact Hi|done|done|done|vm_compute; discriminate|exact Hlen|].
  destruct (scratch_facts.open_run s p ino f options.default (Ok db) f' Hs Hlk) as (s'&Hr&Hset&_); [vm_compute; discriminate|done|done|].
  exists db, s', f'. by split_and!.
Qed.

Lemma read_model_ok (db : Database) f sb entries batches :
  handle_on db f sb entries batches → db_state db = Healthy →
  ∃ db', read_model db = (Ok (contents entries batches), db') ∧ handle_on db' f sb entries batches ∧ db_state db' = Healthy.
Proof using All.
  intros Hh Hst. destruct (session.iter_view Hpl db entries _ (handle_view _ _ _ _ _ Hh)) as (l&Hl&Hr); [by rewrite Hst|].
  destruct (reads_handle _ _ _ _ _ _ _ Hh Hr) as (b'&Hx&Hh'). exists (database.set_base b' db). split; [|done].
  unfold read_model. rewrite (M_bind_ok _ _ _ _ _ (scratch_facts.expect_ok _ _ _ _ Hx)). unfold mret, M_ret. do 2 f_equal.
  assert (Hnd : NoDup l.*1) by (rewrite Hl; apply NoDup_fst_map_to_list).
  rewrite collect_map, (right_id_L ∅ (∪)) by done. rewrite <- (list_to_map_to_list (contents entries batches)).
  by apply list_to_map_proper.
Qed.

Lemma clean_ok s p ino f sb entries batches :
  scratch_facts.has_file s p ino f → ino ∉ fs_locks s → file_script f = [] →
  image_holds (file_content f) sb entries batches [] → blen (file_content f) ≤ opt_max_database_bytes options.default →
  ∃ s', clean p (contents entries batches) s = (Ok (), s') ∧ fs_script s' = [].
Proof using All.
  intros Hs Hlk Hsc Hi Hlen.
  destruct (reopen_ok s p ino f sb entries batches [] Hs Hlk Hsc Hi) as (db&s1&f1&Ho&[Hs1 _]&Hh&_&Hst); [by left|done|].
  unfold clean. rewrite (M_bind_ok _ _ _ _ _ (scratch_facts.expect_ok _ _ _ _ Ho)).
  destruct (read_model_ok db f1 sb entries batches Hh Hst) as (db2&->&Hh2&_). rewrite M_lift_ok.
  rewrite bool_decide_true by done. rewrite scratch_facts.assert_run.
  destruct Hh2 as (Hsf&_). destruct (scratch_facts.drop_database_run s1 p ino f1 db2 f1 Hs1 Hsf) as (s2&Hd&[(Hq&_) _]&_).
  by exists s2.
Qed.

(** The descriptor that truncates the file. *)
Lemma truncate_file f cut :
  file_script f = [] → 0 ≤ cut ≤ blen (file_content f) →
  ∃ f', (_ ← file.set_len cut; file.sync) (file.set_pos 0 f) = (Ok (), f') ∧ file_script f' = []
    ∧ file_content f' = take (Z.to_nat cut) (file_content f).
Proof.
  intros Hsc Hcut. unfold file.set_len, file.sync, file.syscall, mbind, M_bind. cbn [file.set_pos file_script].
  rewrite Hsc. unfold modify, file.set_content. cbn [file_script file.set_pos]. rewrite Hsc. eexists. split; [done|]. split; [done|].
  cbn [file_content file.set_pos]. replace (Z.to_nat (cut - _)) with 0%nat by lia. cbn [replicate]. by rewrite app_nil_r.
Qed.

Lemma truncated_ok s p ino f c0 sb entries batches new cut :
  scratch_facts.has_file s p ino f → ino ∉ fs_locks s → file_script f = [] →
  image_holds c0 sb entries batches [] → file_content f = c0 ++ recovery.encode_log new → Forall small new →
  blen (file_content f) ≤ opt_max_database_bytes options.default → blen c0 ≤ cut ≤ blen (file_content f) →
  ∃ s', truncated p cut (blen c0) (contents entries batches) (trail (blen c0) entries batches new) s = (Ok (), s') ∧ fs_script s' = [].
Proof using All.
  intros Hs Hlk Hsc Hi Hc Hnew Hlen Hcut. pose proof (blen_nonneg c0).
  destruct (truncate_file f cut Hsc) as (f1&Ht&Hsc1&Hc1); [lia|].
  destruct (scratch_facts.with_descriptor_run s p ino f _ () f1 Hs Ht) as (s1&Hr1&[Hs1 Hn1]&Hl1).
  unfold truncated. rewrite (M_bind_ok _ _ _ _ _ (scratch_facts.expect_ok _ _ _ _ Hr1)).
  destruct (trail_within cut (blen c0) entries batches new Hnew) as (j&rest&Htk&He&Hlw); [lia|].
  assert (Hc1' : file_content f1 = c0 ++ recovery.encode_log (take j new) ++ rest).
  { rewrite Hc1, Hc, take_app_ge by (unfold blen in *; lia). rewrite <- Htk. do 2 f_equal. unfold blen. lia. }
  assert (Hl1' : blen (file_content f1) ≤ blen (file_content f)) by (rewrite Hc1, blen_take; lia).
  assert (Hmax : blen (file_content f1) ≤ ISIZE_MAX) by (etrans; [exact Hl1'|]; etrans; [exact Hlen|]; vm_compute; discriminate).
  assert (Hi1 : image_holds (file_content f1) sb entries (batches ++ take j new) rest).
  { rewrite Hc1' in *. eapply image_holds_app; [exact Hi| | |done].
    - rewrite app_nil_l. unfold recovery.encode_log. by rewrite fmap_app, concat_app, <- app_assoc.
    - pose proof Hi as (_&_&_&_&_&_&Hok&_). apply Forall_app_2; [done|]. apply Forall_take.
      eapply Forall_impl; [exact Hnew|]. intros muts Hm. by apply small_record. }
  destruct (reopen_ok s1 p ino f1 sb entries (batches ++ take j new) rest Hs1) as (db&s2&f2&Ho&[Hs2 _]&Hh&Hsc2&Hst);
    [rewrite Hl1; set_solver|done|done|done|lia|].
  rewrite (M_bind_ok _ _ _ _ _ (scratch_facts.expect_ok _ _ _ _ Ho)).
  destruct (read_model_ok db f2 sb entries _ Hh Hst) as (db2&->&Hh2&Hst2). rewrite M_lift_ok.
  assert (Hfound : ∃ found, last_within cut (trail (blen c0) entries batches new) = found
    ∧ contents entries (batches ++ take j new) = match found with Some c => c.2 | None => contents entries batches end
    ∧ blen c0 + blen (recovery.encode_log (take j new)) = match found with Some c => c.1 | None => blen c0 end).
  { eexists. split; [done|]. destruct (last_within _ _) as [c|].
    - by rewrite Hlw.
    - rewrite Hlw, app_nil_r. split; [done|]. change (recovery.encode_log []) with (@nil byte). rewrite blen_nil. lia. }
  destruct Hfound as (found&->&Hmodel&Hsize). rewrite bool_decide_true by done. rewrite scratch_facts.assert_run.
  destruct (stats_ok db2 f2 sb entries _ Hh2 Hsc2 Hst2) as (st&Hstats&Hsb). rewrite (scratch_facts.expect_ok _ _ _ _ Hstats).
  rewrite M_lift_ok, Hsb.
  assert (Hf2 : blen (file_content f2) = blen c0 + blen (recovery.encode_log (take j new))).
  { pose proof Hh as (_&Hi2&_). destruct (image_log_blen _ _ _ _ _ Hi2) as [_ Hx]. destruct (image_log_blen _ _ _ _ _ Hi) as [_ Hy].
    rewrite app_nil_r in Hx, Hy. unfold recovery.encode_log in *. rewrite fmap_app, concat_app, blen_app in Hx. lia. }
  rewrite Hf2, Hsize, Z.eqb_refl. rewrite scratch_facts.assert_run.
  destruct Hh2 as (Hsf&_). destruct (scratch_facts.drop_database_run s2 p ino f2 db2 f2 Hs2 Hsf) as (s3&Hd&[(Hq&_) _]&_).
  by exists s3.
Qed.

(** The descriptor that flips a bit of the byte at [offset]. *)
Definition flipped (b : byte) (bit : Z) : byte := u8_of_Z (Z.lxor (Z_of_u8 b) (Z.shiftl 1 bit)).

Lemma flipped_ne b bit : 0 ≤ bit < 8 → b ≠ flipped b bit.
Proof.
  intros Hbit E. apply (f_equal (λ b, Z.testbit (Z_of_u8 b) bit)) in E. unfold flipped in E. rewrite Z_of_u8_of_Z in E.
  change U8 with (2 ^ 8) in E. rewrite Z.mod_pow2_bits_low, Z.lxor_spec, Z.shiftl_spec, Z.sub_diag in E by lia.
  cbn in E. by destruct (Z.testbit (Z_of_u8 b) bit).
Qed.

Lemma flip_file f a b q bit :
  file_script f = [] → file_content f = a ++ b :: q → blen (file_content f) ≤ ISIZE_MAX →
  ∃ f', (_ ← Io.seek (Start (blen a)); byte ← read_exact 1;
         let byte := match byte with b :: _ => [u8_of_Z (Z.lxor (Z_of_u8 b) (Z.shiftl 1 bit))] | [] => [] end in
         _ ← Io.seek (Start (blen a)); _ ← write_all byte; file.sync) (file.set_pos 0 f) = (Ok (), f')
    ∧ file_script f' = [] ∧ file_content f' = a ++ flipped b bit :: q.
Proof.
  intros Hsc Hc Hlen. assert (Hok : stream_ok (file.set_pos 0 f)) by (by split). pose proof (blen_nonneg a). pose proof (blen_nonneg q).
  assert (Hl : blen (file_content f) = blen a + (1 + blen q)) by (rewrite Hc, blen_app, blen_cons; lia).
  destruct (seek_start (file.set_pos 0 f) (blen a) Hok) as (f1&Hs1&Hok1&_&Hd1&Hp1); [cbn; lia|].
  rewrite (M_bind_ok _ _ _ _ _ Hs1). cbn [stream_data stream_pos file_view file.set_pos file_content] in Hd1, Hp1.
  destruct (read_exact_lawful f1 1 Hok1) as (f2&got&Hr&Hgot&Hok2&_&Hd2&_); [lia|cbn; rewrite Hd1, Hp1; lia|].
  rewrite (M_bind_ok _ _ _ _ _ Hr). cbn [stream_data stream_pos stream_base file_view] in Hgot, Hd2.
  rewrite Hp1, Hd1, Hc, Z.sub_0_r in Hgot. change (b :: q) with ([b] ++ q) in Hgot.
  rewrite (get_range_mid a [b] q) in Hgot by done. injection Hgot as <-. cbv zeta.
  destruct (seek_start f2 (blen a) Hok2) as (f3&Hs3&[Hsc3 Hpos3]&_&Hd3&Hp3); [cbn; lia|].
  rewrite (M_bind_ok _ _ _ _ _ Hs3). cbn [stream_data stream_pos file_view] in Hd3, Hp3. rewrite Hd2, Hd1, Hc in Hd3.
  set (f4 := MkFile (a ++ flipped b bit :: q) (blen a + 1) [] (file_trace f3 ++ [OpWrite (blen a) [flipped b bit]])).
  assert (Hw : write_all [u8_of_Z (Z.lxor (Z_of_u8 b) (Z.shiftl 1 bit))] f3 = (Ok (), f4)).
  { fold (flipped b bit). unfold write_all, stream_writer. cbn [length write_all_loop]. unfold mbind, M_bind.
    cbn [Io.write file_stream]. unfold file.write, file.syscall. rewrite Hsc3. cbn. unfold f4, file.set_content, file.set_pos. cbn.
    rewrite Hp3, Hd3. do 2 f_equal; [|done]. change (take _ [flipped b bit]) with [flipped b bit]. rewrite splice_eq by lia.
    rewrite blen_app, blen_cons. replace (Z.to_nat (blen a - _)) with 0%nat by lia. unfold blen.
    rewrite Nat2Z.id, take_app_length. cbn [replicate app]. f_equal. f_equal. cbn [length].
    replace (Z.to_nat (Z.of_nat (length a) + Z.of_nat 1)) with (length a + 1)%nat by lia. by rewrite drop_app_add. }
  rewrite (M_bind_ok _ _ _ _ _ Hw). unfold file.sync, file.syscall. cbn [file_script f4]. eexists. split; [done|]. done.
Qed.

Lemma corrupted_ok s p ino f sb entries batches offset bit :
  scratch_facts.has_file s p ino f → ino ∉ fs_locks s → file_script f = [] →
  image_holds (file_content f) sb entries batches [] → blen (file_content f) ≤ opt_max_database_bytes options.default →
  log_start sb ≤ offset < blen (file_content f) → 0 ≤ bit < 8 →
  ∃ s', corrupted p offset bit s = (Ok (), s') ∧ fs_script s' = [].
Proof using All.
  intros Hs Hlk Hsc Hi Hlen Hoff Hbit. set (c := file_content f) in *. destruct (image_log_blen _ _ _ _ _ Hi) as [Hls0 Hlb].
  pose proof Hi as (_&_&Hbo&Hbe&Hls&Hlog&_&Hmax).
  destruct (lookup_lt_is_Some_2 c (Z.to_nat offset)) as [b Hb]; [unfold blen in *; lia|].
  set (a := take (Z.to_nat offset) c). set (q := drop (S (Z.to_nat offset)) c).
  assert (Hc : c = a ++ b :: q) by (symmetry; by apply take_drop_middle).
  assert (Ha : blen a = offset) by (unfold a; rewrite blen_take; lia).
  destruct (flip_file f a b q bit Hsc Hc Hmax) as (f1&Hx&Hsc1&Hc1). rewrite Ha in Hx.
  destruct (scratch_facts.with_descriptor_run s p ino f _ () f1 Hs Hx) as (s1&Hr1&[Hs1 Hn1]&Hl1).
  unfold corrupted. rewrite (M_bind_ok _ _ _ _ _ (scratch_facts.expect_ok _ _ _ _ Hr1)).
  pose proof (flipped_ne b bit Hbit) as Hne.
  assert (Hone : integrity.one_byte c (file_content f1)) by (exists a, b, (flipped b bit), q; by rewrite Hc1).
  destruct (describes_size sb entries) with (bs := default [] (get_range c (base_offset sb) (base_offset sb + base_size sb))) as [_ Hbpos].
  { destruct Hi as (_&(bs0&Hg&Hd)&_). by rewrite Hg. }
  destruct (integrity.open_corrupt (file.set_pos 0 f1) sb entries batches c options.default)
    as (r&f2&Ho&_&_&Hr); [by split|exact Hi|exact Hone| |done|done|].
  { cbn [file.set_pos file_content]. rewrite Hc1, Hc. rewrite !take_app_le by (unfold blen in Ha; lia). done. }
  assert (∃ e, r = Err e) as [e ->].
  { destruct r as [db|e|]; [|by exists e|done]. exfalso. destruct Hr as [Hdr _]. cbn [file.set_pos file_content] in Hdr.
    rewrite app_nil_r in Hlog. rewrite <- Hlog, Hc1, Hc in Hdr. rewrite !drop_app_le in Hdr by (unfold blen in Ha; lia).
    apply app_inv_head in Hdr. congruence. }
  destruct (scratch_facts.open_run s1 p ino f1 options.default (Err e) f2 Hs1) as (s2&Hop&[(Hq&_) _]&_);
    [rewrite Hl1; set_solver|vm_compute; discriminate|exact Ho|done|].
  exists s2. split; [|done]. unfold catch. change (creation.open p s1) with (creation.open_with_options p options.default s1).
  rewrite Hop. done.
Qed.

End Endings.

(** ** The target *)

Lemma paths_ok `{Process, TempDir} :
  database_path = scratch_dir ++ path.SLASH :: text "database.lkv" ∧ path.parent database_path ≠ Some [].
Proof.
  destruct (scratch_facts.leaf_path temp_dir "lkv-fuzz-recovery-model-" process_id) as [Hne Hl]; [vm_compute; set_solver|done|].
  assert (Hp : database_path = scratch_dir ++ path.SLASH :: text "database.lkv") by (by apply scratch_facts.join_below).
  split; [done|]. rewrite Hp. apply scratch_facts.parent_below; [done|done|vm_compute; set_solver|done].
Qed.


Section Session.
Context `{Crc32cLaws, !Crc32cDetects, Xxh3Laws, Alloc, HashTablesLaws, Placement, MmapAnon, Process, TempDir}.
Hypothesis Hpl : ∀ mapping, PlacementLaws mapping.
Hypothesis Hres : ∀ n, try_reserve n = true.
Hypothesis Hidx : recovery.reserve_succeeds.

Lemma session_ok bs s :
  bs ≠ [] → creation.ready s database_path → ∃ s', fuzz_session bs s = (Ok (), s') ∧ fs_script s' = [].
Proof using All.
  intros Hbs Hrd. destruct paths_ok as [_ Hpar]. unfold fuzz_session.
  destruct (creation.create_clean s database_path fuzz_options Hrd Hpar) as (db&s1&ino&f&sb&Hc&Hh&Hst&Hn&Hf&_&[Hsc _]&Hop&Hsn&Hgen&Hlen&Hq&_);
    [vm_compute; discriminate|done|done|].
  rewrite (M_bind_ok _ _ _ _ _ (scratch_facts.expect_ok _ _ _ _ Hc)).
  assert (Hrun : running (MkHarness db ∅ 0) f sb [] []) by (by split_and!).
  destruct (workload_ok bs Hbs Hpl Hres _ f sb Hrun eq_refl Hgen Hlen)
    as (h&f1&sb1&entries&batches&new&c0&Hw&Hrun1&Hi0&Hc1&Hnew&Hne&Hl1&Hin). rewrite Hw, M_lift_ok.
  destruct Hrun1 as (Hh1&Hsc1&_&_&_&Hm1). pose proof Hh1 as (Hsf1&Hi1&_).
  assert (Hfile : scratch_facts.has_file s1 database_path ino f) by (split_and!; [done|by rewrite Hn, lookup_insert_eq|done]).
  destruct (scratch_facts.drop_database_run s1 database_path ino f (h_db h) f1 Hfile Hsf1) as (s2&Hd&[Hfile2 _]&Hl2).
  rewrite (M_bind_ok _ _ _ _ _ Hd).
  destruct (scratch_facts.metadata_len_run s2 database_path ino f1 Hfile2) as (s3&Hml&[Hfile3 _]&Hl3).
  rewrite (M_bind_ok _ _ _ _ _ (scratch_facts.expect_ok _ _ _ _ Hml)).
  assert (Hlk : ino ∉ fs_locks s3) by (rewrite Hl3, Hl2; set_solver).
  assert (Hdef : 40000 ≤ opt_max_database_bytes options.default) by (vm_compute; discriminate).
  assert (Hlog : blen c0 < blen (file_content f1)).
  { rewrite Hc1, blen_app. destruct new as [|muts new]; [done|]. apply Forall_cons in Hnew as [Hm _].
    change (recovery.encode_log (muts :: new)) with (log.encode_record muts ++ recovery.encode_log new).
    rewrite blen_app. destruct (small_record muts Hm) as [_ ?]. pose proof (blen_nonneg (recovery.encode_log new)). lia. }
  pose proof (blen_nonneg c0).
  destruct (byte_ok bs (h_input h) Hbs) as (choice&->&_); [lia|lia|]. rewrite M_lift_ok.
  destruct (number_ok bs (h_input h + 1) Hbs) as (number&Hnum&Hn0); [lia|lia|].
  destruct (choice mod 3 =? 0); [|destruct (choice mod 3 =? 1)].
  - rewrite Hnum, M_lift_ok, checked_sub_ok by lia. cbn [unwrap]. rewrite M_lift_ok, add_ovf_ok, M_lift_ok by lia.
    pose proof (Z.mod_pos_bound number (blen (file_content f1) - blen c0 + 1) ltac:(lia)). rewrite add_ovf_ok, M_lift_ok by lia.
    eapply (truncated_ok Hpl Hres Hidx s3 database_path ino f1 c0 sb1 entries batches new); try done; lia.
  - rewrite Hnum, M_lift_ok, checked_sub_ok by lia. cbn [unwrap]. rewrite M_lift_ok.
    replace (_ =? 0) with false by lia. rewrite M_lift_ok.
    pose proof (Z.mod_pos_bound number (blen (file_content f1) - blen c0) ltac:(lia)). rewrite add_ovf_ok, M_lift_ok by lia.
    destruct (byte_ok bs (h_input h + 1 + 8) Hbs) as (bit&->&Hbit); [lia|lia|]. rewrite M_lift_ok.
    eapply (corrupted_ok Hpl Hres Hidx s3 database_path ino f1 sb1 entries (batches ++ new)); try done; [lia| |].
    + pose proof Hi0 as (_&_&_&_&?&_). lia.
    + change 7 with (Z.ones 3). rewrite Z.land_ones by lia.
      pose proof (Z.mod_pos_bound bit (2 ^ 3) ltac:(lia)). lia.
  - rewrite Hm1. eapply (clean_ok Hpl Hres Hidx s3 database_path ino f1 sb1); try done. lia.
Qed.

End Session.

Section Property.
Context `{Crc32cLaws, !Crc32cDetects, Xxh3Laws, Alloc, HashTablesLaws, Placement, MmapAnon, Process, TempDir}.

(** C15: the fuzz target [recovery_model] passes on every input. On a file system whose
    calls do not fail, whatever bytes libFuzzer passes, every batch is committed, the
    compaction succeeds, a file truncated behind the first batch reopens as the model of
    the last whole batch and at its length, a file with one flipped bit is refused, and an
    untouched one reopens as the model; no [expect], index or assertion panics, and the
    scratch directory is removed. *)
Theorem recovery_model_passes bs c :
  (∀ mapping, PlacementLaws mapping) → (∀ n, try_reserve n = true) → recovery.reserve_succeeds →
  scratch_facts.usable scratch_dir c →
  ∃ c', fuzz_target bs c = (Ok (), c') ∧ (bs ≠ [] → scratch_dir ∉ sc_dirs c').
Proof.
  intros Hpl Hres Hidx Hc. unfold fuzz_target. destruct bs as [|x bs0] eqn:Eb; [by exists c|]. rewrite <- Eb.
  assert (Hbs : bs ≠ []) by (by rewrite Eb). clear Eb.
  destruct (scratch_facts.fresh_dir_run scratch_dir c Hc) as (c1&Hr&Hd&Hb&Hq&Hnew&Hlk&_). rewrite (M_bind_ok _ _ _ _ _ Hr).
  destruct paths_ok as [Hp _].
  destruct (session_ok Hpl Hres Hidx bs (sc_fs c1) Hbs) as (s2&Hs&Hq2).
  { split_and!; [done|done| | |done].
    - apply Hb. rewrite Hp. apply scratch_facts.below_join.
    - apply Hb. unfold creation.temporary_name. rewrite Hp, <- app_assoc. apply scratch_facts.below_join. }
  rewrite (M_bind_ok _ _ _ _ _ (scratch_facts.on_fs_run _ c1 _ _ Hs)). set (c2 := MkScratch s2 (sc_dirs c1)).
  rewrite (scratch_facts.expect_ok _ _ _ _ (scratch_facts.remove_dir_all_run c2 scratch_dir Hq2 Hd)).
  eexists. split; [done|]. intros _. cbn. rewrite elem_of_filter. naive_solver.
Qed.

End Property.

(** ** A concrete run *)

Import RefInstances.
#[local] Instance demo_placement : Placement :=
  {| base_addr := 65536; place kv := (view.MkSlice 1 kv.1, view.MkSlice 2 kv.2) |}.
#[local] Instance demo_maps : MmapAnon := {| map_anon _ := Ok (); make_read_only _ := Ok () |}.
#[local] Instance demo_process : Process := 42.
#[local] Instance demo_temp : TempDir := text "/tmp".

Definition demo_scratch : Scratch := MkScratch (creation.demo_fs []) {[temp_dir]}.

Lemma demo_usable : scratch_facts.usable scratch_dir demo_scratch.
Proof.
  split; [reflexivity|]. split; [reflexivity|]. split; [intros ino Hi; by apply not_elem_of_empty in Hi|].
  split; [apply lookup_empty|]. intros name _ [x Hx]. discriminate Hx.
Qed.

Lemma recovery_model_passes_witness :
  ∃ c', fuzz_target (text "fuzz") demo_scratch = (Ok (), c') ∧ scratch_dir ∉ sc_dirs c'.
Proof.
  destruct (recovery_model_passes (text "fuzz") demo_scratch entries_facts.demo_placement_laws (λ _, eq_refl)
    recovery.ref_reserve_succeeds demo_usable) as (c'&Hr&Hd).
  exists c'. split; [exact Hr|]. apply Hd. discriminate.
Defined.

End recovery_model.
