(* ===== verification/OpenBytes.v ===== *)
(** * The fuzz target [open_bytes]

    [fuzz/fuzz_targets/open_bytes.rs]: the input, a valid database changed by the input and
    a valid database with the input behind it are written to a file, which is opened in
    both verification modes and read in every way. The theorem shows that no sequence of
    inputs makes the target panic. *)

From S2P Require Import Prelude Errors Crates Io Superblock Values Log Segment Overlay Recovery View Base Storage Transaction Entries.
From S2P Require Import Database Faults Commit Reopen Handle Maintenance Compaction Snapshot Session Untrusted Creation Scratch Workload.
Import view overlay_map_facts commit_facts handle scratch untrusted.

Module open_bytes.

(** [let _ = black_box(x)]. *)
Definition black_box {S A} (x : M S A) : M S () := catch x (λ r,
  match r with Panic => lift Panic | _ => mret () end).

Section Target.
Context `{Crc32c, Xxh3, Alloc, HashTables, Placement, MmapAnon, Process, TempDir}.

(** ** [exercise] *)

(** [for entry in entries.by_ref().take(n)]. *)
Fixpoint take_entries (n : nat) : M (RawEntries * SegmentVerifier) () :=
  match n with
  | O => mret ()
  | S n => item ← raw_entries.entries_next; match item with None => mret () | Some _ => take_entries n end
  end.

(** [for entry in entries]: every item is a record, an entry of the Overlay or the error
    at the end. *)
Fixpoint each_entry (fuel : nat) : M (RawEntries * SegmentVerifier) () :=
  match fuel with
  | O => lift Panic
  | S fuel => item ← raw_entries.entries_next; match item with None => mret () | Some _ => each_entry fuel end
  end.

(** [if let Ok(a) = x { body }]. *)
Definition if_ok {S A} (x : M S A) (body : A → M S ()) : M S () := catch x (λ r,
  match r with Ok a => body a | Err _ => mret () | Panic => lift Panic end).

Definition on_verifier {A} (x : M SegmentVerifier A) : M Database A := database.on_base (active_base.with_verifier x).

(** The calls of [exercise] on the database it opened. *)
Definition read_all (key : bytes) : M Database () :=
  _ ← black_box (database.get key);
  _ ← black_box (database.contains_key key);
  _ ← black_box database.len;
  _ ← if_ok (_ ← database.ensure_available; db ← database.self; lift (database.iter_raw db))
        (λ it, on_verifier (snapshot.consume (take_entries 1024) it));
  _ ← if_ok snapshot.take (λ s,
        _ ← on_verifier (black_box (snapshot.get s key));
        _ ← on_verifier (if_ok (snapshot.entries s) (λ it, snapshot.consume (each_entry (S (raw_entries.budget it))) it));
        snapshot.drop);
  black_box database.verify.

Definition exercise (dir bs : bytes) (verification : VerificationMode) : M Fs () :=
  let database_path := join dir (text "database.lkv") in
  _ ← expect (write_file database_path bs);
  if_ok (creation.open_with_options database_path (options.with_verification options.default verification))
    (λ '(ino, db),
      let key_len := Z.min (blen bs) 64 in
      key ← lift (index_range bs 0 key_len);
      let '(r, db) := read_all key db in
      _ ← lift r;
      creation.drop_database ino db).

(** ** [valid_seed] *)

Definition seed_writes : M Database () :=
  transaction ← expect database.begin_write;
  db ← database.self;
  let memory := storage.is_memory (db_storage db) in
  let '(r, transaction) := expect (transaction.put memory (text "alpha") (text "one")) transaction in
  _ ← lift r;
  let '(r, transaction) := expect (transaction.put memory (text "beta") (text "two")) transaction in
  _ ← lift r;
  _ ← expect (database.commit transaction);
  expect maintenance.compact.

Definition valid_seed (dir : bytes) : M Fs bytes :=
  let database_path := join dir (text "database.lkv") in
  '(ino, db) ← expect (creation.create database_path);
  let '(r, db) := seed_writes db in
  _ ← lift r;
  _ ← creation.drop_database ino db;
  expect (read_file database_path).

(** ** [fuzz_target!] *)

(** [u8::rotate_left]. *)
Definition rotate_left (b n : Z) : Z := Z.lor (Z.shiftl b n mod U8) (Z.shiftr b (8 - n)).

(** The loop over the input that changes [mutated]. *)
Fixpoint mutate (index : Z) (bs mutated : bytes) : result bytes :=
  match bs with
  | [] => Ok mutated
  | byte :: bs =>
      let byte := Z_of_u8 byte in
      target ← (if blen mutated =? 0 then Panic
                else Ok ((((index * 0x9e3779b9) mod U64) + byte) mod U64 mod blen mutated));
      old ← unwrap (mutated !! Z.to_nat target);
      let new := u8_of_Z (Z.lxor (Z_of_u8 old) (rotate_left byte (Z.land index 7))) in
      mutate (index + 1) bs (<[Z.to_nat target := new]> mutated)
  end.

(** [VALID_SEED] and the file system. *)
Record Fuzzing := MkFuzzing { fz_seed : option bytes; fz_scratch : Scratch }.
Definition on_scratch {A} (x : M Scratch A) : M Fuzzing A := zoom fz_scratch (λ c z, MkFuzzing (fz_seed z) c) x.

Definition scratch_dir : bytes := join temp_dir (text ("lkv-fuzz-open-" +:+ fmt_num process_id)).

(** [VALID_SEED.get_or_init(|| valid_seed(&scratch))]. *)
Definition get_seed : M Fuzzing bytes :=
  cached ← gets fz_seed;
  match cached with
  | Some seed => mret seed
  | None =>
      seed ← on_scratch (on_fs (valid_seed scratch_dir));
      _ ← modify (λ z, MkFuzzing (Some seed) (fz_scratch z));
      mret seed
  end.

Definition exercises (bs mutated appended : bytes) (verification : VerificationMode) : M Fs () :=
  _ ← exercise scratch_dir bs verification;
  _ ← exercise scratch_dir mutated verification;
  exercise scratch_dir appended verification.

Definition fuzz_target (bs : bytes) : M Fuzzing () :=
  _ ← on_scratch (fresh_dir scratch_dir);
  seed ← get_seed;
  mutated ← lift (mutate 0 bs seed);
  let appended := seed ++ bs in
  _ ← on_scratch (on_fs (_ ← exercises bs mutated appended OnRead; exercises bs mutated appended Full));
  on_scratch (expect (remove_dir_all scratch_dir)).

(** The inputs of a run of the fuzzer, one after the other in one process. *)
Fixpoint fuzz (inputs : list bytes) : M Fuzzing () :=
  match inputs with
  | [] => mret ()
  | bs :: inputs => _ ← fuzz_target bs; fuzz inputs
  end.

End Target.

(** ** Reading everything does not panic *)

Section Total.
Context {S : Type} (I : S → Prop).

(** A part of the target that always goes on. *)
Definition goes_on (x : M S ()) : Prop := ∀ s, I s → ∃ s', x s = (Ok (), s') ∧ I s'.

Lemma goes_on_bind (x y : M S ()) : goes_on x → goes_on y → goes_on (_ ← x; y).
Proof.
  intros Hx Hy s Hs. destruct (Hx s Hs) as (s1&Hr&Hs1). destruct (Hy s1 Hs1) as (s2&?&?). exists s2. by rewrite (M_bind_ok _ _ _ _ _ Hr).
Qed.

Lemma if_ok_goes_on {A} (x : M S A) (body : A → M S ()) Q :
  sane I x Q → (∀ a, Q a → goes_on (body a)) → goes_on (if_ok x body).
Proof.
  intros Hx Hb s Hs. destruct (Hx s Hs) as (r&s1&Hr&Hs1&Hq). unfold if_ok, catch. rewrite Hr.
  destruct r as [a|e|]; [by apply Hb|by exists s1|done].
Qed.

Lemma black_box_goes_on {A} (x : M S A) : sane I x (λ _, True) → goes_on (black_box x).
Proof.
  intros Hx s Hs. destruct (Hx s Hs) as (r&s1&Hr&Hs1&Hq). unfold black_box, catch. rewrite Hr.
  destruct r as [a|e|]; [by exists s1|by exists s1|done].
Qed.

End Total.

Section Iterators.
Context `{Crc32cLaws, Xxh3Laws, Alloc, HashTablesLaws, Placement}.
Context (bs : bytes) (layout : segment.SegmentLayout) (offset slots len : Z).
Hypothesis Hfits : fits bs layout offset slots.

Abbreviation ok := (guarded bs layout offset slots len).
Abbreviation it_ok := (inside bs layout offset slots).

Lemma take_entries_any n r v :
  it_ok r → ok v → ∃ r' v', take_entries n (r, v) = (Ok (), (r', v')) ∧ ok v'.
Proof using Hfits H0 H2 H5.
  revert r v. induction n as [|n IH]; intros r v Hin Hg; [by exists r, v|]. cbn [take_entries].
  destruct (entries_next_any bs layout offset slots len Hfits r v Hin Hg) as (a&r1&v1&Hn&Hin1&Hg1&_).
  rewrite (M_bind_ok _ _ _ _ _ Hn). destruct a; [by apply IH|by exists r1, v1].
Qed.

Lemma each_entry_any fuel r v :
  it_ok r → ok v → (left r < fuel)%nat → ∃ r' v', each_entry fuel (r, v) = (Ok (), (r', v')) ∧ ok v'.
Proof using Hfits H0 H2 H5.
  revert r v. induction fuel as [|fuel IH]; intros r v Hin Hg Hl; [lia|]. cbn [each_entry].
  destruct (entries_next_any bs layout offset slots len Hfits r v Hin Hg) as (a&r1&v1&Hn&Hin1&Hg1&Ha).
  rewrite (M_bind_ok _ _ _ _ _ Hn). destruct a as [[kv|e|]|]; [|apply IH; [done|done|lia]|done|by exists r1, v1].
  destruct Ha as [_ Ha]. apply IH; [done|done|lia].
Qed.

Lemma left_budget r : (left r < S (raw_entries.budget r))%nat.
Proof. unfold left, todo, raw_entries.budget. destruct (re_pending_error r), (re_finished r); lia. Qed.

End Iterators.

Section Handle.
Context `{Crc32cLaws, Xxh3Laws, Alloc, HashTablesLaws, Placement, MmapAnon}.
Context (db : Database) (bs : bytes) (layout : segment.SegmentLayout) (lg : bytes) (muts : mutations_map) (P : Storage → Prop).
Hypothesis Hdb : readable_handle db bs layout lg muts.

Abbreviation ok_verifier := (guarded bs layout (ab_offset (db_base db)) (ab_slots (db_base db)) (ab_len (db_base db))).

Lemma on_verifier_goes_on (x : M SegmentVerifier ()) : goes_on ok_verifier x → goes_on (later db bs layout P) (on_verifier x).
Proof.
  intros Hx db' (Hs&Hg&Ho&HP). destruct (Hx _ Hg) as (v&Hr&Hg').
  destruct (active_base.with_verifier_run x (db_base db') (Ok ()) v Hr) as (b&Hb&Hs'&Ev).
  exists (database.set_base b db'). split; [unfold on_verifier, database.on_base, zoom; by rewrite Hb|].
  split; [by etrans|]. split; [cbn; by rewrite Ev|done].
Qed.

Lemma read_all_goes_on key : goes_on (later db bs layout P) (read_all key).
Proof using All.
  pose proof Hdb as (_&Hf&_). set (I := later db bs layout P).
  assert (Hget : sane I (database.get key) (λ _, True)) by (by eapply get_handle_sane).
  assert (Hlen : sane I database.len (λ _, True)).
  { unfold database.len. eapply sane_bind; [apply available_sane|]. intros _ _. by eapply raw_len_sane. }
  unfold read_all. apply goes_on_bind; [apply black_box_goes_on, Hget|].
  apply goes_on_bind; [apply black_box_goes_on; unfold database.contains_key; by apply sane_then|].
  apply goes_on_bind; [apply black_box_goes_on, Hlen|].
  apply goes_on_bind; [eapply (if_ok_goes_on _ _ _ (inside bs layout (ab_offset (db_base db)) (ab_slots (db_base db))))|].
  - eapply sane_bind; [apply available_sane|]. intros _ _. eapply sane_bind; [by eapply self_view|].
    intros db' (((_&_&_&_&E5&_)&Hg&_)&rv&Hrv&Hv). unfold database.iter_raw. rewrite Hrv. rstep. rewrite E5. apply sane_lift.
    by eapply new_inside.
  - intros it Hin. apply on_verifier_goes_on. intros v Hg. unfold snapshot.consume.
    destruct (take_entries_any bs layout _ _ _ Hf 1024 it v Hin Hg) as (r'&v'&->&Hg'). by exists v'.
  - apply goes_on_bind; [eapply if_ok_goes_on; [by eapply take_sane|]|apply black_box_goes_on; by eapply verify_sane].
    intros s Hs. apply goes_on_bind; [apply on_verifier_goes_on, black_box_goes_on, snapshot_get_sane; done|].
    apply goes_on_bind; [apply on_verifier_goes_on; eapply if_ok_goes_on; [by apply entries_sane|]|].
    + intros it Hin v Hg. unfold snapshot.consume.
      destruct (each_entry_any bs layout _ _ _ Hf (S (raw_entries.budget it)) it v Hin Hg (left_budget it)) as (r'&v'&->&Hg').
      by exists v'.
    + intros db' Hl. by eexists.
Qed.

End Handle.

(** ** The file *)

Section Files.
Implicit Types (s : Fs) (p bs : bytes).

(** A file system at rest: the file under the name [p], if there is one, is not locked and
    its calls do not fail. *)
Definition idle p s : Prop :=
  creation.settled s ∧ ∀ ino, fs_names s !! p = Some ino →
    ino ∉ fs_locks s ∧ ∃ f, fs_files s !! ino = Some f ∧ file_script f = [].

(** [s'] has the file [f] under the name [p], of the content [bs]; other names are as in [s]. *)
Definition has_quiet s s' p bs (ino : Z) (f : File) : Prop :=
  scratch_facts.has_file s' p ino f ∧ file_content f = bs ∧ file_script f = [] ∧ ino ∉ fs_locks s'
  ∧ creation.settled s' ∧ fs_names s' = <[p := ino]> (fs_names s).

Lemma settled_set s s' p ino f :
  creation.settled s → scratch_facts.file_set s s' p ino f → fs_locks s' ⊆ {[ino]} ∪ fs_locks s → creation.settled s'.
Proof.
  intros (Hq&Hnew&Hlk) ((Hq'&_&Hf)&_&Hnew'&Hdom) Hsub. split; [done|]. split; [congruence|].
  intros i Hi. apply elem_of_dom. rewrite Hdom. apply Hsub, elem_of_union in Hi as [->%elem_of_singleton|Hi].
  - rewrite <- Hdom. by eapply elem_of_dom_2.
  - by apply elem_of_dom, Hlk.
Qed.

Lemma create_file_run s p :
  idle p s → ∃ s' ino f, fs.try (create_file p) s = (Ok ino, s') ∧ has_quiet s s' p [] ino f ∧ file_pos f = 0.
Proof.
  intros ((Hq&Hnew&Hlk)&Hp). destruct (fs_names s !! p) as [ino|] eqn:En.
  - destruct (Hp ino eq_refl) as (Hnl&f&Hf&Hsc). eexists _, ino, (MkFile [] 0 (file_script f) (file_trace f ++ [OpSetLen 0])). split.
    { apply scratch_facts.try_quiet; [done|]. rewrite En. reflexivity. }
    split; [|reflexivity]. split; [split_and!; [done|done|cbn; by rewrite lookup_alter_eq, Hf]|].
    split_and!; try done; [|cbn; by rewrite insert_id].
    split_and!; [done|done|]. intros i Hi. cbn. destruct (decide (i = ino)) as [->|]; [done|].
    rewrite lookup_alter_ne by done. by apply Hlk.
  - set (ino := fresh (dom (fs_files s))). assert (Hino : fs_files s !! ino = None) by (apply not_elem_of_dom, is_fresh).
    eexists _, ino, (MkFile [] 0 (default [] (head (fs_new_scripts s))) []). split.
    { apply scratch_facts.try_quiet; [done|]. rewrite En. reflexivity. }
    split; [|reflexivity]. split; [split_and!; [done|cbn; apply lookup_insert_eq|cbn; apply lookup_insert_eq]|].
    split; [done|]. split; [cbn; by rewrite Hnew|]. split; [cbn; intros Hi; destruct (Hlk _ Hi) as [? E]; by rewrite Hino in E|].
    split; [|done]. split; [done|]. split; [cbn; by rewrite Hnew|]. intros i Hi. cbn.
    destruct (decide (i = ino)) as [->|]; [by rewrite lookup_insert_eq|]. rewrite lookup_insert_ne by done. by apply Hlk.
Qed.

Lemma write_file_run s p bs :
  idle p s → blen bs ≤ ISIZE_MAX → ∃ s' ino f, write_file p bs s = (Ok (), s') ∧ has_quiet s s' p bs ino f.
Proof.
  intros Hi Hl. destruct (create_file_run s p Hi) as (s1&ino&f&Hc&(Hf&Hcont&Hsc&Hnl&Hset&Hn)&Hpos). unfold write_file.
  rewrite (M_bind_ok _ _ _ _ _ Hc).
  assert (Hw : ∃ g, write_all bs f = (Ok (), g) ∧ file_content g = bs ∧ file_script g = []).
  { assert (Hok : stream_ok f) by (split; [done|by rewrite Hpos]). destruct (decide (bs = [])) as [->|Hne].
    - exists f. split; [by apply write_all_nil|done].
    - destruct (write_all_lawful f bs Hok Hne) as (g&Hg&[Hsg _]&_&Hd&_); [cbn; rewrite Hpos; lia|].
      exists g. split; [done|]. split; [|done]. cbn in Hd. rewrite Hd, Hpos, Hcont. apply (splice_end [] bs). }
  destruct Hw as (g&Hw&Hgc&Hgs). destruct (scratch_facts.on_file_run s1 p ino f (write_all bs) (Ok ()) g Hf Hw) as (s2&Hr&Hfs&Hlk).
  rewrite (M_bind_ok _ _ _ _ _ Hr). eexists _, ino, g. split; [reflexivity|]. pose proof Hfs as (Hf2&Hn2&_).
  assert (Hset2 : creation.settled s2) by (eapply settled_set; [exact Hset|exact Hfs|rewrite Hlk; set_solver]).
  split; [exact Hf2|]. split; [done|]. split; [done|]. split; [cbn; set_solver|]. split; [|cbn; congruence].
  destruct Hset2 as (?&?&Hs2). split; [done|]. split; [done|]. intros i Hi2. apply Hs2. cbn in Hi2. set_solver.
Qed.

End Files.

Section Exercise.
Context `{Crc32cLaws, Xxh3Laws, Alloc, HashTablesLaws, Placement, MmapAnon, Process}.

Lemma exercise_run dir bs mode s :
  let p := join dir (text "database.lkv") in
  idle p s → blen bs ≤ ISIZE_MAX →
  ∃ s', exercise dir bs mode s = (Ok (), s') ∧ idle p s' ∧ ∀ name, name ≠ p → fs_names s' !! name = fs_names s !! name.
Proof.
  intros p Hi Hl. unfold exercise. fold p. cbv zeta. destruct (write_file_run s p bs Hi Hl) as (s1&ino&f&Hw&Hf&Hc&Hsc&Hnl&Hset&Hn).
  rewrite (M_bind_ok _ _ _ _ _ (scratch_facts.expect_ok _ _ _ _ Hw)). set (o := options.with_verification options.default mode).
  destruct (open_any (file.set_pos 0 f) o) as (r&f1&Ho&Hsu&Hr); [cbn; by rewrite Hc|]. cbn in Hsu. rewrite Hsc in Hsu. apply suffix_nil_inv in Hsu.
  assert (Hnp : r ≠ Panic) by (by destruct r).
  destruct (scratch_facts.open_run s1 p ino f o r f1 Hf Hnl) as (s2&Hop&Hfs&Hlk); [vm_compute; discriminate|done|done|].
  assert (Hset2 : creation.settled s2) by (eapply settled_set; [exact Hset|exact Hfs|rewrite Hlk; destruct r; set_solver]).
  assert (Hnames : ∀ s', fs_names s' = fs_names s1 → ∀ name, name ≠ p → fs_names s' !! name = fs_names s !! name).
  { intros s' -> name Hne. by rewrite Hn, lookup_insert_ne. }
  assert (Hend : ∀ s' f', scratch_facts.file_set s1 s' p ino f' → file_script f' = [] → creation.settled s' → ino ∉ fs_locks s' → idle p s').
  { intros s' f' ((_&Hn'&Hf')&_) Hs' Hset' Hnl'. split; [done|]. intros i Hi'. rewrite Hn' in Hi'. injection Hi' as <-. split; [done|]. by exists f'. }
  unfold if_ok, catch. rewrite Hop. destruct r as [db|e|]; [| |done]; cbn [mbind result_bind].
  2:{ exists s2. split; [done|]. split; [|apply Hnames, Hfs]. eapply Hend; [exact Hfs|done|done|by rewrite Hlk]. }
  destruct Hr as (Hsf&_&_&bsm&layout&lg&muts&Hdb). pose proof (blen_nonneg bs).
  unfold index_range. rewrite get_range_in_bounds by lia. cbn [unwrap]. rewrite M_lift_ok.
  set (key := take _ _).
  destruct (read_all_goes_on db bsm layout lg muts (eq (db_storage db)) Hdb key db) as (db'&Hra&(_&_&_&Hst)); [by eapply later_now|].
  rewrite Hra, M_lift_ok. destruct Hfs as (Hf2&Hn2&Hrest).
  destruct (scratch_facts.drop_database_run s2 p ino f1 db' f1 Hf2) as (s3&Hd&Hfs3&Hlk3); [congruence|].
  exists s3. split; [exact Hd|]. pose proof Hfs3 as (Hf3&Hn3&Hnew3&Hdom3). split.
  - eapply Hend; [|done| |].
    + split; [exact Hf3|]. split; [congruence|]. destruct Hrest as [? ?]. split; congruence.
    + eapply settled_set; [exact Hset2|exact Hfs3|rewrite Hlk3; set_solver].
    + rewrite Hlk3. set_solver.
  - apply Hnames. congruence.
Qed.

End Exercise.

(** ** The seed *)

Section Seed.
Context `{Crc32cLaws, Xxh3Laws, Alloc, HashTablesLaws, Placement, MmapAnon, Process}.
Hypothesis Hpl : ∀ mapping, PlacementLaws mapping.
Hypothesis Hres : ∀ n, try_reserve n = true.
Hypothesis Hidx : recovery.reserve_succeeds.

Definition seed_muts : list mutation := [(text "alpha", Some (text "one")); (text "beta", Some (text "two"))].

Lemma seed_small : workload.small seed_muts.
Proof.
  split; [done|]. split; [vm_compute; discriminate|]. split; [repeat constructor; vm_compute; discriminate|].
  apply (bool_decide_unpack _). vm_compute. reflexivity.
Qed.

(** A seed is a file of a few thousand bytes. *)
Definition seed_ok (seed : bytes) : Prop := 0 < blen seed ≤ 20000.

Lemma put_run tx muts key value :
  tx_facts.tx_ok false tx muts → blen key ≤ 5 → blen value ≤ 95 →
  ∃ tx', expect (transaction.put false key value) tx = (Ok (), tx') ∧ tx_facts.tx_ok false tx' (KeyMap.insert muts key (Some value)).
Proof using Hres H0.
  intros Htx Hk Hv. destruct (tx_facts.put_spec false tx muts key value Htx Hres) as (r&tx1&Hr&Ho). cbn [tx_spec.step] in Ho.
  rewrite decide_True in Ho. 2:{ unfold tx_spec.put_fits, segment.MAX_KEY_SIZE, segment.MAX_VALUE_SIZE, log.MAX_LOG_PAYLOAD_SIZE. lia. }
  destruct Ho as [-> Htx1]. exists tx1. split; [|done]. by apply scratch_facts.expect_ok.
Qed.

Lemma seed_writes_run db f sb :
  handle_on db f sb [] [] → file_script f = [] → db_state db = Healthy → db_options db = options.default → db_snapshots db = 0 →
  generation sb = 1 → blen (file_content f) = database.MIN_DATABASE_BYTES →
  ∃ db' f', seed_writes db = (Ok (), db') ∧ db_storage db' = SFile f' ∧ file_script f' = [] ∧ seed_ok (file_content f').
Proof using All.
  intros Hh Hsc Hst Hop Hsn Hgen Hlen. assert (Hmin : database.MIN_DATABASE_BYTES ≤ 9000) by (vm_compute; discriminate).
  assert (Hroomy : workload.roomy (db_options db)) by (by rewrite Hop). unfold seed_writes.
  assert (Hbw : database.begin_write db = (Ok transaction.new, db)).
  { unfold database.begin_write. rewrite session.writable_run, (M_bind_ok database.self _ _ _ _ eq_refl), Hop by done. cbv zeta.
    destruct Hh as (_&_&_&_&_&_&(_&Hmem&_)&_). rewrite Hmem. cbn [concat apply_muts foldl]. by rewrite total_empty. }
  rewrite (M_bind_ok _ _ _ _ _ (scratch_facts.expect_ok _ _ _ _ Hbw)), (M_bind_ok database.self _ _ _ _ eq_refl).
  pose proof Hh as (Hsf&_). rewrite Hsf. cbn [storage.is_memory].
  destruct (put_run transaction.new [] (text "alpha") (text "one")) as (tx1&Hp1&Htx1); [apply tx_facts.tx_ok_new|vm_compute; discriminate|vm_compute; discriminate|].
  rewrite Hp1, M_lift_ok.
  destruct (put_run tx1 _ (text "beta") (text "two") Htx1) as (tx2&Hp2&Htx2); [vm_compute; discriminate|vm_compute; discriminate|].
  rewrite Hp2, M_lift_ok. change (tx_facts.tx_ok false tx2 seed_muts) in Htx2.
  destruct (workload.commit_small db f sb [] [] tx2 seed_muts Hres Hh Hsc Hst Hroomy Htx2 seed_small)
    as (db1&f1&Hc&Hh1&Hsc1&Hst1&Hop1&Hsn1&Hf1); [rewrite Hroomy; change (Z.shiftl 1 40) with 1099511627776; lia|].
  rewrite (M_bind_ok _ _ _ _ _ (scratch_facts.expect_ok _ _ _ _ Hc)).
  destruct (workload.small_record seed_muts seed_small) as [_ Hrec].
  destruct (workload.compact_small db1 f1 sb [] ([] ++ [seed_muts]) Hres Hpl Hh1 Hsc1 Hst1) as (db2&f2&sb2&l&Hr&Hh2&Hsc2&_&_&_&_&Hl2);
    [by rewrite Hop1|congruence|rewrite Hgen; lia| |rewrite Hf1, blen_app; lia|].
  { rewrite (contents_snoc [] [] seed_muts) by constructor. apply workload.apply_small, seed_small. }
  exists db2, f2. split; [by apply scratch_facts.expect_ok|]. pose proof Hh2 as (Hsf2&Hi2&_). split; [done|]. split; [done|]. split; [|done].
  destruct Hi2 as (_&(bs&_&Hd)&?&?&?&_). destruct (describes_size _ _ _ Hd) as [_ ?].
  unfold superblock.DATA_START, superblock.SUPERBLOCK_SIZE in *. lia.
Qed.

Lemma read_file_run s p ino f :
  scratch_facts.has_file s p ino f → ∃ s', read_file p s = (Ok (file_content f), s') ∧ scratch_facts.file_set s s' p ino f
    ∧ fs_locks s' = fs_locks s ∖ {[ino]}.
Proof.
  intros Hf. unfold read_file. rewrite (M_bind_ok _ _ _ _ _ (scratch_facts.try_open _ _ _ _ Hf)).
  destruct (scratch_facts.on_file_run s p ino f (gets file_content) (Ok (file_content f)) f Hf eq_refl) as (s1&Hr&Hs1&Hl).
  rewrite (M_bind_ok _ _ _ _ _ Hr). eexists. split; [reflexivity|]. split; [exact Hs1|]. cbn. by rewrite Hl.
Qed.

Lemma valid_seed_run dir s :
  let p := join dir (text "database.lkv") in
  creation.ready s p → path.parent p ≠ Some [] →
  ∃ seed s', valid_seed dir s = (Ok seed, s') ∧ seed_ok seed ∧ idle p s' ∧ ∀ name, name ≠ p → fs_names s' !! name = fs_names s !! name.
Proof using All.
  intros p Hrd Hpar. unfold valid_seed. fold p. cbv zeta. unfold creation.create.
  destruct (creation.create_clean s p options.default Hrd Hpar) as (db&s1&ino&f&sb&Hc&Hh&Hst&Hn&Hf&Hlk&[Hsc _]&Hop&Hsn&Hgen&Hlen&Hset);
    [vm_compute; discriminate|done|done|].
  rewrite (M_bind_ok _ _ _ _ _ (scratch_facts.expect_ok _ _ _ _ Hc)).
  destruct (seed_writes_run db f sb Hh Hsc Hst Hop Hsn Hgen Hlen) as (db'&f'&Hw&Hsf&Hsc'&Hok). rewrite Hw, M_lift_ok.
  assert (Hfile : scratch_facts.has_file s1 p ino f) by (split_and!; [apply Hset|by rewrite Hn, lookup_insert_eq|done]).
  destruct (scratch_facts.drop_database_run s1 p ino f db' f' Hfile Hsf) as (s2&Hd&Hs2&Hl2). rewrite (M_bind_ok _ _ _ _ _ Hd).
  pose proof Hs2 as (Hf2&Hn2&_). destruct (read_file_run s2 p ino f' Hf2) as (s3&Hr&Hs3&Hl3).
  exists (file_content f'), s3. split; [by apply scratch_facts.expect_ok|]. split; [done|]. pose proof Hs3 as ((_&Hp3&Hf3)&Hn3&_).
  assert (Hset2 : creation.settled s2) by (eapply settled_set; [exact Hset|exact Hs2|rewrite Hl2; set_solver]).
  split; [split|].
  - eapply settled_set; [exact Hset2|exact Hs3|rewrite Hl3; set_solver].
  - intros i Hi. rewrite Hp3 in Hi. injection Hi as <-. split; [rewrite Hl3; set_solver|by exists f'].
  - intros name Hne. by rewrite Hn3, Hn2, Hn, lookup_insert_ne.
Qed.

End Seed.

(** Changing the seed keeps its length. *)
Lemma mutate_ok index bs m : 0 < blen m → ∃ m', mutate index bs m = Ok m' ∧ blen m' = blen m.
Proof.
  revert index m. induction bs as [|byte bs IH]; intros index m Hm; cbn [mutate]; [by exists m|].
  replace (blen m =? 0) with false by lia. rstep. set (target := _ mod blen m).
  pose proof (Z.mod_pos_bound (((index * 2654435769) mod U64 + Z_of_u8 byte) mod U64) (blen m) Hm) as Ht. fold target in Ht.
  destruct (lookup_lt_is_Some_2 m (Z.to_nat target)) as [old ->]; [unfold blen in *; lia|]. rstep.
  set (m1 := <[_ := _]> m). assert (Hl : blen m1 = blen m) by (unfold m1, blen; by rewrite length_insert).
  destruct (IH (index + 1) m1) as (m'&Hr&Hb); [lia|]. exists m'. split; [exact Hr|lia].
Qed.

(** ** The target *)

Section Run.
Context `{Crc32cLaws, Xxh3Laws, Alloc, HashTablesLaws, Placement, MmapAnon, Process, TempDir}.
Hypothesis Hpl : ∀ mapping, PlacementLaws mapping.
Hypothesis Hres : ∀ n, try_reserve n = true.
Hypothesis Hidx : recovery.reserve_succeeds.

Definition database_path : bytes := join scratch_dir (text "database.lkv").

Lemma path_below :
  database_path = scratch_dir ++ path.SLASH :: text "database.lkv" ∧ path.parent database_path ≠ Some [] ∧ database_path ≠ scratch_dir.
Proof.
  destruct (scratch_facts.leaf_path temp_dir "lkv-fuzz-open-" process_id) as [Hne Hl]; [vm_compute; set_solver|done|].
  fold scratch_dir in Hne, Hl. assert (Hp : database_path = scratch_dir ++ path.SLASH :: text "database.lkv") by (by apply scratch_facts.join_below).
  rewrite Hp. split; [done|]. split.
  - apply scratch_facts.parent_below; [done|done|vm_compute; set_solver|done].
  - intros E. apply (f_equal length) in E. rewrite length_app in E. cbn in E. lia.
Qed.

(** Between two inputs. *)
Definition fuzzing (z : Fuzzing) : Prop :=
  scratch_facts.usable scratch_dir (fz_scratch z) ∧ match fz_seed z with Some seed => seed_ok seed | None => True end.

(** In the middle of an input: only the file of the database is in the directory. *)
Definition busy (z : Fuzzing) : Prop :=
  idle database_path (sc_fs (fz_scratch z)) ∧ scratch_dir ∈ sc_dirs (fz_scratch z) ∧ fs_names (sc_fs (fz_scratch z)) !! scratch_dir = None
  ∧ match fz_seed z with Some seed => seed_ok seed | None => True end.

Lemma on_scratch_run {A} (x : M Scratch A) z r c : x (fz_scratch z) = (r, c) → on_scratch x z = (r, MkFuzzing (fz_seed z) c).
Proof. intros Hx. unfold on_scratch, zoom. by rewrite Hx. Qed.

Lemma begin_run z :
  fuzzing z → ∃ z', on_scratch (fresh_dir scratch_dir) z = (Ok (), z') ∧ busy z' ∧ fz_seed z' = fz_seed z
    ∧ creation.ready (sc_fs (fz_scratch z')) database_path.
Proof.
  intros [Hu Hs]. destruct (scratch_facts.fresh_dir_run scratch_dir (fz_scratch z) Hu) as (c&Hr&Hd&Hb&Hq&Hnew&Hlk&Hn).
  eexists. split; [apply on_scratch_run; exact Hr|]. destruct path_below as (Hp&_&_).
  assert (Hbelow : below scratch_dir database_path) by (rewrite Hp; apply scratch_facts.below_join). pose proof (Hb _ Hbelow) as Hnone.
  split; [|split; [done|]].
  - split; [split; [done|]|done]. intros ino Hi. cbn in Hi. by rewrite Hnone in Hi.
  - split_and!; try done. cbn. apply Hb. unfold creation.temporary_name. rewrite Hp, <- app_assoc. apply scratch_facts.below_join.
Qed.

Lemma get_seed_run z :
  busy z → creation.ready (sc_fs (fz_scratch z)) database_path →
  ∃ seed z', get_seed z = (Ok seed, z') ∧ busy z' ∧ seed_ok seed.
Proof using All.
  intros (Hi&Hd&Hn&Hs) Hrd. unfold get_seed. rewrite (M_bind_ok (gets _) _ z _ z eq_refl). destruct (fz_seed z) as [seed|] eqn:Es.
  { exists seed, z. split; [done|]. split; [|done]. split_and!; try done. by rewrite Es. }
  destruct path_below as (_&Hpar&Hne).
  destruct (valid_seed_run Hpl Hres Hidx scratch_dir (sc_fs (fz_scratch z)) Hrd Hpar) as (seed&s'&Hv&Hok&Hi'&Hn').
  rewrite (M_bind_ok _ _ _ _ _ (on_scratch_run _ z _ _ (scratch_facts.on_fs_run _ _ _ _ Hv))).
  eexists seed, _. split; [reflexivity|]. split; [|done]. split; [exact Hi'|]. split; [exact Hd|]. split; [|exact Hok].
  cbn. rewrite Hn'; [exact Hn|]. exact (not_eq_sym Hne).
Qed.

Lemma exercises_run bs mutated appended mode s :
  idle database_path s → blen bs ≤ ISIZE_MAX → blen mutated ≤ ISIZE_MAX → blen appended ≤ ISIZE_MAX →
  ∃ s', exercises bs mutated appended mode s = (Ok (), s') ∧ idle database_path s'
    ∧ ∀ name, name ≠ database_path → fs_names s' !! name = fs_names s !! name.
Proof using H0 H2 H5 H7.
  intros Hi H1b H2b H3b. unfold exercises.
  destruct (exercise_run scratch_dir bs mode s Hi H1b) as (s1&Hr1&Hi1&Hn1). rewrite (M_bind_ok _ _ _ _ _ Hr1).
  destruct (exercise_run scratch_dir mutated mode s1 Hi1 H2b) as (s2&Hr2&Hi2&Hn2). rewrite (M_bind_ok _ _ _ _ _ Hr2).
  destruct (exercise_run scratch_dir appended mode s2 Hi2 H3b) as (s3&Hr3&Hi3&Hn3). exists s3. split; [exact Hr3|]. split; [exact Hi3|].
  intros name Hne. by rewrite Hn3, Hn2, Hn1.
Qed.

Lemma end_run z :
  busy z → ∃ z', on_scratch (expect (remove_dir_all scratch_dir)) z = (Ok (), z') ∧ fuzzing z' ∧ scratch_dir ∉ sc_dirs (fz_scratch z').
Proof.
  intros (((Hq&Hnew&Hlk)&_)&Hd&Hn&Hs). eexists. split.
  { apply on_scratch_run, scratch_facts.expect_ok. apply scratch_facts.remove_dir_all_run; [exact Hq|exact Hd]. }
  split; [|cbn; rewrite elem_of_filter; naive_solver]. split; [|exact Hs].
  split; [done|]. split; [done|]. split; [done|]. split; [by apply scratch_facts.removed_other|].
  intros name Hb [x Hx]. cbn [fz_scratch sc_fs] in Hx. by rewrite scratch_facts.removed_below in Hx.
Qed.

Lemma target_run bs z :
  fuzzing z → blen bs + 20000 ≤ ISIZE_MAX →
  ∃ z', fuzz_target bs z = (Ok (), z') ∧ fuzzing z' ∧ scratch_dir ∉ sc_dirs (fz_scratch z').
Proof using All.
  intros Hz Hl. unfold fuzz_target. destruct (begin_run z Hz) as (z1&Hr1&Hb1&_&Hrd). rewrite (M_bind_ok _ _ _ _ _ Hr1).
  destruct (get_seed_run z1 Hb1 Hrd) as (seed&z2&Hr2&Hb2&Hseed). rewrite (M_bind_ok _ _ _ _ _ Hr2). unfold seed_ok in Hseed.
  destruct (mutate_ok 0 bs seed ltac:(lia)) as (mutated&->&Hm). rewrite M_lift_ok. cbv zeta.
  pose proof Hb2 as (Hi&Hd&Hn&Hs). pose proof (blen_nonneg bs).
  destruct (exercises_run bs mutated (seed ++ bs) OnRead _ Hi) as (s1&He1&Hi1&Hn1); [lia|lia|rewrite blen_app; lia|].
  destruct (exercises_run bs mutated (seed ++ bs) Full _ Hi1) as (s2&He2&Hi2&Hn2); [lia|lia|rewrite blen_app; lia|].
  assert (He : (_ ← exercises bs mutated (seed ++ bs) OnRead; exercises bs mutated (seed ++ bs) Full) (sc_fs (fz_scratch z2)) = (Ok (), s2))
    by (by rewrite (M_bind_ok _ _ _ _ _ He1)).
  rewrite (M_bind_ok _ _ _ _ _ (on_scratch_run _ z2 _ _ (scratch_facts.on_fs_run _ _ _ _ He))).
  apply end_run. split; [exact Hi2|]. split; [exact Hd|]. split; [|exact Hs]. cbn. destruct path_below as (_&_&Hne).
  rewrite Hn2, Hn1 by done. exact Hn.
Qed.

Lemma fuzz_run inputs z :
  fuzzing z → Forall (λ bs, blen bs + 20000 ≤ ISIZE_MAX) inputs → ∃ z', fuzz inputs z = (Ok (), z') ∧ fuzzing z'.
Proof using All.
  intros Hz Hl. revert z Hz. induction Hl as [|bs inputs Hb _ IH]; intros z Hz; [by exists z|]. cbn [fuzz].
  destruct (target_run bs z Hz Hb) as (z1&Hr&Hz1&_). rewrite (M_bind_ok _ _ _ _ _ Hr). by apply IH.
Qed.

End Run.

Section Property.
Context `{Crc32cLaws, Xxh3Laws, Alloc, HashTablesLaws, Placement, MmapAnon, Process, TempDir}.

(** C16: the fuzz target [open_bytes] passes on every sequence of inputs. On a file system
    whose calls do not fail, the seed is created once and kept, and then every input, the
    seed it changes and the seed it follows are opened and read in both modes without a
    panic; the scratch directory is removed after each input. *)
Theorem open_bytes_passes inputs c :
  (∀ mapping, PlacementLaws mapping) → (∀ n, try_reserve n = true) → recovery.reserve_succeeds →
  scratch_facts.usable scratch_dir c → Forall (λ bs, blen bs + 20000 ≤ ISIZE_MAX) inputs →
  ∃ z, fuzz inputs (MkFuzzing None c) = (Ok (), z) ∧ scratch_facts.usable scratch_dir (fz_scratch z)
    ∧ ∀ bs, blen bs + 20000 ≤ ISIZE_MAX → ∃ z', fuzz_target bs z = (Ok (), z') ∧ scratch_dir ∉ sc_dirs (fz_scratch z').
Proof.
  intros Hpl Hres Hidx Hc Hl. destruct (fuzz_run Hpl Hres Hidx inputs (MkFuzzing None c)) as (z&Hr&Hz); [by split|done|].
  exists z. split; [done|]. split; [apply Hz|]. intros bs Hb. destruct (target_run Hpl Hres Hidx bs z Hz Hb) as (z'&Hr'&_&Hd). by exists z'.
Qed.

End Property.

(** ** A concrete run *)

Import RefInstances.
#[local] Instance demo_placement : Placement :=
  {| base_addr := 65536; place kv := (view.MkSlice 1 kv.1, view.MkSlice 2 kv.2) |}.
#[local] Instance demo_maps : MmapAnon := {| map_anon _ := Ok (); make_read_only _ := Ok () |}.
#[local] Instance demo_process : Process := 42.
#[local] Instance demo_temp : TempDir := text "/tmp".

Definition demo_scratch : Scratch := MkScratch (creation.demo_fs []) {[temp_dir]}.

Lemma demo_open_usable : scratch_facts.usable scratch_dir demo_scratch.
Proof.
  split; [reflexivity|]. split; [reflexivity|]. split; [intros ino Hi; by apply not_elem_of_empty in Hi|].
  split; [apply lookup_empty|]. intros name _ [x Hx]. discriminate Hx.
Qed.

Lemma open_bytes_passes_witness :
  ∃ z, fuzz [text "open"; []] (MkFuzzing None demo_scratch) = (Ok (), z) ∧ scratch_facts.usable scratch_dir (fz_scratch z).
Proof.
  destruct (open_bytes_passes [text "open"; []] demo_scratch entries_facts.demo_placement_laws (λ _, eq_refl)
    recovery.ref_reserve_succeeds demo_open_usable) as (z&Hr&Hu&_).
  - repeat constructor; vm_compute; discriminate.
  - exists z. split; [exact Hr|exact Hu].
Defined.

End open_bytes.
