(* ===== verification/Ffi.v ===== *)
(** * The C interface

    [ffi.rs]: every function of the C API over a memory of objects. A pointer is an
    address, zero is [NULL]; dereferencing an address that holds no object of its type is
    undefined behaviour, which the contract of the header leaves to the caller. Boxed
    handles, batches and the objects the caller passes in live in maps by their address,
    byte buffers byte by byte. A [Result] of the Rust API becomes a status and a message,
    a panic a status of its own. *)

From S2P Require Import Prelude Errors Crates Io Superblock Values Log Segment Overlay Recovery View.
From S2P Require Import Base Storage Transaction Entries Database Maintenance Snapshot Creation.

Definition LKV_OK : Z := 0.
Definition LKV_NOT_FOUND : Z := 1.
Definition LKV_BUFFER_TOO_SMALL : Z := 2.
Definition LKV_INVALID_ARGUMENT : Z := 3.
Definition LKV_IO_ERROR : Z := 4.
Definition LKV_CORRUPTED : Z := 5.
Definition LKV_UNSUPPORTED : Z := 6.
Definition LKV_BUSY : Z := 7.
Definition LKV_DATABASE_FULL : Z := 8.
Definition LKV_MAINTENANCE_REQUIRED : Z := 9.
Definition LKV_POISONED : Z := 10.
Definition LKV_PANIC : Z := 255.

Definition LKV_VERIFICATION_ON_READ : Z := 0.
Definition LKV_VERIFICATION_FULL : Z := 1.

Record lkv_options := MkLkvOptions {
  lo_verification : Z;
  lo_overlay_memory_limit : Z;
  lo_max_database_bytes : Z
}.

Record lkv_database_stats := MkLkvStats {
  lst_storage_bytes : Z;
  lst_base_bytes : Z;
  lst_base_entries : Z;
  lst_overlay_entries : Z;
  lst_overlay_log_bytes : Z;
  lst_overlay_memory_bytes : Z;
  lst_stale_bytes : Z;
  lst_generation : Z
}.

(** A [HashMap] of staged operations; [hash_iter] is the order it is iterated in. *)
Abbreviation lkv_write_batch := (gmap bytes (option bytes)).
Class HashIter := hash_iter : lkv_write_batch → list mutation.
Class HashIterLaws `{HashIter} : Prop := hash_iter_all m : hash_iter m ≡ₚ map_to_list m.

(** [RwLock<Database>], poisoned or not, with the descriptor its file is open under; a
    database in memory has none. A snapshot shares the verifier of the database
    it was taken from, which stays in memory as long as one of them does: [ld_live] says
    whether the handle itself may still be used. *)
Record lkv_database `{HashTables} := MkLkvDatabase {
  ld_inner : Database;
  ld_inode : option Z;
  ld_poisoned : bool;
  ld_live : bool
}.
Arguments MkLkvDatabase {_} _ _ _ _.
Arguments ld_inode {_} _.
Arguments ld_inner {_} _.
Arguments ld_poisoned {_} _.
Arguments ld_live {_} _.

Record lkv_snapshot `{HashTables} := MkLkvSnapshot {
  ls_inner : Snapshot;
  ls_database : Z
}.
Arguments MkLkvSnapshot {_} _ _.
Arguments ls_inner {_} _.
Arguments ls_database {_} _.

(** The memory of a thread: the slot [LAST_ERROR], bytes, sizes, pointers and structures
    of the caller, the boxes of the library, the next address of a box, the file system,
    and the pairs its visitors have seen. *)
Record Memory `{HashTables} := MkMemory {
  mem_last_error : bytes;
  mem_bytes : gmap Z Byte.byte;
  mem_sizes : gmap Z Z;
  mem_pointers : gmap Z Z;
  mem_options : gmap Z lkv_options;
  mem_stats : gmap Z lkv_database_stats;
  mem_databases : gmap Z lkv_database;
  mem_snapshots : gmap Z lkv_snapshot;
  mem_batches : gmap Z lkv_write_batch;
  mem_next : Z;
  mem_fs : Fs;
  mem_visited : list (bytes * bytes)
}.
Arguments MkMemory {_} _ _ _ _ _ _ _ _ _ _ _ _.
Arguments mem_last_error {_} _.
Arguments mem_bytes {_} _.
Arguments mem_sizes {_} _.
Arguments mem_pointers {_} _.
Arguments mem_options {_} _.
Arguments mem_stats {_} _.
Arguments mem_databases {_} _.
Arguments mem_snapshots {_} _.
Arguments mem_batches {_} _.
Arguments mem_next {_} _.
Arguments mem_fs {_} _.
Arguments mem_visited {_} _.

(** ** Errors and calls *)

Record FfiError := MkFfiError { fe_status : Z; fe_message : option string }.

(** How the body of a call ends. *)
Inductive outcome (A : Type) :=
  | Returns (a : A)
  | Fails (e : FfiError)
  | Unwinds
  | Undefined.
Arguments Returns {A} a.
Arguments Fails {A} e.
Arguments Unwinds {A}.
Arguments Undefined {A}.

Definition F `{HashTables} (A : Type) : Type := Memory → outcome A * Memory.

#[global] Instance F_ret `{HashTables} : MRet F := λ A a m, (Returns a, m).
#[global] Instance F_bind `{HashTables} : MBind F := λ A B f x m,
  match x m with
  | (Returns a, m') => f a m'
  | (Fails e, m') => (Fails e, m')
  | (Unwinds, m') => (Unwinds, m')
  | (Undefined, m') => (Undefined, m')
  end.

Module ffi_error.

Definition new (status : Z) (message : string) : FfiError := MkFfiError status (Some message).
Definition control (status : Z) : FfiError := MkFfiError status None.

(** [impl From<Error> for FfiError]. *)
Definition from (e : Error) : FfiError :=
  let status := match e with
    | Corrupted _ => LKV_CORRUPTED
    | DatabaseAlreadyOpen _ => LKV_BUSY
    | UnsupportedError _ => LKV_UNSUPPORTED
    | InvalidArgument _ => LKV_INVALID_ARGUMENT
    | DatabaseFull _ => LKV_DATABASE_FULL
    | MaintenanceRequired _ _ => LKV_MAINTENANCE_REQUIRED
    | Poisoned => LKV_POISONED
    | Io _ => LKV_IO_ERROR
    end in
  new status (error.fmt e).

End ffi_error.

(** What the payload of a panic says, when it is a string. *)
Class PanicPayload := panic_payload : option string.

Module ffi.
Section Ffi.
Context `{Crc32c, Xxh3, Alloc, HashTables, Placement, MmapAnon, HashIter, Process, PanicPayload}.

Definition get {A} (f : Memory → A) : F A := λ m, (Returns (f m), m).
Definition update (f : Memory → Memory) : F () := λ m, (Returns (), f m).
Definition fail {A} (e : FfiError) : F A := λ m, (Fails e, m).
Definition undefined {A} : F A := λ m, (Undefined, m).

(** The fields a call writes. *)
Definition set_last (e : bytes) (m : Memory) : Memory :=
  MkMemory e (mem_bytes m) (mem_sizes m) (mem_pointers m) (mem_options m) (mem_stats m) (mem_databases m)
    (mem_snapshots m) (mem_batches m) (mem_next m) (mem_fs m) (mem_visited m).
Definition set_bytes (x : gmap Z Byte.byte) (m : Memory) : Memory :=
  MkMemory (mem_last_error m) x (mem_sizes m) (mem_pointers m) (mem_options m) (mem_stats m) (mem_databases m)
    (mem_snapshots m) (mem_batches m) (mem_next m) (mem_fs m) (mem_visited m).
Definition set_sizes (x : gmap Z Z) (m : Memory) : Memory :=
  MkMemory (mem_last_error m) (mem_bytes m) x (mem_pointers m) (mem_options m) (mem_stats m) (mem_databases m)
    (mem_snapshots m) (mem_batches m) (mem_next m) (mem_fs m) (mem_visited m).
Definition set_pointers (x : gmap Z Z) (m : Memory) : Memory :=
  MkMemory (mem_last_error m) (mem_bytes m) (mem_sizes m) x (mem_options m) (mem_stats m) (mem_databases m)
    (mem_snapshots m) (mem_batches m) (mem_next m) (mem_fs m) (mem_visited m).
Definition set_options (x : gmap Z lkv_options) (m : Memory) : Memory :=
  MkMemory (mem_last_error m) (mem_bytes m) (mem_sizes m) (mem_pointers m) x (mem_stats m) (mem_databases m)
    (mem_snapshots m) (mem_batches m) (mem_next m) (mem_fs m) (mem_visited m).
Definition set_stats (x : gmap Z lkv_database_stats) (m : Memory) : Memory :=
  MkMemory (mem_last_error m) (mem_bytes m) (mem_sizes m) (mem_pointers m) (mem_options m) x (mem_databases m)
    (mem_snapshots m) (mem_batches m) (mem_next m) (mem_fs m) (mem_visited m).
Definition set_databases (x : gmap Z lkv_database) (m : Memory) : Memory :=
  MkMemory (mem_last_error m) (mem_bytes m) (mem_sizes m) (mem_pointers m) (mem_options m) (mem_stats m) x
    (mem_snapshots m) (mem_batches m) (mem_next m) (mem_fs m) (mem_visited m).
Definition set_snapshots (x : gmap Z lkv_snapshot) (m : Memory) : Memory :=
  MkMemory (mem_last_error m) (mem_bytes m) (mem_sizes m) (mem_pointers m) (mem_options m) (mem_stats m) (mem_databases m)
    x (mem_batches m) (mem_next m) (mem_fs m) (mem_visited m).
Definition set_batches (x : gmap Z lkv_write_batch) (m : Memory) : Memory :=
  MkMemory (mem_last_error m) (mem_bytes m) (mem_sizes m) (mem_pointers m) (mem_options m) (mem_stats m) (mem_databases m)
    (mem_snapshots m) x (mem_next m) (mem_fs m) (mem_visited m).
Definition set_next (x : Z) (m : Memory) : Memory :=
  MkMemory (mem_last_error m) (mem_bytes m) (mem_sizes m) (mem_pointers m) (mem_options m) (mem_stats m) (mem_databases m)
    (mem_snapshots m) (mem_batches m) x (mem_fs m) (mem_visited m).
Definition set_fs (x : Fs) (m : Memory) : Memory :=
  MkMemory (mem_last_error m) (mem_bytes m) (mem_sizes m) (mem_pointers m) (mem_options m) (mem_stats m) (mem_databases m)
    (mem_snapshots m) (mem_batches m) (mem_next m) x (mem_visited m).
Definition set_visited (x : list (bytes * bytes)) (m : Memory) : Memory :=
  MkMemory (mem_last_error m) (mem_bytes m) (mem_sizes m) (mem_pointers m) (mem_options m) (mem_stats m) (mem_databases m)
    (mem_snapshots m) (mem_batches m) (mem_next m) (mem_fs m) x.

(** A result of the Rust API under the operator [?]. *)
Definition question {A} (r : result A) : F A :=
  match r with
  | Ok a => mret a
  | Err e => fail (ffi_error.from e)
  | Panic => λ m, (Unwinds, m)
  end.

(** [set_last_error]: a C string, with the zero bytes of the message written out. *)
Definition escape (b : Byte.byte) : bytes :=
  if bool_decide (b = Byte.x00) then [Byte.x5c; Byte.x30] else [b].
Definition set_last_error (message : string) : F () :=
  update (set_last (concat (escape <$> String.list_byte_of_string message) ++ [Byte.x00])).
Definition clear_last_error : F () := update (set_last [Byte.x00]).

(** [ffi_call]: [None] when the body had undefined behaviour. *)
Definition ffi_call (operation : F ()) (m : Memory) : option Z * Memory :=
  let m := snd (clear_last_error m) in
  match operation m with
  | (Returns _, m) => (Some LKV_OK, m)
  | (Fails e, m) =>
      (Some (fe_status e), match fe_message e with
                           | Some message => snd (set_last_error message m)
                           | None => m
                           end)
  | (Unwinds, m) =>
      (Some LKV_PANIC, snd (set_last_error (default "Rust panic crossed the lkv C API boundary" panic_payload) m))
  | (Undefined, m) => (None, m)
  end.

(** ** Pointers *)

(** [required_ref] and [required_mut] of an object in one of the maps. *)
Definition required {A} (objects : Memory → gmap Z A) (pointer : Z) (name : string) : F A :=
  if pointer =? 0 then fail (ffi_error.new LKV_INVALID_ARGUMENT (name +:+ " must not be NULL")) else
  found ← get (λ m, objects m !! pointer);
  match found with Some a => mret a | None => undefined end.

(** The bytes at an address. *)
Fixpoint load (memory : gmap Z Byte.byte) (pointer : Z) (len : nat) : option bytes :=
  match len with
  | O => Some []
  | S len => b ← memory !! pointer; rest ← load memory (pointer + 1) len; Some (b :: rest)
  end.
Fixpoint store (memory : gmap Z Byte.byte) (pointer : Z) (bs : bytes) : option (gmap Z Byte.byte) :=
  match bs with
  | [] => Some memory
  | b :: bs =>
      if bool_decide (is_Some (memory !! pointer)) then store (<[pointer := b]> memory) (pointer + 1) bs else None
  end.

Definition input_bytes (pointer len : Z) (name : string) : F bytes :=
  if len =? 0 then mret [] else
  if pointer =? 0
  then fail (ffi_error.new LKV_INVALID_ARGUMENT (name +:+ " must not be NULL when its length is non-zero")) else
  found ← get (λ m, load (mem_bytes m) pointer (Z.to_nat len));
  match found with Some bs => mret bs | None => undefined end.

(** [CStr::from_ptr]: the bytes at an address, up to the zero byte. The addresses it reads
    are all different, so the size of the memory bounds the search. *)
Fixpoint c_string (fuel : nat) (memory : gmap Z Byte.byte) (pointer : Z) : option bytes :=
  match fuel with
  | O => None
  | S fuel =>
      b ← memory !! pointer;
      if bool_decide (b = Byte.x00) then Some [] else rest ← c_string fuel memory (pointer + 1); Some (b :: rest)
  end.

(** [CStr::to_str] succeeds: every character is in the shortest encoding of UTF-8, and none
    is a surrogate or above the last code point. *)
Definition within (lo hi : Z) (b : Byte.byte) : bool := (lo <=? Z_of_u8 b) && (Z_of_u8 b <=? hi).
Definition continuation : Byte.byte → bool := within 128 191.
Fixpoint utf8 (bs : bytes) : bool :=
  match bs with
  | [] => true
  | b :: bs =>
      if within 0 127 b then utf8 bs else
      match bs with
      | [] => false
      | c :: bs =>
          if within 194 223 b then continuation c && utf8 bs else
          match bs with
          | [] => false
          | d :: bs =>
              if within 224 239 b then
                (if Z_of_u8 b =? 224 then within 160 191 c
                 else if Z_of_u8 b =? 237 then within 128 159 c else continuation c)
                && continuation d && utf8 bs
              else
              match bs with
              | [] => false
              | e :: bs =>
                  within 240 244 b
                  && (if Z_of_u8 b =? 240 then within 144 191 c
                      else if Z_of_u8 b =? 244 then within 128 143 c else continuation c)
                  && continuation d && continuation e && utf8 bs
              end
          end
      end
  end.

(** [Box::new] and [Box::into_raw]: a fresh address. *)
Definition allocate : F Z :=
  p ← get mem_next; _ ← update (λ m, set_next (mem_next m + 1) m); mret p.

Definition write_size (pointer n : Z) : F () := update (λ m, set_sizes (<[pointer := n]> (mem_sizes m)) m).
Definition write_pointer (pointer p : Z) : F () := update (λ m, set_pointers (<[pointer := p]> (mem_pointers m)) m).

(** ** Databases behind pointers *)

(** [required_ref(database, "database")] of a handle that was not closed. *)
Definition required_database (pointer : Z) : F lkv_database :=
  database ← required mem_databases pointer "database";
  if ld_live database then mret database else undefined.

Definition lock_poisoned : FfiError :=
  ffi_error.new LKV_PANIC "database lock was poisoned by a previous panic".

(** [read_database(database)?] and the operation [x] on what it guards. *)
Definition read_database {A} (pointer : Z) (x : M Database A) : F A :=
  database ← required mem_databases pointer "database";
  if ld_poisoned database then fail lock_poisoned else
  let '(r, db) := x (ld_inner database) in
  _ ← update (λ m, set_databases (<[pointer := MkLkvDatabase db (ld_inode database) (ld_poisoned database) (ld_live database)]>
                                    (mem_databases m)) m);
  question r.

(** [write_database(database)?]: a panic under the guard poisons the lock. *)
Definition write_database {A} (pointer : Z) (x : M Database A) : F A :=
  database ← required mem_databases pointer "database";
  if ld_poisoned database then fail lock_poisoned else
  let '(r, db) := x (ld_inner database) in
  let poisoned := match r with Panic => true | _ => ld_poisoned database end in
  _ ← update (λ m, set_databases (<[pointer := MkLkvDatabase db (ld_inode database) poisoned (ld_live database)]> (mem_databases m)) m);
  question r.

Definition decode_options (options : option lkv_options) : F DatabaseOptions :=
  match options with
  | None => mret options.default
  | Some o =>
      verification ← (if lo_verification o =? LKV_VERIFICATION_ON_READ then mret OnRead
                      else if lo_verification o =? LKV_VERIFICATION_FULL then mret Full
                      else fail (ffi_error.new LKV_INVALID_ARGUMENT
                                   ("unknown verification mode " +:+ fmt_num (lo_verification o))));
      mret (options.with_max_database_bytes
              (options.with_overlay_memory_limit
                 (options.with_verification options.default verification) (lo_overlay_memory_limit o))
              (lo_max_database_bytes o))
  end.

(** An optional pointer to options. *)
Definition optional_options (pointer : Z) : F (option lkv_options) :=
  if pointer =? 0 then mret None else
  found ← get (λ m, mem_options m !! pointer);
  match found with Some o => mret (Some o) | None => undefined end.

(** [borrow_value]; the address of a value in the database is [address value]. *)
Definition borrow_value (address : bytes → Z) (value : option bytes) (output len : Z) : F () :=
  _ ← write_pointer output 0;
  _ ← write_size len 0;
  match value with
  | None => fail (ffi_error.control LKV_NOT_FOUND)
  | Some value =>
      _ ← write_size len (blen value);
      if bool_decide (value = []) then mret () else write_pointer output (address value)
  end.

Definition copy_value (value : option bytes) (output capacity len : Z) : F () :=
  _ ← write_size len 0;
  if (output =? 0) && negb (capacity =? 0)
  then fail (ffi_error.new LKV_INVALID_ARGUMENT "value must not be NULL when value_capacity is non-zero") else
  match value with
  | None => fail (ffi_error.control LKV_NOT_FOUND)
  | Some value =>
      _ ← write_size len (blen value);
      if capacity <? blen value then fail (ffi_error.control LKV_BUFFER_TOO_SMALL) else
      if bool_decide (value = []) then mret () else
      _ ← question (assert (negb (output =? 0)));
      written ← get (λ m, store (mem_bytes m) output value);
      match written with
      | Some memory => update (set_bytes memory)
      | None => undefined
      end
  end.

(** ** The functions *)

Definition lkv_version : Z := 1.
Definition lkv_last_error_message (m : Memory) : bytes := mem_last_error m.

Definition lkv_options_init (output : Z) : Memory → option Z * Memory := ffi_call (
  _ ← required mem_options output "output";
  let defaults := options.default in
  update (λ m, set_options (<[output := MkLkvOptions LKV_VERIFICATION_ON_READ (opt_overlay_memory_limit defaults)
                                          (opt_max_database_bytes defaults)]> (mem_options m)) m)).

(** Boxes a database and stores its address. *)
Definition return_database (output : Z) (ino : option Z) (db : Database) : F () :=
  p ← allocate;
  _ ← update (λ m, set_databases (<[p := MkLkvDatabase db ino false true]> (mem_databases m)) m);
  write_pointer output p.

(** The path argument: a C string of valid UTF-8. *)
Definition path_argument (pointer : Z) : F bytes :=
  if pointer =? 0 then fail (ffi_error.new LKV_INVALID_ARGUMENT "path must not be NULL") else
  found ← get (λ m, c_string (S (size (mem_bytes m))) (mem_bytes m) pointer);
  match found with
  | None => undefined
  | Some bs => if utf8 bs then mret bs else fail (ffi_error.new LKV_INVALID_ARGUMENT "path must be valid UTF-8")
  end.

(** An operation on the file system. *)
Definition on_fs {A} (x : M Fs A) : F A :=
  s ← get mem_fs;
  let '(r, s) := x s in
  _ ← update (set_fs s);
  question r.

Definition lkv_database_open (path options output : Z)
    : Memory → option Z * Memory := ffi_call (
  _ ← required mem_pointers output "output";
  _ ← write_pointer output 0;
  path ← path_argument path;
  options ← optional_options options;
  options ← decode_options options;
  '(ino, db) ← on_fs (creation.open_with_options path options);
  return_database output (Some ino) db).

Definition lkv_database_create (path options output : Z)
    : Memory → option Z * Memory := ffi_call (
  _ ← required mem_pointers output "output";
  _ ← write_pointer output 0;
  path ← path_argument path;
  options ← optional_options options;
  options ← decode_options options;
  '(ino, db) ← on_fs (creation.create_with_options path options);
  return_database output (Some ino) db).

Definition lkv_database_open_memory (options output : Z) : Memory → option Z * Memory := ffi_call (
  _ ← required mem_pointers output "output";
  _ ← write_pointer output 0;
  options ← optional_options options;
  options ← decode_options options;
  db ← question (database.memory_with_options options);
  return_database output None db).

Definition lkv_database_close (database : Z) : Memory → option Z * Memory := ffi_call (
  if database =? 0 then mret () else
  d ← required_database database;
  _ ← update (λ m, set_databases (<[database := MkLkvDatabase (ld_inner d) (ld_inode d) (ld_poisoned d) false]>
                                    (mem_databases m)) m);
  match ld_inode d with Some ino => on_fs (creation.drop_database ino (ld_inner d)) | None => mret () end).

Definition lkv_database_get (database key key_len value value_capacity value_len : Z)
    : Memory → option Z * Memory := ffi_call (
  _ ← required_database database;
  key ← input_bytes key key_len "key";
  _ ← required mem_sizes value_len "value_len";
  found ← read_database database (database.get key);
  copy_value found value value_capacity value_len).

Definition lkv_database_get_ref (address : bytes → Z) (database key key_len value value_len : Z)
    : Memory → option Z * Memory := ffi_call (
  _ ← required_database database;
  key ← input_bytes key key_len "key";
  _ ← required mem_pointers value "value";
  _ ← required mem_sizes value_len "value_len";
  found ← read_database database (database.get key);
  borrow_value address found value value_len).

(** A transaction that stages [ops], gives up at the first refusal, and commits. *)
Fixpoint stage_all (memory : bool) (ops : list mutation) : M WriteTransaction () :=
  match ops with
  | [] => mret ()
  | (key, Some value) :: ops => _ ← transaction.put memory key value; stage_all memory ops
  | (key, None) :: ops => _ ← transaction.delete key; stage_all memory ops
  end.

Definition transact (ops : list mutation) : M Database () :=
  tx ← database.begin_write;
  db ← database.self;
  let '(r, tx) := stage_all (storage.is_memory (db_storage db)) ops tx in
  _ ← lift r;
  database.commit tx.

Definition lkv_database_put (database key key_len value value_len : Z) : Memory → option Z * Memory := ffi_call (
  _ ← required_database database;
  key ← input_bytes key key_len "key";
  value ← input_bytes value value_len "value";
  write_database database (transact [(key, Some value)])).

Definition lkv_database_delete (database key key_len : Z) : Memory → option Z * Memory := ffi_call (
  _ ← required_database database;
  key ← input_bytes key key_len "key";
  write_database database (transact [(key, None)])).

Definition lkv_database_len (database output : Z) : Memory → option Z * Memory := ffi_call (
  _ ← required_database database;
  _ ← required mem_sizes output "output";
  n ← read_database database database.len;
  write_size output n).

Definition lkv_database_get_stats (database output : Z) : Memory → option Z * Memory := ffi_call (
  _ ← required_database database;
  _ ← required mem_stats output "output";
  stats ← read_database database database.stats;
  update (λ m, set_stats (<[output := MkLkvStats (storage_bytes stats) (base_bytes stats) (base_entries stats)
    (overlay_entries stats) (overlay_log_bytes stats) (overlay_memory_bytes stats) (stale_bytes stats)
    (stats_generation stats)]> (mem_stats m)) m)).

Definition lkv_database_sync (database : Z) : Memory → option Z * Memory := ffi_call (
  _ ← required_database database;
  read_database database database.sync).

Definition lkv_database_verify (database : Z) : Memory → option Z * Memory := ffi_call (
  _ ← required_database database;
  read_database database database.verify).

Definition lkv_database_compact (database : Z) : Memory → option Z * Memory := ffi_call (
  _ ← required_database database;
  write_database database maintenance.compact).

(** *** Snapshots *)

Definition lkv_snapshot_create (database output : Z) : Memory → option Z * Memory := ffi_call (
  _ ← required_database database;
  _ ← required mem_pointers output "output";
  _ ← write_pointer output 0;
  s ← read_database database snapshot.take;
  p ← allocate;
  _ ← update (λ m, set_snapshots (<[p := MkLkvSnapshot s database]> (mem_snapshots m)) m);
  write_pointer output p).

(** An operation of a snapshot, on the verifier it shares. *)
Definition on_snapshot {A} (s : lkv_snapshot) (x : M SegmentVerifier A) : F A :=
  found ← get (λ m, mem_databases m !! ls_database s);
  match found with
  | None => undefined
  | Some d =>
      let '(r, db) := database.on_base (active_base.with_verifier x) (ld_inner d) in
      _ ← update (λ m, set_databases (<[ls_database s := MkLkvDatabase db (ld_inode d) (ld_poisoned d) (ld_live d)]> (mem_databases m)) m);
      question r
  end.

Definition lkv_snapshot_close (snapshot : Z) : Memory → option Z * Memory := ffi_call (
  if snapshot =? 0 then mret () else
  s ← required mem_snapshots snapshot "snapshot";
  found ← get (λ m, mem_databases m !! ls_database s);
  match found with
  | None => undefined
  | Some d =>
      update (λ m, set_snapshots (delete snapshot (mem_snapshots m))
        (set_databases (<[ls_database s := MkLkvDatabase (snd (snapshot.drop (ld_inner d))) (ld_inode d) (ld_poisoned d) (ld_live d)]>
           (mem_databases m)) m))
  end).

Definition lkv_snapshot_get (snapshot key key_len value value_capacity value_len : Z)
    : Memory → option Z * Memory := ffi_call (
  s ← required mem_snapshots snapshot "snapshot";
  key ← input_bytes key key_len "key";
  _ ← required mem_sizes value_len "value_len";
  found ← on_snapshot s (snapshot.get (ls_inner s) key);
  copy_value found value value_capacity value_len).

Definition lkv_snapshot_get_ref (address : bytes → Z) (snapshot key key_len value value_len : Z)
    : Memory → option Z * Memory := ffi_call (
  s ← required mem_snapshots snapshot "snapshot";
  key ← input_bytes key key_len "key";
  _ ← required mem_pointers value "value";
  _ ← required mem_sizes value_len "value_len";
  found ← on_snapshot s (snapshot.get (ls_inner s) key);
  borrow_value address found value value_len).

(** *** Visitors *)

(** A visitor decides by the pairs it has seen, the last one included. *)
Definition visitor := option (list (bytes * bytes) → Z).

(** The [for] loop over the entries, which the iterator bounds: the pairs handed to the
    visitor, and the error that ended the loop, if one did. *)
Fixpoint visit_loop (fuel : nat) (visit : list (bytes * bytes) → Z) (seen : list (bytes * bytes))
    : M (RawEntries * SegmentVerifier) (list (bytes * bytes) * option Error) :=
  match fuel with
  | O => lift Panic
  | S fuel =>
      item ← raw_entries.entries_next;
      match item with
      | None => mret (seen, None)
      | Some (Err e) => mret (seen, Some e)
      | Some Panic => lift Panic
      | Some (Ok kv) =>
          let seen := seen ++ [kv] in
          if visit seen =? 0 then mret (seen, None) else visit_loop fuel visit seen
      end
  end.

Definition visit_snapshot (visit : list (bytes * bytes) → Z) (s : Snapshot)
    : M SegmentVerifier (list (bytes * bytes) * option Error) :=
  r ← snapshot.entries s; snapshot.consume (visit_loop (raw_entries.budget r) visit []) r.

Definition visit_database (visit : list (bytes * bytes) → Z) : M Database (list (bytes * bytes) * option Error) :=
  _ ← database.ensure_available;
  db ← database.self;
  r ← lift (database.iter_raw db);
  database.on_base (active_base.with_verifier (snapshot.consume (visit_loop (raw_entries.budget r) visit []) r)).

Definition required_visitor (v : visitor) : F (list (bytes * bytes) → Z) :=
  match v with
  | Some visit => mret visit
  | None => fail (ffi_error.new LKV_INVALID_ARGUMENT "visitor must not be NULL")
  end.

(** The caller has seen the pairs, whether or not an error followed. *)
Definition report_visited (visited : list (bytes * bytes) * option Error) : F () :=
  _ ← update (λ m, set_visited (mem_visited m ++ visited.1) m);
  match visited.2 with Some e => question (Err e) | None => mret () end.

Definition lkv_snapshot_visit (snapshot : Z) (v : visitor) : Memory → option Z * Memory := ffi_call (
  s ← required mem_snapshots snapshot "snapshot";
  visit ← required_visitor v;
  visited ← on_snapshot s (visit_snapshot visit (ls_inner s));
  report_visited visited).

Definition lkv_database_visit (database : Z) (v : visitor) : Memory → option Z * Memory := ffi_call (
  _ ← required_database database;
  visit ← required_visitor v;
  visited ← read_database database (visit_database visit);
  report_visited visited).

(** *** Write batches *)

Definition write_batch (batch : Z) (b : lkv_write_batch) : F () :=
  update (λ m, set_batches (<[batch := b]> (mem_batches m)) m).

Definition lkv_write_batch_create (output : Z) : Memory → option Z * Memory := ffi_call (
  _ ← required mem_pointers output "output";
  p ← allocate;
  _ ← write_batch p ∅;
  write_pointer output p).

Definition lkv_write_batch_close (batch : Z) : Memory → option Z * Memory := ffi_call (
  if batch =? 0 then mret () else
  _ ← required mem_batches batch "batch";
  update (λ m, set_batches (delete batch (mem_batches m)) m)).

Definition lkv_write_batch_clear (batch : Z) : Memory → option Z * Memory := ffi_call (
  _ ← required mem_batches batch "batch";
  write_batch batch ∅).

Definition lkv_write_batch_len (batch output : Z) : Memory → option Z * Memory := ffi_call (
  b ← required mem_batches batch "batch";
  _ ← required mem_sizes output "output";
  write_size output (Z.of_nat (size b))).

Definition lkv_write_batch_put (batch key key_len value value_len : Z) : Memory → option Z * Memory := ffi_call (
  b ← required mem_batches batch "batch";
  key ← input_bytes key key_len "key";
  value ← input_bytes value value_len "value";
  write_batch batch (<[key := Some value]> b)).

Definition lkv_write_batch_delete (batch key key_len : Z) : Memory → option Z * Memory := ffi_call (
  b ← required mem_batches batch "batch";
  key ← input_bytes key key_len "key";
  write_batch batch (<[key := None]> b)).

Definition lkv_database_commit_write_batch (database batch : Z) : Memory → option Z * Memory := ffi_call (
  _ ← required_database database;
  b ← required mem_batches batch "batch";
  _ ← write_database database (transact (hash_iter b));
  write_batch batch ∅).

End Ffi.
End ffi.
