(* ===== verification/Interface.v ===== *)
(** * What the C interface promises

    Every function reports its outcome by a status of the header and a C string; reading
    copies the value of the key into the buffer of the caller or says how large it is; a
    write batch is committed as a whole or kept. *)

From S2P Require Import Prelude Errors Crates Io Superblock Values Log Segment Overlay Recovery View.
From S2P Require Import Base Storage Transaction Entries Database Faults Commit Handle Maintenance Snapshot Creation Ffi.
Import commit_facts handle.

Module interface.

(** ** Every function, and how it may end *)

Section Reports.
Context `{Crc32c, Xxh3, Alloc, HashTables, Placement, MmapAnon, HashIter, Process, PanicPayload}.

Inductive api_call :=
  | OptionsInit (output : Z)
  | DatabaseOpen (path options output : Z)
  | DatabaseCreate (path options output : Z)
  | DatabaseOpenMemory (options output : Z)
  | DatabaseClose (database : Z)
  | DatabaseGet (database key key_len value value_capacity value_len : Z)
  | DatabaseGetRef (address : bytes → Z) (database key key_len value value_len : Z)
  | DatabasePut (database key key_len value value_len : Z)
  | DatabaseDelete (database key key_len : Z)
  | DatabaseLen (database output : Z)
  | DatabaseGetStats (database output : Z)
  | DatabaseSync (database : Z)
  | DatabaseVerify (database : Z)
  | DatabaseCompact (database : Z)
  | DatabaseVisit (database : Z) (v : ffi.visitor)
  | DatabaseCommitWriteBatch (database batch : Z)
  | SnapshotCreate (database output : Z)
  | SnapshotClose (snapshot : Z)
  | SnapshotGet (snapshot key key_len value value_capacity value_len : Z)
  | SnapshotGetRef (address : bytes → Z) (snapshot key key_len value value_len : Z)
  | SnapshotVisit (snapshot : Z) (v : ffi.visitor)
  | WriteBatchCreate (output : Z)
  | WriteBatchClose (batch : Z)
  | WriteBatchClear (batch : Z)
  | WriteBatchLen (batch output : Z)
  | WriteBatchPut (batch key key_len value value_len : Z)
  | WriteBatchDelete (batch key key_len : Z).

Definition run (c : api_call) : Memory → option Z * Memory :=
  match c with
  | OptionsInit output => ffi.lkv_options_init output
  | DatabaseOpen path options output => ffi.lkv_database_open path options output
  | DatabaseCreate path options output => ffi.lkv_database_create path options output
  | DatabaseOpenMemory options output => ffi.lkv_database_open_memory options output
  | DatabaseClose database => ffi.lkv_database_close database
  | DatabaseGet database key key_len value capacity len => ffi.lkv_database_get database key key_len value capacity len
  | DatabaseGetRef address database key key_len value len => ffi.lkv_database_get_ref address database key key_len value len
  | DatabasePut database key key_len value len => ffi.lkv_database_put database key key_len value len
  | DatabaseDelete database key key_len => ffi.lkv_database_delete database key key_len
  | DatabaseLen database output => ffi.lkv_database_len database output
  | DatabaseGetStats database output => ffi.lkv_database_get_stats database output
  | DatabaseSync database => ffi.lkv_database_sync database
  | DatabaseVerify database => ffi.lkv_database_verify database
  | DatabaseCompact database => ffi.lkv_database_compact database
  | DatabaseVisit database v => ffi.lkv_database_visit database v
  | DatabaseCommitWriteBatch database batch => ffi.lkv_database_commit_write_batch database batch
  | SnapshotCreate database output => ffi.lkv_snapshot_create database output
  | SnapshotClose snapshot => ffi.lkv_snapshot_close snapshot
  | SnapshotGet snapshot key key_len value capacity len => ffi.lkv_snapshot_get snapshot key key_len value capacity len
  | SnapshotGetRef address snapshot key key_len value len => ffi.lkv_snapshot_get_ref address snapshot key key_len value len
  | SnapshotVisit snapshot v => ffi.lkv_snapshot_visit snapshot v
  | WriteBatchCreate output => ffi.lkv_write_batch_create output
  | WriteBatchClose batch => ffi.lkv_write_batch_close batch
  | WriteBatchClear batch => ffi.lkv_write_batch_clear batch
  | WriteBatchLen batch output => ffi.lkv_write_batch_len batch output
  | WriteBatchPut batch key key_len value len => ffi.lkv_write_batch_put batch key key_len value len
  | WriteBatchDelete batch key key_len => ffi.lkv_write_batch_delete batch key key_len
  end.

(** *** The contract of the header

    Every pointer is [NULL] or points to an object of its type: a handle that was not
    closed, a snapshot whose database is still there, a byte string of the given length, a
    buffer of the given capacity, a zero-terminated path. *)
Definition object_at {A} (objects : Memory → gmap Z A) (m : Memory) (p : Z) : Prop := p = 0 ∨ is_Some (objects m !! p).
Definition handle_at (m : Memory) (p : Z) : Prop := p = 0 ∨ ∃ d, mem_databases m !! p = Some d ∧ ld_live d = true.
Definition snapshot_at (m : Memory) (p : Z) : Prop :=
  p = 0 ∨ ∃ s, mem_snapshots m !! p = Some s ∧ is_Some (mem_databases m !! ls_database s).
Definition input_at (m : Memory) (p n : Z) : Prop := p = 0 ∨ is_Some (ffi.load (mem_bytes m) p (Z.to_nat n)).
Definition buffer_at (m : Memory) (p n : Z) : Prop := p = 0 ∨ ∀ i, 0 ≤ i < n → is_Some (mem_bytes m !! (p + i)).
Definition path_at (m : Memory) (p : Z) : Prop :=
  p = 0 ∨ ∃ text, Byte.x00 ∉ text ∧ ffi.load (mem_bytes m) p (length text + 1) = Some (text ++ [Byte.x00]).

Definition valid (c : api_call) (m : Memory) : Prop :=
  match c with
  | OptionsInit output => object_at mem_options m output
  | DatabaseOpen path options output | DatabaseCreate path options output =>
      path_at m path ∧ object_at mem_options m options ∧ object_at mem_pointers m output
  | DatabaseOpenMemory options output => object_at mem_options m options ∧ object_at mem_pointers m output
  | DatabaseClose database | DatabaseSync database | DatabaseVerify database | DatabaseCompact database
  | DatabaseVisit database _ => handle_at m database
  | DatabaseGet database key key_len value capacity len =>
      handle_at m database ∧ input_at m key key_len ∧ buffer_at m value capacity ∧ object_at mem_sizes m len
  | DatabaseGetRef _ database key key_len value len =>
      handle_at m database ∧ input_at m key key_len ∧ object_at mem_pointers m value ∧ object_at mem_sizes m len
  | DatabasePut database key key_len value value_len =>
      handle_at m database ∧ input_at m key key_len ∧ input_at m value value_len
  | DatabaseDelete database key key_len => handle_at m database ∧ input_at m key key_len
  | DatabaseLen database output => handle_at m database ∧ object_at mem_sizes m output
  | DatabaseGetStats database output => handle_at m database ∧ object_at mem_stats m output
  | DatabaseCommitWriteBatch database batch => handle_at m database ∧ object_at mem_batches m batch
  | SnapshotCreate database output => handle_at m database ∧ object_at mem_pointers m output
  | SnapshotClose snapshot | SnapshotVisit snapshot _ => snapshot_at m snapshot
  | SnapshotGet snapshot key key_len value capacity len =>
      snapshot_at m snapshot ∧ input_at m key key_len ∧ buffer_at m value capacity ∧ object_at mem_sizes m len
  | SnapshotGetRef _ snapshot key key_len value len =>
      snapshot_at m snapshot ∧ input_at m key key_len ∧ object_at mem_pointers m value ∧ object_at mem_sizes m len
  | WriteBatchCreate output => object_at mem_pointers m output
  | WriteBatchClose batch | WriteBatchClear batch => object_at mem_batches m batch
  | WriteBatchLen batch output => object_at mem_batches m batch ∧ object_at mem_sizes m output
  | WriteBatchPut batch key key_len value value_len =>
      object_at mem_batches m batch ∧ input_at m key key_len ∧ input_at m value value_len
  | WriteBatchDelete batch key key_len => object_at mem_batches m batch ∧ input_at m key key_len
  end.

(** The arguments that must not be [NULL]: those of a byte string only when it has a
    length; a missing visitor counts as one. The functions that close accept [NULL]. *)
Definition input_pointer (p n : Z) : list Z := if n =? 0 then [] else [p].
Definition visitor_pointer (v : ffi.visitor) : list Z := match v with Some _ => [] | None => [0] end.
Definition required_pointers (c : api_call) : list Z :=
  match c with
  | OptionsInit output | WriteBatchCreate output => [output]
  | DatabaseOpen path _ output | DatabaseCreate path _ output => [output; path]
  | DatabaseOpenMemory _ output => [output]
  | DatabaseClose _ | SnapshotClose _ | WriteBatchClose _ => []
  | DatabaseSync database | DatabaseVerify database | DatabaseCompact database => [database]
  | DatabaseVisit p v | SnapshotVisit p v => p :: visitor_pointer v
  | DatabaseGet p key key_len _ _ len | SnapshotGet p key key_len _ _ len => p :: input_pointer key key_len ++ [len]
  | DatabaseGetRef _ p key key_len value len | SnapshotGetRef _ p key key_len value len =>
      p :: input_pointer key key_len ++ [value; len]
  | DatabasePut p key key_len value value_len | WriteBatchPut p key key_len value value_len =>
      p :: input_pointer key key_len ++ input_pointer value value_len
  | DatabaseDelete p key key_len | WriteBatchDelete p key key_len => p :: input_pointer key key_len
  | DatabaseLen p output | DatabaseGetStats p output | DatabaseCommitWriteBatch p output | SnapshotCreate p output
  | WriteBatchLen p output => [p; output]
  | WriteBatchClear batch => [batch]
  end.

(** Statuses that are answers, and those that are errors. *)
Definition answer_codes : list Z := [LKV_OK; LKV_NOT_FOUND; LKV_BUFFER_TOO_SMALL].
Definition error_codes : list Z :=
  [LKV_INVALID_ARGUMENT; LKV_IO_ERROR; LKV_CORRUPTED; LKV_UNSUPPORTED; LKV_BUSY; LKV_DATABASE_FULL;
   LKV_MAINTENANCE_REQUIRED; LKV_POISONED; LKV_PANIC].

Lemma answer_not_error s : s ∈ answer_codes → s ∉ error_codes.
Proof.
  revert s. apply (Forall_forall (λ s, s ∉ error_codes) answer_codes). apply (bool_decide_unpack _). vm_compute. exact I.
Qed.

(** A zero-terminated string. *)
Definition c_string (bs : bytes) : Prop := ∃ text, bs = text ++ [Byte.x00] ∧ Byte.x00 ∉ text.

(** An error of the interface: an answer without a message, or an error with one. *)
Definition proper (e : FfiError) : Prop :=
  fe_message e = None ∧ fe_status e ∈ answer_codes ∨ is_Some (fe_message e) ∧ fe_status e ∈ error_codes.

(** A body leaves the message slot alone and fails with proper errors. *)
Definition sound {A} (x : F A) : Prop := ∀ m,
  mem_last_error (x m).2 = mem_last_error m ∧ match (x m).1 with Fails e => proper e | _ => True end.

Lemma sound_bind {A B} (x : F A) (k : A → F B) : sound x → (∀ a, sound (k a)) → sound (x ≫= k).
Proof.
  intros Hx Hk m. unfold mbind, F_bind. destruct (Hx m) as [E He]. destruct (x m) as [[a|e| |] m1]; [|done..].
  cbn in E. rewrite <- E. apply Hk.
Qed.
Lemma sound_ret {A} (a : A) : sound (mret a).
Proof. done. Qed.
Lemma sound_get {A} (f : Memory → A) : sound (ffi.get f).
Proof. done. Qed.
Lemma sound_undefined {A} : sound (A := A) ffi.undefined.
Proof. done. Qed.
Lemma sound_update f : (∀ m, mem_last_error (f m) = mem_last_error m) → sound (ffi.update f).
Proof. intros Hf m. by split; [apply Hf|]. Qed.
Lemma sound_fail {A} e : proper e → sound (A := A) (ffi.fail e).
Proof. done. Qed.

(** The constructors of errors are proper. *)
Lemma proper_new status message : status ∈ error_codes → proper (ffi_error.new status message).
Proof. intros Hs. right. by split. Qed.
Lemma proper_control status : status ∈ answer_codes → proper (ffi_error.control status).
Proof. intros Hs. by left. Qed.
Lemma sound_question {A} (r : result A) : sound (ffi.question r).
Proof. intros m. destruct r as [a|e|]; [done| |done]. split; [done|]. apply proper_new. destruct e; set_solver. Qed.

End Reports.

Create HintDb sound.
#[local] Hint Resolve sound_ret sound_get sound_undefined sound_question : sound.
Ltac sound := repeat first
  [ apply sound_bind; [|intros ?] | apply sound_update; done | progress cbv zeta
  | apply sound_fail, proper_new; unfold error_codes; set_solver
  | apply sound_fail, proper_control; unfold answer_codes; set_solver
  | case_match | solve [eauto with sound] ].

Section Functions.
Context `{Crc32c, Xxh3, Alloc, HashTables, Placement, MmapAnon, HashIter, Process, PanicPayload}.

Lemma sound_required {A} (objects : Memory → gmap Z A) p name : sound (ffi.required objects p name).
Proof. unfold ffi.required. sound. Qed.
Hint Resolve sound_required : sound.
Lemma sound_input_bytes p n name : sound (ffi.input_bytes p n name).
Proof. unfold ffi.input_bytes. sound. Qed.
Lemma sound_required_database p : sound (ffi.required_database p).
Proof. unfold ffi.required_database. sound. Qed.
Lemma sound_read_database {A} p (x : M Database A) : sound (ffi.read_database p x).
Proof. unfold ffi.read_database, ffi.lock_poisoned. sound. Qed.
Lemma sound_write_database {A} p (x : M Database A) : sound (ffi.write_database p x).
Proof. unfold ffi.write_database, ffi.lock_poisoned. sound. Qed.
Lemma sound_on_snapshot {A} s (x : M SegmentVerifier A) : sound (ffi.on_snapshot s x).
Proof. unfold ffi.on_snapshot. sound. Qed.
Lemma sound_on_fs {A} (x : M Fs A) : sound (ffi.on_fs x).
Proof. unfold ffi.on_fs. sound. Qed.
Lemma sound_decode_options o : sound (ffi.decode_options o).
Proof. unfold ffi.decode_options. sound. Qed.
Lemma sound_copy_value v p n l : sound (ffi.copy_value v p n l).
Proof. unfold ffi.copy_value, ffi.write_size. sound. Qed.
Lemma sound_borrow_value address v p l : sound (ffi.borrow_value address v p l).
Proof. unfold ffi.borrow_value, ffi.write_size, ffi.write_pointer. sound. Qed.
Hint Resolve sound_input_bytes sound_required_database sound_read_database sound_write_database sound_on_snapshot
  sound_on_fs sound_decode_options sound_copy_value sound_borrow_value : sound.

Lemma escaped_c_string message : c_string (concat (ffi.escape <$> String.list_byte_of_string message) ++ [Byte.x00]).
Proof.
  eexists. split; [done|]. induction (String.list_byte_of_string message) as [|b bs IH]; [by apply not_elem_of_nil|].
  cbn. rewrite elem_of_app. intros [Hb|Hb]; [|done]. unfold ffi.escape in Hb. case_bool_decide; set_solver.
Qed.

End Functions.

(** ** Reading *)

Section Bytes.
Implicit Types (memory : gmap Z Byte.byte).

(** The buffer of the caller: [n] bytes at [p] that may be written. *)
Definition writable memory (p n : Z) : Prop := ∀ i, 0 ≤ i < n → is_Some (memory !! (p + i)).

Lemma store_spec memory p bs :
  writable memory p (blen bs) →
  ∃ memory', ffi.store memory p bs = Some memory' ∧ ffi.load memory' p (length bs) = Some bs
    ∧ ∀ a, a < p ∨ p + blen bs ≤ a → memory' !! a = memory !! a.
Proof.
  revert memory p. induction bs as [|b bs IH]; intros memory p Hw; [by exists memory|].
  assert (Hb : is_Some (memory !! p)).
  { replace p with (p + 0) by lia. apply Hw. rewrite blen_cons. pose proof (blen_nonneg bs). lia. }
  cbn [ffi.store]. rewrite bool_decide_true by done. rewrite blen_cons in *. pose proof (blen_nonneg bs).
  destruct (IH (<[p := b]> memory) (p + 1)) as (memory'&Hs&Hl&Ho).
  { intros i Hi. rewrite lookup_insert_ne by lia. replace (p + 1 + i) with (p + (i + 1)) by lia. apply Hw. lia. }
  exists memory'. split; [exact Hs|]. split.
  - cbn [ffi.load length]. rewrite Ho, lookup_insert_eq by lia. cbn. by rewrite Hl.
  - intros a Ha. rewrite Ho by lia. by rewrite lookup_insert_ne by lia.
Qed.

(** A string that ends inside the memory fits in it, so the search for its end ends. *)
Lemma load_fits memory p n bs : ffi.load memory p n = Some bs → (n ≤ size memory)%nat.
Proof.
  intros Hl. rewrite <- size_dom. assert (Hsub : list_to_set (seqZ p (Z.of_nat n)) ⊆ dom memory).
  { revert p bs Hl. induction n as [|n IH]; intros p bs Hl; [set_solver|]. cbn [ffi.load] in Hl.
    destruct (memory !! p) as [b|] eqn:Hb; [|done]. cbn in Hl.
    destruct (ffi.load memory (p + 1) n) as [rest|] eqn:Hr; [|done]. specialize (IH _ _ Hr).
    rewrite seqZ_cons by lia. replace (Z.succ p) with (p + 1) by lia. replace (Z.pred (Z.of_nat (S n))) with (Z.of_nat n) by lia.
    cbn [list_to_set]. apply union_subseteq. split; [|exact IH]. apply singleton_subseteq_l. by apply elem_of_dom_2 in Hb. }
  apply subseteq_size in Hsub. rewrite size_list_to_set in Hsub by apply NoDup_seqZ. rewrite length_seqZ in Hsub. lia.
Qed.

Lemma c_string_loaded memory p text fuel :
  ffi.load memory p (length text + 1) = Some (text ++ [Byte.x00]) → Byte.x00 ∉ text → (length text < fuel)%nat →
  ffi.c_string fuel memory p = Some text.
Proof.
  revert p fuel. induction text as [|b text IH]; intros p [|fuel] Hl Hz Hf; try (cbn in Hf; lia); cbn [ffi.load length Nat.add] in Hl; cbn [ffi.c_string].
  - destruct (memory !! p) as [b|]; [|done]. cbn in Hl. by simplify_eq.
  - apply not_elem_of_cons in Hz as [Hb Hz]. destruct (memory !! p) as [b'|]; [|done]. cbn in Hl.
    destruct (ffi.load memory (p + 1) (length text + 1)) as [rest|] eqn:Hr; [|done]. cbn in Hl. simplify_eq. cbn.
    rewrite bool_decide_false by congruence. rewrite (IH _ fuel Hr) by (cbn in Hf; done || lia). done.
Qed.

End Bytes.

Section Reading.
Context `{Crc32cLaws, Xxh3Laws, Alloc, HashTablesLaws, Placement, MmapAnon, HashIter, Process, PanicPayload}.
Implicit Types (m : Memory) (memory : gmap Z Byte.byte).

Lemma F_bind_ok {A B} (x : F A) (k : A → F B) m a m' : x m = (Returns a, m') → (x ≫= k) m = k a m'.
Proof. intros Hx. unfold mbind, F_bind. by rewrite Hx. Qed.

(** The arguments of a call that reads [key]. *)
Definition passes m (p n : Z) (key : bytes) : Prop :=
  n = blen key ∧ (n ≠ 0 → p ≠ 0 ∧ ffi.load (mem_bytes m) p (Z.to_nat n) = Some key).

Lemma input_bytes_passes m p n key name : passes m p n key → ffi.input_bytes p n name m = (Returns key, m).
Proof.
  intros (->&Hp). unfold ffi.input_bytes. destruct (Z.eqb_spec (blen key) 0) as [E|E].
  - apply Z.eq_le_incl in E. by apply blen_0 in E as ->.
  - destruct (Hp E) as [Hp0 Hl]. replace (p =? 0) with false by lia. unfold mbind, F_bind, ffi.get. by rewrite Hl.
Qed.

Lemma path_argument_reads m p path :
  p ≠ 0 → ffi.load (mem_bytes m) p (length path + 1) = Some (path ++ [Byte.x00]) → Byte.x00 ∉ path → ffi.utf8 path = true →
  ffi.path_argument p m = (Returns path, m).
Proof.
  intros Hp Hl Hz Hu. unfold ffi.path_argument. replace (p =? 0) with false by lia. unfold mbind, F_bind, ffi.get.
  rewrite (c_string_loaded _ _ path) by (done || apply load_fits in Hl; lia). by rewrite Hu.
Qed.

Lemma required_some {A} (objects : Memory → gmap Z A) m p a name :
  p ≠ 0 → objects m !! p = Some a → ffi.required objects p name m = (Returns a, m).
Proof.
  intros Hp Ha. unfold ffi.required. replace (p =? 0) with false by lia. unfold mbind, F_bind, ffi.get. by rewrite Ha.
Qed.

(** A pointer to an open handle whose lock is intact. *)
Definition points_to m (p : Z) (db : Database) : Prop :=
  p ≠ 0 ∧ ∃ ino, mem_databases m !! p = Some (MkLkvDatabase db ino false true).

Lemma required_database_points m p db : points_to m p db → ∃ d, ffi.required_database p m = (Returns d, m).
Proof.
  intros (Hp&ino&Hd). exists (MkLkvDatabase db ino false true). unfold ffi.required_database.
  by rewrite (F_bind_ok _ _ _ _ _ (required_some mem_databases m p _ "database" Hp Hd)).
Qed.

Lemma read_database_points {A} m p db (x : M Database A) r db' :
  points_to m p db → x db = (r, db') → ∃ m', points_to m' p db' ∧ ffi.read_database p x m = ffi.question r m'
    ∧ mem_last_error m' = mem_last_error m ∧ mem_bytes m' = mem_bytes m ∧ mem_sizes m' = mem_sizes m
    ∧ mem_batches m' = mem_batches m.
Proof.
  intros (Hp&ino&Hd) Hx. unfold ffi.read_database.
  rewrite (F_bind_ok _ _ _ _ _ (required_some mem_databases m p _ "database" Hp Hd)). cbn [ld_poisoned ld_inner]. rewrite Hx.
  eexists. split; [|split; [unfold mbind, F_bind, ffi.update; reflexivity|done]].
  split; [done|]. exists ino. cbn. by rewrite lookup_insert_eq.
Qed.

End Reading.

(** ** Calls within the contract

    A body that is run within the contract never reaches undefined behaviour, and when an
    argument that is required is [NULL] it ends with [LKV_INVALID_ARGUMENT]. *)

Section Contract.
Context `{Crc32c, Xxh3, Alloc, HashTables, Placement, MmapAnon, HashIter, Process, PanicPayload}.
Implicit Types (m : Memory) (null : Prop).

Definition defined {A} (x : F A) m : Prop := (x m).1 ≠ Undefined.

(** The body [x] while its arguments are being checked; [null] says that one is missing. *)
Definition checks null {A} (x : F A) m : Prop :=
  match (x m).1 with
  | Returns _ | Unwinds => ¬ null
  | Fails e => null → fe_status e = LKV_INVALID_ARGUMENT
  | Undefined => False
  end.

Lemma checks_defined null {A} (x : F A) m : ¬ null → defined x m → checks null x m.
Proof. intros Hn Hd. unfold checks, defined in *. by destruct (x m).1. Qed.

Lemma checks_update null {A} f (k : () → F A) m : checks null (k ()) (f m) → checks null (ffi.update f ≫= k) m.
Proof. done. Qed.

Lemma checks_required null {A B} (objects : Memory → gmap Z A) p name (k : A → F B) m :
  object_at objects m p → (∀ a, p ≠ 0 → objects m !! p = Some a → checks null (k a) m) →
  checks null (ffi.required objects p name ≫= k) m.
Proof.
  intros Hp Hk. unfold checks, ffi.required, mbind, F_bind. destruct (Z.eqb_spec p 0) as [E|E]; [done|].
  destruct Hp as [?|[a Ha]]; [done|]. unfold ffi.get. rewrite Ha. by apply Hk.
Qed.

Lemma checks_handle null {B} p (k : lkv_database → F B) m :
  handle_at m p → (∀ d, p ≠ 0 → mem_databases m !! p = Some d → checks null (k d) m) →
  checks null (ffi.required_database p ≫= k) m.
Proof.
  intros Hp Hk. unfold checks, ffi.required_database, ffi.required, mbind, F_bind. destruct (Z.eqb_spec p 0) as [E|E]; [done|].
  destruct Hp as [?|(d&Hd&Hl)]; [done|]. unfold ffi.get. rewrite Hd. cbn [mret F_ret]. rewrite Hl. by apply Hk.
Qed.

Lemma checks_snapshot null {B} p (k : lkv_snapshot → F B) m :
  snapshot_at m p → (∀ s, p ≠ 0 → is_Some (mem_databases m !! ls_database s) → checks null (k s) m) →
  checks null (ffi.required mem_snapshots p "snapshot" ≫= k) m.
Proof.
  intros [->|(s&Hs&Hd)] Hk; [done|]. apply checks_required; [right; by exists s|]. intros s' Hp Hs'.
  rewrite Hs in Hs'. injection Hs' as <-. by apply Hk.
Qed.

Lemma checks_options null {B} p (k : DatabaseOptions → F B) m :
  object_at mem_options m p → (∀ o, checks null (k o) m) →
  checks null (ffi.optional_options p ≫= λ o, ffi.decode_options o ≫= k) m.
Proof.
  intros Hp Hk. assert (Hd : ∀ o, checks null (ffi.decode_options o ≫= k) m).
  { intros [o|]; [|by apply Hk]. unfold checks, ffi.decode_options, mbind, F_bind.
    destruct (_ =? LKV_VERIFICATION_ON_READ); [apply Hk|]. destruct (_ =? LKV_VERIFICATION_FULL); [apply Hk|done]. }
  unfold checks, ffi.optional_options, mbind at 1, F_bind at 1. destruct (Z.eqb_spec p 0) as [E|E]; [apply (Hd None)|].
  destruct Hp as [?|[o Ho]]; [done|]. unfold ffi.get, mbind at 1, F_bind at 1. rewrite Ho. apply (Hd (Some o)).
Qed.

Lemma checks_input null {B} p n name (k : bytes → F B) m :
  input_at m p n → (∀ bs, 0 ∉ input_pointer p n → checks null (k bs) m) →
  checks null (ffi.input_bytes p n name ≫= k) m.
Proof.
  intros Hp Hk. unfold checks, ffi.input_bytes, mbind, F_bind, input_pointer in *.
  destruct (Z.eqb_spec n 0) as [En|En]; [apply Hk, not_elem_of_nil|].
  destruct (Z.eqb_spec p 0) as [E|E]; [done|]. destruct Hp as [?|[bs Hb]]; [done|]. unfold ffi.get. rewrite Hb.
  apply Hk. intros Hz. apply list_elem_of_singleton in Hz. congruence.
Qed.

Lemma checks_visitor null {B} v (k : _ → F B) m :
  (∀ visit, 0 ∉ visitor_pointer v → checks null (k visit) m) → checks null (ffi.required_visitor v ≫= k) m.
Proof. intros Hk. destruct v as [visit|]; [apply Hk, not_elem_of_nil|done]. Qed.

Lemma checks_path null {B} p (k : bytes → F B) m :
  path_at m p → (∀ path, p ≠ 0 → checks null (k path) m) → checks null (ffi.path_argument p ≫= k) m.
Proof.
  intros Hp Hk. unfold checks, ffi.path_argument, mbind, F_bind. destruct (Z.eqb_spec p 0) as [E|E]; [done|].
  destruct Hp as [?|(path&Hz&Hl)]; [done|]. unfold ffi.get.
  rewrite (c_string_loaded _ _ path) by (done || apply load_fits in Hl; lia). destruct (ffi.utf8 path); [by apply Hk|done].
Qed.

(** What follows the checks. *)
Lemma defined_bind {A B} (x : F A) (k : A → F B) m :
  defined x m → (∀ a, defined (k a) (x m).2) → defined (x ≫= k) m.
Proof. unfold defined, mbind, F_bind. intros Hx Hk. destruct (x m) as [[a|e| |] m']; [by apply Hk|done..]. Qed.
Lemma defined_ret {A} (a : A) m : defined (mret a) m.
Proof. done. Qed.
Lemma defined_get {A} (f : Memory → A) m : defined (ffi.get f) m.
Proof. done. Qed.
Lemma defined_update f m : defined (ffi.update f) m.
Proof. done. Qed.
Lemma defined_fail {A} e m : defined (A := A) (ffi.fail e) m.
Proof. done. Qed.
Lemma defined_question {A} (r : result A) m : defined (ffi.question r) m.
Proof. by destruct r. Qed.
Lemma defined_on_fs {A} (x : M Fs A) m : defined (ffi.on_fs x) m.
Proof. unfold defined, ffi.on_fs, mbind, F_bind, ffi.get, ffi.update. destruct (x (mem_fs m)) as [r s]. apply defined_question. Qed.

Lemma read_database_ends {A} p (x : M Database A) m :
  p ≠ 0 → is_Some (mem_databases m !! p) →
  defined (ffi.read_database p x) m ∧ mem_bytes (ffi.read_database p x m).2 = mem_bytes m.
Proof.
  intros Hp [d Hd]. unfold defined, ffi.read_database, ffi.required. replace (p =? 0) with false by lia.
  unfold mbind, F_bind, ffi.get. rewrite Hd. cbn [mret F_ret fst snd]. destruct (ld_poisoned d); [done|].
  destruct (x (ld_inner d)) as [[a|e|] db]; done.
Qed.
Lemma read_database_defined {A} p (x : M Database A) m :
  p ≠ 0 → is_Some (mem_databases m !! p) → defined (ffi.read_database p x) m.
Proof. intros. by apply read_database_ends. Qed.
Lemma write_database_defined {A} p (x : M Database A) m :
  p ≠ 0 → is_Some (mem_databases m !! p) → defined (ffi.write_database p x) m.
Proof.
  intros Hp [d Hd]. unfold defined, ffi.write_database, ffi.required. replace (p =? 0) with false by lia.
  unfold mbind, F_bind, ffi.get. rewrite Hd. cbn [mret F_ret fst snd]. destruct (ld_poisoned d); [done|].
  destruct (x (ld_inner d)) as [[a|e|] db]; done.
Qed.
Lemma on_snapshot_ends {A} s (x : M SegmentVerifier A) m :
  is_Some (mem_databases m !! ls_database s) →
  defined (ffi.on_snapshot s x) m ∧ mem_bytes (ffi.on_snapshot s x m).2 = mem_bytes m.
Proof.
  intros [d Hd]. unfold defined, ffi.on_snapshot, mbind, F_bind, ffi.get. rewrite Hd.
  destruct (database.on_base _ _) as [[a|e|] db]; done.
Qed.
Lemma on_snapshot_defined {A} s (x : M SegmentVerifier A) m :
  is_Some (mem_databases m !! ls_database s) → defined (ffi.on_snapshot s x) m.
Proof. intros. by apply on_snapshot_ends. Qed.

Lemma copy_value_defined value p n len m : buffer_at m p n → defined (ffi.copy_value value p n len) m.
Proof.
  intros Hb. unfold defined, ffi.copy_value, ffi.write_size. rewrite (F_bind_ok (ffi.update _) _ _ _ _ eq_refl).
  destruct (_ && _) eqn:E; [done|]. destruct value as [value|]; [|done].
  rewrite (F_bind_ok (ffi.update _) _ _ _ _ eq_refl). destruct (n <? blen value) eqn:En; [done|].
  case_bool_decide as Hv; [done|]. pose proof (blen_pos value Hv).
  assert (Hp0 : p ≠ 0) by (intros ->; revert E; replace (n =? 0) with false by lia; done).
  destruct Hb as [?|Hb]; [done|]. replace (p =? 0) with false by lia. cbn [negb assert ffi.question].
  unfold mbind, F_bind, ffi.get, mret, F_ret. destruct (store_spec (mem_bytes m) p value) as (memory&Hs&_&_); [intros i Hi; apply Hb; lia|].
  cbn [mem_bytes ffi.set_sizes]. by rewrite Hs.
Qed.

Lemma buffer_at_bytes m m' p n : buffer_at m p n → mem_bytes m' = mem_bytes m → buffer_at m' p n.
Proof. unfold buffer_at. by intros ? ->. Qed.

Lemma borrow_value_defined address value p len m : defined (ffi.borrow_value address value p len) m.
Proof.
  unfold ffi.borrow_value, ffi.write_pointer, ffi.write_size. apply defined_bind; [done|]. intros _. apply defined_bind; [done|].
  intros _. destruct value as [value|]; [|done]. apply defined_bind; [done|]. intros _. by case_bool_decide.
Qed.

End Contract.

#[local] Hint Resolve sound_required sound_input_bytes sound_required_database sound_read_database sound_write_database
  sound_on_snapshot sound_on_fs sound_decode_options sound_copy_value sound_borrow_value : sound.
#[local] Hint Resolve defined_ret defined_get defined_update defined_fail defined_question defined_on_fs borrow_value_defined : defined.

(** Steps through the checks of a function. *)
Ltac checking := repeat first
  [ apply checks_handle; [done|intros ???]
  | apply checks_snapshot; [done|intros ???] | apply checks_options; [done|intros ?]
  | apply checks_input; [done|intros ??] | apply checks_visitor; intros ??
  | apply checks_path; [done|intros ??] | apply checks_update
  | apply checks_required; [done|intros ???] ].

(** All required arguments are there, and the rest of the function is defined. *)
Ltac there :=
  repeat first [rewrite not_elem_of_cons | rewrite not_elem_of_app]; split_and?;
  first [assumption | apply not_elem_of_nil | congruence].
Ltac defining := repeat first
  [ progress cbn beta iota
  | apply read_database_defined; [done|eexists; eassumption] | apply write_database_defined; [done|eexists; eassumption]
  | apply on_snapshot_defined; assumption
  | apply copy_value_defined; eapply buffer_at_bytes;
    [eassumption|first [apply read_database_ends; [done|eexists; eassumption] | apply on_snapshot_ends; assumption]]
  | solve [eauto with defined] | apply defined_bind; [|intros ?] | case_match ].

Section Bodies.
Context `{Crc32c, Xxh3, Alloc, HashTables, Placement, MmapAnon, HashIter, Process, PanicPayload}.

(** Every function is a call of a sound body that checks its arguments. *)
Lemma run_body c : ∃ body, sound body ∧ (∀ m, run c m = ffi.ffi_call body m)
  ∧ ∀ m, valid c m → checks (0 ∈ required_pointers c) body m.
Proof.
  destruct c; (eexists; split; [|split; [intros m; reflexivity|cbn [valid required_pointers]; intros m Hv]]).
  all: try solve [
    unfold ffi.path_argument, ffi.optional_options, ffi.return_database, ffi.allocate, ffi.required_visitor,
      ffi.report_visited, ffi.write_size, ffi.write_pointer, ffi.write_batch; sound ].
  all: repeat match goal with H : _ ∧ _ |- _ => destruct H end.
  all: unfold ffi.write_size, ffi.write_pointer, ffi.write_batch.
  all: checking.
  all: try match goal with |- checks _ (if ?p =? 0 then _ else _) _ => destruct (p =? 0); [by apply checks_defined; [there|]|checking] end.
  all: try (apply checks_defined; [there|]).
  all: unfold ffi.return_database, ffi.allocate, ffi.report_visited, ffi.write_pointer.
  all: try solve [defining].
  match goal with Hd : is_Some _ |- _ => destruct Hd as [d Hd]; unfold defined, mbind, F_bind, ffi.get; by rewrite Hd end.
Qed.

End Bodies.

(** ** Committing a batch *)

Section Batches.
Context `{Crc32cLaws, Xxh3Laws, Alloc, HashTablesLaws, Placement, MmapAnon, HashIter, Process, PanicPayload}.
Implicit Types (m : Memory) (db : Database) (muts ops : list mutation).
Hypothesis Hres : ∀ n, try_reserve n = true.
Hypothesis Hmaps : tx_facts.maps_succeed.

Lemma KeyMap_insert_fresh muts k o : k ∉ muts.*1 → KeyMap.insert muts k o = muts ++ [(k, o)].
Proof.
  induction muts as [|[k' o'] muts IH]; intros Hk; [done|]. cbn in *. apply not_elem_of_cons in Hk as [Hne Hk].
  rewrite decide_False by done. by rewrite IH.
Qed.

(** Staging one operation: it is added, or refused with an error. *)
Lemma stage_one tx muts k o :
  tx_facts.tx_ok false tx muts → k ∉ muts.*1 →
  ∃ r tx', match o with Some v => transaction.put false k v | None => transaction.delete k end tx = (r, tx')
    ∧ (r = Ok () ∧ tx_facts.tx_ok false tx' (muts ++ [(k, o)]) ∨ ∃ e, r = Err e).
Proof using All.
  intros Htx Hk. destruct o as [v|].
  - destruct (tx_facts.put_spec false tx muts k v Htx Hres) as (r&tx'&Hr&Ho). exists r, tx'. split; [done|].
    cbn [tx_spec.step] in Ho. case_decide as Hfit; [left; by rewrite KeyMap_insert_fresh in Ho|right].
    unfold transaction.put in Hr. pose proof (blen_nonneg k). pose proof (blen_nonneg v).
    destruct (tx_facts.check_lengths_iff k v) as [(Hc&Hkl&Hvl)|([e Hc]&_)]; rewrite Hc in Hr; [|injection Hr as <- _; by exists e].
    rewrite M_lift_ok in Hr. unfold segment.MAX_KEY_SIZE, segment.MAX_VALUE_SIZE in Hkl, Hvl.
    destruct (tx_facts.check_single_put_size_iff (blen k) (blen v)) as [[_ Hs]|[[e He] _]]; [lia|lia| |].
    + destruct Hfit. unfold tx_spec.put_fits. by split_and!.
    + rewrite He in Hr. injection Hr as <- _. by exists e.
  - destruct (tx_facts.delete_spec false tx muts k Htx) as (r&tx'&Hr&Ho). exists r, tx'. split; [done|].
    cbn [tx_spec.step] in Ho. case_decide as Hfit; [left; by rewrite KeyMap_insert_fresh in Ho|right].
    unfold transaction.delete in Hr. destruct (tx_facts.check_lengths_iff k []) as [(_&Hkl&_)|([e Hc]&_)]; [done|].
    rewrite Hc in Hr. injection Hr as <- _. by exists e.
Qed.

Lemma stage_all_any ops tx muts :
  tx_facts.tx_ok false tx muts → NoDup (muts ++ ops).*1 →
  ∃ r tx', ffi.stage_all false ops tx = (r, tx')
    ∧ (r = Ok () ∧ tx_facts.tx_ok false tx' (muts ++ ops) ∨ ∃ e, r = Err e).
Proof using All.
  revert tx muts. induction ops as [|[k o] ops IH]; intros tx muts Htx Hnd.
  - exists (Ok ()), tx. split; [done|]. left. by rewrite app_nil_r.
  - assert (Hk : k ∉ muts.*1).
    { rewrite fmap_app in Hnd. apply NoDup_app in Hnd as (_&Hd&_). intros Hin. apply (Hd k Hin). by left. }
    destruct (stage_one tx muts k o Htx Hk) as (r&tx1&Hr&Ho).
    assert (Hst : ∃ rest, ffi.stage_all false ((k, o) :: ops) tx
      = (match o with Some v => transaction.put false k v | None => transaction.delete k end ≫= λ _, rest) tx
      ∧ rest = ffi.stage_all false ops) by (destruct o; by eexists).
    destruct Hst as (rest&->&->). destruct Ho as [[-> Htx1]|[e ->]].
    + rewrite (M_bind_ok _ _ _ _ _ Hr). replace (muts ++ (k, o) :: ops) with ((muts ++ [(k, o)]) ++ ops) in * by (by rewrite <- app_assoc).
      by apply IH.
    + rewrite (M_bind_err _ _ _ _ _ Hr). exists (Err e), tx1. split; [done|]. right. by exists e.
Qed.

(** What a transaction of distinct keys makes of a handle. *)
Lemma transact_any db f sb entries batches ops :
  handle_on db f sb entries batches → opt_max_database_bytes (db_options db) ≤ ISIZE_MAX → db_state db = Healthy → NoDup ops.*1 →
  ∃ r db', ffi.transact ops db = (r, db')
    ∧ (r = Ok () ∧ db_state db' = Healthy ∧ (∃ f', handle_on db' f' sb entries (committed batches ops))
       ∨ (∃ e, r = Err e) ∧ view_on db' entries (contents entries batches)).
Proof using All.
  intros Hh Hmax Hst Hnd. pose proof (handle_view _ _ _ _ _ Hh) as Hv. pose proof Hh as (Hsf&_).
  unfold ffi.transact, database.begin_write, database.ensure_writable. rewrite !M_bind_assoc.
  rewrite (M_bind_ok database.self _ db db db eq_refl), bool_decide_true, M_lift_ok by done.
  rewrite M_bind_assoc, (M_bind_ok database.self _ db db db eq_refl). cbv zeta.
  destruct (_ <? _) eqn:El.
  { eexists (Err _), db. split; [done|]. right. split; [by eexists|done]. }
  rewrite (M_bind_ok (mret _) _ db _ db eq_refl), (M_bind_ok database.self _ db db db eq_refl), Hsf. cbn [storage.is_memory].
  destruct (stage_all_any ops transaction.new [] (tx_facts.tx_ok_new false) Hnd) as (r&tx&Hs&Ho). rewrite Hs.
  destruct Ho as [[-> Htx]|[e ->]]; [|exists (Err e), db; split; [done|right; split; [by eexists|done]]].
  rewrite M_lift_ok. rewrite app_nil_l in Htx.
  destruct (commit_any db f sb entries batches tx ops Hh Htx Hmax) as (r&db'&Hr&Hc). exists r, db'. split; [exact Hr|].
  destruct Hc as [(->&->&->)|[(->&_&Hok&Hne&Hlen&s'&ov&Hp)|(e&->&_&[(s'&->&_)|(_&_&_&s'&p&->&_)])]].
  - left. split; [done|]. split; [done|]. by exists f.
  - left. split; [done|]. destruct (published_handle db f sb entries batches ops s' ov db' Hh Hok Hlen Hp) as (f'&Hh'&_).
    split; [by destruct Hp as (->&_)|]. exists f'. by destruct ops.
  - right. split; [by exists e|exact Hv].
  - right. split; [by exists e|exact Hv].
Qed.

Lemma write_database_points {A} m p db (x : M Database A) r db' :
  points_to m p db → x db = (r, db') → r ≠ Panic → ∃ m', points_to m' p db' ∧ ffi.write_database p x m = ffi.question r m'
    ∧ mem_last_error m' = mem_last_error m ∧ mem_batches m' = mem_batches m.
Proof.
  intros (Hp&ino&Hd) Hx Hr. unfold ffi.write_database.
  rewrite (F_bind_ok _ _ _ _ _ (required_some mem_databases m p _ "database" Hp Hd)). cbn [ld_poisoned ld_inner]. rewrite Hx.
  eexists. split; [|split; [unfold mbind, F_bind, ffi.update; reflexivity|done]].
  split; [done|]. exists ino. cbn. rewrite lookup_insert_eq. by destruct r.
Qed.

(** The iteration of a hash map decides every key as the map does. *)
Lemma hash_iter_get `{!HashIterLaws} (b : lkv_write_batch) :
  NoDup (hash_iter b).*1 ∧ ∀ key, KeyMap.get (hash_iter b) key = b !! key.
Proof.
  pose proof (hash_iter_all b) as Hp.
  assert (Hnd : NoDup (hash_iter b).*1) by (rewrite Hp; apply NoDup_fst_map_to_list).
  split; [done|]. intros key. rewrite KeyMap.get_list_to_map by done.
  by rewrite (list_to_map_proper _ _ Hnd Hp), list_to_map_to_list.
Qed.

End Batches.

(** ** Properties *)

Section Properties.
Context `{Crc32cLaws, Xxh3Laws, Alloc, HashTablesLaws, Placement, MmapAnon, HashIter, Process, PanicPayload}.
Implicit Types (m : Memory) (db : Database).

(** C26: every function of the C interface ends and reports how it ended. When the pointers
    of a call are as the header asks for, [NULL] or pointing to what they stand for, then
    whatever the library did, panics included, the call has a defined result: it returns a
    status of the header and leaves a zero-terminated message behind, which is empty when
    the status is an answer and no error. A call with [NULL] for a pointer that the function
    needs is answered with [LKV_INVALID_ARGUMENT] and never reads or writes through it. *)
Theorem calls_report c m :
  valid c m →
  ∃ status m', run c m = (Some status, m')
    ∧ c_string (mem_last_error m') ∧ status ∈ answer_codes ++ error_codes
    ∧ (status ∈ answer_codes → mem_last_error m' = [Byte.x00])
    ∧ (0 ∈ required_pointers c → status = LKV_INVALID_ARGUMENT).
Proof.
  intros Hv. destruct (run_body c) as (body&Hb&Hc&Hk). rewrite Hc. unfold ffi.ffi_call.
  specialize (Hk (snd (ffi.clear_last_error m)) Hv). unfold checks in Hk.
  set (m0 := snd (ffi.clear_last_error m)) in *. destruct (Hb m0) as [He Hf].
  assert (He0 : c_string [Byte.x00]) by (exists []; split; [done|apply not_elem_of_nil]).
  destruct (body m0) as [[[]|e| |] m1]; cbn [fst snd] in *; [| | |done]; (eexists _, _; split; [reflexivity|]).
  - rewrite He. split; [done|]. split; [unfold answer_codes; set_solver|]. by split.
  - destruct Hf as [[-> Hs]|[[message ->] Hs]].
    + rewrite He. split; [done|]. split; [set_solver|]. by split.
    + split; [apply escaped_c_string|]. split; [set_solver|]. split; [|exact Hk].
      intros Ha. by destruct (answer_not_error _ Ha).
  - assert (Hp : LKV_PANIC ∈ error_codes) by (unfold error_codes; set_solver).
    split; [apply escaped_c_string|]. split; [set_solver|]. split; [|done].
    intros Ha. by destruct (answer_not_error _ Ha).
Qed.

(** C25: [lkv_database_get] copies the value of the key. On a handle that stands for a map
    it answers for the map: with the value copied to the front of the buffer and no other
    byte touched when it fits, with nothing touched but the length when it does not, and
    with [LKV_NOT_FOUND] when the key has no value; the length is always the length of
    the value. *)
Theorem get_copies m d db f sb entries batches key key_p key_n value_p capacity len_p :
  points_to m d db → handle_on db f sb entries batches → db_state db ≠ Unavailable → passes m key_p key_n key →
  len_p ≠ 0 → is_Some (mem_sizes m !! len_p) → (value_p = 0 → capacity = 0) → writable (mem_bytes m) value_p capacity →
  ∃ status m' db', ffi.lkv_database_get d key_p key_n value_p capacity len_p m = (Some status, m')
    ∧ points_to m' d db' ∧ handle_on db' f sb entries batches ∧ mem_last_error m' = [Byte.x00]
    ∧ match contents entries batches !! key with
      | None => status = LKV_NOT_FOUND ∧ mem_sizes m' !! len_p = Some 0 ∧ mem_bytes m' = mem_bytes m
      | Some value => mem_sizes m' !! len_p = Some (blen value)
          ∧ if bool_decide (blen value ≤ capacity)
            then status = LKV_OK ∧ ffi.load (mem_bytes m') value_p (length value) = Some value
                 ∧ ∀ a, a < value_p ∨ value_p + blen value ≤ a → mem_bytes m' !! a = mem_bytes m !! a
            else status = LKV_BUFFER_TOO_SMALL ∧ mem_bytes m' = mem_bytes m
      end.
Proof.
  intros Hd Hh Hav Hk Hl0 [n Hl] Hv0 Hw. destruct (get_handle db f sb entries batches key Hh Hav) as (b'&Hg&Hh').
  unfold ffi.lkv_database_get, ffi.ffi_call. set (m0 := snd (ffi.clear_last_error m)).
  destruct (required_database_points m0 d db Hd) as [d0 Hd0]. rewrite (F_bind_ok _ _ _ _ _ Hd0).
  rewrite (F_bind_ok _ _ _ _ _ (input_bytes_passes m0 key_p key_n key "key" Hk)).
  rewrite (F_bind_ok _ _ _ _ _ (required_some mem_sizes m0 len_p n "value_len" Hl0 Hl)).
  destruct (read_database_points m0 d db _ _ _ Hd Hg) as (m1&Hd1&Hr1&He1&Hb1&_&_). rewrite (F_bind_ok _ _ _ _ _ Hr1).
  unfold ffi.copy_value, ffi.write_size. rewrite (F_bind_ok (ffi.update _) _ _ _ _ eq_refl).
  replace ((value_p =? 0) && negb (capacity =? 0)) with false.
  2:{ symmetry. destruct (Z.eqb_spec value_p 0) as [E|]; [|done]. by rewrite (Hv0 E). }
  destruct (contents entries batches !! key) as [value|].
  2:{ eexists _, _, _. split; [reflexivity|]. split; [exact Hd1|]. split; [exact Hh'|]. split; [exact He1|].
      split; [done|]. split; [apply lookup_insert_eq|exact Hb1]. }
  rewrite (F_bind_ok (ffi.update _) _ _ _ _ eq_refl). pose proof (blen_nonneg value).
  destruct (bool_decide (blen value ≤ capacity)) eqn:Hcap; [apply bool_decide_eq_true in Hcap|apply bool_decide_eq_false in Hcap].
  - replace (capacity <? blen value) with false by lia. destruct (store_spec (mem_bytes m1) value_p value) as (memory&Hs&Hload&Ho).
    { rewrite Hb1. intros i Hi. apply Hw. lia. }
    case_bool_decide as Hempty.
    + subst value. eexists _, _, _. split; [reflexivity|]. split; [exact Hd1|]. split; [exact Hh'|]. split; [exact He1|].
      split; [apply lookup_insert_eq|]. split; [done|]. split; [done|]. intros a _. cbn. by rewrite Hb1.
    + assert (Hv : value_p ≠ 0) by (intros E; rewrite (Hv0 E) in Hcap; apply Hempty, blen_0; exact Hcap).
      replace (value_p =? 0) with false by lia. cbn [negb assert]. rewrite (F_bind_ok (ffi.question (Ok ())) _ _ _ _ eq_refl).
      match goal with |- context [(_ ≫= _) ?mm] => set (m2 := mm) end.
      assert (Hst : ffi.get (λ m, ffi.store (mem_bytes m) value_p value) m2 = (Returns (Some memory), m2))
        by (unfold ffi.get; cbn; by rewrite Hs).
      rewrite (F_bind_ok _ _ _ _ _ Hst). eexists _, _, _. split; [reflexivity|]. split; [exact Hd1|]. split; [exact Hh'|].
      split; [exact He1|]. split; [apply lookup_insert_eq|]. split; [done|]. split; [exact Hload|].
      intros a Ha. cbn. rewrite Ho by done. by rewrite Hb1.
  - replace (capacity <? blen value) with true by lia. eexists _, _, _. split; [reflexivity|]. split; [exact Hd1|].
    split; [exact Hh'|]. split; [exact He1|]. split; [apply lookup_insert_eq|]. split; [done|exact Hb1].
Qed.

(** C13: a write batch is committed as a whole or kept. On a healthy handle, whichever
    system calls fail, [lkv_database_commit_write_batch] either returns [LKV_OK] with the
    batch empty again and exactly its keys changed as it says, or an error status with the
    batch and the map of the database as they were. *)
Theorem batch_commits `{!HashIterLaws} m d db f sb entries batches p b :
  points_to m d db → handle_on db f sb entries batches → db_state db = Healthy →
  opt_max_database_bytes (db_options db) ≤ ISIZE_MAX → (∀ n, try_reserve n = true) → tx_facts.maps_succeed →
  p ≠ 0 → mem_batches m !! p = Some b →
  ∃ status m' db', ffi.lkv_database_commit_write_batch d p m = (Some status, m') ∧ points_to m' d db'
    ∧ if bool_decide (status = LKV_OK)
      then mem_batches m' !! p = Some ∅ ∧ db_state db' = Healthy
           ∧ ∃ f' batches', handle_on db' f' sb entries batches'
               ∧ ∀ key, contents entries batches' !! key
                   = match b !! key with Some o => o | None => contents entries batches !! key end
      else status ∈ error_codes ∧ mem_batches m' !! p = Some b ∧ view_on db' entries (contents entries batches).
Proof.
  intros Hd Hh Hst Hmax Hres Hmaps Hp Hb. destruct (hash_iter_get b) as [Hnd Hget].
  destruct (transact_any Hres Hmaps db f sb entries batches (hash_iter b) Hh Hmax Hst Hnd) as (r&db'&Hr&Ho).
  unfold ffi.lkv_database_commit_write_batch, ffi.ffi_call. set (m0 := snd (ffi.clear_last_error m)).
  destruct (required_database_points m0 d db Hd) as [d0 Hd0]. rewrite (F_bind_ok _ _ _ _ _ Hd0).
  rewrite (F_bind_ok _ _ _ _ _ (required_some mem_batches m0 p b "batch" Hp Hb)).
  assert (Hnp : r ≠ Panic) by (by destruct Ho as [(->&_)|([e ->]&_)]).
  destruct (write_database_points m0 d db _ _ _ Hd Hr Hnp) as (m1&Hd1&Hw&_&Hb1).
  destruct Ho as [(->&Hst'&f'&Hh')|([e ->]&Hv)].
  - rewrite (F_bind_ok _ _ _ _ _ Hw). eexists _, _, db'. split; [reflexivity|]. split; [exact Hd1|].
    rewrite bool_decide_true by done. split; [apply lookup_insert_eq|]. split; [done|].
    exists f', (committed batches (hash_iter b)). split; [done|]. intros key.
    assert (Hne : NoDup entries.*1) by (destruct Hh as (_&_&Hbs&_); by eapply holds_NoDup).
    by rewrite contents_committed, apply_batch_lookup, Hget by done.
  - unfold mbind, F_bind. rewrite Hw. cbn [ffi.question ffi.fail]. eexists _, _, db'. split; [reflexivity|].
    assert (Hs : fe_status (ffi_error.from e) ∈ error_codes) by (destruct e; unfold error_codes; set_solver).
    split; [exact Hd1|]. rewrite bool_decide_false.
    + split; [exact Hs|]. split; [cbn; by rewrite Hb1|exact Hv].
    + intros E. rewrite E in Hs. revert Hs. apply answer_not_error. unfold answer_codes. set_solver.
Qed.

End Properties.

(** *** Concrete calls *)

Import RefInstances.
#[local] Instance demo_placement : Placement :=
  {| base_addr := 65536; place kv := (view.MkSlice 1 kv.1, view.MkSlice 2 kv.2) |}.
#[local] Instance demo_maps : MmapAnon := {| map_anon _ := Ok (); make_read_only _ := Ok () |}.
#[local] Instance demo_iter : HashIter := map_to_list.
#[local] Instance demo_iter_laws : HashIterLaws.
Proof. intros m. reflexivity. Qed.
#[local] Instance demo_process : Process := 42.
#[local] Instance demo_payload : PanicPayload := None.

(** A key at address 100, a buffer of [n] bytes at 200, a length at 300, a database at 16
    and a batch at 32 that deletes the key. *)
Definition demo_memory (n : nat) (db : Database) : Memory :=
  MkMemory [Byte.x00] (list_to_map ((100, Byte.x62) :: ((λ i, (200 + Z.of_nat i, Byte.xff)) <$> seq 0 n))) {[300 := 7]} ∅ ∅ ∅
    {[16 := MkLkvDatabase db None false true]} ∅ {[32 := {[[Byte.x62] := None]}]} 1000 (creation.demo_fs []) [].

(** A null pointer is reported. *)
Lemma calls_report_witness :
  ∃ m', run (DatabaseLen 0 300) (demo_memory 0 handle.demo_empty) = (Some LKV_INVALID_ARGUMENT, m')
    ∧ c_string (mem_last_error m').
Proof.
  destruct (calls_report (DatabaseLen 0 300) (demo_memory 0 handle.demo_empty)) as (status&m'&Hr&He&_&_&Hn).
  - split; [left; reflexivity|]. right. eexists. reflexivity.
  - exists m'. rewrite <- Hn by (left; reflexivity). split; [exact Hr|exact He].
Defined.

(** A value of three bytes in a buffer of four. *)
Lemma get_copies_witness :
  ∃ db m', ffi.lkv_database_get 16 100 1 200 4 300 (demo_memory 4 db) = (Some LKV_OK, m')
    ∧ ffi.load (mem_bytes m') 200 3 = Some [Byte.x01; Byte.x02; Byte.x03] ∧ mem_sizes m' !! 300 = Some 3.
Proof.
  destruct handle.demo_committed as (db&f&sb&Hh&_&Hst&_).
  destruct (get_copies (demo_memory 4 db) 16 db f sb [] [handle.demo_muts] [Byte.x62] 100 1 200 4 300)
    as (status&m'&db'&Hg&_&_&_&Hm).
  - split; [discriminate|]. exists None. reflexivity.
  - exact Hh.
  - rewrite Hst. discriminate.
  - split; [reflexivity|]. intros _. split; [discriminate|reflexivity].
  - discriminate.
  - eexists. reflexivity.
  - discriminate.
  - intros i Hi. assert (Hc : i = 0 ∨ i = 1 ∨ i = 2 ∨ i = 3) by lia.
    destruct Hc as [->|[->|[->| ->]]]; eexists; reflexivity.
  - replace (contents [] [handle.demo_muts] !! [Byte.x62]) with (Some [Byte.x01; Byte.x02; Byte.x03]) in Hm
      by (vm_compute; reflexivity).
    destruct Hm as [Hn Hm]. rewrite bool_decide_true in Hm by discriminate. destruct Hm as (->&Hl&_).
    exists db, m'. split; [exact Hg|]. split; [exact Hl|exact Hn].
Defined.

Lemma batch_commits_witness :
  ∃ db status m', ffi.lkv_database_commit_write_batch 16 32 (demo_memory 0 db) = (Some status, m')
    ∧ (status = LKV_OK → mem_batches m' !! 32 = Some ∅).
Proof.
  destruct handle.demo_committed as (db&f&sb&Hh&_&Hst&Hop&_).
  destruct (batch_commits (demo_memory 0 db) 16 db f sb [] [handle.demo_muts] 32 {[[Byte.x62] := None]})
    as (status&m'&db'&Hc&_&Ho).
  - split; [discriminate|]. exists None. reflexivity.
  - exact Hh.
  - exact Hst.
  - rewrite Hop. apply Z.le_refl.
  - reflexivity.
  - intros n. split; reflexivity.
  - discriminate.
  - reflexivity.
  - exists db, status, m'. split; [exact Hc|]. intros E. rewrite bool_decide_true in Ho by exact E. apply Ho.
Defined.

End interface.
