(* ===== verification/Conformance.v ===== *)
(** * The unit tests of the crate, run on the model

    The [#[cfg(test)] mod tests] of [superblock.rs], [log.rs], [view.rs], [state.rs] and
    [ffi.rs], translated statement by statement into computations on the definitions of
    this library. The byte strings the format tests expect were written by the crate
    itself, so they check the layout of the model and its CRC32C against the program; the
    tests of the C interface drive create, commit, snapshot, compaction and close through
    every layer. A test of values is evaluated, a test that involves addresses or threads
    is proved for every placement and every interleaving. *)

From S2P Require Import Prelude Errors Crates Io Superblock Values Log Segment Overlay Recovery View.
From S2P Require Import Base Storage Transaction Entries Database Maintenance Snapshot Creation Ffi Interface.

(** [Result::unwrap] and [Result::expect_err]. *)
Definition unwrap_result {A} (r : result A) : result A := match r with Ok a => Ok a | _ => Panic end.
Definition expect_err {A} (r : result A) : result Error := match r with Err e => Ok e | _ => Panic end.

(** ** [format/superblock.rs] *)

Module superblock_tests.

(** A reader whose [read] fails and whose seeks succeed; other seeks than absolute ones
    are [unreachable!], and nothing writes to it. *)
Inductive ReadFailure := MkReadFailure.

Definition read_failure : Stream ReadFailure := {|
  seek position := match position with Start offset => mret offset | _ => lift Panic end;
  write _ := lift Panic;
  read _ := lift (Err (error.from_io PermissionDenied "injected superblock read failure"))
|}.
#[export] Existing Instance read_failure.

Section Tests.
Context `{Crc32c}.

Definition non_eof_read_errors_are_propagated : result () :=
  error ← expect_err (superblock.read_latest_from superblock.DATA_START MkReadFailure).1;
  assert (bool_decide (error.kind error = PermissionDenied)).

Definition stable_header : bytes :=
  u8_of_Z <$>
  [0x4c; 0x4b; 0x56; 0x00; 0x00; 0x00; 0x00; 0x00; 0x01; 0x00; 0x00; 0x00; 0x48; 0x00;
   0x00; 0x00; 0x01; 0x00; 0x00; 0x00; 0x00; 0x00; 0x00; 0x00; 0x00; 0x20; 0x00; 0x00;
   0x00; 0x00; 0x00; 0x00; 0x40; 0x00; 0x00; 0x00; 0x00; 0x00; 0x00; 0x00; 0x08; 0x00;
   0x00; 0x00; 0x00; 0x00; 0x00; 0x00; 0x02; 0x00; 0x00; 0x00; 0x00; 0x00; 0x00; 0x00;
   0x40; 0x20; 0x00; 0x00; 0x00; 0x00; 0x00; 0x00; 0x07; 0x00; 0x00; 0x00; 0x7c; 0x03;
   0xc6; 0x1f].

Definition superblock_header_bytes_are_stable : result () :=
  let page := superblock.encode_page (MkSuperblock 1 8192 64 8 2 8256 7) in
  header ← index_range page 0 superblock.HEADER_SIZE;
  _ ← assert (bool_decide (header = stable_header));
  padding ← index_range page superblock.HEADER_SIZE (blen page);
  assert (forallb (λ byte, bool_decide (byte = Byte.x00)) padding).

End Tests.
End superblock_tests.

(** ** [format/log.rs] *)

(** A [Vec<u8>] as a writer: every write is taken whole. *)
#[export] Instance vec_writer : Writer bytes := λ bs, modify (λ vec, vec ++ bs).

Module log_tests.
Section Tests.
Context `{Crc32c}.

(** [write_batch_record], which only the tests call. *)
Definition write_batch_record {S} `{Writer S} (staged : KeyMap OverlayEntry) : M S () :=
  log.write_batch_record_inner staged None.

Definition stable_record_header : bytes :=
  u8_of_Z <$> [0x04; 0x00; 0x00; 0x00; 0x00; 0x04; 0x00; 0x00; 0x00; 0x1d; 0xc6; 0x0e; 0x5e; 0x7e; 0x79; 0x3c; 0x73].

Definition record_header_bytes_are_stable : result () :=
  let payload := u32_le 0 in
  let record_checksum := log.record_checksum Marker.Batch 0 (blen payload) payload in
  let '(written, header) := log.write_record_header Marker.Batch 0 (blen payload) record_checksum [] in
  _ ← unwrap_result written;
  assert (bool_decide (header = stable_record_header)).

Definition KEY : bytes := String.list_byte_of_string "key".
Definition VALUE : bytes := String.list_byte_of_string "a value large enough to exercise checksum combination".

Definition cached_value_checksum_preserves_batch_bytes : result () :=
  let staged := KeyMap.insert KeyMap.default KEY (OverlayEntry.Put (ValueBytes.Owned VALUE)) in
  let checksums := KeyMap.insert KeyMap.default KEY (crc32c VALUE) in
  let '(cached, cached_bytes) := log.write_batch_record_with_checksums staged checksums [] in
  _ ← unwrap_result cached;
  let '(uncached, uncached_bytes) := write_batch_record staged [] in
  _ ← unwrap_result uncached;
  assert (bool_decide (cached_bytes = uncached_bytes)).

End Tests.
End log_tests.

(** ** [database/view.rs] *)

Module view_tests.

Definition slice_of (a : view.Slice) (start end_ : Z) : result view.Slice :=
  bs ← index_range (view.slice_bytes a) start end_; Ok (view.MkSlice (view.slice_addr a + start) bs).

(** Two arrays on the stack, at any two addresses. *)
Definition pair_range_requires_both_slices_to_belong_to_the_mapping (mapping_addr foreign_addr : Z) : result () :=
  let mapping := view.MkSlice mapping_addr (replicate 16 Byte.x00) in
  let foreign := view.MkSlice foreign_addr (replicate 8 Byte.x00) in
  early ← slice_of mapping 2 5;
  late ← slice_of mapping 8 12;
  _ ← assert (bool_decide (view.pair_range mapping early late = Some (2, 12)));
  _ ← assert (bool_decide (view.pair_range mapping early foreign = None));
  _ ← assert (bool_decide (view.pair_range mapping foreign late = None));
  assert (bool_decide (view.pair_range mapping late early = None)).

(** [pair_range] on slices by their addresses. *)
Lemma pair_range_inside a (m k v : bytes) i j :
  0 ≤ i → i ≤ j + blen v → j + blen v ≤ blen m →
  view.pair_range (view.MkSlice a m) (view.MkSlice (a + i) k) (view.MkSlice (a + j) v) = Some (i, j + blen v).
Proof.
  intros. unfold view.pair_range. cbn [view.slice_addr view.slice_bytes].
  destruct (Z.leb_spec a (a + i)), (Z.leb_spec (a + i) (a + j + blen v)), (Z.leb_spec (a + j + blen v) (a + blen m));
    try lia. cbn. f_equal. f_equal; lia.
Qed.

Lemma pair_range_outside (m k v : view.Slice) :
  view.slice_addr k < view.slice_addr m
  ∨ view.slice_addr v + blen (view.slice_bytes v) < view.slice_addr k
  ∨ view.slice_addr m + blen (view.slice_bytes m) < view.slice_addr v + blen (view.slice_bytes v) →
  view.pair_range m k v = None.
Proof.
  intros. unfold view.pair_range. cbv zeta.
  repeat match goal with |- context [?x <=? ?y] => destruct (Z.leb_spec x y) end; done || lia.
Qed.

(** The test passes wherever the arrays are, as long as they do not overlap. *)
Lemma pair_range_test_passes mapping_addr foreign_addr :
  foreign_addr + 8 ≤ mapping_addr ∨ mapping_addr + 16 ≤ foreign_addr →
  pair_range_requires_both_slices_to_belong_to_the_mapping mapping_addr foreign_addr = Ok ().
Proof.
  intros Hd. unfold pair_range_requires_both_slices_to_belong_to_the_mapping, slice_of.
  change (index_range (view.slice_bytes (view.MkSlice mapping_addr (replicate 16 Byte.x00))) 2 5) with (Ok (replicate 3 Byte.x00)).
  change (index_range (view.slice_bytes (view.MkSlice mapping_addr (replicate 16 Byte.x00))) 8 12) with (Ok (replicate 4 Byte.x00)).
  rstep. cbn [view.slice_addr].
  rewrite (pair_range_inside _ _ _ _ 2 8) by (rewrite ?blen_replicate; lia). rewrite !blen_replicate. rstep.
  rewrite !pair_range_outside by (cbn [view.slice_addr view.slice_bytes]; rewrite !blen_replicate; lia). reflexivity.
Qed.

End view_tests.

(** ** [database/state.rs] *)

Module state_tests.
Section Tests.
Context `{Xxh3, HashTables}.

Definition OVERLAY_KEY : bytes := String.list_byte_of_string "overlay-key".
Definition OTHER_KEY : bytes := String.list_byte_of_string "other-key".

(** The assertion on the size of a [MappedRecord] has no counterpart here. *)
Definition overlay_map_uses_the_base_key_hash : result () :=
  let map := OverlayMap.memory in
  '(_, map) ← OverlayMap.set_memory map [] (OverlayEntry.Put (ValueBytes.Owned [Byte.x01]));
  '(_, map) ← OverlayMap.set_memory map OVERLAY_KEY (OverlayEntry.Put (ValueBytes.Owned [Byte.x02]));
  let check key expected :=
    let hash := xxh3_64 key in
    found ← OverlayMap.get map key;
    _ ← assert (bool_decide (found = Some (Some expected)));
    found ← OverlayMap.get_hashed map key hash;
    assert (bool_decide (found = Some (Some expected))) in
  _ ← check [] [Byte.x01];
  _ ← check OVERLAY_KEY [Byte.x02];
  let occupied_hash := xxh3_64 OVERLAY_KEY in
  found ← OverlayMap.get_hashed map OTHER_KEY occupied_hash;
  assert (bool_decide (found = None)).

End Tests.

(** The test passes with every hash function and every lawful table. *)
Section Passes.
Context `{Xxh3, HashTablesLaws}.

(** A lookup of an absent key finds nothing, whatever its hash. *)
Lemma get_hashed_absent log table M key hash :
  represents log (OverlayMap.Memory table) M → M !! key = None →
  OverlayMap.get_hashed (OverlayMap.Memory table) key hash = Ok None.
Proof.
  cbn [represents OverlayMap.get_hashed]. intros Hr Hn.
  destruct (ht_find_spec table hash (OverlayMap.owned_has_key key)) as ([x|]&->&Ho);
    [by eapply rep_eq_total; eauto with lkv| |done].
  destruct Ho as [Hx He]. unfold ht_iter in Hx. apply list_elem_of_fmap in Hx as ([h y]&->&Hin).
  destruct (rep_elem _ _ _ _ _ Hr Hin) as (k&v&Hv&_&Hk).
  cbn [snd] in He. rewrite (owned_eq_reads key _ _ _ Hv) in He. injection He as He. apply bool_decide_eq_true in He. congruence.
Qed.

Lemma overlay_map_test_passes : overlay_map_uses_the_base_key_hash = Ok ().
Proof.
  unfold overlay_map_uses_the_base_key_hash. unfold OverlayMap.memory.
  destruct (overlay_map_facts.set_memory_spec [] ht_new ∅ [] (OverlayEntry.Put (ValueBytes.Owned [Byte.x01])) (Some [Byte.x01]))
    as (p1&t1&->&Hr1&_); [apply rep_new|done|]. rstep.
  destruct (overlay_map_facts.set_memory_spec [] t1 (<[[]:=Some [Byte.x01]]> ∅) OVERLAY_KEY (OverlayEntry.Put (ValueBytes.Owned [Byte.x02]))
    (Some [Byte.x02])) as (p2&t2&->&Hr2&_); [done..|]. rstep.
  unfold OverlayMap.get. rewrite !(overlay_map_facts.get_hashed_spec _ _ _ _ Hr2).
  rewrite (get_hashed_absent _ _ _ _ _ Hr2) by reflexivity.
  rewrite (lookup_insert_ne _ OVERLAY_KEY []), !lookup_insert_eq by done. reflexivity.
Qed.

End Passes.
End state_tests.

(** ** The tests of the formats *)

Module format_tests_pass.
Import RefInstances.

Lemma superblock_tests_pass :
  superblock_tests.non_eof_read_errors_are_propagated = Ok ()
  ∧ superblock_tests.superblock_header_bytes_are_stable = Ok ().
Proof. split; vm_compute; reflexivity. Qed.

Lemma log_tests_pass :
  log_tests.record_header_bytes_are_stable = Ok ()
  ∧ log_tests.cached_value_checksum_preserves_batch_bytes = Ok ().
Proof. split; vm_compute; reflexivity. Qed.

End format_tests_pass.

(** ** [ffi.rs]

    A test is a computation on the memory of its thread. A failed assertion is a panic, and
    so is undefined behaviour, which no test has. *)

Module ffi_tests.
Section Tests.
Context `{Crc32c, Xxh3, Alloc, HashTables, Placement, MmapAnon, HashIter, Process, PanicPayload}.
(** Where the database keeps the bytes of a value it hands out. *)
Context (address : bytes → Z).

(** *** Locals of a test *)

(** [n] bytes of the stack, or of the constants of the program. *)
Definition place_local (n : Z) : M Memory Z :=
  p ← gets mem_next; _ ← modify (ffi.set_next (p + n)); mret p.

Fixpoint fill (p : Z) (bs : bytes) (memory : gmap Z Byte.byte) : gmap Z Byte.byte :=
  match bs with [] => memory | b :: bs => <[p := b]> (fill (p + 1) bs memory) end.
Definition buffer (bs : bytes) : M Memory Z :=
  p ← place_local (blen bs);
  _ ← modify (λ m, ffi.set_bytes (fill p bs (mem_bytes m)) m);
  mret p.
Definition literal (s : string) : M Memory Z := buffer (String.list_byte_of_string s).
Definition local_size (n : Z) : M Memory Z :=
  p ← place_local 8; _ ← modify (λ m, ffi.set_sizes (<[p := n]> (mem_sizes m)) m); mret p.
Definition local_pointer (q : Z) : M Memory Z :=
  p ← place_local 8; _ ← modify (λ m, ffi.set_pointers (<[p := q]> (mem_pointers m)) m); mret p.
Definition local_stats (s : lkv_database_stats) : M Memory Z :=
  p ← place_local 64; _ ← modify (λ m, ffi.set_stats (<[p := s]> (mem_stats m)) m); mret p.
Definition set_local_options (p : Z) (o : lkv_options) : M Memory () :=
  modify (λ m, ffi.set_options (<[p := o]> (mem_options m)) m).
Definition local_options (o : lkv_options) : M Memory Z :=
  p ← place_local 24; _ ← set_local_options p o; mret p.
Definition set_local_pointer (p q : Z) : M Memory () :=
  modify (λ m, ffi.set_pointers (<[p := q]> (mem_pointers m)) m).
Definition set_local_size (p n : Z) : M Memory () :=
  modify (λ m, ffi.set_sizes (<[p := n]> (mem_sizes m)) m).

Definition deref {A} (objects : Memory → gmap Z A) (p : Z) : M Memory A :=
  found ← gets (λ m, objects m !! p); lift (unwrap found).
Definition bytes_at (p n : Z) : M Memory bytes :=
  found ← gets (λ m, ffi.load (mem_bytes m) p (Z.to_nat n)); lift (unwrap found).

Definition null : Z := 0.
(** [ptr::dangling()] of a byte. *)
Definition dangling : Z := 1.
Definition usize_MAX : Z := U64 - 1.

(** *** Assertions *)

Definition check (c : bool) : M Memory () := lift (assert c).

(** [assert_eq!(call, status)]. *)
Definition assert_status (call : Memory → option Z * Memory) (status : Z) : M Memory () := λ m,
  let '(s, m) := call m in
  (code ← unwrap s; assert (code =? status), m).

(** [assert_eq!(slice::from_raw_parts(value, len), bs)] of a value the database lent: it
    lies at the address of its bytes. *)
Definition assert_lent (value len : Z) (bs : string) : M Memory () :=
  p ← deref mem_pointers value;
  n ← deref mem_sizes len;
  check ((p =? address (String.list_byte_of_string bs)) && (n =? blen (String.list_byte_of_string bs))).
Definition assert_pointer (slot : Z) (p : Z) : M Memory () :=
  q ← deref mem_pointers slot; check (q =? p).
Definition assert_size (slot : Z) (n : Z) : M Memory () :=
  k ← deref mem_sizes slot; check (k =? n).
Definition assert_bytes (p : Z) (bs : bytes) : M Memory () :=
  found ← bytes_at p (blen bs); check (bool_decide (found = bs)).

(** [temp_path]: the name the test chose, as a C string; [remove_database]. *)
Definition temp_path (path : bytes) : M Memory Z := buffer (path ++ [Byte.x00]).
Definition remove_database (path : bytes) : M Memory () := λ m,
  let '(r, s) := fs.try (fs.remove_file path) (mem_fs m) in
  (unwrap_result r, ffi.set_fs s m).

(** [count_entry] always goes on; the pairs it was called with are counted from the memory. *)
Definition count_entry : ffi.visitor := Some (λ _, 1).
Definition counted (visit : Memory → option Z * Memory) (n : Z) : M Memory () :=
  before ← gets (λ m, blen (mem_visited m));
  _ ← assert_status visit LKV_OK;
  after ← gets (λ m, blen (mem_visited m));
  check (after - before =? n).

(** The calls of a test on a key and a value, both literals. *)
Definition put_literal (database : Z) (key value : string) : M Memory () :=
  k ← literal key; v ← literal value;
  assert_status (ffi.lkv_database_put database k (blen (String.list_byte_of_string key))
                   v (blen (String.list_byte_of_string value))) LKV_OK.
Definition batch_put_literal (batch : Z) (key value : string) : M Memory () :=
  k ← literal key; v ← literal value;
  assert_status (ffi.lkv_write_batch_put batch k (blen (String.list_byte_of_string key))
                   v (blen (String.list_byte_of_string value))) LKV_OK.
Definition get_ref (database : Z) (key : string) (value len status : Z) : M Memory () :=
  k ← literal key;
  assert_status (ffi.lkv_database_get_ref address database k (blen (String.list_byte_of_string key)) value len) status.
Definition snapshot_get_ref (snapshot : Z) (key : string) (value len status : Z) : M Memory () :=
  k ← literal key;
  assert_status (ffi.lkv_snapshot_get_ref address snapshot k (blen (String.list_byte_of_string key)) value len) status.
Definition get_copy (database : Z) (key : string) (value capacity len status : Z) : M Memory () :=
  k ← literal key;
  assert_status (ffi.lkv_database_get database k (blen (String.list_byte_of_string key)) value capacity len) status.

(** *** The tests *)

Definition c_api_round_trip_batch_snapshot_and_maintenance (name : bytes) : M Memory () :=
  path ← temp_path name;
  database_slot ← local_pointer null;
  _ ← assert_status (ffi.lkv_database_create path null database_slot) LKV_OK;
  database ← deref mem_pointers database_slot;
  _ ← check (negb (database =? null));
  _ ← put_literal database "key" "old";
  _ ← put_literal database "gone" "soon";
  snapshot_slot ← local_pointer null;
  _ ← assert_status (ffi.lkv_snapshot_create database snapshot_slot) LKV_OK;
  snapshot ← deref mem_pointers snapshot_slot;
  _ ← counted (ffi.lkv_snapshot_visit snapshot count_entry) 2;
  batch_slot ← local_pointer null;
  _ ← assert_status (ffi.lkv_write_batch_create batch_slot) LKV_OK;
  batch ← deref mem_pointers batch_slot;
  _ ← batch_put_literal batch "key" "new";
  _ ← batch_put_literal batch "two" "value";
  gone ← literal "gone";
  _ ← assert_status (ffi.lkv_write_batch_delete batch gone 4) LKV_OK;
  _ ← assert_status (ffi.lkv_database_commit_write_batch database batch) LKV_OK;
  _ ← counted (ffi.lkv_database_visit database count_entry) 2;
  stats_slot ← local_stats (MkLkvStats 0 0 0 0 0 0 0 0);
  _ ← assert_status (ffi.lkv_database_get_stats database stats_slot) LKV_OK;
  stats ← deref mem_stats stats_slot;
  _ ← check (lst_base_entries stats =? 0);
  _ ← check (lst_overlay_entries stats =? 3);
  _ ← check (0 <? lst_overlay_log_bytes stats);
  value ← local_pointer null;
  value_len ← local_size 0;
  _ ← get_ref database "two" value value_len LKV_OK;
  _ ← assert_lent value value_len "value";
  old ← local_pointer null;
  old_len ← local_size 0;
  _ ← snapshot_get_ref snapshot "key" old old_len LKV_OK;
  _ ← assert_lent old old_len "old";
  _ ← assert_status (ffi.lkv_database_compact database) LKV_BUSY;
  _ ← assert_lent old old_len "old";
  _ ← assert_status (ffi.lkv_snapshot_close snapshot) LKV_OK;
  _ ← assert_status (ffi.lkv_database_compact database) LKV_OK;
  _ ← assert_status (ffi.lkv_database_get_stats database stats_slot) LKV_OK;
  stats ← deref mem_stats stats_slot;
  _ ← check (lst_base_entries stats =? 2);
  _ ← check (lst_overlay_entries stats =? 0);
  _ ← check (lst_stale_bytes stats =? 0);
  _ ← assert_status (ffi.lkv_database_verify database) LKV_OK;
  _ ← assert_status (ffi.lkv_write_batch_close batch) LKV_OK;
  _ ← assert_status (ffi.lkv_database_close database) LKV_OK;
  remove_database name.

Definition null_arguments_and_not_found_are_status_codes (name : bytes) : M Memory () :=
  options ← local_options (MkLkvOptions 99 0 0);
  _ ← assert_status (ffi.lkv_options_init options) LKV_OK;
  o ← deref mem_options options;
  _ ← check (lo_verification o =? LKV_VERIFICATION_ON_READ);
  _ ← assert_status (ffi.lkv_options_init null) LKV_INVALID_ARGUMENT;
  message ← gets ffi.lkv_last_error_message;
  _ ← check (negb (bool_decide (message = [Byte.x00])));
  _ ← assert_status (ffi.lkv_options_init options) LKV_OK;
  message ← gets ffi.lkv_last_error_message;
  _ ← check (bool_decide (message = [Byte.x00]));
  path ← temp_path name;
  database_slot ← local_pointer null;
  o ← deref mem_options options;
  _ ← set_local_options options (MkLkvOptions 99 (lo_overlay_memory_limit o) (lo_max_database_bytes o));
  _ ← assert_status (ffi.lkv_database_open path options database_slot) LKV_INVALID_ARGUMENT;
  _ ← assert_pointer database_slot null;
  _ ← assert_status (ffi.lkv_database_open path null database_slot) LKV_IO_ERROR;
  _ ← assert_pointer database_slot null;
  _ ← assert_status (ffi.lkv_database_create path null database_slot) LKV_OK;
  database ← deref mem_pointers database_slot;
  value ← local_pointer dangling;
  len ← local_size usize_MAX;
  _ ← get_ref database "missing" value len LKV_NOT_FOUND;
  _ ← assert_pointer value null;
  _ ← assert_size len 0;
  _ ← assert_status (ffi.lkv_database_close database) LKV_OK;
  remove_database name.

Definition memory_database_uses_the_same_c_api : M Memory () :=
  database_slot ← local_pointer null;
  _ ← assert_status (ffi.lkv_database_open_memory null database_slot) LKV_OK;
  database ← deref mem_pointers database_slot;
  _ ← put_literal database "key" "value";
  _ ← assert_status (ffi.lkv_database_sync database) LKV_OK;
  _ ← assert_status (ffi.lkv_database_compact database) LKV_OK;
  value ← local_pointer null;
  len ← local_size 0;
  _ ← get_ref database "key" value len LKV_OK;
  _ ← assert_lent value len "value";
  assert_status (ffi.lkv_database_close database) LKV_OK.

Definition zero_copy_gets_handle_missing_and_empty_values : M Memory () :=
  database_slot ← local_pointer null;
  _ ← assert_status (ffi.lkv_database_open_memory null database_slot) LKV_OK;
  database ← deref mem_pointers database_slot;
  empty ← literal "empty";
  _ ← assert_status (ffi.lkv_database_put database empty 5 null 0) LKV_OK;
  database_value ← local_pointer dangling;
  database_value_len ← local_size usize_MAX;
  _ ← get_ref database "empty" database_value database_value_len LKV_OK;
  _ ← assert_pointer database_value null;
  _ ← assert_size database_value_len 0;
  snapshot_slot ← local_pointer null;
  _ ← assert_status (ffi.lkv_snapshot_create database snapshot_slot) LKV_OK;
  snapshot ← deref mem_pointers snapshot_slot;
  value ← local_pointer dangling;
  value_len ← local_size usize_MAX;
  _ ← snapshot_get_ref snapshot "missing" value value_len LKV_NOT_FOUND;
  _ ← assert_pointer value null;
  _ ← assert_size value_len 0;
  _ ← set_local_pointer value dangling;
  _ ← set_local_size value_len usize_MAX;
  _ ← snapshot_get_ref snapshot "empty" value value_len LKV_OK;
  _ ← assert_pointer value null;
  _ ← assert_size value_len 0;
  _ ← assert_status (ffi.lkv_snapshot_close snapshot) LKV_OK;
  assert_status (ffi.lkv_database_close database) LKV_OK.

Definition copying_gets_report_required_size_without_partial_output : M Memory () :=
  database_slot ← local_pointer null;
  _ ← assert_status (ffi.lkv_database_open_memory null database_slot) LKV_OK;
  database ← deref mem_pointers database_slot;
  _ ← put_literal database "key" "value";
  empty ← literal "empty";
  _ ← assert_status (ffi.lkv_database_put database empty 5 null 0) LKV_OK;
  short ← buffer (replicate 3 Byte.xa5);
  len ← local_size 0;
  _ ← get_copy database "key" short 3 len LKV_BUFFER_TOO_SMALL;
  _ ← assert_size len 5;
  _ ← assert_bytes short (replicate 3 Byte.xa5);
  _ ← set_local_size len 0;
  _ ← get_copy database "key" null 0 len LKV_BUFFER_TOO_SMALL;
  _ ← assert_size len 5;
  value ← buffer (replicate 5 Byte.x00);
  _ ← get_copy database "key" value 5 len LKV_OK;
  _ ← assert_size len 5;
  _ ← assert_bytes value (String.list_byte_of_string "value");
  _ ← set_local_size len usize_MAX;
  _ ← get_copy database "missing" null 0 len LKV_NOT_FOUND;
  _ ← assert_size len 0;
  _ ← get_copy database "empty" null 0 len LKV_OK;
  _ ← assert_size len 0;
  snapshot_slot ← local_pointer null;
  _ ← assert_status (ffi.lkv_snapshot_create database snapshot_slot) LKV_OK;
  snapshot ← deref mem_pointers snapshot_slot;
  _ ← modify (λ m, ffi.set_bytes (fill value (replicate 5 Byte.x00) (mem_bytes m)) m);
  key ← literal "key";
  _ ← assert_status (ffi.lkv_snapshot_get snapshot key 3 value 5 len) LKV_OK;
  _ ← assert_bytes value (String.list_byte_of_string "value");
  _ ← assert_status (ffi.lkv_snapshot_close snapshot) LKV_OK;
  assert_status (ffi.lkv_database_close database) LKV_OK.

Definition c_api_create_refuses_an_existing_database (name : bytes) : M Memory () :=
  path ← temp_path name;
  database_slot ← local_pointer null;
  _ ← assert_status (ffi.lkv_database_create path null database_slot) LKV_OK;
  database ← deref mem_pointers database_slot;
  _ ← check (negb (database =? null));
  duplicate ← local_pointer null;
  _ ← assert_status (ffi.lkv_database_create path null duplicate) LKV_IO_ERROR;
  _ ← assert_pointer duplicate null;
  _ ← assert_status (ffi.lkv_database_close database) LKV_OK;
  reopened_slot ← local_pointer null;
  _ ← assert_status (ffi.lkv_database_open path null reopened_slot) LKV_OK;
  reopened ← deref mem_pointers reopened_slot;
  _ ← assert_status (ffi.lkv_database_close reopened) LKV_OK;
  remove_database name.

(** *** Four readers at once

    Each reader has output slots of its own. [open_readers] is the part before the threads
    start; [read_once] is one iteration of a reader, which takes the lock, reads and
    releases it; a schedule says which reader moves next; [join_readers] is what the
    threads assert at their end and what follows the joins. *)

Record Readers := MkReaders { rd_database : Z; rd_key : Z; rd_slots : list (Z * Z) }.

Fixpoint open_slots (n : nat) : M Memory (list (Z * Z)) :=
  match n with
  | O => mret []
  | S n => value ← local_pointer null; len ← local_size 0; rest ← open_slots n; mret ((value, len) :: rest)
  end.

Definition open_readers : M Memory Readers :=
  database_slot ← local_pointer null;
  _ ← assert_status (ffi.lkv_database_open_memory null database_slot) LKV_OK;
  database ← deref mem_pointers database_slot;
  _ ← put_literal database "key" "value";
  key ← literal "key";
  slots ← open_slots 4;
  mret (MkReaders database key slots).

Definition read_once (r : Readers) (reader : nat) : M Memory () :=
  '(value, len) ← lift (unwrap (rd_slots r !! reader));
  assert_status (ffi.lkv_database_get_ref address (rd_database r) (rd_key r) 3 value len) LKV_OK.

Fixpoint run_schedule (r : Readers) (schedule : list nat) : M Memory () :=
  match schedule with
  | [] => mret ()
  | reader :: schedule => _ ← read_once r reader; run_schedule r schedule
  end.

Fixpoint assert_all (slots : list (Z * Z)) : M Memory () :=
  match slots with
  | [] => mret ()
  | (value, len) :: slots => _ ← assert_lent value len "value"; assert_all slots
  end.
Definition join_readers (r : Readers) : M Memory () :=
  _ ← assert_all (rd_slots r);
  assert_status (ffi.lkv_database_close (rd_database r)) LKV_OK.

Definition database_handle_supports_parallel_reads (schedule : list nat) : M Memory () :=
  r ← open_readers; _ ← run_schedule r schedule; join_readers r.

End Tests.

(** *** The invariant of the readers *)

Section Parallel.
Context `{Crc32cLaws, Xxh3Laws, Alloc, HashTablesLaws, Placement, MmapAnon, HashIter, Process, PanicPayload}.
Context (address : bytes → Z) (r : Readers) (db : Database).

Definition READ_VALUE : bytes := String.list_byte_of_string "value".

(** The handle is open, the key is in memory, every reader has slots, and those of the
    readers in [done] hold the value. *)
Record reading (done : list nat) (m : Memory) : Prop := {
  reading_database : rd_database r ≠ 0 ∧ mem_databases m !! rd_database r = Some (MkLkvDatabase db None false true);
  reading_key : interface.passes m (rd_key r) 3 log_tests.KEY;
  reading_slots i value len : rd_slots r !! i = Some (value, len) →
    value ≠ 0 ∧ len ≠ 0 ∧ is_Some (mem_pointers m !! value) ∧ is_Some (mem_sizes m !! len)
    ∧ (i ∈ done → mem_pointers m !! value = Some (address READ_VALUE) ∧ mem_sizes m !! len = Some (blen READ_VALUE))
}.

Hypothesis Hget : database.get log_tests.KEY db = (Ok (Some READ_VALUE), db).

(** The memory after a read. *)
Definition after_read (value len : Z) (m : Memory) : Memory :=
  ffi.set_pointers (<[value := address READ_VALUE]> (<[value := 0]> (mem_pointers m)))
    (ffi.set_sizes (<[len := blen READ_VALUE]> (<[len := 0]> (mem_sizes m)))
      (ffi.set_databases (<[rd_database r := MkLkvDatabase db None false true]> (mem_databases m)) (ffi.set_last [Byte.x00] m))).

Lemma get_ref_reads done m i value len :
  reading done m → rd_slots r !! i = Some (value, len) →
  ffi.lkv_database_get_ref address (rd_database r) (rd_key r) 3 value len m = (Some LKV_OK, after_read value len m).
Proof using Hget.
  intros [[Hp Hd] Hk Hs] Hi. destruct (Hs i value len Hi) as (Hv0&Hl0&[q Hq]&[n Hn]&_).
  unfold ffi.lkv_database_get_ref, ffi.ffi_call. set (m0 := snd (ffi.clear_last_error m)).
  assert (Hrd : ffi.required_database (rd_database r) m0 = (Returns (MkLkvDatabase db None false true), m0)).
  { unfold ffi.required_database. by rewrite (interface.F_bind_ok _ _ _ _ _ (interface.required_some mem_databases m0 _ _ "database" Hp Hd)). }
  rewrite (interface.F_bind_ok _ _ _ _ _ Hrd).
  rewrite (interface.F_bind_ok _ _ _ _ _ (interface.input_bytes_passes m0 _ _ _ "key" Hk)).
  rewrite (interface.F_bind_ok _ _ _ _ _ (interface.required_some mem_pointers m0 value q "value" Hv0 Hq)).
  rewrite (interface.F_bind_ok _ _ _ _ _ (interface.required_some mem_sizes m0 len n "value_len" Hl0 Hn)).
  assert (Hread : ffi.read_database (rd_database r) (database.get log_tests.KEY) m0
    = (Returns (Some READ_VALUE), ffi.set_databases (<[rd_database r := MkLkvDatabase db None false true]> (mem_databases m0)) m0)).
  { unfold ffi.read_database. rewrite (interface.F_bind_ok _ _ _ _ _ (interface.required_some mem_databases m0 _ _ "database" Hp Hd)).
    cbn [ld_poisoned ld_inner ld_inode ld_live]. by rewrite Hget. }
  rewrite (interface.F_bind_ok _ _ _ _ _ Hread). reflexivity.
Qed.

Lemma read_once_keeps done m i :
  reading done m → (i < length (rd_slots r))%nat →
  ∃ m', read_once address r i m = (Ok (), m') ∧ reading (i :: done) m'.
Proof using Hget.
  intros Hr [[value len] Hi]%lookup_lt_is_Some_2. exists (after_read value len m). split.
  - unfold read_once. rewrite Hi. unfold mbind, M_bind, lift, unwrap, assert_status.
    by rewrite (get_ref_reads done m i value len Hr Hi).
  - destruct Hr as [[Hp Hd] Hk Hs]. split; [split; [done|apply lookup_insert_eq]|exact Hk|].
    intros j v l Hj. destruct (Hs j v l Hj) as (Hv0&Hl0&Hq&Hn&Hdone). split; [done|]. split; [done|]. cbn.
    rewrite !insert_insert_eq, !lookup_insert. split; [by case_decide|]. split; [by case_decide|].
    intros [->|Hin]%elem_of_cons.
    + rewrite Hi in Hj. injection Hj as <- <-. by rewrite !decide_True.
    + destruct (Hdone Hin) as [-> ->]. split; by case_decide.
Qed.

Lemma run_schedule_keeps schedule done m :
  Forall (λ i, i < length (rd_slots r))%nat schedule → reading done m →
  ∃ m', run_schedule address r schedule m = (Ok (), m') ∧ reading (reverse schedule ++ done) m'.
Proof using Hget.
  revert done m. induction schedule as [|i schedule IH]; intros done m Hs Hr; [by exists m|].
  apply Forall_cons in Hs as [Hi Hs]. destruct (read_once_keeps done m i Hr Hi) as (m1&Hx1&Hr1).
  destruct (IH (i :: done) m1 Hs Hr1) as (m'&Hx2&Hr2). exists m'. cbn [run_schedule].
  rewrite (M_bind_ok _ _ _ _ _ Hx1). split; [exact Hx2|]. by rewrite reverse_cons, <- app_assoc.
Qed.

(** When every reader has read, the threads and the end of the test pass. *)
Lemma join_readers_pass done m :
  reading done m → (∀ i, (i < length (rd_slots r))%nat → i ∈ done) → (join_readers address r m).1 = Ok ().
Proof.
  intros [[Hp Hd] _ Hs] Ha. unfold join_readers.
  assert (Hall : assert_all address (rd_slots r) m = (Ok (), m)).
  { assert (Hv : Forall (λ vl, mem_pointers m !! vl.1 = Some (address READ_VALUE) ∧ mem_sizes m !! vl.2 = Some (blen READ_VALUE)) (rd_slots r)).
    { apply Forall_lookup_2. intros i [v l] Hi. apply (Hs i v l Hi), Ha. by eapply lookup_lt_Some. }
    clear Hs Ha. induction Hv as [|[v l] slots [Hv Hl] _ IH]; [done|]. cbn [assert_all].
    assert (Hx1 : assert_lent address v l "value" m = (Ok (), m)).
    { unfold assert_lent, deref, check, gets, mbind, M_bind, lift. cbn in Hv, Hl. rewrite Hv. cbn [unwrap]. rewrite Hl.
      cbn [unwrap]. change (String.list_byte_of_string "value") with READ_VALUE. by rewrite !Z.eqb_refl. }
    by rewrite (M_bind_ok _ _ _ _ _ Hx1). }
  rewrite (M_bind_ok _ _ _ _ _ Hall). unfold assert_status, ffi.lkv_database_close, ffi.ffi_call.
  replace (rd_database r =? 0) with false by lia. set (m0 := snd (ffi.clear_last_error m)).
  assert (Hrd : ffi.required_database (rd_database r) m0 = (Returns (MkLkvDatabase db None false true), m0)).
  { unfold ffi.required_database. by rewrite (interface.F_bind_ok _ _ _ _ _ (interface.required_some mem_databases m0 _ _ "database" Hp Hd)). }
  rewrite (interface.F_bind_ok _ _ _ _ _ Hrd). reflexivity.
Qed.

End Parallel.

(** A statement of a test that passes. *)
Lemma test_bind `{HashTables} {A} (x : M Memory A) (f : A → M Memory ()) m a m' :
  x m = (Ok a, m') → (f a m').1 = Ok () → ((x ≫= f) m).1 = Ok ().
Proof. intros Hx Hf. by rewrite (M_bind_ok _ _ _ _ _ Hx). Qed.

(** *** They pass *)

Import RefInstances.
#[local] Instance demo_placement : Placement :=
  {| base_addr := 65536; place kv := (view.MkSlice 1 kv.1, view.MkSlice 2 kv.2) |}.
#[local] Instance demo_maps : MmapAnon := {| map_anon _ := Ok (); make_read_only _ := Ok () |}.
#[local] Instance demo_iter : HashIter := map_to_list.
#[local] Instance demo_process : Process := 42.
#[local] Instance demo_payload : PanicPayload := None.

(** Distinct addresses for the values of the tests. *)
Definition demo_address (bs : bytes) : Z := 1048576 + foldr (λ b n, Z_of_u8 b + 256 * n) 0 bs.
Definition demo_start : Memory := MkMemory [Byte.x00] ∅ ∅ ∅ ∅ ∅ ∅ ∅ ∅ 4096 (creation.demo_fs []) [].
Definition demo_name : bytes := String.list_byte_of_string "/tmp/lkv-c-test-42-0-0".

Lemma file_tests_pass :
  (c_api_round_trip_batch_snapshot_and_maintenance demo_address demo_name demo_start).1 = Ok ()
  ∧ (null_arguments_and_not_found_are_status_codes demo_address demo_name demo_start).1 = Ok ()
  ∧ (c_api_create_refuses_an_existing_database demo_name demo_start).1 = Ok ().
Proof. split_and!; vm_compute; reflexivity. Qed.

Lemma memory_tests_pass :
  (memory_database_uses_the_same_c_api demo_address demo_start).1 = Ok ()
  ∧ (zero_copy_gets_handle_missing_and_empty_values demo_address demo_start).1 = Ok ()
  ∧ (copying_gets_report_required_size_without_partial_output demo_start).1 = Ok ().
Proof. split_and!; vm_compute; reflexivity. Qed.

(** The readers, and the memory when the threads start. *)
Definition demo_readers : Readers := MkReaders 4104 4113 [(4116, 4124); (4132, 4140); (4148, 4156); (4164, 4172)].
Definition demo_opened : Memory := (open_readers demo_start).2.

Lemma open_readers_run : open_readers demo_start = (Ok demo_readers, demo_opened).
Proof. vm_compute. reflexivity. Qed.

Ltac demo_slot :=
  split; [discriminate|]; split; [discriminate|]; split; [eexists; vm_compute; reflexivity|];
  split; [eexists; vm_compute; reflexivity|]; intros Hin; by apply not_elem_of_nil in Hin.

Lemma demo_reading :
  ∃ db, reading demo_address demo_readers db [] demo_opened
    ∧ database.get log_tests.KEY db = (Ok (Some READ_VALUE), db).
Proof.
  eexists. split; [split|].
  - split; [discriminate|]. vm_compute. reflexivity.
  - split; [reflexivity|]. intros _. split; [discriminate|]. vm_compute. reflexivity.
  - intros i value len Hi. do 4 (destruct i as [|i]; [injection Hi as <- <-; demo_slot|]). discriminate Hi.
  - vm_compute. reflexivity.
Qed.

(** However the reads of the four threads interleave, every one of them succeeds and every
    thread ends with the value; the test lets each read a thousand times. *)
Lemma parallel_reads_pass schedule :
  Forall (λ i, i < 4)%nat schedule → (∀ i, (i < 4)%nat → i ∈ schedule) →
  (database_handle_supports_parallel_reads demo_address schedule demo_start).1 = Ok ().
Proof.
  intros Hs Ha. unfold database_handle_supports_parallel_reads.
  apply (test_bind _ _ _ _ _ open_readers_run). destruct demo_reading as (db&Hr&Hg).
  destruct (run_schedule_keeps demo_address demo_readers db Hg schedule [] demo_opened Hs Hr) as (m'&Hrun&Hr').
  apply (test_bind _ _ _ _ _ Hrun). apply (join_readers_pass demo_address demo_readers db _ m' Hr').
  intros i Hi. rewrite app_nil_r. apply elem_of_reverse. by apply Ha.
Qed.

End ffi_tests.
