(* ===== verification/Regression.v ===== *)
(** * The regression tests of the database, run on the model

    Tests of [database/tests] on a file system with one scratch directory, statement by
    statement: a scope that opens a database, works with it and drops it is [with_open], a
    descriptor that damages the file is [scratch.with_descriptor], an [Err] that a test
    passes on with [?] fails it, and so does an assertion. What is left out are the tests
    that start threads or processes, compare addresses, move values of many kilobytes,
    repeat a workload with random numbers, or loop over every byte of a record; what the
    loops check the theorems of [Recovery] and [Handle] show for all cuts and failures. *)

From S2P Require Import Prelude Errors Crates Io Superblock Values Log Segment Overlay Recovery View.
From S2P Require Import Base Storage Transaction Entries Database Maintenance Snapshot Creation Scratch Ffi Conformance.
Import scratch.

Module regression.

(** [FailAfter]: a writer over the storage that takes [fa_remaining] more bytes. It is only
    written to. *)
Record FailAfter := MkFailAfter { fa_file : Storage; fa_remaining : Z }.

Definition fail_after_write `{Alloc} (bs : bytes) : M FailAfter Z := λ w,
  if fa_remaining w =? 0 then (Ok 0, w) else
  match index_range bs 0 (Z.min (blen bs) (fa_remaining w)) with
  | Ok taken =>
      let '(r, s) := write taken (fa_file w) in
      match r with
      | Ok written => (Ok written, MkFailAfter s (fa_remaining w - written))
      | Err e => (Err e, MkFailAfter s (fa_remaining w))
      | Panic => (Panic, MkFailAfter s (fa_remaining w))
      end
  | _ => (Panic, w)
  end.
#[export] Instance fail_after_stream `{Alloc} : Stream FailAfter := {|
  seek _ := lift Panic; write := fail_after_write; read _ := lift Panic
|}.

Section Tests.
Context `{Crc32c, Xxh3, Alloc, HashTables, Placement, MmapAnon, Process}.
(** The directory of the test. *)
Context (root : bytes).

Abbreviation DATA_START := superblock.DATA_START.

(** ** [tests/mod.rs] *)

Definition path_of_test : bytes := join root (text "database.lkv").

Definition temp_path : M Scratch () := expect (create_dir root).

Definition with_open {A} (o : DatabaseOptions) (x : M Database A) : M Scratch A :=
  on_fs ('(ino, db) ← creation.open_with_options path_of_test o;
         let '(r, db) := x db in
         _ ← creation.drop_database ino db;
         lift r).
Definition opened {A} (x : M Database A) : M Scratch A := with_open options.default x.

Definition temp_dir : M Scratch () :=
  _ ← temp_path;
  on_fs ('(ino, db) ← expect (creation.create path_of_test); creation.drop_database ino db).

Definition remove_test_database : M Scratch () :=
  parent ← lift (match path.parent path_of_test with
                 | Some parent => Ok parent
                 | None => Err (error.other "test database has no parent directory")
                 end);
  remove_dir_all parent.

(** [DatabaseTestExt]. *)
Definition put (key value : bytes) : M Database () :=
  tx ← database.begin_write;
  db ← database.self;
  let '(r, tx) := transaction.put (storage.is_memory (db_storage db)) key value tx in
  _ ← lift r;
  database.commit tx.
Definition delete (key : bytes) : M Database () :=
  tx ← database.begin_write;
  let '(r, tx) := transaction.delete key tx in
  _ ← lift r;
  database.commit tx.

(** What the tests write to a file behind the back of the database; every descriptor syncs
    the file before it is closed, also where a test does not ask for it. *)
Definition damage {A} (x : M File A) : M Scratch A := on_fs (with_descriptor path_of_test (a ← x; _ ← file.sync; mret a)).
Definition file_len : M Scratch Z := on_fs (metadata_len path_of_test).
Definition overwrite (offset : Z) (bs : bytes) : M Scratch () := damage (_ ← seek (Start offset); write_all bs).
Definition append (bs : bytes) : M Scratch () := damage (_ ← seek (End_ 0); write_all bs).
Definition flip (offset mask : Z) : M Scratch () := damage (
  _ ← seek (Start offset);
  byte ← read_exact 1;
  _ ← seek (Start offset);
  write_all ((λ b, u8_of_Z (Z.lxor (Z_of_u8 b) mask)) <$> byte)).

(** The error of a call that must fail. *)
Definition error_of {S A} (x : M S A) : M S Error :=
  catch x (λ r, match r with Err e => mret e | _ => lift Panic end).
Definition fails_with {S A} (x : M S A) (k : ErrorKind) : M S () :=
  e ← error_of x; assert_that (bool_decide (error.kind e = k)).
Definition reads (key : bytes) (value : option bytes) : M Database () :=
  found ← database.get key; assert_that (bool_decide (found = value)).
Definition storage_len : M Database Z := database.on_storage storage.len.
Definition on_tx {A} (tx : WriteTransaction) (x : M WriteTransaction A) : M Database (A * WriteTransaction) :=
  let '(r, tx) := x tx in a ← lift r; mret (a, tx).

Definition is_full (e : Error) : bool := match e with DatabaseFull _ => true | _ => false end.
Definition is_maintenance (e : Error) : bool := match e with MaintenanceRequired _ _ => true | _ => false end.
Definition is_poisoned (e : Error) : bool := match e with Poisoned => true | _ => false end.
Definition is_corrupted (e : Error) : bool := match e with Corrupted _ => true | _ => false end.
Definition is_unsupported (e : Error) : bool := match e with UnsupportedError _ => true | _ => false end.
Definition is_open (e : Error) : bool := match e with DatabaseAlreadyOpen _ => true | _ => false end.

(** ** [tests/limits.rs] *)

Definition database_size_limit_rejects_append_before_mutation : M Scratch () :=
  _ ← temp_dir;
  n ← opened storage_len;
  _ ← with_open (options.with_max_database_bytes options.default n) (
        before ← storage_len;
        e ← error_of (put (text "key") (text "value"));
        _ ← assert_that (is_full e);
        after ← storage_len;
        assert_that (after =? before));
  remove_test_database.

Definition in_memory {A} (o : DatabaseOptions) (x : M Database A) : result A :=
  db ← database.memory_with_options o; (x db).1.

Definition memory_database_size_limit_rejects_append_before_mutation : result () :=
  initial_len ← in_memory options.default storage_len;
  in_memory (options.with_max_database_bytes options.default initial_len) (
    e ← error_of (put (text "key") (text "value"));
    _ ← assert_that (is_full e);
    after ← storage_len;
    _ ← assert_that (after =? initial_len);
    empty ← database.is_empty;
    assert_that empty).

Definition overlay_limit_stops_writes_without_running_maintenance : M Scratch () :=
  _ ← temp_dir;
  n ← opened storage_len;
  _ ← with_open (options.with_max_database_bytes (options.with_overlay_memory_limit options.default 0) (n + 64)) (
        _ ← put (text "key") (text "value");
        _ ← reads (text "key") (Some (text "value"));
        before ← storage_len;
        e ← error_of database.begin_write;
        _ ← assert_that (is_maintenance e);
        after ← storage_len;
        _ ← assert_that (after =? before);
        _ ← reads (text "key") (Some (text "value"));
        e ← error_of maintenance.compact;
        assert_that (is_full e));
  _ ← opened (reads (text "key") (Some (text "value")));
  remove_test_database.

Definition malformed_sizes_fail_without_panicking_or_allocating : result () :=
  let header slots len := text "HASH" ++ u32_le BASE_HEADER ++ u64_le slots ++ u64_le len in
  e ← expect_err (segment.read_base_header (header (U64 - 1) 0));
  _ ← assert (bool_decide (error.kind e = InvalidData));
  '(slots, len) ← segment.read_base_header (header 0 (U64 - 1));
  e ← expect_err (segment.validate_base (header 0 (U64 - 1)) DATA_START slots len);
  assert (bool_decide (error.kind e = InvalidData)).

Definition maximal_truncated_overlay_record_is_discarded_before_allocation : M Scratch () :=
  _ ← temp_dir;
  offset ← opened storage_len;
  _ ← damage (_ ← seek (Start offset); log.write_record_header Marker.Batch 0 (U32 - 1) 0);
  _ ← opened (
        after ← storage_len;
        _ ← assert_that (after =? offset);
        empty ← database.is_empty;
        assert_that empty);
  remove_test_database.

(** The callback must not run: it would end the test. *)
Definition reserved_value_that_cannot_fit_a_batch_is_rejected_before_allocation : result () :=
  in_memory options.default (
    tx ← database.begin_write;
    let '(r, tx) := transaction.put_reserved true (text "key") (U32 - 1) (reserved.Return Panic) tx in
    e ← lift (expect_err r);
    _ ← assert_that (bool_decide (error.kind e = InvalidInput));
    assert_that (transaction.is_empty tx)).

(** ** [tests/maintenance.rs] *)

Definition compact_leaves_redundant_superblocks : M Scratch () :=
  let round damaged_offset :=
    _ ← temp_dir;
    _ ← opened (_ ← put (text "key") (text "value"); maintenance.compact);
    _ ← overwrite damaged_offset (replicate (Z.to_nat superblock.HEADER_SIZE) Byte.x00);
    _ ← opened (reads (text "key") (Some (text "value")));
    remove_test_database in
  _ ← round 0; round superblock.SUPERBLOCK_SIZE.

Definition compact_requires_snapshots_to_be_dropped : M Scratch () :=
  _ ← temp_dir;
  _ ← opened (
        _ ← put (text "key") (text "value");
        _ ← snapshot.take;
        _ ← fails_with maintenance.compact WouldBlock;
        _ ← reads (text "key") (Some (text "value"));
        _ ← snapshot.drop;
        _ ← maintenance.compact;
        _ ← reads (text "key") (Some (text "value"));
        db ← database.self;
        _ ← assert_that (match ab_mapping (db_base db) with BaseBytes.Mapped _ => true | _ => false end);
        assert_that (negb (storage.is_memory (db_storage db))));
  remove_test_database.

(** [db.base.checksum ^= 1], and back. *)
Definition set_base_checksum (f : Z → Z) : M Database () := database.on_base (modify (λ b : ActiveBase,
  MkBase (ab_mapping b) (ab_verifier b) (ab_offset b) (f (ab_checksum b)) (ab_slots b) (ab_len b)
    (ab_generation b) (ab_log_start b))).

Definition compact_rejects_snapshots_before_verifying_the_base : M Scratch () :=
  _ ← temp_dir;
  _ ← opened (
        _ ← snapshot.take;
        db ← database.self;
        let checksum := ab_checksum (db_base db) in
        _ ← set_base_checksum (λ c, Z.lxor c 1);
        _ ← fails_with maintenance.compact WouldBlock;
        _ ← set_base_checksum (λ _, checksum);
        snapshot.drop);
  remove_test_database.

Definition compact_is_a_no_op_for_an_already_compact_database : M Scratch () :=
  _ ← temp_dir;
  _ ← opened (
        _ ← put (text "key") (text "value");
        _ ← maintenance.compact;
        before ← database.self;
        before_len ← storage_len;
        _ ← maintenance.compact;
        after ← database.self;
        _ ← assert_that (ab_generation (db_base after) =? ab_generation (db_base before));
        after_len ← storage_len;
        _ ← assert_that (after_len =? before_len);
        reads (text "key") (Some (text "value")));
  remove_test_database.

Definition mappings_exclude_metadata_and_overlay : M Scratch () :=
  _ ← temp_dir;
  _ ← opened (
        _ ← put (text "stable") (text "old");
        _ ← maintenance.compact;
        _ ← snapshot.take;
        _ ← put (text "overlay-only") (text "new");
        db ← database.self;
        mapping ← lift (BaseBytes.deref (ab_mapping (db_base db)));
        n ← storage_len;
        _ ← assert_that (blen mapping <? n);
        _ ← snapshot.drop;
        _ ← maintenance.compact;
        reads (text "overlay-only") (Some (text "new")));
  remove_test_database.

Definition failed_published_base_install_poisons_the_handle : M Scratch () :=
  _ ← temp_dir;
  _ ← opened (
        let injected := error.from_io OtherKind "injected base install failure" in
        _ ← fails_with (database.finish_superblock_install (Err injected)) OtherKind;
        n ← database.len;
        _ ← assert_that (n =? 0);
        e ← error_of database.begin_write;
        assert_that (is_poisoned e));
  remove_test_database.

(** Without the assertions that compare the addresses of the Base. *)
Definition stats_describe_active_storage_without_scanning : result () :=
  in_memory options.default (
    initial ← database.stats;
    _ ← assert_that (stats_generation initial =? 1);
    _ ← assert_that (base_entries initial =? 0);
    _ ← assert_that (overlay_entries initial =? 0);
    _ ← assert_that (overlay_log_bytes initial =? 0);
    _ ← assert_that (stale_bytes initial =? 0);
    _ ← assert_that (0 <? base_bytes initial);
    _ ← assert_that (storage_bytes initial =? DATA_START + base_bytes initial);
    _ ← put (text "live") (text "value");
    _ ← put (text "deleted") (text "value");
    _ ← delete (text "deleted");
    overlay ← database.stats;
    _ ← assert_that (base_entries overlay =? 0);
    _ ← assert_that (overlay_entries overlay =? 2);
    _ ← assert_that (0 <? overlay_log_bytes overlay);
    db ← database.self;
    _ ← assert_that (overlay_memory_bytes overlay =? OverlayState.memory (db_overlay db));
    _ ← maintenance.compact;
    compacted ← database.stats;
    _ ← assert_that (stats_generation compacted =? 2);
    _ ← assert_that (base_entries compacted =? 1);
    _ ← assert_that (overlay_entries compacted =? 0);
    _ ← assert_that (overlay_log_bytes compacted =? 0);
    _ ← assert_that (stale_bytes compacted =? 0);
    assert_that (storage_bytes compacted =? DATA_START + base_bytes compacted)).

(** ** [tests/verification.rs] *)

(** How several tests begin: one record in a Base, and the offset of the record. *)
Definition compacted_pair : M Scratch Z :=
  _ ← temp_dir;
  opened (
    _ ← put (text "key") (text "value");
    _ ← maintenance.compact;
    db ← database.self;
    mret (ab_offset (db_base db) + BASE_HEADER + ab_slots (db_base db) * segment.SLOT_SIZE)).

Definition rejects_corrupt_base_lengths : M Scratch () :=
  record_offset ← compacted_pair;
  _ ← overwrite (record_offset + 4) (u32_le (U32 - 1));
  _ ← fails_with (with_open (options.with_verification options.default Full) (mret ())) InvalidData;
  remove_test_database.

Definition on_read_defers_bad_record_bounds_and_iteration_returns_error : M Scratch () :=
  record_offset ← compacted_pair;
  _ ← overwrite (record_offset + 4) (u32_le (U32 - 1));
  _ ← opened (
        db ← database.self;
        r ← lift (database.iter_raw db);
        database.on_base (active_base.with_verifier (snapshot.consume (
          first ← raw_entries.entries_next;
          _ ← match first with
              | Some (Err e) => assert_that (bool_decide (error.kind e = InvalidData))
              | _ => lift Panic
              end;
          second ← raw_entries.entries_next;
          match second with None => mret () | Some _ => lift Panic end) r)));
  remove_test_database.

Definition base_trusted : M Database bool :=
  db ← database.self; r ← lift (database.iter_raw db); mret (re_base_trusted r).

Definition semantic_verification_enables_only_the_trusted_iterator_path : M Scratch () :=
  _ ← temp_dir;
  _ ← opened (
        _ ← put (text "key") (text "value");
        _ ← maintenance.compact;
        trusted ← base_trusted;
        assert_that trusted);
  _ ← opened (
        trusted ← base_trusted;
        _ ← assert_that (negb trusted);
        _ ← database.verify;
        trusted ← base_trusted;
        assert_that trusted);
  remove_test_database.

Definition rejects_base_value_corruption : M Scratch () :=
  record_offset ← compacted_pair;
  _ ← flip (record_offset + 8 + 3) 0xff;
  _ ← opened (fails_with (database.get (text "key")) InvalidData);
  remove_test_database.

Definition on_read_open_still_rejects_checksum_metadata_corruption : M Scratch () :=
  _ ← temp_dir;
  checksum_table_offset ← opened (
        _ ← put (text "key") (text "value");
        _ ← maintenance.compact;
        db ← database.self;
        mret (ab_offset (db_base db) + v_data_size (ab_verifier (db_base db))));
  _ ← overwrite checksum_table_offset (u32_le 0);
  e ← error_of (opened (mret ()));
  _ ← assert_that (is_corrupted e);
  remove_test_database.

Definition map_segment_rejects_ranges_beyond_the_file : M Scratch () :=
  _ ← temp_dir;
  _ ← opened (
        db ← database.self;
        f ← lift (match db_storage db with SFile f => Ok f | SMemory _ => Panic end);
        e ← lift (expect_err (segment.map (blen (file_content f)) 1 f).1);
        assert_that (bool_decide (error.kind e = InvalidData)));
  remove_test_database.

Definition unknown_format_version_is_reported_as_unsupported : M Scratch () :=
  _ ← temp_dir;
  original_len ← damage (
        _ ← seek (Start superblock.SUPERBLOCK_SIZE);
        newer ← read_exact superblock.SUPERBLOCK_SIZE;
        let newer := splice (splice newer 8 (u32_le (superblock.FORMAT_VERSION + 1))) 16 (u64_le 2) in
        let checksum_offset := superblock.HEADER_SIZE - 4 in
        covered ← lift (index_range newer 0 checksum_offset);
        let newer := splice newer checksum_offset (u32_le (crc32c covered)) in
        _ ← seek (Start 0);
        _ ← write_all newer;
        _ ← seek (End_ 0);
        _ ← write_all [Byte.x01; Byte.x02; Byte.x03];
        file.len);
  e ← error_of (opened (mret ()));
  _ ← assert_that (is_unsupported e);
  n ← file_len;
  _ ← assert_that (n =? original_len);
  remove_test_database.

(** ** [tests/transactions.rs] *)

Definition write_read_delete_reopen_and_compact : M Scratch () :=
  _ ← temp_dir;
  _ ← opened (
        _ ← put (text "one") (text "1");
        _ ← put (text "two") (text "2");
        _ ← put (text "one") (text "updated");
        _ ← delete (text "two");
        _ ← reads (text "one") (Some (text "updated"));
        _ ← reads (text "two") None;
        n ← database.len;
        _ ← assert_that (n =? 1);
        entries ← database.iter;
        _ ← assert_that (bool_decide (entries = [(text "one", text "updated")]));
        database.sync);
  _ ← opened (
        _ ← reads (text "one") (Some (text "updated"));
        _ ← maintenance.compact;
        _ ← reads (text "one") (Some (text "updated"));
        put (text "three") (text "3"));
  _ ← opened (
        _ ← reads (text "one") (Some (text "updated"));
        reads (text "three") (Some (text "3")));
  remove_test_database.

Definition rejects_a_second_writer : M Scratch () :=
  _ ← temp_dir;
  '(ino, db) ← on_fs (creation.open path_of_test);
  e ← error_of (on_fs (creation.open path_of_test));
  _ ← assert_that (is_open e);
  _ ← on_fs (creation.drop_database ino db);
  _ ← opened (mret ());
  remove_test_database.

(** The names in the directory of the test. *)
Definition directory_count : M Scratch Z := gets (λ c, blen (map_to_list (filter (λ e, below root e.1) (fs_names (sc_fs c))))).

Definition open_requires_an_existing_database_and_create_requires_a_new_path : M Scratch () :=
  _ ← temp_path;
  _ ← fails_with (opened (mret ())) NotFound;
  there ← is_there path_of_test;
  _ ← assert_that (negb there);
  '(ino, db) ← on_fs (creation.create path_of_test);
  let '(r, db) := database.is_empty db in
  empty ← lift r;
  _ ← assert_that empty;
  there ← is_there path_of_test;
  _ ← assert_that there;
  n ← directory_count;
  _ ← assert_that (n =? 1);
  _ ← fails_with (on_fs (creation.create path_of_test)) AlreadyExists;
  _ ← on_fs (creation.drop_database ino db);
  _ ← fails_with (on_fs (creation.create path_of_test)) AlreadyExists;
  _ ← opened (put (text "key") (text "value"));
  remove_test_database.

Definition open_does_not_initialize_an_empty_file : M Scratch () :=
  _ ← temp_path;
  _ ← on_fs (write_file path_of_test []);
  _ ← fails_with (opened (mret ())) InvalidData;
  n ← file_len;
  _ ← assert_that (n =? 0);
  remove_test_database.

(** The handle is dropped before the directory is removed. *)
Definition write_transaction_abort_and_drop_discard_changes : M Scratch () :=
  _ ← temp_dir;
  _ ← opened (
        tx ← database.begin_write;
        '(_, tx) ← on_tx tx (transaction.put false (text "key") (text "aborted"));
        found ← database.tx_get tx (text "key");
        _ ← assert_that (bool_decide (found = Some (text "aborted")));
        _ ← read_transaction.new;
        found ← read_transaction.get (text "key");
        _ ← assert_that (bool_decide (found = None));
        tx ← database.begin_write;
        _ ← on_tx tx (transaction.put false (text "key") (text "dropped"));
        _ ← read_transaction.new;
        found ← read_transaction.get (text "key");
        assert_that (bool_decide (found = None)));
  remove_test_database.

Definition overlay_limit_requires_explicit_compaction : M Scratch () :=
  let x100 := replicate 100 Byte.x78 in
  _ ← temp_dir;
  _ ← with_open (options.with_overlay_memory_limit options.default 32) (
        _ ← put (text "large") x100;
        e ← error_of database.begin_write;
        _ ← assert_that (match e with MaintenanceRequired limit actual => (limit =? 32) && (actual =? 105) | _ => false end);
        _ ← reads (text "large") (Some x100);
        _ ← maintenance.compact;
        stats ← database.stats;
        _ ← assert_that (overlay_memory_bytes stats =? 0);
        _ ← database.begin_write;
        reads (text "large") (Some x100));
  _ ← opened (reads (text "large") (Some x100));
  remove_test_database.

Definition reopen_preserves_maintenance_required_state : M Scratch () :=
  let o := options.with_overlay_memory_limit options.default 0 in
  _ ← temp_dir;
  _ ← with_open o (put (text "key") (text "value"));
  _ ← with_open o (
        _ ← reads (text "key") (Some (text "value"));
        e ← error_of database.begin_write;
        _ ← assert_that (is_maintenance e);
        _ ← maintenance.compact;
        _ ← database.begin_write;
        mret ());
  remove_test_database.

(** A read of a snapshot, on the verifier it shares with the database. *)
Definition on_snapshot {A} (x : M SegmentVerifier A) : M Database A := database.on_base (active_base.with_verifier x).
Definition snapshot_reads (s : Snapshot) (key : bytes) (value : option bytes) : M Database () :=
  found ← on_snapshot (snapshot.get s key); assert_that (bool_decide (found = value)).

(** Without the assertions that compare the addresses of the index. *)
Definition snapshot_shares_overlay_until_the_writer_mutates_it : M Scratch () :=
  _ ← temp_dir;
  _ ← opened (
        _ ← put (text "key") (text "old");
        s ← snapshot.take;
        _ ← put (text "key") (text "new");
        _ ← snapshot_reads s (text "key") (Some (text "old"));
        _ ← reads (text "key") (Some (text "new"));
        snapshot.drop);
  remove_test_database.

Definition memory_database_supports_transactions_snapshots_and_maintenance : result () :=
  in_memory options.default (
    _ ← put (text "key") (text "old");
    _ ← put (text "gone") (text "value");
    s ← snapshot.take;
    tx ← database.begin_write;
    '(_, tx) ← on_tx tx (transaction.put true (text "key") (text "new"));
    '(_, tx) ← on_tx tx (transaction.delete (text "gone"));
    '(_, tx) ← on_tx tx (transaction.put true (text "other") (text "two"));
    _ ← database.commit tx;
    _ ← snapshot_reads s (text "key") (Some (text "old"));
    _ ← reads (text "key") (Some (text "new"));
    _ ← reads (text "gone") None;
    _ ← database.sync;
    _ ← snapshot_reads s (text "key") (Some (text "old"));
    entries ← on_snapshot (snapshot.iter s);
    let entries : gmap bytes bytes := list_to_map entries in
    _ ← assert_that (bool_decide (entries !! text "key" = Some (text "old")));
    _ ← assert_that (bool_decide (entries !! text "gone" = Some (text "value")));
    n ← on_snapshot (snapshot.len s);
    _ ← assert_that (n =? 2);
    _ ← fails_with maintenance.compact WouldBlock;
    _ ← snapshot.drop;
    _ ← maintenance.compact;
    stats ← database.stats;
    _ ← assert_that (overlay_memory_bytes stats =? 0);
    _ ← database.verify;
    reads (text "other") (Some (text "two"))).

(** [reserved.write_all(input)?; Ok(())]: the first write takes all of the input or fails. *)
Definition write_once (input : bytes) : reserved.callback :=
  reserved.Write input (λ r, reserved.Return (_ ← r; Ok ())).

Definition put_reserved_rejects_incomplete_and_excess_writes_without_staging : result () :=
  in_memory options.default (
    tx ← database.begin_write;
    let '(r, tx) := transaction.put_reserved true (text "short") 4 (write_once (text "abc")) tx in
    e ← lift (expect_err r);
    _ ← assert_that (bool_decide (error.kind e = InvalidInput));
    _ ← assert_that (transaction.is_empty tx);
    let '(r, tx) := transaction.put_reserved true (text "long") 3 (write_once (text "abcd")) tx in
    e ← lift (expect_err r);
    _ ← assert_that (bool_decide (error.kind e = InvalidInput));
    _ ← assert_that (transaction.is_empty tx);
    empty ← database.is_empty;
    assert_that empty).

(** ** [tests/recovery.rs] *)

Definition append_raw_batch (payload : bytes) : M Scratch () :=
  let checksum := log.record_checksum Marker.Batch 0 (blen payload) payload in
  damage (_ ← seek (End_ 0);
          _ ← log.write_record_header Marker.Batch 0 (blen payload) checksum;
          write_all payload).

Definition ignores_partial_log_tail : M Scratch () :=
  _ ← temp_dir;
  _ ← opened (_ ← put (text "safe") (text "value"); database.sync);
  _ ← append [Byte.x01; Byte.x02; Byte.x00];
  _ ← opened (reads (text "safe") (Some (text "value")));
  remove_test_database.

Definition ignores_valid_header_with_partial_payload_tail : M Scratch () :=
  _ ← temp_dir;
  log_start ← opened (db ← database.self; mret (ab_log_start (db_base db)));
  let payload := u32_le 1 ++ [Marker.as_u8 Marker.Put] ++ u32_le 1 ++ u32_le 1 ++ text "kv" in
  let checksum := log.record_checksum Marker.Batch 0 (blen payload) payload in
  _ ← damage (_ ← seek (End_ 0);
              _ ← log.write_record_header Marker.Batch 0 (blen payload) checksum;
              half ← lift (index_range payload 0 (blen payload / 2));
              write_all half);
  '(ino, db) ← on_fs (creation.open path_of_test);
  let '(r, db) := database.is_empty db in
  empty ← lift r;
  _ ← assert_that empty;
  n ← file_len;
  _ ← assert_that (n =? log_start);
  _ ← on_fs (creation.drop_database ino db);
  remove_test_database.

Definition write_transaction_is_recovered_atomically : M Scratch () :=
  _ ← temp_dir;
  _ ← opened (
        tx ← database.begin_write;
        '(_, tx) ← on_tx tx (transaction.put false (text "a") (text "one"));
        '(_, tx) ← on_tx tx (transaction.put false (text "a") (text "latest"));
        '(_, tx) ← on_tx tx (transaction.put false (text "b") (text "two"));
        '(_, tx) ← on_tx tx (transaction.delete (text "missing"));
        _ ← assert_that (transaction.len tx =? 3);
        found ← database.tx_get tx (text "a");
        _ ← assert_that (bool_decide (found = Some (text "latest")));
        database.commit tx);
  _ ← opened (_ ← reads (text "a") (Some (text "latest")); reads (text "b") (Some (text "two")));
  remove_test_database.

Definition rejects_validly_checksummed_malformed_batch : M Scratch () :=
  _ ← temp_dir;
  let payload := u32_le 2 ++ [Marker.as_u8 Marker.Put] ++ u32_le 1 ++ u32_le 3 ++ text "aone"
                 ++ [Marker.as_u8 Marker.Delete] ++ u32_le 1 ++ u32_le 1 ++ text "bx" in
  _ ← append_raw_batch payload;
  _ ← fails_with (opened (mret ())) InvalidData;
  remove_test_database.

Definition rejects_validly_checksummed_oversized_batch_count : M Scratch () :=
  _ ← temp_dir;
  _ ← append_raw_batch (u32_le (log.MAX_BATCH_OPERATIONS + 1));
  _ ← fails_with (opened (mret ())) InvalidData;
  remove_test_database.

(** How the next two tests begin: one commit, and where the log starts. *)
Definition committed_pair (then_ : M Database ()) : M Scratch Z :=
  _ ← temp_dir;
  opened (
    db ← database.self;
    _ ← put (text "key") (text "value");
    _ ← then_;
    mret (ab_log_start (db_base db))).

Definition rejects_checksum_corruption_without_truncating_it : M Scratch () :=
  log_start ← committed_pair database.sync;
  original_len ← file_len;
  _ ← flip (log_start + 9) 0xff;
  _ ← fails_with (opened (mret ())) InvalidData;
  n ← file_len;
  _ ← assert_that (n =? original_len);
  remove_test_database.

Definition rejects_header_length_corruption_without_truncating_committed_data : M Scratch () :=
  log_start ← committed_pair (mret ());
  original_len ← file_len;
  _ ← flip (log_start + 5) 0x80;
  e ← error_of (opened (mret ()));
  _ ← assert_that (is_corrupted e);
  n ← file_len;
  _ ← assert_that (n =? original_len);
  remove_test_database.

(** *** Writers that fail *)

Definition owned (value : string) : OverlayEntry := OverlayEntry.Put (ValueBytes.Owned (text value)).

(** [db.commit_staged_with] with a writer that takes [remaining] bytes and no more. *)
Definition commit_failing (remaining : Z) (staged : KeyMap OverlayEntry) : M Database () :=
  database.commit_staged_with staged KeyMap.default (λ staged _ s,
    let '(r, w) := log_tests.write_batch_record staged (MkFailAfter s remaining) in (r, fa_file w)).

Definition partial_write_poisons_handle_and_reopen_can_continue : M Scratch () :=
  _ ← temp_dir;
  _ ← opened (
        _ ← put (text "before") (text "safe");
        length_before ← storage_len;
        _ ← fails_with (commit_failing 7 [(text "partial", owned "must-not-appear")]) WriteZero;
        n ← storage_len;
        _ ← assert_that (n =? length_before);
        e ← error_of (put (text "after") (text "unsafe"));
        assert_that (is_poisoned e));
  _ ← opened (
        _ ← reads (text "before") (Some (text "safe"));
        _ ← reads (text "partial") None;
        put (text "after") (text "safe-too"));
  _ ← opened (reads (text "after") (Some (text "safe-too")));
  remove_test_database.

End Tests.
(** ** They pass *)

Import RefInstances.
#[local] Instance demo_placement : Placement :=
  {| base_addr := 65536; place kv := (view.MkSlice 1 kv.1, view.MkSlice 2 kv.2) |}.
#[local] Instance demo_maps : MmapAnon := {| map_anon _ := Ok (); make_read_only _ := Ok () |}.
#[local] Instance demo_process : Process := 42.

Definition demo_root : bytes := text "/tmp/lkv-test-42-0-0".
Definition demo_start : Scratch := MkScratch (creation.demo_fs []) ∅.
Definition passes (test : bytes → M Scratch ()) : Prop := (test demo_root demo_start).1 = Ok ().

Lemma limits_tests_pass :
  passes database_size_limit_rejects_append_before_mutation
  ∧ memory_database_size_limit_rejects_append_before_mutation = Ok ()
  ∧ passes overlay_limit_stops_writes_without_running_maintenance
  ∧ malformed_sizes_fail_without_panicking_or_allocating = Ok ()
  ∧ passes maximal_truncated_overlay_record_is_discarded_before_allocation
  ∧ reserved_value_that_cannot_fit_a_batch_is_rejected_before_allocation = Ok ().
Proof. split_and!; vm_compute; reflexivity. Qed.

Lemma maintenance_tests_pass :
  passes compact_leaves_redundant_superblocks
  ∧ passes compact_requires_snapshots_to_be_dropped
  ∧ passes compact_rejects_snapshots_before_verifying_the_base
  ∧ passes compact_is_a_no_op_for_an_already_compact_database
  ∧ passes mappings_exclude_metadata_and_overlay
  ∧ passes failed_published_base_install_poisons_the_handle
  ∧ stats_describe_active_storage_without_scanning = Ok ().
Proof. split_and!; vm_compute; reflexivity. Qed.

Lemma verification_tests_pass :
  passes rejects_corrupt_base_lengths
  ∧ passes on_read_defers_bad_record_bounds_and_iteration_returns_error
  ∧ passes semantic_verification_enables_only_the_trusted_iterator_path
  ∧ passes rejects_base_value_corruption
  ∧ passes on_read_open_still_rejects_checksum_metadata_corruption
  ∧ passes map_segment_rejects_ranges_beyond_the_file
  ∧ passes unknown_format_version_is_reported_as_unsupported.
Proof. split_and!; vm_compute; reflexivity. Qed.

Lemma transactions_tests_pass :
  passes write_read_delete_reopen_and_compact
  ∧ passes rejects_a_second_writer
  ∧ passes open_requires_an_existing_database_and_create_requires_a_new_path
  ∧ passes open_does_not_initialize_an_empty_file
  ∧ passes write_transaction_abort_and_drop_discard_changes
  ∧ passes overlay_limit_requires_explicit_compaction
  ∧ passes reopen_preserves_maintenance_required_state
  ∧ passes snapshot_shares_overlay_until_the_writer_mutates_it
  ∧ memory_database_supports_transactions_snapshots_and_maintenance = Ok ()
  ∧ put_reserved_rejects_incomplete_and_excess_writes_without_staging = Ok ().
Proof. split_and!; vm_compute; reflexivity. Qed.

Lemma recovery_tests_pass :
  passes ignores_partial_log_tail
  ∧ passes ignores_valid_header_with_partial_payload_tail
  ∧ passes write_transaction_is_recovered_atomically
  ∧ passes rejects_validly_checksummed_malformed_batch
  ∧ passes rejects_validly_checksummed_oversized_batch_count
  ∧ passes rejects_checksum_corruption_without_truncating_it
  ∧ passes rejects_header_length_corruption_without_truncating_committed_data
  ∧ passes partial_write_poisons_handle_and_reopen_can_continue.
Proof. split_and!; vm_compute; reflexivity. Qed.

End regression.
